(* ===== verification/_CoqProject ===== *)
-Q . S2P
Prelude.v
Io.v
Runs.v
Strs.v
Text.v
Vars.v
ObjectStore.v
Wire.v
Block.v
World.v
Dao.v
Disk.v
Store.v
Frames.v
Layers.v
Catalog.v
Contract.v
Crash.v
Manager.v
Dying.v
Recovery.v
Sessions.v
Isolation.v
Limits.v
Wellformed.v
Tidy.v
Dedup.v
Conveyer.v
Porter.v
Service.v
Shutdown.v
Mapper.v
Auth.v
Server.v
DemoServer.v
Host.v
Database.v
Startup.v
Serving.v
Waitress.v
S3.v
Http.v
Gateway.v
LinaFs.v
Mount.v
