(* ===== verification/Prelude.v ===== *)
(** * LiNaStore: a verification library

    LiNaStore is a content-addressed file store in Rust: a library that keeps
    named files, deduplicated by their BLAKE3 hash, in a directory and an SQLite
    database ([src/linabase]); a server that offers it over a binary protocol,
    an S3-like and a plain HTTP interface ([src/linastore-server]); and a FUSE
    file system on it ([src/linafs]).

    ** Parts, and the files that model them

    Common ground.
    - Prelude.v: bytes, machine integers, little-endian encodings, lists.
    - Io.v: effects.  An effectful function is [Env St -> Res A * Env St]: it
      returns, reports an error, or stops (a panic, or the death of the
      process).  The environment carries an oracle ([fates]) that decides for
      every external call (SQL statement, file operation) whether it goes
      through, fails, or is where the process dies; theorems quantify over it.
    - Runs.v: how runs are reasoned about.  [ends]: with at most one failure a
      run either succeeds with a property or reports the failure with another;
      [Returns] and [Proceeds]: runs that come to an end whatever fails;
      [Preserves] and [Keeps]: what a run leaves alone or leaves true;
      [yields]: what a run leaves true and what it returns, whatever happens;
      [external_calm], [bind_step]: runs that nothing disturbs.
    - Strs.v, Text.v: the operations of Rust's [str], [Path] and UTF-8 decoding;
      trimming by Unicode white space, and numbers in decimal.

    The store ([linabase/src]).
    - Block.v: [utils.rs], chunked compression.
    - World.v, Dao.v: the tables of [dao.rs] and one atomic operation per SQL
      statement, with the constraints of [SQL_INIT].
    - Disk.v: the file operations used, and what an interrupted one leaves.
    - Store.v: [service.rs], every method of [StoreManager], with the undo steps
      of its error branches.
    - Frames.v, Layers.v, Catalog.v, Contract.v: the proof of the store in
      layers: the tables as maps ([Rel]), their well-formedness ([Inv]: unique
      names, exact reference counts, hashes that match, no dangling reference),
      the map from names to contents they stand for ([represents]), and what
      each branch of a put does to them ([changes]).
    - Manager.v: the store's contract.  [holds root w m]: the store stands for
      the map [m]; [put_refines], [delete_refines], [delete_matching] and
      [operations_refine_map] state each operation, and every sequence of
      operations, against that map, all or nothing when one call fails;
      [get_verified] holds of any state and any failures.
    - Crash.v, Dying.v, Recovery.v: the process may die at any call.  Crash.v
      says what tables and files a death leaves ([dies]) and that the
      reconciliation of the next start mends them; Dying.v shows it of every
      operation; Recovery.v that starts, which may die themselves, mend it;
      Sessions.v puts any number of sessions, each with its death and its
      starts, together: [crash_recovery], the store reads as after the
      operations that were acknowledged, the interrupted one of each session
      either done or not.  A death may leave a reference too many, which [Inv]
      allows for with its [slack].  Two windows are excluded ([careful]): a put
      that covers in place and, before further sessions, one that shares known
      contents; Limits.v shows what happens there.
    - Isolation.v: no bound on what fails.  [Apart] is what the contents of a name
      rest on; all of [StoreManager], its undo steps and its start included, keep
      away from it while they work on another name ([others_unharmed]).
    - Limits.v: what becomes of any store at rest that meets what the others
      exclude: a death while covering in place ([cover_crash_corrupts]) or while
      sharing known contents ([share_crash_entangles]), and a put whose undoing
      fails, too ([failed_undo_locks_name]).  The oracle is given there, and
      [passed] takes a run through its first calls.
    - Wellformed.v: two invariants of reachable states: whatever fails or dies,
      identifiers are well-typed and no link dangles ([reachable_typed]); as
      long as each operation meets at most one failure, names are unique,
      counts exact and files match their rows ([sessions_consistent]).
    - Tidy.v, Dedup.v: [TidyManager], which replaces the duplicates in a host
      directory by symbolic links, over a tree of files, folders and links.
      [leads] follows a path without a limit on links; [tidied] is what a
      partial run may have done to a tree.  [tidy_keeps_contents] holds with
      any failures, [tidy_deduplicates] says what an undisturbed run achieves;
      both of trees without symbolic links to folders ([no_linked_folders],
      [linked_folder_breaks]).

    The server ([linastore-server/src]).
    - ObjectStore.v: the class [ObjectStore] with its laws, what the server
      needs of the store; Manager.v proves them of [StoreManager].
    - Wire.v: [dtos.rs] and the reading half of [front/advanced_service.rs].
    - Conveyer.v: [conveyer.rs], the order queue and the waiters.
    - Porter.v: [porter.rs], from an order to a response.
    - Service.v: requests, queue, worker pool, clean-up and time together as a
      step relation [step]; [server_linearizes] reduces every interleaving to
      orders processed one after the other, [requests_leave_nothing] says that
      registry and queue hold nothing of requests that have ended.
    - Shutdown.v: [shutdown.rs], the flag every task waits for; one step per
      line of [wait] and [shutdown], over the class [Notify].
    - Mapper.v: [mapper.rs], buckets and keys.
    - Auth.v: [auth.rs] and the [auth_*] methods of [db/mod.rs]: users,
      sessions, the handshake, the rate limiter.
    - Vars.v: [vars.rs], the environment variables, what they default to and
      what is wrong with them.
    - Host.v, Database.v, Startup.v: the machine the server starts on (files,
      log, console, processes); [db/mod.rs], which database a URL names and how
      it is migrated; [utils.rs], [run_server] up to the moment its tasks run,
      [handle_stop], and the command line of the server.
    - Serving.v: the four loops that [run_server] spawns and how they end, over
      Shutdown.v: within the grace after the signal the server has returned
      ([server_ends]).
    - Server.v: what one connection handler sees of all that, and its exchange
      with the worker; [Quiet]: nothing else is going on.  DemoServer.v: a
      concrete server for the worked examples.
    - Waitress.v: [waitress], the binary protocol's handler.
    - S3.v, Http.v: [front/s3_service.rs] and [front/http_service.rs].
    - Gateway.v: the three front ends together.  [spec] is a table from bucket and
      key to contents whose entries are written once, and the binary protocol asks
      for a live session; [requests_refine] states every sequence of requests to
      any of them, with time passing in between, against it.

    The file system ([linafs/src]).
    - LinaFs.v: [fuse.rs], every request with the write buffers.  [file_op] is the
      reference: what is saved of a file and what is only buffered.
    - Mount.v: [command.rs], [handler.rs] and [main.rs], what a command mounts,
      where its objects are, and that a signal ends it; [LinaFs::new] on the store
      of a process that is gone ([flush_is_durable]).

    ** How operations correspond

    Definitions keep the source's names; where Rocq reserves one or another file
    has taken it, a suffix or a prefix is added ([delete_], [list_],
    [fs_mkdir]).  A method that changes state is a function on the state of its
    component; [&self] state is the record of the same name.  Locks held over a
    whole operation make it one atomic run; where the code gives up control
    (awaiting a response) the other tasks are an argument ([others]) or other
    steps ([step]).  Log statements have no counterpart, but for those of
    start-up, where a password is at stake.  64-bit and 32-bit casts are written
    out ([as_u32], [i64_of_u64]).

    ** Bounds and fuel

    [chunks], [decompress_all] and the UTF-8 scanners take the length of their
    input as fuel and consume at least a byte per step ([decompress_total]);
    [read_data] and [waitress] take one step per byte still to come
    ([parse_terminates], [waitress_answers]); [porter_turn] takes one step per
    order, and the queue holds [ORDER_QUEUE_CAPACITY].  [path_walk] descends a
    level per step, and no folder is deeper than there are folders
    ([folder_depth]); a look-up follows at most [MAXSYMLINKS] links, as Linux
    does.

    ** What the theorems show

    Store: puts, deletes and reads are those of a map, also when a call fails in
    the middle; a death loses nothing that was acknowledged; what is read always
    has the recorded hash; whatever fails, other names are left alone;
    compression is lossless; tidying a directory loses no contents.  Server: it starts only when its configuration is well formed
    and its database migrated; no interleaving breaks the store; requests are
    answered or given up in ten seconds; the queue and the pool stay bounded; no
    task sleeps through a shutdown.  Protocol: a message is read back however
    the network cuts it, reading always ends.  Access: without password and
    without live session nothing changes, guessing is cut off, a session lives
    for its hour less the grace period.  Front ends: every sequence of requests
    to the three of them is answered as by one table of objects.  File system:
    every file is a byte array, flushed data are durable, directories are listed
    completely.  Several theorems state where the code does not do
    what it means to, or what its comments and tests say: a put whose undoing fails,
    a crash while covering or sharing, a password in the log, a stop signal the server
    does not wait for, a grace period that shortens the life of a session, an HTTP front
    end without content types; the table of the front ends shows a second PUT lost, a
    deleted key spent and a key nobody registered answered 404; and the reference of
    the file system drops, at a release that follows a flush, what another handle
    has written in between.

    ** Not modelled, and assumptions

    Parameters with named laws: gzip and BLAKE3 ([Codec], [CodecLaws]), CRC-32,
    time stamps and random identifiers ([Platform], [PlatformLaws]: no
    repetition, printable text), SQLite's [LIKE], Argon2 ([ArgonLaws]), AES-GCM,
    sqlx ([Sqlx], [SqlxLaws]: the documented validation of [Migrator::run]),
    UUIDs that do not repeat ([UuidLaws]), tokio's [Notify] ([NotifyLaws]), the text
    [{:?}] gives ([debug]).  Theorems about stored contents assume that the
    contents at hand have no hash collision.  Outside: what clap makes
    of the arguments, loading macFUSE, HTTP parsing and TLS, databases other
    than SQLite (the default build has no other), Windows, client libraries.
    The worker's tasks run [process_package] as one step of Service.v: a method of
    [StoreManager] holds [operation_lock] over its statements and file operations,
    to write alone and to read with others.  That the lock does so is taken for granted; and in
    [server_linearizes] at most one call of each order fails.
    Left open: requests to one key at the same time from several front ends
    ([server_linearizes] orders them, [requests_refine] takes them one by one),
    and handshakes between the requests of [requests_refine]. *)

From Stdlib Require Export Ascii String.
From stdpp Require Export gmap strings list numbers sorting.
Open Scope nat_scope.
Open Scope list_scope.

(** ** Bytes *)

Abbreviation byte := Ascii.ascii.
Abbreviation bytes := (list Ascii.ascii).

Declare Scope lina_scope.
Delimit Scope lina_scope with lina.

Definition byte_of (n : N) : byte := ascii_of_N n.
Definition to_u8 (b : byte) : N := N_of_ascii b.

(** [s.as_bytes()] and the inverse for text known to be valid. *)
Definition str_bytes (s : string) : bytes := list_ascii_of_string s.
Definition bytes_str (b : bytes) : string := string_of_list_ascii b.

Definition NUL : byte := byte_of 0.

(** Lengths as the unsigned machine integers the code works with. *)
Definition len {A} (l : list A) : N := N.of_nat (length l).

(** ** Fixed-width integers *)

Definition wrap (bits n : N) : N := N.modulo n (2 ^ bits).
Abbreviation as_u8 := (wrap 8).
Abbreviation as_u16 := (wrap 16).
Abbreviation as_u32 := (wrap 32).
Abbreviation as_u64 := (wrap 64).

(** [u64 as i64] and [i64 as u64]: the same 64-bit pattern read with and
    without a sign. *)
Definition i64_of_u64 (n : N) : Z :=
  let m := as_u64 n in
  if (m <? 2 ^ 63)%N then Z.of_N m else (Z.of_N m - 2 ^ 64)%Z.
Definition u64_of_i64 (z : Z) : N := Z.to_N (z mod 2 ^ 64).

(** [checked_sub]: [None] on underflow. *)
Definition checked_sub (a b : N) : option N :=
  if (b <=? a)%N then Some (a - b)%N else None.

(** ** Little-endian encodings *)

Fixpoint le_bytes (n : nat) (v : N) : bytes :=
  match n with
  | O => []
  | S n' => byte_of (v mod 256) :: le_bytes n' (v / 256)
  end.

Fixpoint le_val (b : bytes) : N :=
  match b with
  | [] => 0
  | x :: b' => (to_u8 x + 256 * le_val b')%N
  end.

(** ** Lists *)

(** [iter().position(p)]. *)
Fixpoint position {A} (p : A → bool) (l : list A) : option nat :=
  match l with
  | [] => None
  | x :: l' => if p x then Some 0 else S <$> position p l'
  end.

(** [position(...).unwrap_or(len)] followed by a slice up to there: the bytes
    before the first NUL, or all of them. *)
Definition nul_pos (b : bytes) : option nat := position (λ x, bool_decide (x = NUL)) b.
Definition until_nul (b : bytes) : bytes := take (default (length b) (nul_pos b)) b.

(** ** Automation *)

Ltac deex :=
  repeat match goal with
  | H : exists x, _ |- _ => let x' := fresh x in destruct H as [x' H]
  | H : _ /\ _ |- _ => destruct H
  end.
(** Case analysis on the scrutinee of the first stuck [match]. *)
Ltac crush_match :=
  match goal with
  | |- context [match ?x with _ => _ end] => destruct x eqn:?
  | H : context [match ?x with _ => _ end] |- _ => destruct x eqn:?
  end.

Create HintDb lina.

(** ** Lemmas: bytes and integers *)

Lemma to_u8_lt b : (to_u8 b < 256)%N.
Proof. apply N_ascii_bounded. Qed.

Lemma to_u8_byte_of n : (n < 256)%N → to_u8 (byte_of n) = n.
Proof. apply N_ascii_embedding. Qed.

Lemma byte_of_to_u8 b : byte_of (to_u8 b) = b.
Proof. apply ascii_N_embedding. Qed.

Lemma to_u8_inj a b : to_u8 a = to_u8 b → a = b.
Proof. intros H. by rewrite <- (byte_of_to_u8 a), H, byte_of_to_u8. Qed.

Lemma bytes_str_bytes s : bytes_str (str_bytes s) = s.
Proof. apply string_of_list_ascii_of_string. Qed.

Lemma str_bytes_str b : str_bytes (bytes_str b) = b.
Proof. apply list_ascii_of_string_of_list_ascii. Qed.

Lemma str_bytes_inj s t : str_bytes s = str_bytes t → s = t.
Proof. intros H. by rewrite <- (bytes_str_bytes s), H, bytes_str_bytes. Qed.

Lemma str_bytes_app s t : str_bytes (s +:+ t) = str_bytes s ++ str_bytes t.
Proof. induction s as [|c s IH]; simpl; [done|]. unfold str_bytes in *; simpl. by rewrite IH. Qed.

Lemma wrap_small bits n : (n < 2 ^ bits)%N → wrap bits n = n.
Proof. apply N.mod_small. Qed.

Lemma wrap_lt bits n : (wrap bits n < 2 ^ bits)%N.
Proof. apply N.mod_lt. by apply N.pow_nonzero. Qed.

Lemma i64_of_u64_small n : (n < 2 ^ 63)%N → i64_of_u64 n = Z.of_N n.
Proof.
  intros H. unfold i64_of_u64. rewrite wrap_small by lia.
  by rewrite (proj2 (N.ltb_lt _ _) H).
Qed.

(** The two casts are inverse on 64-bit values: a count or a size survives
    being stored in an INTEGER column. *)
Lemma u64_i64_u64 n : (n < 2 ^ 64)%N → u64_of_i64 (i64_of_u64 n) = n.
Proof.
  intros H. unfold i64_of_u64, u64_of_i64. rewrite wrap_small by done.
  destruct (N.ltb_spec n (2 ^ 63)).
  - rewrite Z.mod_small by lia. lia.
  - replace (Z.of_N n - 2 ^ 64)%Z with (Z.of_N n + (-1) * 2 ^ 64)%Z by lia.
    rewrite Z.mod_add by lia. rewrite Z.mod_small by lia. lia.
Qed.

Lemma length_le_bytes n v : length (le_bytes n v) = n.
Proof. revert v; induction n; intros; simpl; auto. Qed.

Lemma le_val_le_bytes n v : (v < 256 ^ N.of_nat n)%N → le_val (le_bytes n v) = v.
Proof.
  revert v; induction n as [|n IH]; intros v Hv; simpl.
  - simpl in Hv. lia.
  - rewrite to_u8_byte_of by (apply N.mod_lt; lia).
    rewrite Nat2N.inj_succ, N.pow_succ_r' in Hv.
    rewrite IH by (apply N.Div0.div_lt_upper_bound; lia).
    pose proof (N.div_mod v 256 ltac:(lia)). lia.
Qed.

Lemma le_bytes_le_val b : le_bytes (length b) (le_val b) = b.
Proof.
  induction b as [|x b IH]; simpl; [done|].
  pose proof (to_u8_lt x).
  replace ((to_u8 x + 256 * le_val b) mod 256)%N with (to_u8 x).
  2:{ rewrite (N.mul_comm 256). rewrite N.Div0.mod_add. by rewrite N.mod_small. }
  replace ((to_u8 x + 256 * le_val b) / 256)%N with (le_val b).
  2:{ rewrite (N.mul_comm 256). rewrite N.div_add by lia. rewrite N.div_small by lia. lia. }
  by rewrite byte_of_to_u8, IH.
Qed.

(** ** Lemmas: lists *)

Lemma position_None {A} (p : A → bool) l :
  position p l = None ↔ Forall (λ x, p x = false) l.
Proof.
  induction l as [|x l IH]; simpl; [by split|].
  rewrite Forall_cons. destruct (p x) eqn:E; simpl.
  - split; [done|]. intros [? _]; congruence.
  - rewrite fmap_None, IH. tauto.
Qed.

Lemma position_Some {A} (p : A → bool) l i :
  position p l = Some i →
  ∃ x, l !! i = Some x ∧ p x = true ∧ Forall (λ x, p x = false) (take i l).
Proof.
  revert i; induction l as [|x l IH]; simpl; intros i H; [done|].
  destruct (p x) eqn:E.
  - inv H. exists x. by rewrite take_0.
  - destruct (position p l) as [j|] eqn:Ej; simpl in H; inv H.
    destruct (IH j eq_refl) as (y & ? & ? & ?). exists y; simpl. auto.
Qed.

Lemma position_app_here {A} (p : A → bool) l x r :
  Forall (λ y, p y = false) l → p x = true → position p (l ++ x :: r) = Some (length l).
Proof.
  induction l as [|y l IH]; simpl; intros Hl Hx.
  - by rewrite Hx.
  - apply Forall_cons in Hl as [Hy Hl]. rewrite Hy, IH; done.
Qed.

Definition no_nul (b : bytes) : Prop := NUL ∉ b.

Lemma no_nul_forall b : no_nul b ↔ Forall (λ x, bool_decide (x = NUL) = false) b.
Proof.
  unfold no_nul. rewrite Forall_forall. split.
  - intros H x Hx. apply bool_decide_eq_false. by intros ->.
  - intros H Hin. specialize (H _ Hin). by rewrite bool_decide_eq_false in H.
Qed.

Lemma until_nul_clean b : no_nul b → until_nul b = b.
Proof.
  intros H%no_nul_forall%position_None. unfold until_nul, nul_pos. rewrite H; simpl.
  by rewrite take_ge by lia.
Qed.

Lemma until_nul_terminated b r : no_nul b → until_nul (b ++ NUL :: r) = b.
Proof.
  intros H%no_nul_forall. unfold until_nul, nul_pos.
  rewrite position_app_here; [|done|by apply bool_decide_eq_true]. simpl.
  by rewrite take_app_length.
Qed.

Lemma until_nul_no_nul b : no_nul (until_nul b).
Proof.
  apply no_nul_forall. unfold until_nul, nul_pos.
  destruct (position _ b) as [i|] eqn:E; simpl.
  - by destruct (position_Some _ _ _ E) as (_ & _ & _ & ?).
  - rewrite take_ge by lia. by apply position_None.
Qed.

#[export] Hint Resolve to_u8_lt wrap_lt until_nul_no_nul : lina.
