(* ===== verification/Io.v ===== *)
(** * Effects: state, errors, injected faults, crashes

    The store and the servers are [async] Rust: every statement that talks to
    SQLite or to the file system may fail, and the process may die between any
    two of them.  An effectful function is modelled as a state transformer with
    an explicit outcome.  The environment of a run carries the oracle that
    decides, one entry per external call, whether that call succeeds, fails or
    is the point where the process dies; an empty oracle means "no more
    trouble".  Theorems quantify over the oracle. *)
From S2P Require Import Prelude.

(** [std::io::ErrorKind], the kinds the code distinguishes or produces. *)
Inductive ErrorKind :=
  | NotFound | InvalidInput | InvalidData | UnexpectedEof | ConnectionReset
  | BrokenPipe | Other.
#[export] Instance ErrorKind_eq_dec : EqDecision ErrorKind.
Proof. solve_decision. Defined.

(** [Box<dyn Error>]: an [io::Error] with its kind, or an [anyhow] error known
    by its outermost context message. *)
Inductive Error :=
  | IoError (kind : ErrorKind) (msg : string)
  | AnyhowError (msg : string).

(** Why a run stops without returning to its caller. *)
Inductive Stop := Panic (msg : string) | Crash.

Inductive Res (A : Type) :=
  | Ok (a : A)
  | Err (e : Error)
  | Halt (s : Stop).
Arguments Ok {A}. Arguments Err {A}. Arguments Halt {A}.

(** The fate of one external call: it goes through, it fails with an error of
    some kind having done [done] units of its work, or the process dies there. *)
Inductive Fate :=
  | Pass
  | FailWith (kind : ErrorKind) (done : nat)
  | Die (done : nat).

Record Env (St : Type) := mkEnv {
  state : St;                (* what survives the run: tables, files, ... *)
  fates : list Fate;         (* oracle for the external calls still to come *)
  clock : N;                 (* seconds since the Unix epoch *)
  draws : nat                (* random identifiers drawn so far *)
}.
Arguments mkEnv {St}. Arguments state {St}. Arguments fates {St}.
Arguments clock {St}. Arguments draws {St}.

Definition IO (St A : Type) := Env St → Res A * Env St.

Section Combinators.
Context {St : Type}.

Definition ret {A} (a : A) : IO St A := λ w, (Ok a, w).
Definition fail {A} (e : Error) : IO St A := λ w, (Err e, w).
Definition panic {A} (msg : string) : IO St A := λ w, (Halt (Panic msg), w).

Definition bind {A B} (m : IO St A) (k : A → IO St B) : IO St B := λ w,
  match m w with
  | (Ok a, w') => k a w'
  | (Err e, w') => (Err e, w')
  | (Halt s, w') => (Halt s, w')
  end.
(** The [?] operator after [.await]: stdpp's [x ← m; k] on this monad. *)
#[global] Instance IO_mbind : MBind (IO St) := λ A B k m, bind m k.
#[global] Instance IO_mret : MRet (IO St) := λ A, ret.

(** [match m.await { Ok(a) => ..., Err(e) => ... }]. *)
Definition attempt {A} (m : IO St A) : IO St (Error + A) := λ w,
  match m w with
  | (Ok a, w') => (Ok (inr a), w')
  | (Err e, w') => (Ok (inl e), w')
  | (Halt s, w') => (Halt s, w')
  end.

(** [let _ = m.await;] *)
Definition ignore {A} (m : IO St A) : IO St unit := bind (attempt m) (λ _, ret tt).

(** [m.map_err(f)] *)
Definition map_err {A} (f : Error → Error) (m : IO St A) : IO St A := λ w,
  match m w with
  | (Err e, w') => (Err (f e), w')
  | r => r
  end.

Definition of_option {A} (e : Error) (o : option A) : IO St A :=
  match o with Some a => ret a | None => fail e end.

(** An external call: the oracle decides its fate.  [f] is what the call does
    when it goes through (it may itself report an error, as a constraint
    violation or a missing file does); [partial n] is what is left behind
    when it is interrupted after [n] units of work. *)
Definition external {A} (err : ErrorKind → Error)
    (partial : nat → St → St) (f : St → (Error + A) * St) : IO St A := λ w,
  let run fs :=
    let '(r, s') := f (state w) in
    let w' := mkEnv s' fs (clock w) (draws w) in
    match r with inl e => (Err e, w') | inr a => (Ok a, w') end in
  match fates w with
  | [] => run []
  | Pass :: fs => run fs
  | FailWith k n :: fs =>
      (Err (err k), mkEnv (partial n (state w)) fs (clock w) (draws w))
  | Die n :: fs =>
      (Halt Crash, mkEnv (partial n (state w)) fs (clock w) (draws w))
  end.

Definition now : IO St N := λ w, (Ok (clock w), w).

(** The index of a fresh random draw. *)
Definition draw : IO St nat := λ w,
  (Ok (draws w), mkEnv (state w) (fates w) (clock w) (S (draws w))).

Definition get_state : IO St St := λ w, (Ok (state w), w).

Definition update (f : St → St) : IO St unit := λ w,
  (Ok tt, mkEnv (f (state w)) (fates w) (clock w) (draws w)).

Fixpoint for_each {A} (l : list A) (body : A → IO St unit) : IO St unit :=
  match l with
  | [] => ret tt
  | x :: l' => bind (body x) (λ _, for_each l' body)
  end.
End Combinators.

(** Running an effect on one part of the state. *)
Definition focus {S T A} (get : S → T) (set : T → S → S) (m : IO T A) : IO S A := λ w,
  let '(r, w') := m (mkEnv (get (state w)) (fates w) (clock w) (draws w)) in
  (r, mkEnv (set (state w') (state w)) (fates w') (clock w') (draws w')).

(** [boxed_io_error] and [dao_to_io_error] of [linabase/src/service.rs]. *)
Definition boxed_io_error (kind : ErrorKind) (message : string) : Error := IoError kind message.
Definition dao_to_io_error (err : Error) : Error :=
  match err with
  | AnyhowError m => IoError Other m
  | IoError k m => IoError Other m
  end.

(** ** Oracles *)

#[export] Instance Fate_eq_dec : EqDecision Fate.
Proof. solve_decision. Defined.

(** Nothing goes wrong any more. *)
Definition calm (fs : list Fate) : Prop := Forall (λ f, f = Pass) fs.
#[export] Instance calm_dec fs : Decision (calm fs).
Proof. unfold calm. apply _. Defined.

(** At most one call fails, and the process does not die. *)
Fixpoint one_failure (fs : list Fate) : Prop :=
  match fs with
  | [] => True
  | Pass :: fs' => one_failure fs'
  | FailWith _ _ :: fs' => calm fs'
  | Die _ :: _ => False
  end.

(** ** Reasoning about runs *)

(** [Q] holds of the outcome and the final environment of [m] started in [w]. *)
Definition runs {St A} (m : IO St A) (w : Env St) (Q : Res A → Env St → Prop) : Prop :=
  let '(r, w') := m w in Q r w'.
