(* ===== verification/Runs.v ===== *)
(** * Runs with at most one failure

    A small logic for effectful functions whose external calls may fail at most
    once ([one_failure]): such a run either ends well, or meets the failure and
    reports it, and whatever it does to undo its work cannot fail any more.
    [ends w F Q r]: the outcome [r] of a run started in [w] is a success with
    [Q], or the failure happened, is reported, and [F] holds. *)
From S2P Require Import Prelude Io.

Lemma calm_one_failure fs : calm fs → one_failure fs.
Proof. induction 1 as [|f fs ->]; simpl; auto. Qed.

(** The environment moves on without a failure; or the one failure happens. *)
Record next {St} (w w' : Env St) : Prop := {
  next_one : one_failure (fates w');
  next_calm : calm (fates w) → calm (fates w');
  next_draws : draws w ≤ draws w'
}.
Record failed {St} (w w' : Env St) : Prop := {
  failed_before : ¬ calm (fates w);
  failed_calm : calm (fates w');
  failed_draws : draws w ≤ draws w'
}.

Inductive ends {St A} (w : Env St) (F : Env St → Prop) (Q : A → Env St → Prop)
    : Res A * Env St → Prop :=
  | ends_ok a w' : Q a w' → next w w' → ends w F Q (Ok a, w')
  | ends_err e w' : F w' → failed w w' → ends w F Q (Err e, w').

(** The run reports an error without meeting a failure of its own. *)
Definition reports {St A} (w : Env St) (F : Env St → Prop) (r : Res A * Env St) : Prop :=
  ∃ e w', r = (Err e, w') ∧ F w' ∧ next w w'.

Section Runs.
Context {St : Type}.
Implicit Types (w : Env St) (F : Env St → Prop).

Lemma next_refl w : one_failure (fates w) → next w w.
Proof. by split. Qed.
Lemma next_trans w1 w2 w3 : next w1 w2 → next w2 w3 → next w1 w3.
Proof. intros [? ? ?] [? ? ?]. split; [done|auto|lia]. Qed.
Lemma next_failed w1 w2 w3 : next w1 w2 → failed w2 w3 → failed w1 w3.
Proof. intros [? ? ?] [? ? ?]. split; [auto|done|lia]. Qed.
Lemma failed_next w1 w2 w3 : failed w1 w2 → next w2 w3 → failed w1 w3.
Proof. intros [? ? ?] [? ? ?]. split; [auto|auto|lia]. Qed.
Lemma failed_one w1 w2 : failed w1 w2 → one_failure (fates w2).
Proof. intros [? ? ?]. by apply calm_one_failure. Qed.

(** An external call whose work succeeds in the state at hand. *)
Lemma external_ends {A} err partial (f : St → (Error + A) * St) w F (Q : A → Env St → Prop) a s' :
  one_failure (fates w) →
  f (state w) = (inr a, s') →
  (∀ w', state w' = s' → next w w' → Q a w') →
  (∀ n w', state w' = partial n (state w) → failed w w' → F w') →
  ends w F Q (external err partial f w).
Proof.
  intros Hf Hs HQ HF. unfold external. destruct w as [st fs t d]; simpl in *.
  destruct fs as [|[|k n|n] fs]; simpl in *; try rewrite Hs; [| | |done].
  - assert (next (mkEnv st [] t d) (mkEnv s' [] t d)) by done. constructor; auto.
  - assert (next (mkEnv st (Pass :: fs) t d) (mkEnv s' fs t d)).
    { split; simpl; [done| |done]. by intros [_ ?]%Forall_cons. }
    constructor; auto.
  - assert (failed (mkEnv st (FailWith k n :: fs) t d) (mkEnv (partial n st) fs t d)).
    { split; simpl; [|done|done]. by intros [? _]%Forall_cons. }
    constructor; [by apply (HF n)|done].
Qed.

Lemma ret_ends {A} (a : A) w F (Q : A → Env St → Prop) :
  one_failure (fates w) → Q a w → ends w F Q (ret a w).
Proof. intros. by constructor; [|apply next_refl]. Qed.

Lemma ret_bind {A B} (a : A) (k : A → IO St B) w : (ret a ≫= k) w = k a w.
Proof. done. Qed.

Lemma bind_ends {A B} (m : IO St A) (k : A → IO St B) w F Q1 (Q2 : B → Env St → Prop) :
  ends w F Q1 (m w) →
  (∀ a w1, Q1 a w1 → next w w1 → ends w1 F Q2 (k a w1)) →
  ends w F Q2 ((m ≫= k) w).
Proof.
  intros Hm Hk. unfold mbind, IO_mbind, bind. destruct Hm as [a w1 HQ Hn|e w1 HF Hn].
  - destruct (Hk a w1 HQ Hn); constructor; eauto using next_trans, next_failed.
  - by constructor.
Qed.

(** [match m.await { Err(e) => undo and report, Ok(a) => go on }] *)
Lemma attempt_ends {A B} (m : IO St A) (k : Error + A → IO St B) w F0 F Q1
    (Q2 : B → Env St → Prop) :
  ends w F0 Q1 (m w) →
  (∀ a w1, Q1 a w1 → next w w1 → ends w1 F Q2 (k (inr a) w1)) →
  (∀ e w1, F0 w1 → failed w w1 → reports w1 F (k (inl e) w1)) →
  ends w F Q2 ((attempt m ≫= k) w).
Proof.
  intros Hm Hk He. unfold mbind, IO_mbind, bind, attempt.
  destruct Hm as [a w1 HQ Hn|e w1 HF Hn].
  - destruct (Hk a w1 HQ Hn); constructor; eauto using next_trans, next_failed.
  - destruct (He e w1 HF Hn) as (e' & w' & -> & ? & ?). constructor; eauto using failed_next.
Qed.

(** An undoing step runs with no failure left: it does its work. *)
Lemma ignore_reports {A B} (m : IO St A) (k : IO St B) w F0 F Q1 :
  calm (fates w) →
  ends w F0 Q1 (m w) →
  (∀ a w1, Q1 a w1 → next w w1 → reports w1 F (k w1)) →
  reports w F ((ignore m;; k) w).
Proof.
  intros Hc Hm Hk. unfold mbind, IO_mbind, bind, ignore, attempt, bind.
  destruct Hm as [a w1 HQ Hn|e w1 HF [? _ _]]; [|done].
  destruct (Hk a w1 HQ Hn) as (e' & w' & He & ? & ?). unfold ret. simpl. rewrite He.
  exists e', w'. eauto using next_trans.
Qed.

Lemma fail_reports {A} e w F : one_failure (fates w) → F w → reports w F (fail (A:=A) e w).
Proof. intros. exists e, w. eauto using next_refl. Qed.

Lemma map_err_ends {A} g (m : IO St A) w F Q : ends w F Q (m w) → ends w F Q (map_err g m w).
Proof. unfold map_err. intros []; by constructor. Qed.

Lemma ends_mono {A} w F F' (Q Q' : A → Env St → Prop) r :
  ends w F Q r → (∀ w', F w' → F' w') → (∀ a w', Q a w' → Q' a w') → ends w F' Q' r.
Proof. intros []; constructor; auto. Qed.

(** What a successful run consists of. *)
Lemma bind_ok {A B} (m : IO St A) (k : A → IO St B) w b w' :
  (m ≫= k) w = (Ok b, w') → ∃ a w1, m w = (Ok a, w1) ∧ k a w1 = (Ok b, w').
Proof.
  unfold mbind, IO_mbind, bind. destruct (m w) as [[a|e|z] w1]; intros H; [eauto|done..].
Qed.
Lemma attempt_ok {A} (m : IO St A) w r w' :
  attempt m w = (Ok r, w') →
  (∃ a, r = inr a ∧ m w = (Ok a, w')) ∨ ∃ e, r = inl e ∧ m w = (Err e, w').
Proof. unfold attempt. destruct (m w) as [[a|e|z] w1]; intros H; inv H; eauto. Qed.
Lemma map_err_ok {A} f (m : IO St A) w a w' : map_err f m w = (Ok a, w') → m w = (Ok a, w').
Proof. unfold map_err. destruct (m w) as [[] ?]; intros H; by inv H. Qed.
Lemma of_option_ok {A} e (o : option A) w a w' :
  of_option (St:=St) e o w = (Ok a, w') → o = Some a ∧ w' = w.
Proof. destruct o; intros H; by inv H. Qed.
Lemma external_ok {A} err partial (f : St → (Error + A) * St) w a w' :
  external err partial f w = (Ok a, w') → f (state w) = (inr a, state w').
Proof.
  unfold external. destruct (fates w) as [|[|k n|n] fs]; [| |done..];
    destruct (f (state w)) as [[e|a'] s'] eqn:E; intros H; by inv H.
Qed.

(** With no failure ahead, a run that ends ends well. *)
Lemma ends_calm {A} w F (Q : A → Env St → Prop) r :
  calm (fates w) → ends w F Q r → ∃ a w', r = (Ok a, w') ∧ Q a w' ∧ next w w'.
Proof. intros Hc [a w' ? ?|e w' ? [? ? ?]]; [eauto 10|done]. Qed.
End Runs.

(** ** Runs take no time

    The model's clock moves between operations, not inside them. *)
Class Timeless {St A} (m : IO St A) : Prop := timeless : ∀ w, clock (m w).2 = clock w.

#[export] Instance ret_timeless {St A} (a : A) : Timeless (St:=St) (ret a).
Proof. done. Qed.
#[export] Instance fail_timeless {St A} e : Timeless (St:=St) (A:=A) (fail e).
Proof. done. Qed.
#[export] Instance now_timeless {St} : Timeless (St:=St) now.
Proof. done. Qed.
#[export] Instance draw_timeless {St} : Timeless (St:=St) draw.
Proof. done. Qed.
#[export] Instance bind_timeless {St A B} (m : IO St A) (k : A → IO St B) :
  Timeless m → (∀ a, Timeless (k a)) → Timeless (m ≫= k).
Proof.
  intros Hm Hk w. unfold mbind, IO_mbind, bind. specialize (Hm w).
  destruct (m w) as [[a|e|z] w1]; simpl in *; try done. by rewrite (Hk a w1).
Qed.
#[export] Instance attempt_timeless {St A} (m : IO St A) : Timeless m → Timeless (attempt m).
Proof. intros Hm w. unfold attempt. specialize (Hm w). by destruct (m w) as [[] ?]. Qed.
#[export] Instance ignore_timeless {St A} (m : IO St A) : Timeless m → Timeless (ignore m).
Proof. intros Hm. unfold ignore. apply bind_timeless; apply _. Qed.
#[export] Instance for_each_timeless {St A} (l : list A) (body : A → IO St unit) :
  (∀ x, Timeless (body x)) → Timeless (for_each l body).
Proof. intros Hb. induction l as [|x l IH]; [apply ret_timeless|]. by apply bind_timeless. Qed.
#[export] Instance panic_timeless {St A} z : Timeless (St:=St) (A:=A) (panic z).
Proof. done. Qed.
#[export] Instance map_err_timeless {St A} f (m : IO St A) : Timeless m → Timeless (map_err f m).
Proof. intros Hm w. unfold map_err. specialize (Hm w). by destruct (m w) as [[] ?]. Qed.
#[export] Instance of_option_timeless {St A} e (o : option A) : Timeless (of_option (St:=St) e o).
Proof. by destruct o. Qed.
#[export] Instance external_timeless {St A} err partial (f : St → (Error + A) * St) :
  Timeless (external err partial f).
Proof.
  intros w. unfold external. destruct (fates w) as [|[]]; try done;
    by destruct (f (state w)) as [[] ?].
Qed.

#[export] Instance focus_timeless {S T A} (get : S → T) set (m : IO T A) : Timeless m → Timeless (focus get set m).
Proof.
  intros Hm w. unfold focus. specialize (Hm (mkEnv (get (state w)) (fates w) (clock w) (draws w))).
  destruct (m _) as [r w']. done.
Qed.

Lemma timeless_ok {St A} (m : IO St A) `{!Timeless m} w r w' : m w = (r, w') → clock w' = clock w.
Proof. intros E. pose proof (timeless w) as Ht. by rewrite E in Ht. Qed.

(** ** Frames

    [Preserves f m]: whatever happens in [m], even a crash, the part [f] of the
    state is as before. *)
Class Preserves {St X A} (f : St → X) (m : IO St A) : Prop :=
  preserves : ∀ w, f (state (m w).2) = f (state w).

Section Frames.
Context {St X : Type} (f : St → X).
#[export] Instance ret_preserves {A} (a : A) : Preserves f (ret a).
Proof. done. Qed.
#[export] Instance fail_preserves {A} e : Preserves f (fail (A:=A) e).
Proof. done. Qed.
#[export] Instance panic_preserves {A} z : Preserves f (panic (A:=A) z).
Proof. done. Qed.
#[export] Instance now_preserves : Preserves f now.
Proof. done. Qed.
#[export] Instance draw_preserves : Preserves f draw.
Proof. done. Qed.
#[export] Instance bind_preserves {A B} (m : IO St A) (k : A → IO St B) :
  Preserves f m → (∀ a, Preserves f (k a)) → Preserves f (m ≫= k).
Proof.
  intros Hm Hk w. unfold mbind, IO_mbind, bind. specialize (Hm w).
  destruct (m w) as [[a|e|z] w1]; simpl in *; try done. by rewrite (Hk a w1).
Qed.
#[export] Instance attempt_preserves {A} (m : IO St A) : Preserves f m → Preserves f (attempt m).
Proof. intros Hm w. unfold attempt. specialize (Hm w). by destruct (m w) as [[] ?]. Qed.
#[export] Instance ignore_preserves {A} (m : IO St A) : Preserves f m → Preserves f (ignore m).
Proof. intros Hm. unfold ignore. apply bind_preserves; apply _. Qed.
#[export] Instance map_err_preserves {A} g (m : IO St A) : Preserves f m → Preserves f (map_err g m).
Proof. intros Hm w. unfold map_err. specialize (Hm w). by destruct (m w) as [[] ?]. Qed.
#[export] Instance of_option_preserves {A} e (o : option A) : Preserves f (of_option e o).
Proof. by destruct o. Qed.
#[export] Instance for_each_preserves {A} (l : list A) body :
  (∀ x, Preserves f (body x)) → Preserves f (for_each l body).
Proof. intros Hb. induction l as [|x l IH]; [apply ret_preserves|]. by apply bind_preserves. Qed.
Lemma focus_preserves {T A} (get : St → T) set (m : IO T A) :
  (∀ x s, f (set x s) = f s) → Preserves f (focus get set m).
Proof. intros Hs w. unfold focus. destruct (m _) as [r w']. apply Hs. Qed.
Lemma external_preserves {A} err partial (g : St → (Error + A) * St) :
  (∀ n s, f (partial n s) = f s) → (∀ s, f (g s).2 = f s) → Preserves f (external err partial g).
Proof.
  intros Hp Hg w. unfold external. specialize (Hg (state w)).
  destruct (fates w) as [|[]]; try apply Hp; by destruct (g (state w)) as [[] ?].
Qed.
End Frames.

(** [Keeps J m]: whatever happens in [m], what [J] says of the state stays true. *)
Class Keeps {St A} (J : St → Prop) (m : IO St A) : Prop :=
  keeps : ∀ w, J (state w) → J (state (m w).2).

Section Keeps.
Context {St : Type} (J : St → Prop).
#[export] Instance ret_keeps {A} (a : A) : Keeps J (ret a).
Proof. by intros w. Qed.
#[export] Instance fail_keeps {A} e : Keeps J (fail (A:=A) e).
Proof. by intros w. Qed.
#[export] Instance bind_keeps {A B} (m : IO St A) (k : A → IO St B) :
  Keeps J m → (∀ a, Keeps J (k a)) → Keeps J (m ≫= k).
Proof.
  intros Hm Hk w HJ. unfold mbind, IO_mbind, bind. specialize (Hm w HJ).
  destruct (m w) as [[a|e|z] w1]; simpl in *; [by apply Hk|done..].
Qed.
#[export] Instance attempt_keeps {A} (m : IO St A) : Keeps J m → Keeps J (attempt m).
Proof. intros Hm w HJ. unfold attempt. specialize (Hm w HJ). by destruct (m w) as [[] ?]. Qed.
#[export] Instance ignore_keeps {A} (m : IO St A) : Keeps J m → Keeps J (ignore m).
Proof. intros Hm. unfold ignore. apply bind_keeps; apply _. Qed.
#[export] Instance map_err_keeps {A} g (m : IO St A) : Keeps J m → Keeps J (map_err g m).
Proof. intros Hm w HJ. unfold map_err. specialize (Hm w HJ). by destruct (m w) as [[] ?]. Qed.
#[export] Instance for_each_keeps {A} (l : list A) body :
  (∀ x, Keeps J (body x)) → Keeps J (for_each l body).
Proof. intros Hb. induction l as [|x l IH]; [apply ret_keeps|]. by apply bind_keeps. Qed.
Lemma external_keeps {A} err partial (g : St → (Error + A) * St) :
  (∀ n s, J s → J (partial n s)) → (∀ s, J s → J (g s).2) → Keeps J (external err partial g).
Proof.
  intros Hp Hg w HJ. unfold external. specialize (Hg (state w) HJ).
  destruct (fates w) as [|[]]; simpl; auto; by destruct (g (state w)) as [[] ?].
Qed.

(** What the first part returns may matter to the second. *)
Lemma bind_keeps_val {A B} (m : IO St A) (k : A → IO St B) (R : A → Prop) :
  Keeps J m → (∀ w a w', J (state w) → m w = (Ok a, w') → R a) → (∀ a, R a → Keeps J (k a)) →
  Keeps J (m ≫= k).
Proof.
  intros Hm HR Hk w HJ. unfold mbind, IO_mbind, bind. specialize (Hm w HJ). specialize (HR w).
  destruct (m w) as [[a|e|z] w1] eqn:E; simpl in *; [|done..]. apply (Hk a); eauto.
Qed.
End Keeps.

(** [Undrawn m]: however [m] goes, it draws no identifier. *)
Class Undrawn {St A} (m : IO St A) : Prop := undrawn : ∀ w, draws (m w).2 = draws w.

Section Undrawn.
Context {St : Type}.
#[export] Instance ret_undrawn {A} (a : A) : Undrawn (St := St) (ret a).
Proof. by intros w. Qed.
#[export] Instance fail_undrawn {A} e : Undrawn (St := St) (fail (A:=A) e).
Proof. by intros w. Qed.
#[export] Instance bind_undrawn {A B} (m : IO St A) (k : A → IO St B) :
  Undrawn m → (∀ a, Undrawn (k a)) → Undrawn (m ≫= k).
Proof.
  intros Hm Hk w. unfold mbind, IO_mbind, bind. rewrite <- (Hm w).
  destruct (m w) as [[a|e|z] w1]; [apply Hk|done..].
Qed.
#[export] Instance attempt_undrawn {A} (m : IO St A) : Undrawn m → Undrawn (attempt m).
Proof. intros Hm w. unfold attempt. rewrite <- (Hm w). by destruct (m w) as [[] ?]. Qed.
#[export] Instance ignore_undrawn {A} (m : IO St A) : Undrawn m → Undrawn (ignore m).
Proof. intros Hm. unfold ignore. apply bind_undrawn; apply _. Qed.
#[export] Instance map_err_undrawn {A} g (m : IO St A) : Undrawn m → Undrawn (map_err g m).
Proof. intros Hm w. unfold map_err. rewrite <- (Hm w). by destruct (m w) as [[] ?]. Qed.
#[export] Instance for_each_undrawn {A} (l : list A) body :
  (∀ x, Undrawn (body x)) → Undrawn (St := St) (for_each l body).
Proof. intros Hb. induction l as [|x l IH]; [apply ret_undrawn|]. by apply bind_undrawn. Qed.
#[export] Instance external_undrawn {A} err partial (g : St → (Error + A) * St) :
  Undrawn (external err partial g).
Proof. intros w. unfold external. destruct (fates w) as [|[]]; try done; by destruct (g (state w)) as [[] ?]. Qed.
End Undrawn.

(** [yields Z Pre J R m]: started where [Pre] holds of the number of identifiers
    drawn and of the state, [m] leaves [J] true of them whatever happens; it
    returns only values in [R], and stops only for reasons in [Z]. *)
Definition yields {St A} (Z : Stop → Prop) (Pre J : nat → St → Prop) (R : A → Prop) (m : IO St A) : Prop :=
  ∀ w, Pre (draws w) (state w) → J (draws (m w).2) (state (m w).2) ∧
    match (m w).1 with Ok a => R a | Err _ => True | Halt z => Z z end.
Abbreviation anything := (λ _, True).

Section Yields.
Context {St : Type} {Z : Stop → Prop}.
Implicit Types Pre J : nat → St → Prop.

Lemma yields_mono {A Pre J} (R R' : A → Prop) m :
  yields Z Pre J R m → (∀ a, R a → R' a) → yields Z Pre J R' m.
Proof. intros Hm HR w Hw. destruct (Hm w Hw) as [H1 H2]. split; [done|]. destruct (m w) as [[] ?]; simpl in *; auto. Qed.
Lemma yields_pre {A Pre J} (R : A → Prop) m :
  yields Z J J R m → (∀ d s, Pre d s → J d s) → yields Z Pre J R m.
Proof. intros Hm HJ w Hw%HJ. by apply Hm. Qed.
Lemma yields_ret {A J} (R : A → Prop) a : R a → yields Z J J R (ret a).
Proof. by intros HR w Hw. Qed.
Lemma yields_fail {A J} (R : A → Prop) e : yields Z J J R (fail e).
Proof. by intros w Hw. Qed.
Lemma yields_now {B Pre J} (R : B → Prop) (k : N → IO St B) :
  (∀ t, yields Z Pre J R (k t)) → yields Z Pre J R (now ≫= k).
Proof. intros Hk w Hw. apply (Hk (clock w) w Hw). Qed.
Lemma yields_bind {A B Pre J} (R : A → Prop) (R' : B → Prop) m k :
  yields Z Pre J R m → (∀ a, R a → yields Z J J R' (k a)) → yields Z Pre J R' (m ≫= k).
Proof.
  intros Hm Hk w Hw. unfold mbind, IO_mbind, bind. destruct (Hm w Hw) as [H1 H2].
  destruct (m w) as [[a|e|z] w1]; simpl in *; [by apply Hk|done|done].
Qed.
Lemma yields_attempt {A Pre J} (R : A → Prop) m :
  yields Z Pre J R m → yields Z Pre J (λ r, match r with inl _ => True | inr a => R a end) (attempt m).
Proof.
  intros Hm w Hw. unfold attempt. destruct (Hm w Hw) as [H1 H2]. by destruct (m w) as [[] ?].
Qed.
Lemma yields_ignore {A J} (R : A → Prop) m : yields Z J J R m → yields Z J J anything (ignore m).
Proof. intros Hm. eapply yields_bind; [by apply yields_attempt|]. intros. by apply yields_ret. Qed.
Lemma yields_map_err {A Pre J} (R : A → Prop) g m : yields Z Pre J R m → yields Z Pre J R (map_err g m).
Proof. intros Hm w Hw. unfold map_err. destruct (Hm w Hw) as [H1 H2]. by destruct (m w) as [[] ?]. Qed.
Lemma yields_of_option {A J} (R : A → Prop) e (o : option A) :
  (∀ a, o = Some a → R a) → yields Z J J R (of_option e o).
Proof. destruct o; intros HR; [by apply yields_ret, HR|apply yields_fail]. Qed.
Lemma yields_for_each {A J} (R : A → Prop) l body :
  Forall R l → (∀ a, R a → yields Z J J anything (body a)) → yields Z J J anything (for_each l body).
Proof.
  intros Hl Hb. induction Hl as [|a l Ha Hl IH]; [by apply yields_ret|].
  eapply yields_bind; [by apply Hb|]. by intros _ _.
Qed.
Lemma yields_external {A J} (R : A → Prop) err partial (f : St → (Error + A) * St) : Z Crash →
  (∀ n d s, J d s → J d (partial n s)) →
  (∀ d s, J d s → J d (f s).2 ∧ match (f s).1 with inr a => R a | inl _ => True end) →
  yields Z J J R (external err partial f).
Proof.
  intros HZ Hp Hf w Hw. unfold external. destruct (Hf _ (state w) Hw) as [H1 H2].
  destruct (fates w) as [|[|k n|n] fs]; simpl; auto; destruct (f (state w)) as [[] ?]; done.
Qed.
(** A call that only looks: what follows starts from the same state. *)
Lemma yields_look {A B} (m : IO St A) `{!Preserves (λ s, s) m, !Undrawn m} {Pre J} (R : A → Prop) (R' : B → Prop) k :
  yields Z Pre (λ _ _, True) R m → (∀ d s, Pre d s → J d s) → (∀ a, R a → yields Z Pre J R' (k a)) →
  yields Z Pre J R' (m ≫= k).
Proof.
  intros Hm HJ Hk w Hw. unfold mbind, IO_mbind, bind. destruct (Hm w Hw) as [_ H2].
  pose proof (preserves (f := λ s, s) (m := m) w) as Es. pose proof (undrawn (m := m) w) as Ed.
  destruct (m w) as [[a|e|z] w1]; simpl in *; [|rewrite Es, Ed; auto..].
  apply (Hk a); [done|]. by rewrite Es, Ed.
Qed.
End Yields.

(** ** Runs that come to an end

    [Proceeds m]: unless the process dies, [m] returns a value or an error;
    [Returns m]: it returns a value, however many of its calls fail. *)
Definition no_crash (fs : list Fate) : Prop := Forall (λ f, ∀ n, f ≠ Die n) fs.

Class Proceeds {St A} (m : IO St A) : Prop := proceeds : ∀ w, no_crash (fates w) →
  (∀ z, (m w).1 ≠ Halt z) ∧ no_crash (fates (m w).2).
Class Returns {St A} (m : IO St A) : Prop := returns : ∀ w, no_crash (fates w) →
  (∃ a, (m w).1 = Ok a) ∧ no_crash (fates (m w).2).

(** What [Returns] means for one run. *)
Lemma returns_run {St A} (m : IO St A) `{!Returns m} w :
  no_crash (fates w) → ∃ a w', m w = (Ok a, w') ∧ no_crash (fates w').
Proof. intros Hw. destruct (returns w Hw) as [[a E] H]. destruct (m w) as [r w']; simpl in *. subst. eauto. Qed.

#[export] Instance returns_proceeds {St A} (m : IO St A) : Returns m → Proceeds m | 10.
Proof. intros Hm w Hw. destruct (Hm w Hw) as [[a ->] H]. done. Qed.
#[export] Instance ret_returns {St A} (a : A) : Returns (St:=St) (ret a).
Proof. intros w Hw. simpl. eauto. Qed.
#[export] Instance now_returns {St} : Returns (St:=St) now.
Proof. intros w Hw. simpl. eauto. Qed.
#[export] Instance draw_returns {St} : Returns (St:=St) draw.
Proof. intros w Hw. simpl. eauto. Qed.
#[export] Instance bind_returns {St A B} (m : IO St A) (k : A → IO St B) :
  Returns m → (∀ a, Returns (k a)) → Returns (m ≫= k).
Proof.
  intros Hm Hk w Hw. unfold mbind, IO_mbind, bind. destruct (Hm w Hw) as [[a E] H].
  destruct (m w) as [r w1]; simpl in *. subst r. by apply Hk.
Qed.
#[export] Instance bind_proceeds {St A B} (m : IO St A) (k : A → IO St B) :
  Proceeds m → (∀ a, Proceeds (k a)) → Proceeds (m ≫= k).
Proof.
  intros Hm Hk w Hw. unfold mbind, IO_mbind, bind. destruct (Hm w Hw) as [Hz H].
  destruct (m w) as [[a|e|z] w1]; simpl in *; [by apply Hk|done|by destruct (Hz z)].
Qed.
#[export] Instance attempt_returns {St A} (m : IO St A) : Proceeds m → Returns (attempt m).
Proof.
  intros Hm w Hw. unfold attempt. destruct (Hm w Hw) as [Hz H].
  destruct (m w) as [[a|e|z] w1]; simpl in *; [eauto|eauto|by destruct (Hz z)].
Qed.
#[export] Instance ignore_returns {St A} (m : IO St A) : Proceeds m → Returns (ignore m).
Proof. intros Hm. unfold ignore. apply bind_returns; apply _. Qed.
#[export] Instance map_err_proceeds {St A} f (m : IO St A) : Proceeds m → Proceeds (map_err f m).
Proof.
  intros Hm w Hw. unfold map_err. destruct (Hm w Hw) as [Hz H].
  destruct (m w) as [[a|e|z] w1]; simpl in *; [done|done|by destruct (Hz z)].
Qed.
#[export] Instance fail_proceeds {St A} e : Proceeds (St:=St) (A:=A) (fail e).
Proof. intros w Hw. done. Qed.
#[export] Instance of_option_proceeds {St A} e (o : option A) : Proceeds (of_option (St:=St) e o).
Proof. destruct o; [apply returns_proceeds, ret_returns|apply fail_proceeds]. Qed.
#[export] Instance external_proceeds {St A} err partial (f : St → (Error + A) * St) :
  Proceeds (external err partial f).
Proof.
  intros w Hw. unfold external. destruct (fates w) as [|[|k n|n] fs]; simpl.
  - by destruct (f (state w)) as [[] ?].
  - apply Forall_cons in Hw as [_ Hw]. by destruct (f (state w)) as [[] ?].
  - by apply Forall_cons in Hw as [_ Hw].
  - apply Forall_cons in Hw as [Hd _]. by destruct (Hd n).
Qed.

(** *** On a part of the state *)

#[export] Instance focus_returns {S T A} (get : S → T) set (m : IO T A) :
  Returns m → Returns (focus get set m).
Proof.
  intros Hm w Hw. unfold focus. destruct (Hm (mkEnv (get (state w)) (fates w) (clock w) (draws w)) Hw) as [[a E] H].
  destruct (m _) as [r w1]; simpl in *. subst. eauto.
Qed.
#[export] Instance focus_proceeds {S T A} (get : S → T) set (m : IO T A) :
  Proceeds m → Proceeds (focus get set m).
Proof.
  intros Hm w Hw. unfold focus. destruct (Hm (mkEnv (get (state w)) (fates w) (clock w) (draws w)) Hw) as [Hz H].
  by destruct (m _) as [[a|e|z] w1]; simpl in *.
Qed.

Lemma focus_state {S T A} (get : S → T) set (m : IO T A) w r w' :
  focus get set m w = (r, w') → ∃ x, m (mkEnv (get (state w)) (fates w) (clock w) (draws w)) =
    (r, mkEnv x (fates w') (clock w') (draws w')) ∧ state w' = set x (state w).
Proof. unfold focus. destruct (m _) as [r0 [x f c d]]. intros [= <- <-]. simpl. eauto. Qed.

(** ** Runs that nothing disturbs *)

(** External calls that nothing disturbs. *)
Lemma external_calm {St A} err partial (f : St → (Error + A) * St) w :
  calm (fates w) →
  ∃ fs, calm fs ∧ external err partial f w =
    (match (f (state w)).1 with inl e => Err e | inr a => Ok a end,
     mkEnv (f (state w)).2 fs (clock w) (draws w)).
Proof.
  intros Hc. unfold external. destruct (fates w) as [|x fs].
  - exists []. split; [constructor|]. destruct (f (state w)) as [[] ?]; done.
  - apply Forall_cons in Hc as [-> Hc]. exists fs. split; [done|]. destruct (f (state w)) as [[] ?]; done.
Qed.

(** A step of a run that nothing disturbs. *)
Lemma bind_step {St A B} (m : IO St A) (k : A → IO St B) w a w1 :
  m w = (Ok a, w1) → (m ≫= k) w = k a w1.
Proof. intros E. unfold mbind, IO_mbind, bind. by rewrite E. Qed.
Lemma attempt_step {St A} (m : IO St A) w a w1 :
  m w = (Ok a, w1) → attempt m w = (Ok (inr a), w1).
Proof. intros E. unfold attempt. by rewrite E. Qed.

#[export] Hint Resolve next_trans next_failed failed_next next_one failed_one next_refl
  failed_calm : lina.
