(* ===== verification/Strs.v ===== *)
(** * Rust's [str], [String] and [Path] operations used by the program

    Text is a Rocq [string], read as the UTF-8 bytes of the Rust value.  The
    operations below are the standard library's, restricted to the argument
    shapes the sources use (single-character patterns, prefixes, suffixes). *)
From S2P Require Import Prelude.

(** ** Searching and cutting *)

Definition str_len (s : string) : nat := String.length s.
Definition str_take (n : nat) (s : string) : string := String.substring 0 n s.
Definition str_drop (n : nat) (s : string) : string :=
  String.substring n (String.length s - n) s.

Fixpoint strip_prefix (p s : string) : option string :=
  match p, s with
  | EmptyString, _ => Some s
  | String a p', String b s' => if ascii_dec a b then strip_prefix p' s' else None
  | String _ _, EmptyString => None
  end.
Definition starts_with (p s : string) : bool := bool_decide (is_Some (strip_prefix p s)).

(** [s.contains(sub)] *)
Fixpoint contains (sub s : string) : bool :=
  starts_with sub s ||
  match s with
  | EmptyString => false
  | String _ s' => contains sub s'
  end.

(** [s.strip_suffix(suf)] *)
Fixpoint strip_suffix (suf s : string) : option string :=
  if String.eqb s suf then Some EmptyString
  else match s with
       | EmptyString => None
       | String c s' => String c <$> strip_suffix suf s'
       end.

(** [s.find(c)] and [s.rfind(c)], as byte offsets. *)
Fixpoint find_char (c : ascii) (s : string) : option nat :=
  match s with
  | EmptyString => None
  | String a s' => if ascii_dec a c then Some 0 else S <$> find_char c s'
  end.
Fixpoint rfind_char (c : ascii) (s : string) : option nat :=
  match s with
  | EmptyString => None
  | String a s' =>
      match rfind_char c s' with
      | Some i => Some (S i)
      | None => if ascii_dec a c then Some 0 else None
      end
  end.
(** [s.find(sub)] *)
Fixpoint find_str (sub s : string) : option nat :=
  if starts_with sub s then Some 0
  else match s with
       | EmptyString => None
       | String _ s' => S <$> find_str sub s'
       end.

(** [s.split(c).collect()]: never empty. *)
Fixpoint split_on (c : ascii) (s : string) : list string :=
  match s with
  | EmptyString => [EmptyString]
  | String a s' =>
      if ascii_dec a c then EmptyString :: split_on c s'
      else match split_on c s' with
           | [] => [String a EmptyString]
           | w :: ws => String a w :: ws
           end
  end.

(** [parts.join(sep)] *)
Fixpoint join (sep : string) (l : list string) : string :=
  match l with
  | [] => EmptyString
  | [s] => s
  | s :: l' => s +:+ sep +:+ join sep l'
  end.

(** [s.replace(c, by)] for a character pattern. *)
Fixpoint replace_char (c : ascii) (by_ : string) (s : string) : string :=
  match s with
  | EmptyString => EmptyString
  | String a s' =>
      if ascii_dec a c then by_ +:+ replace_char c by_ s'
      else String a (replace_char c by_ s')
  end.

Definition is_empty (s : string) : bool :=
  match s with EmptyString => true | _ => false end.

(** [to_ascii_lowercase] *)
Definition lower (c : ascii) : ascii :=
  if ((65 <=? to_u8 c) && (to_u8 c <=? 90))%N then byte_of (to_u8 c + 32) else c.
Fixpoint to_ascii_lowercase (s : string) : string :=
  match s with
  | EmptyString => EmptyString
  | String c s' => String (lower c) (to_ascii_lowercase s')
  end.
Definition SLASH : ascii := "/"%char.
Definition DOT : ascii := "."%char.

(** ** [std::path], Unix flavour *)

Inductive Component := RootDir | CurDir | ParentDir | Normal (s : string).
#[export] Instance Component_eq_dec : EqDecision Component.
Proof. solve_decision. Defined.

Definition component_of (s : string) : option Component :=
  if is_empty s then None
  else if String.eqb s "." then None
  else if String.eqb s ".." then Some ParentDir
  else Some (Normal s).

(** [Path::components]: repeated separators and inner [.] vanish; a leading
    [/] is the root and a leading [.] is kept. *)
Definition components (p : string) : list Component :=
  let parts := split_on SLASH p in
  let tail := omap component_of parts in
  if starts_with "/" p then RootDir :: tail
  else match parts with
       | "."%string :: _ => CurDir :: tail
       | _ => tail
       end.

Definition as_os_str (c : Component) : string :=
  match c with RootDir => "/" | CurDir => "." | ParentDir => ".." | Normal s => s end.

(** [Path::file_name]: the last component when it is a normal one. *)
Definition file_name (p : string) : option string :=
  match last (components p) with
  | Some (Normal s) => Some s
  | _ => None
  end.

(** [Path::extension]: what follows the last dot of the file name, unless that
    dot is its first character. *)
Definition extension (p : string) : option string :=
  f ← file_name p;
  i ← rfind_char DOT f;
  match i with
  | O => None
  | S _ => Some (str_drop (S i) f)
  end.

(** The [ext] column: [.extension().unwrap_or_default().to_str().unwrap_or("")]. *)
Definition ext_of (name : string) : string := default EmptyString (extension name).

(** ** UTF-8 *)

(** One step of [Utf8Chunks] on a non-empty input: is the next sequence well
    formed, and how many bytes does it (or its ill-formed prefix) take.  A byte
    past the end reads as 0, which is no continuation byte. *)
Definition in_range (lo hi : N) (b : byte) : bool := (lo <=? to_u8 b)%N && (to_u8 b <=? hi)%N.
Definition byte_at (b : bytes) (i : nat) : byte := nth i b NUL.

Definition utf8_width (b : byte) : nat :=
  if in_range 0 127 b then 1
  else if in_range 194 223 b then 2
  else if in_range 224 239 b then 3
  else if in_range 240 244 b then 4
  else 0.

(** Bounds on the second byte of a multi-byte sequence. *)
Definition second_ok (b0 b1 : byte) : bool :=
  let n := to_u8 b0 in
  (if n =? 224 then in_range 160 191 b1
   else if n =? 237 then in_range 128 159 b1
   else if n =? 240 then in_range 144 191 b1
   else if n =? 244 then in_range 128 143 b1
   else in_range 128 191 b1)%N.

Definition cont (b : byte) : bool := in_range 128 191 b.

Definition utf8_step (b : bytes) : bool * nat :=
  match utf8_width (byte_at b 0) with
  | 1 => (true, 1)
  | 2 => if cont (byte_at b 1) then (true, 2) else (false, 1)
  | 3 => if second_ok (byte_at b 0) (byte_at b 1)
         then if cont (byte_at b 2) then (true, 3) else (false, 2)
         else (false, 1)
  | 4 => if second_ok (byte_at b 0) (byte_at b 1)
         then if cont (byte_at b 2)
              then if cont (byte_at b 3) then (true, 4) else (false, 3)
              else (false, 2)
         else (false, 1)
  | _ => (false, 1)
  end.

(** U+FFFD in UTF-8. *)
Definition REPLACEMENT : bytes := [byte_of 239; byte_of 191; byte_of 189].

Fixpoint valid_utf8_fuel (fuel : nat) (b : bytes) : bool :=
  match fuel, b with
  | _, [] => true
  | O, _ => false
  | S fuel', _ =>
      let '(ok, n) := utf8_step b in ok && valid_utf8_fuel fuel' (drop n b)
  end.
Definition valid_utf8 (b : bytes) : bool := valid_utf8_fuel (length b) b.

Fixpoint lossy_fuel (fuel : nat) (b : bytes) : bytes :=
  match fuel, b with
  | _, [] => []
  | O, _ => []
  | S fuel', _ =>
      let '(ok, n) := utf8_step b in
      (if ok then take n b else REPLACEMENT) ++ lossy_fuel fuel' (drop n b)
  end.

(** [std::str::from_utf8] *)
Definition from_utf8 (b : bytes) : option string :=
  if valid_utf8 b then Some (bytes_str b) else None.
(** [String::from_utf8_lossy] *)
Definition from_utf8_lossy (b : bytes) : string := bytes_str (lossy_fuel (length b) b).

(** ** Lemmas: UTF-8 *)

Lemma cont_nonzero b : cont b = true → b ≠ NUL.
Proof. by intros H ->. Qed.

Lemma second_ok_nonzero a b : second_ok a b = true → b ≠ NUL.
Proof. intros H ->. unfold second_ok in H. repeat case_match; done. Qed.

Lemma byte_at_lt b i : byte_at b i ≠ NUL → i < length b.
Proof.
  intros H. destruct (decide (i < length b)) as [|Hge]; [done|].
  exfalso. apply H. apply nth_overflow. lia.
Qed.

#[local] Hint Resolve cont_nonzero second_ok_nonzero byte_at_lt : core.

Lemma utf8_step_pos b : 1 ≤ (utf8_step b).2.
Proof. unfold utf8_step. repeat case_match; simpl; lia. Qed.

Lemma utf8_step_length b ok n : b ≠ [] → utf8_step b = (ok, n) → n ≤ length b.
Proof.
  intros Hb. assert (1 ≤ length b) by (destruct b; simpl; [done|lia]).
  unfold utf8_step. intros H0.
  repeat case_match; simplify_eq; try lia;
  repeat match goal with
  | H : cont (byte_at b ?i) = true |- _ =>
      apply cont_nonzero, byte_at_lt in H
  | H : second_ok _ (byte_at b ?i) = true |- _ =>
      apply second_ok_nonzero, byte_at_lt in H
  end; lia.
Qed.

(** Whether the next sequence is well formed depends on its bytes only. *)
Lemma utf8_step_local b n r :
  b ≠ [] → utf8_step b = (true, n) → utf8_step (take n b ++ r) = (true, n).
Proof.
  intros Hb Hs. pose proof (utf8_step_length _ _ _ Hb Hs) as Hn.
  assert (Hat : ∀ i, i < n → byte_at (take n b ++ r) i = byte_at b i).
  { intros i Hi. unfold byte_at.
    rewrite app_nth1 by (rewrite length_take; lia).
    rewrite <- (firstn_skipn n b) at 2. rewrite app_nth1; [done|rewrite length_firstn; lia]. }
  unfold utf8_step in *.
  assert (1 ≤ n) by (repeat case_match; simplify_eq; lia).
  rewrite (Hat 0) by lia.
  destruct (utf8_width (byte_at b 0)) as [|[|[|[|[|]]]]]; simplify_eq; try done.
  - destruct (cont (byte_at b 1)) eqn:E1; simplify_eq. by rewrite (Hat 1), E1 by lia.
  - destruct (second_ok _ (byte_at b 1)) eqn:E1; [|done].
    destruct (cont (byte_at b 2)) eqn:E2; simplify_eq.
    by rewrite (Hat 1), E1, (Hat 2), E2 by lia.
  - destruct (second_ok _ (byte_at b 1)) eqn:E1; [|done].
    destruct (cont (byte_at b 2)) eqn:E2; [|done].
    destruct (cont (byte_at b 3)) eqn:E3; simplify_eq.
    by rewrite (Hat 1), E1, (Hat 2), E2, (Hat 3), E3 by lia.
Qed.

Lemma valid_utf8_fuel_mono f g b :
  length b ≤ f → length b ≤ g → valid_utf8_fuel f b = valid_utf8_fuel g b.
Proof.
  revert g b. induction f as [|f IH]; intros g b Hf Hg.
  - destruct b; simpl in *; [by destruct g|lia].
  - destruct b as [|x b]; [by destruct g|]. destruct g as [|g]; [simpl in *; lia|].
    simpl. destruct (utf8_step (x :: b)) as [ok n] eqn:E.
    pose proof (utf8_step_pos (x :: b)) as Hp. rewrite E in Hp; simpl in Hp.
    f_equal. apply IH; rewrite length_drop; simpl in *; lia.
Qed.

Lemma valid_utf8_cons_step b n :
  b ≠ [] → utf8_step b = (true, n) → valid_utf8 b = valid_utf8 (drop n b).
Proof.
  intros Hb Hs. unfold valid_utf8. destruct b as [|x b]; [done|]. simpl.
  rewrite Hs; simpl. apply valid_utf8_fuel_mono; rewrite ?length_drop; simpl;
  pose proof (utf8_step_pos (x :: b)) as Hp; rewrite Hs in Hp; simpl in Hp; lia.
Qed.

Lemma lossy_fuel_valid f b : valid_utf8_fuel f b = true → lossy_fuel f b = b.
Proof.
  revert b. induction f as [|f IH]; intros b; destruct b as [|x b]; try done.
  simpl. destruct (utf8_step (x :: b)) as [ok n]. intros [-> H]%andb_true_iff.
  rewrite IH by done. by rewrite take_drop.
Qed.

Lemma valid_utf8_prefix a b : 
  a ≠ [] → utf8_step a = (true, length a) → valid_utf8 b = true → valid_utf8 (a ++ b) = true.
Proof.
  intros Ha Hs Hb.
  assert (Hs' : utf8_step (a ++ b) = (true, length a)).
  { pose proof (utf8_step_local _ _ b Ha Hs) as H. by rewrite firstn_all in H. }
  assert (Hne : a ++ b ≠ []) by (by destruct a).
  rewrite (valid_utf8_cons_step _ _ Hne Hs').
  by rewrite drop_app_length.
Qed.

(** Printable ASCII is text, and holds no NUL. *)
Definition printable (b : bytes) : Prop := Forall (λ c, 32 < to_u8 c < 127)%N b.
Lemma printable_valid b : printable b → valid_utf8 b = true.
Proof.
  induction 1 as [|c b Hc _ IH]; [done|].
  apply (valid_utf8_prefix [c] b); [done| |done].
  assert (Hr : in_range 0 127 c = true) by (apply andb_true_iff; split; apply N.leb_le; lia).
  unfold utf8_step, utf8_width. change (byte_at [c] 0) with c. by rewrite Hr.
Qed.
Lemma printable_no_nul b : printable b → no_nul b.
Proof.
  intros Hb Hin. apply (proj1 (Forall_forall _ _) Hb) in Hin.
  vm_compute in Hin. by destruct Hin.
Qed.

Lemma lossy_fuel_is_valid f b : valid_utf8 (lossy_fuel f b) = true.
Proof.
  revert b. induction f as [|f IH]; intros b; destruct b as [|x b]; try done.
  assert (Hne : x :: b ≠ []) by done.
  simpl. destruct (utf8_step (x :: b)) as [ok n] eqn:E.
  destruct ok.
  - pose proof (utf8_step_length _ _ _ Hne E) as Hn.
    pose proof (utf8_step_pos (x :: b)) as Hp; rewrite E in Hp; cbn [snd] in Hp.
    apply valid_utf8_prefix; [| |apply IH].
    + destruct n; [lia|discriminate].
    + rewrite length_take, Nat.min_l by done.
      pose proof (utf8_step_local _ _ [] Hne E) as H. by rewrite app_nil_r in H.
  - apply valid_utf8_prefix; [done|done|apply IH].
Qed.

Lemma from_utf8_lossy_valid b : valid_utf8 b = true → from_utf8_lossy b = bytes_str b.
Proof. intros H. unfold from_utf8_lossy. by rewrite lossy_fuel_valid. Qed.

(** ** Lemmas: searching and cutting *)

Lemma strip_prefix_app p s : strip_prefix p (p +:+ s) = Some s.
Proof. induction p as [|c p IH]; simpl; [done|]. destruct (ascii_dec c c); [apply IH|done]. Qed.

Lemma strip_prefix_Some p s r : strip_prefix p s = Some r ↔ s = p +:+ r.
Proof.
  split; [|intros ->; apply strip_prefix_app].
  revert s. induction p as [|c p IH]; intros s; simpl; [by intros [= ->]|].
  destruct s as [|d s]; [done|]. destruct (ascii_dec c d) as [->|]; [|done].
  intros H. by rewrite (IH _ H).
Qed.

Lemma split_on_nonempty c s : split_on c s ≠ [].
Proof. destruct s; simpl; [done|]. repeat case_match; done. Qed.

(** Splitting and joining with the same separator is the identity. *)
Lemma join_split c s : join (String c EmptyString) (split_on c s) = s.
Proof.
  induction s as [|a s IH]; simpl; [done|].
  pose proof (split_on_nonempty c s) as Hne.
  destruct (ascii_dec a c) as [->|].
  - destruct (split_on c s) as [|w ws]; [done|]. simpl in *. by rewrite IH.
  - destruct (split_on c s) as [|w ws]; [done|].
    destruct ws as [|w' ws]; simpl in *; by rewrite <- IH.
Qed.

Lemma rfind_char_None c s : rfind_char c s = None ↔ find_char c s = None.
Proof.
  induction s as [|a s IH]; simpl; [done|].
  destruct (ascii_dec a c), (rfind_char c s), (find_char c s); simpl; naive_solver.
Qed.

Lemma str_length_app s u : String.length (s +:+ u) = String.length s + String.length u.
Proof. induction s as [|c s IH]; simpl; [done|]. f_equal. apply IH. Qed.

Lemma length_str_bytes s : length (str_bytes s) = String.length s.
Proof. induction s as [|c s IH]; simpl; [done|]. f_equal. apply IH. Qed.
(** [str::is_char_boundary]: [&s[..i]] panics elsewhere. *)
Definition is_char_boundary (s : string) (i : nat) : bool :=
  match str_bytes s !! i with
  | Some c => negb (in_range 128 191 c)
  | None => Nat.eqb i (String.length s)
  end.
Lemma boundary_length s i : is_char_boundary s i = true → i ≤ String.length s.
Proof.
  unfold is_char_boundary. rewrite <- length_str_bytes. destruct (str_bytes s !! i) eqn:E.
  - apply lookup_lt_Some in E. lia.
  - intros ->%Nat.eqb_eq. lia.
Qed.
Lemma printable_boundary s i : printable (str_bytes s) → i ≤ String.length s → is_char_boundary s i = true.
Proof.
  intros Hs Hi. unfold is_char_boundary. rewrite <- length_str_bytes in Hi |- *. destruct (str_bytes s !! i) as [c|] eqn:E.
  - pose proof (proj1 (Forall_lookup _ _) Hs _ _ E) as Hc. cbv beta in Hc. unfold in_range.
    rewrite (proj2 (N.leb_gt 128 (to_u8 c))) by lia. done.
  - apply lookup_ge_None in E. apply Nat.eqb_eq. lia.
Qed.
Lemma str_bytes_substring n m s : str_bytes (String.substring n m s) = take m (drop n (str_bytes s)).
Proof.
  revert n m. induction s as [|c s IH]; intros [|n] [|m]; simpl; try done; [|apply IH..].
  f_equal. by rewrite IH, drop_0.
Qed.
Lemma str_app_nil_r s : s +:+ "" = s.
Proof. induction s as [|c s IH]; [done|]. change (String c (s +:+ "") = String c s). by rewrite IH. Qed.
Lemma str_app_inj_r a b u : a +:+ u = b +:+ u → a = b.
Proof.
  intros E. apply str_bytes_inj. apply (f_equal str_bytes) in E. rewrite !str_bytes_app in E.
  by apply (inj (.++ str_bytes u)).
Qed.

Lemma strip_suffix_Some suf s r : strip_suffix suf s = Some r ↔ s = r +:+ suf.
Proof.
  revert r. induction s as [|c s IH]; intros r; cbn [strip_suffix];
    [destruct (String.eqb_spec "" suf) as [<-|Hne]|destruct (String.eqb_spec (String c s) suf) as [<-|Hne]].
  - split; [by intros [= <-]|]. by destruct r.
  - split; [done|]. destruct r; [intros E; by destruct Hne|done].
  - split; [by intros [= <-]|]. destruct r as [|c' r]; [done|]. intros E%(f_equal String.length).
    simpl in E. rewrite str_length_app in E. simpl in E. lia.
  - rewrite fmap_Some. setoid_rewrite IH. split; [by intros (r' & -> & ->)|].
    destruct r as [|c' r]; [intros E; by destruct Hne|]. cbn. intros [= -> ->]. eauto.
Qed.

(** A text that starts with [c] is not found before the first [c]. *)
Lemma contains_after c u s r :
  find_char c s = None → contains (String c u) (s +:+ r) = contains (String c u) r.
Proof.
  induction s as [|a s IH]; [done|]. simpl find_char. destruct (ascii_dec a c) as [|Hne]; [done|].
  rewrite fmap_None. intros E. rewrite <- (IH E).
  change (starts_with (String c u) (String a (s +:+ r)) || contains (String c u) (s +:+ r) =
          contains (String c u) (s +:+ r)).
  unfold starts_with. rewrite bool_decide_eq_false_2; [done|]. cbn [strip_prefix].
  destruct (ascii_dec c a); [congruence|]. by intros [? ?].
Qed.

(** Cutting a text where its parts meet, and finding a part's end. *)
Lemma str_take_app s t : str_take (String.length s) (s +:+ t) = s.
Proof.
  apply str_bytes_inj. unfold str_take.
  rewrite str_bytes_substring, drop_0, str_bytes_app. apply take_app_length'. by rewrite length_str_bytes.
Qed.
Lemma str_drop_app s t : str_drop (String.length s) (s +:+ t) = t.
Proof.
  apply str_bytes_inj. unfold str_drop.
  rewrite str_bytes_substring, str_length_app, str_bytes_app, drop_app_length' by (by rewrite length_str_bytes).
  apply take_ge. rewrite length_str_bytes. lia.
Qed.
Lemma str_app_assoc (a b c : string) : (a +:+ b) +:+ c = a +:+ b +:+ c.
Proof. apply str_bytes_inj. by rewrite !str_bytes_app, app_assoc. Qed.

Lemma find_char_app c s t :
  find_char c (s +:+ t) =
  match find_char c s with Some i => Some i | None => Nat.add (String.length s) <$> find_char c t end.
Proof.
  induction s as [|a s IH]; [simpl; change ("" +:+ t) with t; by destruct (find_char c t)|].
  change (find_char c (String a (s +:+ t)) = match find_char c (String a s) with
    | Some i => Some i | None => Nat.add (String.length (String a s)) <$> find_char c t end).
  simpl. destruct (ascii_dec a c); [done|]. rewrite IH.
  by destruct (find_char c s), (find_char c t).
Qed.
Lemma find_char_here c s t : find_char c s = None → find_char c (s +:+ String c t) = Some (String.length s).
Proof. intros H. rewrite find_char_app, H. simpl. destruct (ascii_dec c c); [|done]. simpl. f_equal. lia. Qed.
Lemma find_char_app_None c s t :
  find_char c (s +:+ t) = None ↔ find_char c s = None ∧ find_char c t = None.
Proof. rewrite find_char_app. destruct (find_char c s), (find_char c t); naive_solver. Qed.

Lemma rfind_char_here c s t : find_char c t = None → rfind_char c (s +:+ String c t) = Some (String.length s).
Proof.
  intros H%rfind_char_None. induction s as [|a s IH].
  - simpl. rewrite H. by destruct (ascii_dec c c).
  - change (match rfind_char c (s +:+ String c t) with Some i => Some (S i)
            | None => if ascii_dec a c then Some 0 else None end = Some (S (String.length s))).
    by rewrite IH.
Qed.

Lemma starts_with_app p s : starts_with p (p +:+ s) = true.
Proof. apply bool_decide_eq_true_2. rewrite strip_prefix_app. by eexists. Qed.
Lemma find_str_step sub s :
  find_str sub s = if starts_with sub s then Some 0
                   else match s with EmptyString => None | String _ s' => S <$> find_str sub s' end.
Proof. by destruct s. Qed.
Lemma find_str_here c u s t :
  find_char c s = None → find_str (String c u) (s +:+ String c u +:+ t) = Some (String.length s).
Proof.
  induction s as [|a s IH]; intros H; rewrite find_str_step.
  - change ("" +:+ String c u +:+ t) with (String c u +:+ t). by rewrite starts_with_app.
  - simpl in H. destruct (ascii_dec a c) as [|Hne]; [done|]. apply fmap_None in H.
    change (String a s +:+ String c u +:+ t) with (String a (s +:+ String c u +:+ t)).
    assert (Hs : starts_with (String c u) (String a (s +:+ String c u +:+ t)) = false).
    { unfold starts_with. cbn [strip_prefix]. by destruct (ascii_dec c a); [congruence|]. }
    rewrite Hs. exact (f_equal (fmap S) (IH H)).
Qed.

(** Splitting at a separator. *)
Lemma split_on_app c s t :
  find_char c s = None → split_on c (s +:+ String c t) = s :: split_on c t.
Proof.
  induction s as [|a s IH]; intros Hs.
  - simpl. by destruct (ascii_dec c c).
  - simpl in Hs. destruct (ascii_dec a c) eqn:E; [done|]. apply fmap_None in Hs.
    change (split_on c (String a (s +:+ String c t)) = String a s :: split_on c t).
    simpl. by rewrite E, (IH Hs).
Qed.
Lemma split_on_whole c s : find_char c s = None → split_on c s = [s].
Proof.
  induction s as [|a s IH]; intros Hs; [done|]. simpl in *. destruct (ascii_dec a c); [done|].
  apply fmap_None in Hs. by rewrite (IH Hs).
Qed.
