(* ===== verification/Text.v ===== *)
(** * White space and numbers in text ([str::trim], [str::parse])

    What [vars.rs] and the PID file need of Rust's standard library: trimming,
    where white space is Unicode's, and reading a machine integer. *)
From S2P Require Import Prelude Strs.
From stdpp Require Import pretty.

(** ** [str::trim] *)

(** The characters with the property [White_Space], as UTF-8: U+0009 to U+000D,
    U+0020; U+0085, U+00A0; U+1680, U+2000 to U+200A, U+2028, U+2029, U+202F,
    U+205F, U+3000. *)
Definition space1 (a : byte) : bool := in_range 9 13 a || in_range 32 32 a.
Definition space2 (a b : byte) : bool :=
  in_range 194 194 a && (in_range 133 133 b || in_range 160 160 b).
Definition space3 (a b c : byte) : bool :=
  in_range 225 225 a && in_range 154 154 b && in_range 128 128 c
  || in_range 226 226 a
     && (in_range 128 128 b
         && (in_range 128 138 c || in_range 168 169 c || in_range 175 175 c)
         || in_range 129 129 b && in_range 159 159 c)
  || in_range 227 227 a && in_range 128 128 b && in_range 128 128 c.

(** Dropping white space off one end; [two] and [three] read the bytes of a
    character in the order in which they are met. *)
Fixpoint skip_space (two : byte → byte → bool) (three : byte → byte → byte → bool)
    (s : bytes) : bytes :=
  match s with
  | a :: s1 =>
      if space1 a then skip_space two three s1 else
      match s1 with
      | b :: s2 =>
          if two a b then skip_space two three s2 else
          match s2 with
          | c :: s3 => if three a b c then skip_space two three s3 else s
          | [] => s
          end
      | [] => s
      end
  | [] => s
  end.

Definition trim_start (b : bytes) : bytes := skip_space space2 space3 b.
Definition trim_end (b : bytes) : bytes :=
  rev (skip_space (λ y x, space2 x y) (λ z y x, space3 x y z) (rev b)).
(** [s.trim()] *)
Definition trim (s : string) : string := bytes_str (trim_end (trim_start (str_bytes s))).

(** ** [str::parse] for machine integers *)

Definition digit (c : ascii) : option Z :=
  if in_range 48 57 c then Some (Z.of_N (to_u8 c) - 48)%Z else None.

(** [from_str_radix(_, 10)]: the digits after the sign, every step checked for
    overflow; [sign] is 1 or -1. *)
Fixpoint digits (lo hi sign acc : Z) (s : string) : option Z :=
  match s with
  | EmptyString => Some acc
  | String c s' =>
      d ← digit c;
      let acc := (acc * 10 + sign * d)%Z in
      if bool_decide (lo ≤ acc ≤ hi)%Z then digits lo hi sign acc s' else None
  end.
Definition parse_int (signed : bool) (lo hi : Z) (s : string) : option Z :=
  match s with
  | EmptyString => None
  | String c s' =>
      if ascii_dec c "+" then if is_empty s' then None else digits lo hi 1 0 s'
      else if ascii_dec c "-" then
        if is_empty s' then None else if signed then digits lo hi (-1) 0 s' else None
      else digits lo hi 1 0 s
  end.
(** [parse::<usize>()] on a 64-bit machine, [parse::<i32>()]. *)
Definition parse_usize (s : string) : option N := Z.to_N <$> parse_int false 0 (2 ^ 64 - 1) s.
Definition parse_i32 (s : string) : option Z := parse_int true (- 2 ^ 31) (2 ^ 31 - 1) s.

(** ** Lemmas *)

(** A text that neither begins nor ends like white space is left alone. *)
Lemma skip_space_id two three a s :
  space1 a = false → (∀ b, two a b = false) → (∀ b c, three a b c = false) →
  skip_space two three (a :: s) = a :: s.
Proof. intros H1 H2 H3. simpl. rewrite H1. destruct s as [|b [|c s]]; rewrite ?H2, ?H3; done. Qed.

Lemma in_range_false lo hi c : (to_u8 c < lo ∨ hi < to_u8 c)%N → in_range lo hi c = false.
Proof. intros H. apply andb_false_iff. rewrite !N.leb_gt. lia. Qed.
Lemma in_range_true lo hi c : (lo ≤ to_u8 c ≤ hi)%N → in_range lo hi c = true.
Proof. intros H. apply andb_true_iff. rewrite !N.leb_le. lia. Qed.

Lemma skip_printable two three b :
  (∀ x y, (to_u8 x < 127)%N → two x y = false) →
  (∀ x y z, (to_u8 x < 127)%N → three x y z = false) →
  printable b → skip_space two three b = b.
Proof.
  intros H2 H3. destruct 1 as [|a s Ha _]; [done|].
  apply skip_space_id; [|intros; apply H2; lia|intros; apply H3; lia].
  unfold space1. by rewrite !in_range_false by lia.
Qed.

Lemma trim_printable s : printable (str_bytes s) → trim s = s.
Proof.
  intros Hs. unfold trim, trim_end, trim_start.
  assert (Hin : ∀ lo hi x, (to_u8 x < 127)%N → (127 < lo)%N → in_range lo hi x = false)
    by (intros; apply in_range_false; lia).
  rewrite (skip_printable space2 space3 (str_bytes s)).
  - rewrite (skip_printable _ _ (rev (str_bytes s))).
    + rewrite rev_involutive. apply string_of_list_ascii_of_string.
    + intros x y Hx. unfold space2. by rewrite !(Hin _ _ x), andb_false_r.
    + intros x y z Hx. unfold space3. by rewrite !(Hin _ _ x), !andb_false_r.
    + apply Forall_rev, Hs.
  - intros x y Hx. unfold space2. by rewrite !(Hin _ _ x).
  - intros x y z Hx. unfold space3. by rewrite !(Hin _ _ x).
  - done.
Qed.

(** The decimal number a text of digits stands for, with no bound. *)
Fixpoint decimal (acc : Z) (s : string) : option Z :=
  match s with
  | EmptyString => Some acc
  | String c s' => d ← digit c; decimal (acc * 10 + d) s'
  end.

Lemma digit_char c d : digit c = Some d → (48 ≤ to_u8 c ≤ 57)%N ∧ d = (Z.of_N (to_u8 c) - 48)%Z.
Proof.
  unfold digit. destruct (in_range 48 57 c) eqn:E; [|done]. intros [= <-].
  by apply andb_true_iff in E as [E1%N.leb_le E2%N.leb_le].
Qed.
Lemma digit_bounds c d : digit c = Some d → (0 ≤ d ≤ 9)%Z.
Proof. intros [? ->]%digit_char. lia. Qed.

Lemma decimal_grows acc s v : (0 ≤ acc)%Z → decimal acc s = Some v → (acc ≤ v)%Z.
Proof.
  revert acc. induction s as [|c s IH]; intros acc Ha; simpl; [by intros [= <-]|].
  destruct (digit c) as [d|] eqn:Ed; [|done]. apply digit_bounds in Ed. simpl. intros H.
  apply IH in H; lia.
Qed.

(** The checked reading is the unbounded one, refused when the number is too large. *)
Lemma digits_decimal hi acc s :
  (0 ≤ acc ≤ hi)%Z →
  digits 0 hi 1 acc s = (v ← decimal acc s; if bool_decide (v ≤ hi)%Z then Some v else None).
Proof.
  revert acc. induction s as [|c s IH]; intros acc Ha; simpl.
  - by rewrite bool_decide_eq_true_2 by lia.
  - destruct (digit c) as [d|] eqn:Ed; [|done]. pose proof (digit_bounds _ _ Ed). simpl.
    replace (1 * d)%Z with d by lia. case_bool_decide as Hb; [by apply IH; lia|].
    destruct (decimal (acc * 10 + d) s) as [v|] eqn:Ev; [|done]. simpl.
    apply decimal_grows in Ev; [|lia]. by rewrite bool_decide_eq_false_2 by lia.
Qed.

(** The lower bound plays no part for a number without a minus sign. *)
Lemma digits_lo lo hi acc s : (lo ≤ 0 ≤ acc)%Z → digits lo hi 1 acc s = digits 0 hi 1 acc s.
Proof.
  revert acc. induction s as [|c s IH]; intros acc Ha; simpl; [done|].
  destruct (digit c) as [d|] eqn:Ed; [|done]. apply digit_bounds in Ed. simpl.
  rewrite (bool_decide_ext (lo ≤ acc * 10 + 1 * d ≤ hi)%Z (0 ≤ acc * 10 + 1 * d ≤ hi)%Z) by lia.
  case_bool_decide; [apply IH; lia|done].
Qed.

(** Printed numbers read back. *)
Lemma digit_pretty (x : N) : (x < 10)%N → digit (pretty_N_char x) = Some (Z.of_N x).
Proof.
  intros Hx.
  assert (H : Forall (λ x, digit (pretty_N_char x) = Some (Z.of_N x)) (N.of_nat <$> seq 0 10))
    by (by repeat constructor).
  rewrite Forall_forall in H. apply H, list_elem_of_fmap. exists (N.to_nat x).
  split; [lia|]. apply elem_of_seq. lia.
Qed.

Lemma decimal_pretty_go x s : decimal 0 (pretty_N_go x s) = decimal (Z.of_N x) s.
Proof.
  revert s. induction (N.lt_wf_0 x) as [x _ IH]; intros s.
  destruct (decide (0 < x)%N) as [Hx|Hx]; [|by replace x with 0%N by lia].
  rewrite pretty_N_go_step, IH by (done || by apply N.div_lt). simpl.
  rewrite digit_pretty by (by apply N.mod_lt). simpl. f_equal.
  rewrite (N.div_mod x 10) at 3 by done. lia.
Qed.
Lemma decimal_pretty (x : N) : decimal 0 (pretty x) = Some (Z.of_N x).
Proof. unfold pretty, pretty_N. case_decide; [by subst|]. apply decimal_pretty_go. Qed.

Lemma printable_pretty_go x s : printable (str_bytes s) → printable (str_bytes (pretty_N_go x s)).
Proof.
  revert s. induction (N.lt_wf_0 x) as [x _ IH]; intros s Hs.
  destruct (decide (0 < x)%N) as [Hx|Hx]; [|by replace x with 0%N by lia].
  rewrite pretty_N_go_step by done. apply IH; [by apply N.div_lt|].
  assert (E10 : 10%N ≠ 0%N) by done.
  constructor; [|exact Hs]. apply (N.mod_lt x) in E10. apply digit_pretty, digit_char in E10. lia.
Qed.
Lemma printable_pretty (x : N) : printable (str_bytes (pretty x)).
Proof.
  unfold pretty, pretty_N. case_decide; [by repeat constructor|]. apply printable_pretty_go. constructor.
Qed.

(** A text of digits is read whatever the type, if its value fits. *)
Lemma parse_int_decimal signed lo hi s v :
  (lo ≤ 0 ≤ hi)%Z → s ≠ EmptyString → decimal 0 s = Some v → (v ≤ hi)%Z →
  parse_int signed lo hi s = Some v.
Proof.
  intros Hr Hs Hv Hle. destruct s as [|c s]; [done|].
  assert (Hd : digits lo hi 1 0 (String c s) = Some v).
  { rewrite digits_lo, digits_decimal by lia. rewrite Hv. simpl. by rewrite bool_decide_eq_true_2. }
  assert (Hc : ∃ d, digit c = Some d) by (simpl in Hv; destruct (digit c); naive_solver).
  destruct Hc as (d & [Hc _]%digit_char). unfold parse_int.
  do 2 (destruct (ascii_dec c _) as [->|_]; [vm_compute in Hc; naive_solver|]). done.
Qed.

Lemma pretty_nonempty (n : N) : pretty n ≠ EmptyString.
Proof.
  pose proof (decimal_pretty n) as H. intros E. rewrite E in H. simpl in H. simplify_eq.
  assert (n = 0%N) as -> by lia. done.
Qed.
Lemma parse_usize_pretty (n : N) : (n < 2 ^ 64)%N → parse_usize (pretty n) = Some n.
Proof.
  intros Hn. unfold parse_usize.
  rewrite (parse_int_decimal _ _ _ _ (Z.of_N n)); [simpl; f_equal; lia|lia| |apply decimal_pretty|lia].
  apply pretty_nonempty.
Qed.
Lemma parse_i32_pretty (n : N) : (n < 2 ^ 31)%N → parse_i32 (pretty n) = Some (Z.of_N n).
Proof.
  intros Hn. apply parse_int_decimal; [lia|apply pretty_nonempty|apply decimal_pretty|lia].
Qed.
