(* ===== verification/Vars.v ===== *)
(** * The configuration ([linastore-server/src/vars.rs])

    The server is configured by environment variables, read once and validated
    before anything listens.  The environment of the process is a map from
    names to bytes.  The lines written to the log are part of the result: one of
    them shows the database's URL.  [debug] is the [{:?}] format of a text. *)
From S2P Require Import Prelude Io Strs Text.

(** [std::env::var(name).ok()]: unset and not UTF-8 look the same. *)
Abbreviation environment := (gmap string bytes).
Definition env_var (env : environment) (name : string) : option string := env !! name ≫= from_utf8.

Record EnvVar := mkEnvVar {
  ip_address : string;
  advanced_port : string;
  http_port : string;
  s3_port : string;
  max_payload_size : N;
  auth_required : bool;
  admin_username : string;
  admin_password : option string;
  db_url : string;
  init_errors : list string
}.

Definition parse_truthy (raw : string) : option bool :=
  let word := to_ascii_lowercase (trim raw) in
  if bool_decide (word ∈ ["1"; "true"; "yes"; "on"]%string) then Some true
  else if bool_decide (word ∈ [""; "0"; "false"; "no"; "off"]%string) then Some false
  else None.

Definition mask_db_url (url : string) : string :=
  match find_char "@" url with
  | Some at_pos =>
      match rfind_char ":" (str_take at_pos url) with
      | Some colon_pos =>
          match find_str "://" url with
          | Some protocol_end =>
              if protocol_end + 3 <? colon_pos
              then str_take (colon_pos + 1) url +:+ "***" +:+ str_drop at_pos url
              else url
          | None => url
          end
      | None => url
      end
  | None => url
  end.

Section Vars.
Context (debug : string → string).

(** [env::var(name).unwrap_or_else(..)], with the line it logs. *)
Definition var_or (env : environment) (name default_ : string) : list string * string :=
  match env_var env name with
  | Some v => ([], v)
  | None => ([name +:+ " not set, using default"], default_)
  end.

Definition read_admin_password_from_env (env : environment) : option string :=
  v ← env_var env "LINASTORE_ADMIN_PASSWORD"; if is_empty (trim v) then None else Some v.

(** The size, the errors and the lines logged. *)
Definition read_max_payload_size (env : environment) : N * list string * list string :=
  match env_var env "LINASTORE_MAX_PAYLOAD_SIZE" with
  | Some raw =>
      match parse_usize (trim raw) with
      | Some v => (v, [], [])
      | None => (0x4000000%N, ["LINASTORE_MAX_PAYLOAD_SIZE is not a valid usize: " +:+ debug raw], [])
      end
  | None => (0x4000000%N, [], ["LINASTORE_MAX_PAYLOAD_SIZE not set, using default"%string])
  end.

Definition read_auth_required (env : environment) : bool * list string :=
  match env_var env "LINASTORE_AUTH_REQUIRED" with
  | Some raw =>
      match parse_truthy raw with
      | Some v => (v, [])
      | None => (false, ["LINASTORE_AUTH_REQUIRED has unrecognized value " +:+ debug raw
                         +:+ " (expected 1/true/yes/on or 0/false/no/off)"])
      end
  | None => (false, [])
  end.

Definition read_admin_username (env : environment) : string :=
  match env_var env "LINASTORE_ADMIN_USER" with
  | Some v => if is_empty v then "admin" else v
  | None => "admin"
  end.

(** [EnvVar::initialize], with the lines it logs. *)
Definition initialize (env : environment) : EnvVar * list string :=
  let '(l1, ip_address) := var_or env "LINASTORE_IP" "127.0.0.1" in
  let '(l2, http_port) := var_or env "LINASTORE_HTTP_PORT" "8086" in
  let '(l3, advanced_port) := var_or env "LINASTORE_ADVANCED_PORT" "8096" in
  let '(l4, s3_port) := var_or env "LINASTORE_S3_PORT" "8087" in
  let '(max_payload_size, e1, l5) := read_max_payload_size env in
  let '(auth_required, e2) := read_auth_required env in
  let '(l6, db_url) := var_or env "LINASTORE_DB_URL" "sqlite://./linadata/meta.db" in
  let '(admin_username, admin_password) :=
    if auth_required then (read_admin_username env, read_admin_password_from_env env)
    else (EmptyString, None) in
  let l7 := if auth_required then "Password protection is enabled for advanced service"%string
            else "Password protection is disabled - advanced service is open"%string in
  (mkEnvVar ip_address advanced_port http_port s3_port max_payload_size auth_required
     admin_username admin_password db_url (e1 ++ e2),
   l1 ++ l2 ++ l3 ++ l4 ++ l5 ++ l6 ++ [l7; "Database URL: " +:+ mask_db_url db_url]).

Definition NL : string := String (byte_of 10) EmptyString.
Definition validate (v : EnvVar) : Error + unit :=
  if bool_decide (init_errors v ≠ []) then
    inl (AnyhowError ("Invalid LINASTORE_* environment configuration:" +:+ NL +:+ "  - "
                      +:+ join (NL +:+ "  - ") (init_errors v)))
  else if (max_payload_size v =? 0)%N then
    inl (AnyhowError "LINASTORE_MAX_PAYLOAD_SIZE must be greater than 0.")
  else if Vars.auth_required v && bool_decide (admin_password v = None) then
    inl (AnyhowError "Authentication is enabled, but no admin password was provided. Set LINASTORE_ADMIN_PASSWORD.")
  else inr tt.
End Vars.

(** ** What a well-formed configuration is, stated without the code *)

Definition on_words : list string := ["1"; "true"; "yes"; "on"].
Definition off_words : list string := [""; "0"; "false"; "no"; "off"].
(** A variable is set to one of the words, up to case and surrounding space. *)
Definition says (words : list string) (env : environment) (name : string) : Prop :=
  ∃ raw, env_var env name = Some raw ∧ to_ascii_lowercase (trim raw) ∈ words.
(** A text is a decimal numeral, with or without a plus sign, of a positive
    64-bit number. *)
Definition numeral (s : string) (n : N) : Prop :=
  ∃ ds, (s = ds ∨ s = String "+" ds) ∧ ds ≠ EmptyString ∧ decimal 0 ds = Some (Z.of_N n).

Record well_configured (env : environment) : Prop := {
  wc_size raw : env_var env "LINASTORE_MAX_PAYLOAD_SIZE" = Some raw →
    ∃ n, numeral (trim raw) n ∧ (0 < n < 2 ^ 64)%N;
  wc_switch : is_Some (env_var env "LINASTORE_AUTH_REQUIRED") →
    says (on_words ++ off_words) env "LINASTORE_AUTH_REQUIRED";
  wc_password : says on_words env "LINASTORE_AUTH_REQUIRED" →
    ∃ pw, env_var env "LINASTORE_ADMIN_PASSWORD" = Some pw ∧ trim pw ≠ EmptyString
}.

(** ** Lemmas *)

Lemma parse_truthy_true raw :
  parse_truthy raw = Some true ↔ to_ascii_lowercase (trim raw) ∈ on_words.
Proof. unfold parse_truthy. repeat case_bool_decide; naive_solver. Qed.
Lemma parse_truthy_None raw :
  parse_truthy raw = None ↔ to_ascii_lowercase (trim raw) ∉ on_words ++ off_words.
Proof. unfold parse_truthy. rewrite elem_of_app. repeat case_bool_decide; naive_solver. Qed.

Lemma digit_sign c s v : c = "+"%char ∨ c = "-"%char → decimal 0 (String c s) = Some v → False.
Proof. by intros [-> | ->]. Qed.

Lemma parse_usize_spec s n : parse_usize s = Some n ↔ numeral s n ∧ (n < 2 ^ 64)%N.
Proof.
  assert (Hd : ∀ ds, (v ← digits 0 (2 ^ 64 - 1) 1 0 ds; Some (Z.to_N v)) = Some n ↔
                     decimal 0 ds = Some (Z.of_N n) ∧ (n < 2 ^ 64)%N).
  { intros ds. rewrite digits_decimal by lia. destruct (decimal 0 ds) as [v|] eqn:Ev; [|naive_solver].
    apply decimal_grows in Ev; [|lia]. simpl. case_bool_decide; simpl;
    (split; [intros E|intros [E ?]]); simplify_eq; repeat split; try lia; f_equal; lia. }
  unfold parse_usize, numeral. destruct s as [|c s]; simpl parse_int.
  { split; [done|]. intros [(ds & [<-|?] & ? & ?) ?]; done. }
  change (Z.to_N <$> ?o) with (v ← o; Some (Z.to_N v)).
  destruct (ascii_dec c "+") as [->|Hp]; [|destruct (ascii_dec c "-") as [->|Hm]].
  - destruct s as [|c s]; [|rewrite (Hd (String c s))].
    { simpl. split; [done|]. intros [(ds & [<-|[= <-]] & ? & ?) ?]; done. }
    split; [intros [? ?]; split; [exists (String c s); naive_solver|done]|].
    intros [(ds & [<-|[= <-]] & ? & Hv) ?]; [|done]. by apply digit_sign in Hv; [|left].
  - split; [by destruct s|]. intros [(ds & [<-|[= ]] & ? & Hv) ?]. by apply digit_sign in Hv; [|right].
  - rewrite (Hd (String c s)). split; [intros [? ?]; split; [exists (String c s); naive_solver|done]|].
    intros [(ds & [<-|[= ? ?]] & ? & Hv) ?]; done.
Qed.

Section VarsProofs.
Context (debug : string → string).

(** What [initialize] leaves in the fields, whatever it logs. *)
Lemma initialize_fields env :
  let v := (initialize debug env).1 in
  max_payload_size v = (read_max_payload_size debug env).1.1 ∧
  init_errors v = (read_max_payload_size debug env).1.2 ++ (read_auth_required debug env).2 ∧
  auth_required v = (read_auth_required debug env).1 ∧
  admin_password v = (if auth_required v then read_admin_password_from_env env else None) ∧
  db_url v = (var_or env "LINASTORE_DB_URL" "sqlite://./linadata/meta.db").2.
Proof.
  unfold initialize. destruct (read_max_payload_size debug env) as [[n e1] l5],
    (read_auth_required debug env) as [auth e2].
  repeat (destruct (var_or _ _ _) as [? ?]). by destruct auth.
Qed.

Lemma read_auth_cases env :
  match read_auth_required debug env with
  | (true, []) => says on_words env "LINASTORE_AUTH_REQUIRED"
  | (true, _) => False
  | (false, []) => ¬ says on_words env "LINASTORE_AUTH_REQUIRED" ∧
                   (is_Some (env_var env "LINASTORE_AUTH_REQUIRED") →
                    says (on_words ++ off_words) env "LINASTORE_AUTH_REQUIRED")
  | (false, _) => ¬ says (on_words ++ off_words) env "LINASTORE_AUTH_REQUIRED" ∧
                  is_Some (env_var env "LINASTORE_AUTH_REQUIRED")
  end.
Proof.
  unfold read_auth_required, says.
  destruct (env_var env _) as [raw|]; [|by split; [intros (? & ? & ?)|intros [? ?]]].
  destruct (parse_truthy raw) as [[]|] eqn:E.
  - exists raw. split; [done|]. by apply parse_truthy_true.
  - split; [intros (? & [= <-] & Hon%parse_truthy_true); congruence|].
    intros _. exists raw. split; [done|].
    destruct (decide (to_ascii_lowercase (trim raw) ∈ on_words ++ off_words)) as [|Hn%parse_truthy_None];
      [done|congruence].
  - apply parse_truthy_None in E. split; [|done]. by intros (? & [= <-] & ?).
Qed.

Lemma read_size_cases env :
  match read_max_payload_size debug env with
  | (n, [], _) => (∀ raw, env_var env "LINASTORE_MAX_PAYLOAD_SIZE" = Some raw → numeral (trim raw) n)
                  ∧ (env_var env "LINASTORE_MAX_PAYLOAD_SIZE" = None → n = 0x4000000%N) ∧ (n < 2 ^ 64)%N
  | (_, _, _) => ∃ raw, env_var env "LINASTORE_MAX_PAYLOAD_SIZE" = Some raw ∧
                        ∀ n, (n < 2 ^ 64)%N → ¬ numeral (trim raw) n
  end.
Proof.
  unfold read_max_payload_size. destruct (env_var env _) as [raw|]; [|done].
  destruct (parse_usize (trim raw)) as [n|] eqn:E.
  - apply parse_usize_spec in E as [E ?]. split; [by intros ? [= <-]|done].
  - exists raw. split; [done|]. intros n Hn Hnum.
    by rewrite (proj2 (parse_usize_spec _ n)) in E.
Qed.

Lemma numeral_unique s n n' : numeral s n → numeral s n' → n = n'.
Proof.
  intros (ds & Hs & _ & Hd) (ds' & Hs' & _ & Hd').
  destruct Hs as [-> | ->], Hs' as [<-|E]; simplify_eq; try lia;
    exfalso; eapply digit_sign; eauto.
Qed.

Lemma validate_Ok v :
  validate v = inr tt ↔ init_errors v = [] ∧ max_payload_size v ≠ 0%N ∧
    (auth_required v = true → is_Some (admin_password v)).
Proof.
  unfold validate. case_bool_decide as He; [naive_solver|].
  destruct (N.eqb_spec (max_payload_size v) 0); [naive_solver|].
  destruct (auth_required v); simpl; [|naive_solver].
  case_bool_decide as Hp; [rewrite Hp|apply not_eq_None_Some in Hp]; [|naive_solver].
  split; [done|]. by intros (_ & _ & [? ?]).
Qed.

Lemma read_password env : 
  is_Some (read_admin_password_from_env env) ↔
  ∃ pw, env_var env "LINASTORE_ADMIN_PASSWORD" = Some pw ∧ trim pw ≠ EmptyString.
Proof.
  unfold read_admin_password_from_env. destruct (env_var env _) as [pw|]; simpl;
    [|split; [by intros [? ?]|naive_solver]].
  destruct (trim pw) eqn:E; simpl; [split; [by intros [? ?]|]|split; [|by eauto]].
  - intros (? & ? & ?). congruence.
  - intros _. exists pw. by rewrite E.
Qed.

(** When validation accepts, and what the fields then are. *)
Lemma validate_well_configured env (v := (initialize debug env).1) :
  (validate v = inr tt ↔ well_configured env) ∧
  (auth_required v = true ↔ says on_words env "LINASTORE_AUTH_REQUIRED") ∧
  (∀ pw, admin_password v = Some pw → env_var env "LINASTORE_ADMIN_PASSWORD" = Some pw).
Proof.
  destruct (initialize_fields env) as (Hn & He & Ha & Hp & _). fold v in Hn, He, Ha, Hp.
  rewrite validate_Ok, He, Hn, Hp, !Ha.
  pose proof (read_auth_cases env) as Hauth. pose proof (read_size_cases env) as Hsize.
  destruct (read_auth_required debug env) as [auth e2], (read_max_payload_size debug env) as [[n e1] l].
  simpl.
  assert (Hon : says on_words env "LINASTORE_AUTH_REQUIRED" →
                says (on_words ++ off_words) env "LINASTORE_AUTH_REQUIRED").
  { intros (raw & ? & ?). exists raw. rewrite elem_of_app. eauto. }
  assert (Hsw : auth = true ↔ says on_words env "LINASTORE_AUTH_REQUIRED").
  { destruct auth, e2; try done; (split; [intros ?|intros Hs]); try done; destruct Hauth as [Hno _]; by destruct Hno; auto. }
  split_and!; [|done|].
  - split.
    + intros ([-> ->]%app_nil & Hpos & Hpw). destruct Hsize as (Hnum & _ & Hlt). split.
      * intros raw Hraw. exists n. split; [by apply Hnum|lia].
      * destruct auth; [by auto|apply Hauth].
      * intros ->%Hsw. by apply read_password, Hpw.
    + intros [Hs Hw Hpw].
      assert (e1 = []) as ->.
      { destruct e1; [done|]. destruct Hsize as (raw & Hraw & Hno).
        destruct (Hs raw Hraw) as (k & Hk & ?). exfalso. apply (Hno k); [lia|done]. }
      assert (e2 = []) as -> by (destruct auth, e2; naive_solver).
      destruct Hsize as (Hnum & Hdef & _). split; [done|]. split.
      * destruct (env_var env "LINASTORE_MAX_PAYLOAD_SIZE") as [raw|] eqn:Hraw; [|by rewrite Hdef].
        destruct (Hs raw eq_refl) as (k & Hk & ?). rewrite (numeral_unique _ _ _ (Hnum raw eq_refl) Hk). lia.
      * intros ->. by apply read_password, Hpw, Hsw.
  - intros pw. destruct auth; [|done]. unfold read_admin_password_from_env.
    destruct (env_var env "LINASTORE_ADMIN_PASSWORD") as [x|]; simpl; [|done]. by destruct (is_empty _); intros [= <-].
Qed.

(** ** The database's URL in the log *)

Definition url (scheme user pw rest : string) : string :=
  scheme +:+ "://" +:+ user +:+ ":" +:+ pw +:+ "@" +:+ rest.

Lemma mask_db_url_hides scheme user pw rest :
  find_char ":" scheme = None → find_char "@" scheme = None → find_char "@" user = None →
  user ≠ EmptyString → find_char "@" pw = None → find_char ":" pw = None →
  mask_db_url (url scheme user pw rest) = url scheme user "***" rest.
Proof.
  intros Hs1 Hs2 Hu Hne Hp1 Hp2. unfold mask_db_url.
  assert (E1 : url scheme user pw rest = (scheme +:+ "://" +:+ user +:+ ":" +:+ pw) +:+ String "@" rest)
    by (unfold url; rewrite !str_app_assoc; done).
  assert (E2 : scheme +:+ "://" +:+ user +:+ ":" +:+ pw = (scheme +:+ "://" +:+ user) +:+ String ":" pw)
    by (rewrite !str_app_assoc; done).
  rewrite E1 at 1. rewrite find_char_here.
  2: { rewrite !find_char_app_None. repeat split; done. }
  rewrite E1 at 1. rewrite str_take_app, E2, rfind_char_here by done.
  unfold url at 1. rewrite (find_str_here ":" "//") by done.
  rewrite (proj2 (Nat.ltb_lt _ _)).
  2: { rewrite !str_length_app. simpl. destruct user; [done|simpl; lia]. }
  rewrite <- E2, E1, str_drop_app.
  replace (String.length (scheme +:+ "://" +:+ user) + 1)
    with (String.length ((scheme +:+ "://" +:+ user) +:+ ":")) by (rewrite str_length_app; done).
  replace ((scheme +:+ "://" +:+ user +:+ ":" +:+ pw) +:+ String "@" rest)
    with (((scheme +:+ "://" +:+ user) +:+ ":") +:+ pw +:+ String "@" rest)
    by (rewrite !str_app_assoc; done).
  rewrite str_take_app. unfold url. by rewrite !str_app_assoc.
Qed.
Lemma env_var_insert env name s :
  valid_utf8 (str_bytes s) = true → env_var (<[name := str_bytes s]> env) name = Some s.
Proof. intros H. unfold env_var, from_utf8. rewrite lookup_insert_eq. simpl. by rewrite H, bytes_str_bytes. Qed.
Lemma env_var_insert_ne env name name' b :
  name ≠ name' → env_var (<[name := b]> env) name' = env_var env name'.
Proof. intros H. unfold env_var. by rewrite lookup_insert_ne. Qed.

(** What is logged depends on the database's URL only through its masked form. *)
Lemma initialize_log env env' :
  (∀ name, name ≠ "LINASTORE_DB_URL"%string → env_var env' name = env_var env name) →
  (is_Some (env_var env "LINASTORE_DB_URL") ↔ is_Some (env_var env' "LINASTORE_DB_URL")) →
  mask_db_url (db_url (initialize debug env).1) = mask_db_url (db_url (initialize debug env').1) →
  (initialize debug env).2 = (initialize debug env').2.
Proof.
  intros Hsame Hset.
  assert (Hor : ∀ n d, n ≠ "LINASTORE_DB_URL"%string → var_or env' n d = var_or env n d)
    by (intros n d Hn; unfold var_or; by rewrite Hsame).
  assert (Hl : (var_or env "LINASTORE_DB_URL" "sqlite://./linadata/meta.db").1 =
               (var_or env' "LINASTORE_DB_URL" "sqlite://./linadata/meta.db").1).
  { unfold var_or. destruct (env_var env "LINASTORE_DB_URL") eqn:E, (env_var env' "LINASTORE_DB_URL") eqn:E';
      rewrite ?E, ?E' in *; unfold is_Some in Hset; naive_solver. }
  unfold initialize, read_max_payload_size, read_auth_required, read_admin_username,
    read_admin_password_from_env. rewrite !Hor, !Hsame by done.
  destruct (var_or env "LINASTORE_DB_URL" _) as [l u], (var_or env' "LINASTORE_DB_URL" _) as [l' u'].
  simpl in Hl. subst l'. do 4 destruct (var_or env _ _).
  destruct (match env_var env "LINASTORE_MAX_PAYLOAD_SIZE" with Some _ => _ | None => _ end) as [[? ?] ?].
  destruct (match env_var env "LINASTORE_AUTH_REQUIRED" with Some _ => _ | None => _ end) as [[] ?];
    cbn [fst snd db_url]; by intros ->.
Qed.

(** The start-up log of the configuration does not depend on the
    password in the database's URL, as long as the URL names a user and the
    password has neither an at sign nor a colon: two configurations that differ
    in such a password only log the same lines. *)
Theorem log_hides_password env scheme user pw pw' rest :
  find_char ":" scheme = None → find_char "@" scheme = None → find_char "@" user = None →
  user ≠ EmptyString →
  Forall (λ p, find_char "@" p = None ∧ find_char ":" p = None ∧
               valid_utf8 (str_bytes (url scheme user p rest)) = true) [pw; pw'] →
  (initialize debug (<["LINASTORE_DB_URL" := str_bytes (url scheme user pw rest)]> env)).2 =
  (initialize debug (<["LINASTORE_DB_URL" := str_bytes (url scheme user pw' rest)]> env)).2.
Proof.
  intros Hs1 Hs2 Hu Hne [(Ha & Hc & Hv) [(Ha' & Hc' & Hv') _]%Forall_cons]%Forall_cons.
  apply initialize_log.
  - intros name Hn. by rewrite !env_var_insert_ne.
  - rewrite !env_var_insert by done. split; eauto.
  - assert (Hdb : ∀ p, valid_utf8 (str_bytes (url scheme user p rest)) = true →
      db_url (initialize debug (<["LINASTORE_DB_URL" := str_bytes (url scheme user p rest)]> env)).1 =
      url scheme user p rest).
    { intros p Hp. destruct (initialize_fields (<["LINASTORE_DB_URL" := str_bytes (url scheme user p rest)]> env))
        as (_ & _ & _ & _ & ->). unfold var_or. by rewrite env_var_insert. }
    rewrite !Hdb, !mask_db_url_hides by done. done.
Qed.

(** Beyond the first at sign of a password nothing is masked. *)
Lemma mask_db_url_leaks scheme user pw1 pw2 rest :
  find_char ":" scheme = None → find_char "@" scheme = None → find_char "@" user = None →
  user ≠ EmptyString → find_char "@" pw1 = None → find_char ":" pw1 = None →
  mask_db_url (url scheme user (pw1 +:+ "@" +:+ pw2) rest) = url scheme user "***" (pw2 +:+ "@" +:+ rest).
Proof.
  intros. rewrite <- (mask_db_url_hides scheme user pw1) by done. f_equal.
  unfold url. by rewrite !str_app_assoc.
Qed.

(** A switch that is not UTF-8 counts as unset: the server starts open. *)
Lemma unreadable_switch env b :
  env !! "LINASTORE_AUTH_REQUIRED"%string = Some b → valid_utf8 b = false →
  env_var env "LINASTORE_MAX_PAYLOAD_SIZE" = None →
  let v := (initialize debug env).1 in auth_required v = false ∧ validate v = inr tt.
Proof.
  intros Hb Hv Hs v. destruct (initialize_fields env) as (Hn & He & Ha & _). fold v in Hn, He, Ha.
  assert (Hnone : env_var env "LINASTORE_AUTH_REQUIRED" = None)
    by (unfold env_var, from_utf8; rewrite Hb; simpl; by rewrite Hv).
  unfold read_auth_required in *. rewrite Hnone in *. split; [done|]. apply validate_Ok.
  rewrite Hn, He, Ha. unfold read_max_payload_size. by rewrite Hs.
Qed.
End VarsProofs.

(** ** Worked examples *)

Lemma log_hides_password_witness :
  (initialize id (<["LINASTORE_DB_URL" := str_bytes (url "mysql" "lina" "one" "db/lina")]> ∅)).2 =
  (initialize id (<["LINASTORE_DB_URL" := str_bytes (url "mysql" "lina" "another" "db/lina")]> ∅)).2.
Proof. apply log_hides_password; [done..|]. repeat constructor. Defined.

Definition example_env : environment :=
  list_to_map [("LINASTORE_AUTH_REQUIRED", str_bytes " Yes"); ("LINASTORE_ADMIN_PASSWORD", str_bytes "pw");
               ("LINASTORE_MAX_PAYLOAD_SIZE", str_bytes "+4096")]%string.
Example example_env_accepted :
  let v := (initialize id example_env).1 in
  validate v = inr tt ∧ auth_required v = true ∧ max_payload_size v = 4096%N ∧
  admin_username v = "admin"%string ∧ http_port v = "8086"%string.
Proof. by vm_compute. Qed.
Example mask_examples :
  mask_db_url "mysql://lina:pw@db/lina" = "mysql://lina:***@db/lina"%string ∧
  mask_db_url "mysql://lina:p@w@db/lina" = "mysql://lina:***@w@db/lina"%string ∧
  mask_db_url "mysql://:pw@db/lina" = "mysql://:pw@db/lina"%string ∧
  mask_db_url "sqlite://./linadata/meta.db" = "sqlite://./linadata/meta.db"%string.
Proof. by vm_compute. Qed.
