(* ===== verification/ObjectStore.v ===== *)
(** * What an object store promises its clients

    The worker and the front ends use the store manager through three
    operations.  [ObjectStore] names them, with the map from names to contents
    a run stands for; [ObjectStoreLaws] is the promise: each operation refines
    the operation on that map, all or nothing under one failure.  Manager.v
    proves it of [StoreManager]; the clients' theorems use nothing else. *)
From S2P Require Import Prelude Io Runs Strs.

Class ObjectStore (St : Type) := {
  obj_put : string → bytes → bool → bool → IO St unit;      (* name, data, cover, compressed *)
  obj_get : string → IO St bytes;
  obj_delete : string → IO St unit;
  stands_for : Env St → gmap string bytes → Prop;
  (** The contents can be added: no hash collision, no counter at its limit. *)
  admissible : gmap string bytes → bytes → Prop;
  removable : gmap string bytes → Prop
}.

Class ObjectStoreLaws (St : Type) `{OS : ObjectStore St} : Prop := {
  (** Only what is stored and which identifiers are taken matters. *)
  stands_for_ext : ∀ w w' m, stands_for w m → state w' = state w → draws w ≤ draws w' →
    stands_for w' m;
  put_law : ∀ w m n d cover cmp,
    stands_for w m → one_failure (fates w) → is_empty n = false → admissible m d →
    ends w (λ w', stands_for w' m) (λ _ w', stands_for w' (<[n := d]> m)) (obj_put n d cover cmp w);
  delete_law : ∀ w m n,
    stands_for w m → one_failure (fates w) → is_empty n = false → removable m →
    ends w (λ w', stands_for w' m) (λ _ w', stands_for w' (delete n m)) (obj_delete n w);
  get_law : ∀ w m n d,
    stands_for w m → one_failure (fates w) → is_empty n = false → m !! n = Some d →
    ends w (λ w', stands_for w' m) (λ a w', a = d ∧ stands_for w' m) (obj_get n w);
  get_absent_law : ∀ w m n,
    stands_for w m → one_failure (fates w) → is_empty n = false → m !! n = None →
    ∃ e w', obj_get n w = (Err e, w') ∧ stands_for w' m ∧ (failed w w' ∨ next w w');
  (** The operations are over at once: the clock moves between requests. *)
  put_timeless_law n d cover cmp :: Timeless (obj_put n d cover cmp);
  delete_timeless_law n :: Timeless (obj_delete n);
  get_timeless_law n :: Timeless (obj_get n)
}.
