(* ===== verification/Wire.v ===== *)
(** * The LiNa wire protocol

    [linastore-server/src/dtos.rs] (messages, operation codes, statuses,
    packages) and the reading half of
    [linastore-server/src/front/advanced_service.rs]
    ([parse_protocol_message], [write_error_response]).

    The CRC comes from the crate [crc32fast] and the growth of the receive
    buffer from the crate [bytes]: both are parameters of the sections below. *)
From S2P Require Import Prelude Io.

(** ** Message types *)

Inductive Status :=
  | Success | FileNotFound | StoreFailed | FileNameInvalid
  | Unauthorized | BadRequest | InternalError | StatusNone.
#[export] Instance Status_eq_dec : EqDecision Status.
Proof. solve_decision. Defined.

Definition status_u8 (s : Status) : N :=
  match s with
  | Success => 0 | FileNotFound => 1 | StoreFailed => 2 | FileNameInvalid => 3
  | Unauthorized => 4 | BadRequest => 5 | InternalError => 127 | StatusNone => 255
  end.

Inductive Behavior := GetFile | PutFile | DeleteFile | BehaviorNone.
#[export] Instance Behavior_eq_dec : EqDecision Behavior.
Proof. solve_decision. Defined.

Inductive FlagType := FDelete | FWrite | FAuth | FRead | FCover | FCompress | FNone.
Definition flag_u8 (f : FlagType) : N :=
  match f with
  | FDelete => 0xC0 | FWrite => 0x80 | FAuth => 0x60 | FRead => 0x40
  | FCover => 0x02 | FCompress => 0x01 | FNone => 0x00
  end.

Inductive Op := OpNone | OpRead | OpWrite | OpDelete | OpAuth.
#[export] Instance Op_eq_dec : EqDecision Op.
Proof. solve_decision. Defined.

Definition OP_MASK : N := 0xE0.
Definition OP_SHIFT : N := 5.
Definition from_flags (flags : N) : Op :=
  match N.shiftr (N.land flags OP_MASK) OP_SHIFT with
  | 2 => OpRead
  | 3 => OpAuth
  | 4 => OpWrite
  | 6 => OpDelete
  | _ => OpNone
  end%N.

Record PayLoad := mkPayLoad {
  ilen : N;
  identifier : bytes;
  dlen : N;
  checksum : N;
  data : bytes
}.

Record LiNaProtocol := mkProtocol {
  flags : N;
  status : Status;
  payload : PayLoad
}.

Definition LiNaProtocol_new : LiNaProtocol :=
  mkProtocol (flag_u8 FNone) StatusNone (mkPayLoad 0 [] 0 0 []).

Definition op (m : LiNaProtocol) : Op := from_flags (flags m).

(** A package travelling between a front end and the worker. *)
Record Content := mkContent {
  c_flags : N;
  c_identifier : bytes;
  c_data : bytes
}.
Record Package := mkPackage {
  p_status : Status;
  uni_id : bytes;
  behavior : Behavior;
  content : Content;
  created_at : Z
}.

(** [Package::new]: a fresh id and the current time are drawn by the caller. *)
Definition Package_new (uuid : bytes) (timestamp : Z) : Package :=
  mkPackage StatusNone uuid BehaviorNone (mkContent 0x40 [] []) timestamp.
Definition Package_new_with_id (uuid : bytes) (timestamp : Z) : Package :=
  mkPackage StatusNone uuid BehaviorNone (mkContent 0 [] []) timestamp.

Section Checksum.
(** CRC-32 of a byte string ([crc32fast::Hasher] fed in pieces). *)
Variable crc32 : bytes → N.

Definition calculate_checksum (m : LiNaProtocol) : N :=
  let p := payload m in
  as_u32 (crc32 ([byte_of (ilen p)] ++ identifier p ++ le_bytes 4 (dlen p) ++ data p)).

Definition verify (m : LiNaProtocol) : bool :=
  (checksum (payload m) =? calculate_checksum m)%N.

Definition serialize_protocol_message (m : LiNaProtocol) : bytes :=
  let p := payload m in
  [byte_of (status_u8 (status m)); byte_of (ilen p)] ++ identifier p
    ++ le_bytes 4 (dlen p) ++ le_bytes 4 (checksum p) ++ data p.

(** The bytes [write_error_response] puts on the stream. *)
Definition error_response (st : Status) (code : option N) : LiNaProtocol :=
  let ident := identifier (payload LiNaProtocol_new) in
  let il := as_u8 (len ident) in
  let '(d, dl) := match code with
                  | Some c => ([byte_of c], 1%N)
                  | None => ([], 0%N)
                  end in
  let m := mkProtocol (flags LiNaProtocol_new) st (mkPayLoad il ident dl 0 d) in
  mkProtocol (flags m) (status m)
    (mkPayLoad il ident dl (calculate_checksum m) d).
Definition write_error_response (st : Status) (code : option N) : bytes :=
  serialize_protocol_message (error_response st code).
End Checksum.

(** ** Reading a message from a connection *)

(** What the peer does after the bytes it has sent: closes the connection,
    breaks it, or stays silent. *)
Inductive Ending := Eof | Broken (kind : ErrorKind) | Silent.

(** A connection: the bytes still to arrive, in the segments they arrive in. *)
Record Stream := mkStream { segments : list bytes; ending : Ending }.

Inductive ProtocolReadError :=
  | Disconnected
  | OtherError (msg : string).

Definition from_io (context : string) (kind : ErrorKind) (err : string) : ProtocolReadError :=
  match kind with
  | UnexpectedEof | ConnectionReset | BrokenPipe => Disconnected
  | _ => OtherError (context +:+ ": " +:+ err)
  end.

(** [Reading] stops with a protocol error, blocks for ever on a silent peer, or
    (only if the loop bound were too small) runs out of fuel. *)
Inductive Read (A : Type) :=
  | Got (a : A) (rest : list bytes)
  | ReadErr (e : ProtocolReadError)
  | Blocked
  | OutOfFuel.
Arguments Got {A}. Arguments ReadErr {A}. Arguments Blocked {A}. Arguments OutOfFuel {A}.

(** [n] bytes off the front of the segments, if that many ever arrive. *)
Fixpoint pull (segs : list bytes) (n : nat) : option (bytes * list bytes) :=
  match segs with
  | [] => if n =? 0 then Some ([], []) else None
  | s :: segs' =>
      if n <=? length s then Some (take n s, drop n s :: segs')
      else p ← pull segs' (n - length s); Some (s ++ p.1, p.2)
  end.

(** The segment available now, if any byte is. *)
Fixpoint available (segs : list bytes) : option (bytes * list bytes) :=
  match segs with
  | [] => None
  | [] :: segs' => available segs'
  | s :: segs' => Some (s, segs')
  end.

Section Reading.
Variable crc32 : bytes → N.
(** Free capacity of the receive buffer once it holds [n] bytes. *)
Variable spare : nat → nat.
(** [envars.max_payload_size], a [usize]. *)
Variable max_payload_size : N.
Variable fin : Ending.

Definition Reader (A : Type) := list bytes → Read A.
Definition rbind {A B} (m : Reader A) (k : A → Reader B) : Reader B := λ segs,
  match m segs with
  | Got a rest => k a rest
  | ReadErr e => ReadErr e
  | Blocked => Blocked
  | OutOfFuel => OutOfFuel
  end.
#[local] Instance Reader_mbind : MBind Reader := λ A B k m, rbind m k.
Definition got {A} (a : A) : Reader A := λ segs, Got a segs.
Definition reject {A} (e : ProtocolReadError) : Reader A := λ _, ReadErr e.

(** [read_exact]: a connection that ends early is [UnexpectedEof]. *)
Definition read_exact (context : string) (n : nat) : Reader bytes := λ segs,
  match pull segs n with
  | Some (b, rest) => Got b rest
  | None =>
      match fin with
      | Eof => ReadErr (from_io context UnexpectedEof "early eof")
      | Broken k => ReadErr (from_io context k "connection error")
      | Silent => Blocked
      end
  end.
Definition read_u8 (context : string) : Reader N :=
  b ← read_exact context 1; got (le_val b).
Definition read_u32_le (context : string) : Reader N :=
  b ← read_exact context 4; got (le_val b).

(** [loop { timeout(READ_TIMEOUT, stream.read_buf(&mut data_buf)) ... }]. *)
Fixpoint read_data (fuel : nat) (want : N) (data_buf : bytes) : Reader bytes := λ segs,
  match fuel with
  | O => OutOfFuel
  | S fuel' =>
      match available segs with
      | None =>
          match fin with
          | Eof => ReadErr Disconnected
          | Broken k => ReadErr (from_io "Failed to read data" k "connection error")
          | Silent => ReadErr (OtherError "Read operation timed out")
          end
      | Some (s, segs') =>
          let room := spare (length data_buf) in
          let buf := data_buf ++ take room s in
          let segs'' := drop room s :: segs' in
          if (want <=? len buf)%N then Got buf segs''
          else read_data fuel' want buf segs''
      end
  end.

(** One read of the loop per byte still to come is always enough. *)
Definition data_fuel (segs : list bytes) : nat := S (length (concat segs)).

Definition parse_protocol_message (self : LiNaProtocol) : Reader LiNaProtocol :=
  flags ← read_u8 "Failed to read flag";
  il ← read_u8 "Failed to read identifier length";
  ident ← read_exact "Failed to read identifier" (N.to_nat il);
  dl ← read_u32_le "Failed to read data length";
  if (as_u32 max_payload_size <? dl)%N then reject (OtherError "Payload too large") else
  sum ← read_u32_le "Failed to read checksum";
  d ← (if (0 <? dl)%N
       then λ segs, read_data (data_fuel segs) dl [] segs
       else got (data (payload self)));
  let m := mkProtocol flags (status self) (mkPayLoad il ident dl sum d) in
  if verify crc32 m then got m else reject (OtherError "Invalid checksum").
End Reading.

(** The framing both directions share: first byte, lengths, checksum, data. *)
Definition frame (first : N) (p : PayLoad) : bytes :=
  [byte_of first; byte_of (ilen p)] ++ identifier p
    ++ le_bytes 4 (dlen p) ++ le_bytes 4 (checksum p) ++ data p.

(** A payload whose length fields and checksum describe its contents. *)
Definition well_framed (crc32 : bytes → N) (p : PayLoad) : Prop :=
  ilen p = len (identifier p) ∧ (ilen p < 256)%N ∧
  dlen p = len (data p) ∧ (dlen p < 2 ^ 32)%N ∧
  checksum p = calculate_checksum crc32 (mkProtocol 0 StatusNone p).

(** ** Lemmas: reading *)

Lemma pull_spec segs n :
  n ≤ length (concat segs) →
  ∃ r, pull segs n = Some (take n (concat segs), r) ∧ concat r = drop n (concat segs).
Proof.
  revert n. induction segs as [|s segs IH]; simpl; intros n Hn.
  - assert (n = 0) as -> by lia. by exists [].
  - rewrite length_app in Hn. destruct (Nat.leb_spec n (length s)).
    + exists (drop n s :: segs). rewrite take_app_le, drop_app_le by done. done.
    + destruct (IH (n - length s)) as (r & -> & Hr); [lia|]. simpl.
      exists r. rewrite take_app_ge, drop_app_ge by lia. done.
Qed.

Lemma pull_prefix segs (a b : bytes) :
  concat segs = a ++ b → ∃ r, pull segs (length a) = Some (a, r) ∧ concat r = b.
Proof.
  intros H. destruct (pull_spec segs (length a)) as (r & Hp & Hr).
  { rewrite H, length_app. lia. }
  exists r. rewrite H, take_app_length in Hp. rewrite H, drop_app_length in Hr. done.
Qed.

Lemma pull_length segs n b r : pull segs n = Some (b, r) → length b = n.
Proof.
  revert n b r. induction segs as [|s segs IH]; simpl; intros n b r H.
  - destruct (Nat.eqb_spec n 0); naive_solver.
  - destruct (Nat.leb_spec n (length s)); [simplify_eq; rewrite length_take; lia|].
    destruct (pull segs (n - length s)) as [[b' r']|] eqn:E; simplify_option_eq.
    rewrite length_app, (IH _ _ _ E). lia.
Qed.

Lemma available_spec segs :
  match available segs with
  | None => concat segs = []
  | Some (s, segs') => s ≠ [] ∧ concat segs = s ++ concat segs'
  end.
Proof. induction segs as [|[|x s] segs IH]; simpl; done. Qed.

Lemma read_exact_prefix fin ctx segs a b :
  concat segs = a ++ b →
  ∃ r, read_exact fin ctx (length a) segs = Got a r ∧ concat r = b.
Proof.
  intros H. destruct (pull_prefix _ _ _ H) as (r & Hp & Hr).
  exists r. unfold read_exact. by rewrite Hp.
Qed.

Lemma read_u8_prefix fin ctx segs n b :
  (n < 256)%N → concat segs = byte_of n :: b →
  ∃ r, read_u8 fin ctx segs = Got n r ∧ concat r = b.
Proof.
  intros Hn H. destruct (read_exact_prefix fin ctx segs [byte_of n] b H) as (r & Hp & Hr).
  exists r. split; [|done]. unfold read_u8, mbind, Reader_mbind, rbind.
  simpl in Hp. rewrite Hp. unfold got; simpl. rewrite to_u8_byte_of by done.
  f_equal. lia.
Qed.

Lemma read_u32_prefix fin ctx segs n b :
  (n < 2 ^ 32)%N → concat segs = le_bytes 4 n ++ b →
  ∃ r, read_u32_le fin ctx segs = Got n r ∧ concat r = b.
Proof.
  intros Hn H. destruct (read_exact_prefix fin ctx segs (le_bytes 4 n) b H) as (r & Hp & Hr).
  exists r. split; [|done]. unfold read_u32_le, mbind, Reader_mbind, rbind.
  rewrite length_le_bytes in Hp. rewrite Hp. unfold got.
  by rewrite le_val_le_bytes.
Qed.

(** What the data loop returns: a prefix of what is still to arrive, at least
    as long as announced, and it always stops. *)
Lemma read_data_spec spare fin fuel want buf segs :
  (∀ n, 1 ≤ spare n) → length (concat segs) < fuel →
  match read_data spare fin fuel want buf segs with
  | Got d r => ∃ k, 1 ≤ k ∧ d = buf ++ take k (concat segs) ∧ concat r = drop k (concat segs)
               ∧ (want <= len d)%N
  | ReadErr _ => (len (buf ++ concat segs) < want)%N ∨ concat segs = []
  | Blocked | OutOfFuel => False
  end.
Proof.
  intros Hsp. revert buf segs. induction fuel as [|fuel IH]; intros buf segs Hf; [lia|].
  simpl. pose proof (available_spec segs) as Ha.
  destruct (available segs) as [[s segs']|].
  2:{ destruct fin; simpl; auto. }
  destruct Ha as [Hs Hc]. set (room := spare (length buf)).
  assert (Hr : 1 ≤ room) by apply Hsp.
  assert (Hls : 1 ≤ length s) by (destruct s; simpl; [done|lia]).
  set (k := Nat.min room (length s)).
  assert (Ht : take room s = take k (concat segs)).
  { rewrite Hc, take_app_le by lia. unfold k.
    destruct (decide (room ≤ length s)); [by rewrite Nat.min_l|].
    rewrite Nat.min_r, !take_ge by lia. done. }
  assert (Hd : concat (drop room s :: segs') = drop k (concat segs)).
  { simpl. rewrite Hc, drop_app_le by lia. f_equal. unfold k.
    destruct (decide (room ≤ length s)); [by rewrite Nat.min_l|].
    rewrite Nat.min_r, !drop_ge by lia. done. }
  destruct (N.leb_spec want (len (buf ++ take room s))) as [Hw|Hw].
  - exists k. rewrite <- Ht. repeat split; [lia|done|lia].
  - specialize (IH (buf ++ take room s) (drop room s :: segs')).
    rewrite Hd, Ht in IH. rewrite Ht, length_drop in *.
    assert (Hk : 1 ≤ k ≤ length (concat segs)) by (rewrite Hc, length_app; lia). specialize (IH ltac:(lia)).
    destruct (read_data _ _ _ _ _ _); [|destruct IH as [IH|IH]|done|done].
    + destruct IH as (k' & ? & -> & -> & ?). exists (k + k').
      rewrite <- !app_assoc, drop_drop, take_take_drop. repeat split; try lia.
      by rewrite <- app_assoc, take_take_drop in *.
    + left. by rewrite <- app_assoc, take_drop in IH.
    + left. rewrite <- (take_drop k (concat segs)), IH, app_nil_r. done.
Qed.

Lemma read_data_exact spare fin want segs :
  (∀ n, 1 ≤ spare n) → want = len (concat segs) → (0 < want)%N →
  ∃ r, read_data spare fin (data_fuel segs) want [] segs = Got (concat segs) r ∧ concat r = [].
Proof.
  intros Hsp Hw H0.
  pose proof (read_data_spec spare fin (data_fuel segs) want [] segs Hsp) as H.
  specialize (H ltac:(unfold data_fuel; lia)).
  destruct (read_data _ _ _ _ _ _) as [d r|e| |] eqn:E; try done.
  - destruct H as (k & Hk & -> & Hr & Hlen). exists r. simpl in *.
    assert (length (concat segs) ≤ k).
    { unfold len in *. rewrite length_take in Hlen. lia. }
    rewrite take_ge by done. rewrite drop_ge in Hr by done. done.
  - exfalso. unfold len in *. simpl in *. destruct H as [H|H]; [lia|].
    rewrite H in Hw; simpl in Hw; lia.
Qed.

(** The fields of a message off the front of a stream, up to the data. *)
Section ParseSteps.
Context (crc32 : bytes → N) (spare : nat → nat) (max_payload_size : N) (fin : Ending).

Definition after_header (self : LiNaProtocol) (first : N) (p : PayLoad) : Reader LiNaProtocol :=
  rbind (if (0 <? dlen p)%N
         then λ segs, read_data spare fin (data_fuel segs) (dlen p) [] segs
         else got (data (payload self)))
    (λ d, let m := mkProtocol first (status self)
                     (mkPayLoad (ilen p) (identifier p) (dlen p) (checksum p) d) in
          if verify crc32 m then got m else reject (OtherError "Invalid checksum")).

Lemma parse_header self first p segs tail :
  (first < 256)%N → ilen p = len (identifier p) → (ilen p < 256)%N →
  (dlen p < 2 ^ 32)%N → (dlen p <= as_u32 max_payload_size)%N → (checksum p < 2 ^ 32)%N →
  concat segs = [byte_of first; byte_of (ilen p)] ++ identifier p
                  ++ le_bytes 4 (dlen p) ++ le_bytes 4 (checksum p) ++ tail →
  ∃ segs', concat segs' = tail ∧
    parse_protocol_message crc32 spare max_payload_size fin self segs =
    after_header self first p segs'.
Proof.
  intros Hf Hi1 Hi2 Hd Hmax Hs Hc. simpl in Hc.
  unfold parse_protocol_message, mbind, Reader_mbind, rbind.
  destruct (read_u8_prefix fin "Failed to read flag" segs _ _ Hf Hc) as (s1 & -> & H1).
  destruct (read_u8_prefix fin "Failed to read identifier length" s1 _ _ Hi2 H1)
    as (s2 & -> & H2).
  replace (N.to_nat (ilen p)) with (length (identifier p)) by (unfold len in Hi1; lia).
  destruct (read_exact_prefix fin "Failed to read identifier" s2 _ _ H2) as (s3 & -> & H3).
  destruct (read_u32_prefix fin "Failed to read data length" s3 _ _ Hd H3) as (s4 & -> & H4).
  rewrite (proj2 (N.ltb_ge _ _) Hmax).
  destruct (read_u32_prefix fin "Failed to read checksum" s4 _ _ Hs H4) as (s5 & -> & H5).
  exists s5. done.
Qed.
End ParseSteps.

Lemma calculate_checksum_lt crc32 m : (calculate_checksum crc32 m < 2 ^ 32)%N.
Proof. apply wrap_lt. Qed.

Lemma verify_ext crc32 m :
  checksum (payload m) = calculate_checksum crc32 (mkProtocol 0 StatusNone (payload m)) →
  verify crc32 m = true.
Proof. intros H. unfold verify. by apply N.eqb_eq. Qed.

Lemma parse_any_segmentation_aux crc32 spare max_size fin first p segs :
  (∀ n, 1 ≤ spare n) → (first < 256)%N → well_framed crc32 p →
  (dlen p <= as_u32 max_size)%N → concat segs = frame first p →
  ∃ rest, parse_protocol_message crc32 spare max_size fin LiNaProtocol_new segs
          = Got (mkProtocol first StatusNone p) rest ∧ concat rest = [].
Proof.
  intros Hsp Hf (Hi & Hi' & Hd & Hd' & Hc) Hmax Hcat.
  destruct (parse_header crc32 spare max_size fin LiNaProtocol_new first p segs (data p))
    as (segs' & Hs & ->); try done.
  { rewrite Hc. apply calculate_checksum_lt. }
  destruct p as [il ident dl sum d]; simpl in *.
  unfold after_header, rbind; cbn [ilen identifier dlen checksum data payload status flags LiNaProtocol_new].
  assert (Hv : verify crc32 (mkProtocol first StatusNone (mkPayLoad il ident dl sum d)) = true)
    by (by apply verify_ext).
  destruct (N.ltb_spec 0 dl).
  - destruct (read_data_exact spare fin dl segs') as (r & Hr & Hr'); [done|by rewrite Hs|done|].
    cbv beta. rewrite Hr, Hs. cbv beta zeta. rewrite Hv. by exists r.
  - assert (d = []) as -> by (destruct d; unfold len in *; simpl in *; [done|lia]).
    unfold got at 1. cbv beta zeta. rewrite Hv. exists segs'. done.
Qed.

Lemma parse_fuel crc32 spare max_size fin self segs :
  (∀ n, 1 ≤ spare n) →
  parse_protocol_message crc32 spare max_size fin self segs ≠ OutOfFuel.
Proof.
  intros Hsp. unfold parse_protocol_message, read_u8, read_u32_le, mbind, Reader_mbind, rbind, got, reject.
  repeat match goal with
  | |- context [read_exact fin ?c ?n ?s] =>
      let E := fresh in
      destruct (read_exact fin c n s) eqn:E;
      [|done|done|unfold read_exact in E; destruct (pull s n) as [[]|]; [done|by destruct fin]]
  end.
  destruct (_ <? _)%N; [done|].
  repeat match goal with
  | |- context [read_exact fin ?c ?n ?s] =>
      let E := fresh in
      destruct (read_exact fin c n s) eqn:E;
      [|done|done|unfold read_exact in E; destruct (pull s n) as [[]|]; [done|by destruct fin]]
  end.
  match goal with |- context [if ?b then (λ s, _) else _] => destruct b end.
  - match goal with |- context [read_data _ _ (data_fuel ?s) ?w _ _] =>
      pose proof (read_data_spec spare fin (data_fuel s) w [] s Hsp) as H'
    end.
    specialize (H' ltac:(unfold data_fuel; lia)).
    destruct (read_data _ _ _ _ _ _); [|done|done|done]. by destruct (verify _ _).
  - by destruct (verify _ _).
Qed.

(** A message takes at least its first byte off the stream. *)
Lemma pull_rest segs n b r : pull segs n = Some (b, r) → concat segs = b ++ concat r.
Proof.
  revert n b r. induction segs as [|s segs IH]; simpl; intros n b r H.
  - destruct (n =? 0); by inv H.
  - destruct (n <=? length s); [inv H; simpl; by rewrite app_assoc, take_drop|].
    destruct (pull segs (n - length s)) as [[b' r']|] eqn:E; simplify_option_eq.
    by rewrite (IH _ _ _ E), app_assoc.
Qed.
Lemma read_exact_rest fin ctx n segs b r :
  read_exact fin ctx n segs = Got b r → length (concat segs) = n + length (concat r).
Proof.
  unfold read_exact. destruct (pull segs n) as [[b' r']|] eqn:E; [|by destruct fin].
  intros [= -> ->]. rewrite (pull_rest _ _ _ _ E), length_app. by rewrite (pull_length _ _ _ _ E).
Qed.
Lemma rbind_got {A B} (m : Reader A) (k : A → Reader B) segs b r :
  rbind m k segs = Got b r → ∃ a segs', m segs = Got a segs' ∧ k a segs' = Got b r.
Proof. unfold rbind. destruct (m segs); naive_solver. Qed.
Lemma parse_consumes crc32 spare max_size fin self segs m r :
  (∀ n, 1 ≤ spare n) →
  parse_protocol_message crc32 spare max_size fin self segs = Got m r →
  length (concat r) < length (concat segs).
Proof.
  intros Hsp H. unfold parse_protocol_message in H.
  apply rbind_got in H as (f & s1 & H1 & H). apply rbind_got in H as (il & s2 & H2 & H).
  apply rbind_got in H as (id & s3 & H3 & H). apply rbind_got in H as (dl & s4 & H4 & H).
  destruct (_ <? _)%N; [done|]. apply rbind_got in H as (sum & s5 & H5 & H).
  apply rbind_got in H as (d & s6 & H6 & H).
  destruct (verify _ _); [|done]. inv H.
  apply rbind_got in H1 as (b1 & s1' & H1 & [= <- <-]). apply rbind_got in H2 as (b2 & s2' & H2 & [= <- <-]).
  apply rbind_got in H4 as (b4 & s4' & H4 & [= <- <-]). apply rbind_got in H5 as (b5 & s5' & H5 & [= <- <-]).
  apply read_exact_rest in H1, H2, H3, H4, H5.
  assert (length (concat r) ≤ length (concat s5')); [|lia].
  case_match; [|by inv H6].
  pose proof (read_data_spec spare fin (data_fuel s5') (le_val b4) [] s5' Hsp ltac:(unfold data_fuel; lia)) as Hd.
  rewrite H6 in Hd. destruct Hd as (k & _ & _ & -> & _). rewrite length_drop. lia.
Qed.

(** ** Properties *)

(** C22 (roundtrip): however the network cuts a well-framed message into
    segments, [parse_protocol_message] returns exactly its flags and payload
    and consumes exactly its bytes, when the announced length is within the
    configured limit and nothing follows the message. *)
Theorem parse_any_segmentation crc32 spare max_size fin first p segs :
  (∀ n, 1 ≤ spare n) → (first < 256)%N → well_framed crc32 p →
  (dlen p <= as_u32 max_size)%N → concat segs = frame first p →
  ∃ rest, parse_protocol_message crc32 spare max_size fin LiNaProtocol_new segs
          = Got (mkProtocol first StatusNone p) rest ∧ concat rest = [].
Proof. apply parse_any_segmentation_aux. Qed.

(** Reading one message always comes to an end with a
    message, an error or a wait for a silent peer: the bound on the data loop
    is never what stops it. *)
Theorem parse_terminates crc32 spare max_size fin self segs :
  (∀ n, 1 ≤ spare n) →
  parse_protocol_message crc32 spare max_size fin self segs ≠ OutOfFuel.
Proof. apply parse_fuel. Qed.

Lemma read_exact_length fin ctx n segs b r : read_exact fin ctx n segs = Got b r → length b = n.
Proof.
  unfold read_exact. destruct (pull segs n) as [[b' r']|] eqn:E.
  - intros [= <- <-]. by eapply pull_length.
  - by destruct fin.
Qed.

(** A message [parse_protocol_message] accepts carries a matching
    checksum, an identifier of the announced length, an announced data length
    within the configured limit, and at least that much data. *)
Theorem parse_accepts_only_valid crc32 spare max_size fin segs m rest :
  (∀ n, 1 ≤ spare n) →
  parse_protocol_message crc32 spare max_size fin LiNaProtocol_new segs = Got m rest →
  verify crc32 m = true ∧
  len (identifier (payload m)) = ilen (payload m) ∧
  (dlen (payload m) <= as_u32 max_size)%N ∧
  (dlen (payload m) <= len (data (payload m)))%N.
Proof.
  intros Hsp. unfold parse_protocol_message, read_u8, read_u32_le, mbind, Reader_mbind, rbind, got, reject.
  destruct (read_exact _ _ 1 segs) as [b1 s1| | |]; try done.
  destruct (read_exact _ _ 1 s1) as [b2 s2| | |]; try done.
  destruct (read_exact _ _ (N.to_nat _) s2) as [b3 s3| | |] eqn:E3; try done.
  apply read_exact_length in E3.
  destruct (read_exact _ _ 4 s3) as [b4 s4| | |]; try done.
  destruct (N.ltb_spec (as_u32 max_size) (le_val b4)) as [|Hmax]; [done|].
  destruct (read_exact _ _ 4 s4) as [b5 s5| | |]; try done.
  destruct (N.ltb_spec 0 (le_val b4)).
  - pose proof (read_data_spec spare fin (data_fuel s5) (le_val b4) [] s5 Hsp) as H'.
    specialize (H' ltac:(unfold data_fuel; lia)).
    destruct (read_data _ _ _ _ _ _); try done.
    destruct (verify _ _) eqn:Hv; [|done]. intros [= <- <-]; simpl.
    destruct H' as (k & _ & -> & _ & ?). split_and!; [done| |done|done].
    unfold len; lia.
  - destruct (verify _ _) eqn:Hv; [|done]. intros [= <- <-]; simpl.
    split_and!; [done|unfold len; lia|done|unfold len; simpl; lia].
Qed.

(** Bytes that arrive in the same segment as the end of a
    request's data, such as the beginning of a pipelined next request, are
    taken as data of the first one: they enter its checksum, so the request is
    refused unless the CRC happens to agree, and when it is accepted its data
    holds the extra bytes. *)
Theorem parse_takes_following_bytes crc32 spare max_size fin first p extra :
  (first < 256)%N → well_framed crc32 p → (0 < dlen p)%N → (dlen p <= as_u32 max_size)%N →
  length (data p ++ extra) ≤ spare 0 →
  let m' := mkProtocol first StatusNone
              (mkPayLoad (ilen p) (identifier p) (dlen p) (checksum p) (data p ++ extra)) in
  parse_protocol_message crc32 spare max_size fin LiNaProtocol_new [frame first p ++ extra]
  = if verify crc32 m' then Got m' [[]] else ReadErr (OtherError "Invalid checksum").
Proof.
  intros Hf (Hi & Hi' & Hd & Hd' & Hc) H0 Hmax Hroom m'.
  assert (Hs : (checksum p < 2 ^ 32)%N) by (rewrite Hc; apply calculate_checksum_lt).
  destruct p as [il ident dl sum d]; cbn [ilen identifier dlen checksum data] in *.
  unfold parse_protocol_message, read_u8, read_u32_le, read_exact, mbind, Reader_mbind, rbind, got, reject.
  unfold frame; cbn [ilen identifier dlen checksum data].
  assert (Hpull : ∀ (a b : bytes), pull [a ++ b] (length a) = Some (a, [b])).
  { intros a b. simpl. rewrite length_app, (proj2 (Nat.leb_le _ _)) by lia.
    by rewrite take_app_length, drop_app_length. }
  assert (P1 : ∀ x b, pull [x :: b] 1 = Some ([x], [b])) by done.
  rewrite <- !app_assoc. cbn [app].
  rewrite !P1. cbn [le_val].
  rewrite !to_u8_byte_of, !N.mul_0_r, !N.add_0_r by done.
  replace (N.to_nat il) with (length ident) by (unfold len in Hi; lia).
  rewrite Hpull.
  pose proof (Hpull (le_bytes 4 dl)) as P4. pose proof (Hpull (le_bytes 4 sum)) as P5.
  rewrite length_le_bytes in P4, P5. rewrite P4; cbv beta iota.
  rewrite le_val_le_bytes, (proj2 (N.ltb_ge _ _) Hmax) by done.
  rewrite P5; cbv beta iota zeta.
  rewrite le_val_le_bytes, (proj2 (N.ltb_lt _ _) H0) by done.
  unfold data_fuel. cbn [concat read_data length].
  assert (Hne : ∃ x t, d ++ extra = x :: t).
  { destruct d; [unfold len in *; simpl in *; lia|]. by eexists _, _. }
  assert (available [d ++ extra] = Some (d ++ extra, [])) as ->
    by (destruct Hne as (x & t & ->); done).
  cbv beta iota zeta. cbn [app length]. rewrite take_ge, drop_ge by done.
  rewrite (proj2 (N.leb_le _ _)); [change (status LiNaProtocol_new) with StatusNone; fold m'; by destruct (verify crc32 m')|]. rewrite Hd. unfold len. rewrite length_app. lia.
Qed.

(** The operation of a flag byte is a function of its top
    three bits alone: each of the four assigned patterns decodes to its
    operation whatever the option bits are, and everything else to [None]. *)
Theorem from_flags_decodes flags :
  (flags < 256)%N →
  from_flags flags =
    (let top := N.land flags 0xE0 in
     if top =? flag_u8 FRead then OpRead
     else if top =? flag_u8 FAuth then OpAuth
     else if top =? flag_u8 FWrite then OpWrite
     else if top =? flag_u8 FDelete then OpDelete
     else OpNone)%N
  ∧ ∀ low, (low < 32)%N → from_flags (N.lor (N.land flags 0xE0) low) = from_flags flags.
Proof.
  intros Hf.
  set (spec := λ flags, (let top := N.land flags 0xE0 in
     if top =? flag_u8 FRead then OpRead
     else if top =? flag_u8 FAuth then OpAuth
     else if top =? flag_u8 FWrite then OpWrite
     else if top =? flag_u8 FDelete then OpDelete
     else OpNone)%N).
  assert (Hall : forallb (λ f, bool_decide (from_flags f = spec f) &&
            forallb (λ l, bool_decide (from_flags (N.lor (N.land f 0xE0) l) = from_flags f))
                    (N.of_nat <$> seq 0 32)) (N.of_nat <$> seq 0 256) = true)
    by (vm_compute; reflexivity).
  rewrite forallb_forall in Hall.
  assert (Hin : ∀ n k, (n < N.of_nat k)%N → In n (N.of_nat <$> seq 0 k)).
  { intros n k Hn. apply list_elem_of_In, list_elem_of_fmap.
    exists (N.to_nat n). split; [lia|]. apply elem_of_seq. lia. }
  specialize (Hall flags (Hin flags 256%nat Hf)).
  apply andb_true_iff in Hall as [H1 H2]. apply bool_decide_eq_true in H1.
  split; [exact H1|]. intros low Hlow. rewrite forallb_forall in H2.
  specialize (H2 low (Hin low 32%nat Hlow)). by apply bool_decide_eq_true in H2.
Qed.

Lemma serialize_is_frame m :
  serialize_protocol_message m = frame (status_u8 (status m)) (payload m).
Proof. done. Qed.

Lemma status_u8_lt s : (status_u8 s < 256)%N.
Proof. by destruct s. Qed.

Lemma error_response_well_framed crc32 st code :
  well_framed crc32 (payload (error_response crc32 st code)).
Proof. unfold well_framed, error_response. destruct code; simpl; done. Qed.

(** An error response reads back, on the other side, as a
    message with the status byte first and the optional code byte as data. *)
Theorem error_response_reads_back crc32 spare max_size fin st code segs :
  (∀ n, 1 ≤ spare n) → (1 <= as_u32 max_size)%N →
  concat segs = write_error_response crc32 st code →
  ∃ m rest, parse_protocol_message crc32 spare max_size fin LiNaProtocol_new segs = Got m rest ∧
    concat rest = [] ∧ flags m = status_u8 st ∧ identifier (payload m) = [] ∧
    data (payload m) = match code with Some c => [byte_of c] | None => [] end.
Proof.
  intros Hsp Hmax Hc. unfold write_error_response in Hc. rewrite serialize_is_frame in Hc.
  pose proof (error_response_well_framed crc32 st code) as Hwf.
  destruct (parse_any_segmentation_aux crc32 spare max_size fin _ _ segs Hsp
              (status_u8_lt (status (error_response crc32 st code))) Hwf) as (r & H & Hr);
    [destruct code; simpl; lia|exact Hc|].
  eexists _, r. split; [exact H|]. destruct code; done.
Qed.

(** ** Concrete runs *)

(** A toy checksum, enough to run the model: the sum of the bytes. *)
Definition sum_crc (b : bytes) : N := foldr (λ x a, to_u8 x + a)%N 0%N b.

Definition demo_payload (ident d : bytes) : PayLoad :=
  let p := mkPayLoad (len ident) ident (len d) 0 d in
  mkPayLoad (len ident) ident (len d)
    (calculate_checksum sum_crc (mkProtocol 0 StatusNone p)) d.
Definition demo : PayLoad := demo_payload (str_bytes "a.txt") (str_bytes "hello").

Lemma demo_well_framed : well_framed sum_crc demo.
Proof. vm_compute. done. Qed.

Definition demo_cut : list bytes :=
  let b := frame 0x80 demo in [take 3 b; []; take 9 (drop 3 b); drop 12 b].

Lemma parse_any_segmentation_witness :
  ∃ rest, parse_protocol_message sum_crc (λ _, 2) 0x4000000 Silent LiNaProtocol_new demo_cut
          = Got (mkProtocol 0x80 StatusNone demo) rest ∧ concat rest = [].
Proof.
  apply (parse_any_segmentation sum_crc (λ _, 2) 0x4000000 Silent 0x80 demo demo_cut);
    [lia|lia|exact demo_well_framed|vm_compute; discriminate|vm_compute; reflexivity].
Defined.

Lemma parse_terminates_witness :
  parse_protocol_message sum_crc (λ _, 2) 0x4000000 Eof LiNaProtocol_new demo_cut ≠ OutOfFuel.
Proof. apply (parse_terminates sum_crc (λ _, 2)). lia. Defined.

Lemma parse_accepts_only_valid_witness :
  let m := mkProtocol 0x80 StatusNone demo in
  verify sum_crc m = true ∧ len (identifier (payload m)) = ilen (payload m) ∧
  (dlen (payload m) <= as_u32 0x4000000)%N ∧ (dlen (payload m) <= len (data (payload m)))%N.
Proof.
  eapply (parse_accepts_only_valid sum_crc (λ _, 100) 0x4000000 Eof [frame 0x80 demo]);
    [lia|vm_compute; reflexivity].
Defined.

(** Two requests in one segment: the first one is refused. *)
Lemma parse_takes_following_bytes_witness :
  parse_protocol_message sum_crc (λ _, 100) 0x4000000 Eof LiNaProtocol_new
    [frame 0x80 demo ++ frame 0x40 demo] = ReadErr (OtherError "Invalid checksum").
Proof.
  rewrite (parse_takes_following_bytes sum_crc (λ _, 100) 0x4000000 Eof 0x80 demo
             (frame 0x40 demo));
    [vm_compute; reflexivity|lia|exact demo_well_framed|vm_compute; reflexivity
    |vm_compute; discriminate|vm_compute; lia].
Defined.

Lemma from_flags_decodes_witness :
  from_flags 0xC3 = OpDelete ∧
  ∀ low, (low < 32)%N → from_flags (N.lor (N.land 0xC3 0xE0) low) = from_flags 0xC3.
Proof. exact (from_flags_decodes 0xC3 ltac:(lia)). Defined.

Lemma error_response_reads_back_witness :
  ∃ m rest, parse_protocol_message sum_crc (λ _, 1) 64 Eof LiNaProtocol_new
      [write_error_response sum_crc Unauthorized (Some 1%N)] = Got m rest ∧
    concat rest = [] ∧ flags m = 4%N ∧ identifier (payload m) = [] ∧
    data (payload m) = [byte_of 1].
Proof.
  apply (error_response_reads_back sum_crc (λ _, 1) 64 Eof Unauthorized (Some 1%N));
    [lia|vm_compute; discriminate|vm_compute; reflexivity].
Defined.
