(* ===== verification/Block.v ===== *)
(** * Hashing and block compression ([linabase/src/utils.rs])

    A payload is cut into chunks of [chunk_size] bytes; each chunk is stored as
    a flag byte (0 raw, 1 gzip), a little-endian 16-bit length and the bytes.
    The output buffer is assembled by raw copies into uninitialised memory: the
    model keeps that buffer, so that the [SAFETY] comments of the source are
    theorems here.  [rayon]'s indexed parallel [map]/[collect] yields the
    results in input order, like the sequential one. *)
From S2P Require Import Prelude Io Strs.

(** What the code relies on from [blake3] and [flate2]. *)
Class Codec := {
  blake3_hex : bytes → string;           (* finalize().to_hex() of the bytes fed *)
  gz_encode : bytes → option bytes;      (* GzEncoder, Compression::fast() *)
  gz_decode : bytes → option bytes       (* GzDecoder, read_to_end *)
}.
Class CodecLaws (C : Codec) : Prop := {
  gz_encode_total : ∀ b, is_Some (gz_encode b);
  gz_roundtrip : ∀ b e, gz_encode b = Some e → gz_decode e = Some b
}.

Definition BUFFER_SIZE : N := 0x80000.

(** [slice.chunks(n)]: [n = 0] panics in Rust and is not reached here. *)
Fixpoint chunks_fuel (fuel n : nat) (l : bytes) : list bytes :=
  match fuel, l with
  | _, [] => []
  | O, _ => []
  | S fuel', _ => take n l :: chunks_fuel fuel' n (drop n l)
  end.
Definition chunks (n : N) (l : bytes) : list bytes := chunks_fuel (length l) (N.to_nat n) l.

Record BlockManager := mkBlockManager {
  chunk_size : N;
  multi_thread_threshold : N;
  max_threads : N
}.

(** [BlockManager::new]; [parallelism] is [available_parallelism()]. *)
Definition BlockManager_new (parallelism : option N) : BlockManager :=
  mkBlockManager (0x10000 - 0x400) (1024 * 1024) (N.min (default 4%N parallelism) 4).

Definition determine_thread_count (bm : BlockManager) (input_size : N) : N :=
  if (input_size <? multi_thread_threshold bm)%N then 1 else max_threads bm.

(** [collect::<Result<Vec<_>, _>>()] *)
Fixpoint collect {A} (l : list (Error + A)) : Error + list A :=
  match l with
  | [] => inr []
  | inl e :: _ => inl e
  | inr a :: l' => match collect l' with inl e => inl e | inr r => inr (a :: r) end
  end.

(** ** The output buffer *)

(** A byte of memory: [None] until it is written. *)
Abbreviation memory := (list (option byte)).

(** [ptr::copy_nonoverlapping(src, dst.add(offset), len)]: [None] when the
    destination range leaves the buffer (undefined behaviour). *)
Definition copy_to (src : bytes) (offset : nat) (buf : memory) : option memory :=
  if offset + length src <=? length buf
  then Some (take offset buf ++ (Some <$> src) ++ drop (offset + length src) buf)
  else None.

Fixpoint copy_chunks (cs : list bytes) (offset : nat) (buf : memory) : option memory :=
  match cs with
  | [] => Some buf
  | c :: cs' =>
      if length c =? 0 then copy_chunks cs' offset buf
      else buf' ← copy_to c offset buf; copy_chunks cs' (offset + length c) buf'
  end.

(** [chunks.iter().map(|c| c.len()).sum()] *)
Definition sum_lens (cs : list bytes) : nat := foldr (λ c n, length c + n) 0 cs.

(** The buffer as a [Vec<u8>]: every cell must have been written. *)
Definition assemble (cs : list bytes) : Res bytes :=
  let total_len := sum_lens cs in
  match copy_chunks cs 0 (replicate total_len None) with
  | None => Halt (Panic "out-of-bounds copy")
  | Some buf => match mapM id buf with
                | Some out => Ok out
                | None => Halt (Panic "uninitialised byte")
                end
  end.

Section Codec.
Context `{C : Codec}.

(** [get_hash256_from_binary]: the hasher is fed chunk by chunk. *)
Definition get_hash256_from_binary (input : bytes) : string :=
  blake3_hex (foldl (λ fed chunk, fed ++ chunk) [] (chunks BUFFER_SIZE input)).

Definition encode_ (chunk : bytes) : Error + bytes :=
  match gz_encode chunk with
  | Some e => inr e
  | None => inl (IoError Other "gzip encoder")
  end.
Definition decode_ (chunk : bytes) : Error + bytes :=
  match gz_decode chunk with
  | Some d => inr d
  | None => inl (IoError InvalidInput "gzip decoder")
  end.

Definition compress_chunk (chunk : bytes) : Error + bytes :=
  match encode_ chunk with
  | inl e => inl e
  | inr compressed_chunk =>
      let raw_len := len chunk in
      let compressed_chunk_len := len compressed_chunk in
      if (raw_len <? compressed_chunk_len)%N
      then inr (byte_of 0 :: le_bytes 2 (as_u16 raw_len) ++ chunk)
      else if (0x10000 <? compressed_chunk_len)%N
      then inl (IoError Other "Compressed chunk length is greater than 64KiB")
      else inr (byte_of 1 :: le_bytes 2 (as_u16 compressed_chunk_len) ++ compressed_chunk)
  end.

Definition compress_all (bm : BlockManager) (input : bytes) : Res bytes :=
  let thread_count := determine_thread_count bm (len input) in
  let compressed_chunks :=
    if (thread_count =? 1)%N
    then collect (compress_chunk <$> chunks (chunk_size bm) input)
    else (* par_chunks on the pool: same results, in the same order *)
      collect (compress_chunk <$> chunks (chunk_size bm) input) in
  match compressed_chunks with
  | inl e => Err e
  | inr cs => assemble cs
  end.

(** The header scan of [decompress_all]: flag, start and end of each chunk. *)
Fixpoint scan_chunks (fuel : nat) (input : bytes) (i : nat) (acc : list (N * nat * nat))
    : Res (list (N * nat * nat)) :=
  match fuel with
  | O => Halt (Panic "scan ran out of fuel")
  | S fuel' =>
      if negb (i <? length input) then Ok acc
      else if length input <? i + 3
      then Err (IoError UnexpectedEof "Incomplete chunk length")
      else
        let flag := to_u8 (byte_at input i) in
        let chunk_len := N.to_nat (le_val [byte_at input (i + 1); byte_at input (i + 2)]) in
        let i := i + 3 in
        if length input <? i + chunk_len
        then Err (IoError InvalidData "Incomplete chunk data")
        else scan_chunks fuel' input (i + chunk_len) (acc ++ [(flag, i, i + chunk_len)])
  end.

Definition decompress_chunk (input : bytes) (c : N * nat * nat) : Error + bytes :=
  let '(flag, start, end_) := c in
  let body := take (end_ - start) (drop start input) in
  match flag with
  | 0%N => inr body
  | 1%N => decode_ body
  | _ => inl (IoError InvalidData "Unknown chunk flag")
  end.

Definition decompress_all (input : bytes) (original_size : N) : Res bytes :=
  match scan_chunks (S (length input)) input 0 [] with
  | Err e => Err e
  | Halt s => Halt s
  | Ok chunks_with_flag =>
      match collect (decompress_chunk input <$> chunks_with_flag) with
      | inl e => Err e
      | inr cs => assemble cs
      end
  end.
End Codec.

(** ** Lemmas *)

Lemma concat_chunks_fuel fuel n l :
  0 < n → length l ≤ fuel → concat (chunks_fuel fuel n l) = l.
Proof.
  intros Hn. revert l. induction fuel as [|fuel IH]; intros l Hl; destruct l as [|x l]; try done.
  - simpl in Hl; lia.
  - cbn [chunks_fuel concat]. rewrite IH; [apply take_drop|].
    rewrite length_drop. simpl in *. lia.
Qed.

Lemma chunks_fuel_size fuel n l : Forall (λ c, length c ≤ n) (chunks_fuel fuel n l).
Proof.
  revert l. induction fuel as [|fuel IH]; intros l; destruct l as [|x l]; simpl; constructor; auto.
  rewrite length_take. lia.
Qed.

Lemma concat_chunks n l : (0 < n)%N → concat (chunks n l) = l.
Proof. intros H. apply concat_chunks_fuel; lia. Qed.

Lemma chunks_size n l : Forall (λ c, (len c <= n)%N) (chunks n l).
Proof.
  eapply Forall_impl; [apply chunks_fuel_size|]. intros c Hc; simpl in *. unfold len. lia.
Qed.

Lemma copy_chunks_concat cs pre post :
  length post = sum_lens cs →
  copy_chunks cs (length pre) (pre ++ post) = Some (pre ++ (Some <$> concat cs)).
Proof.
  revert pre post. induction cs as [|c cs IH]; intros pre post Hp; cbn [copy_chunks concat].
  - simpl in Hp. destruct post; [by rewrite fmap_nil|done].
  - simpl in Hp. destruct (Nat.eqb_spec (length c) 0) as [H0|H0].
    + rewrite IH by lia. by destruct c.
    + unfold copy_to. rewrite length_app, (proj2 (Nat.leb_le _ _)) by lia. cbn [mbind option_bind].
      rewrite take_app_length, drop_app_add', app_assoc by done.
      replace (length pre + length c) with (length (pre ++ (Some <$> c)))
        by (rewrite length_app, length_fmap; lia).
      rewrite IH by (rewrite length_drop; lia).
      by rewrite fmap_app, app_assoc.
Qed.

Lemma mapM_id_Some (l : bytes) : mapM id (Some <$> l) = Some l.
Proof.
  induction l as [|x l IH]; [done|].
  change (mapM id (Some <$> x :: l)) with (k ← mapM id (Some <$> l); Some (x :: k)).
  by rewrite IH.
Qed.

(** The [unsafe] blocks stay in bounds and leave no byte uninitialised. *)
Lemma assemble_concat cs : assemble cs = Ok (concat cs).
Proof.
  unfold assemble. rewrite <- (app_nil_l (replicate _ _)).
  change 0 with (length (@nil (option byte))) at 1.
  rewrite copy_chunks_concat by (by rewrite length_replicate).
  by rewrite app_nil_l, mapM_id_Some.
Qed.

Lemma collect_inr {A} (l : list (Error + A)) r : collect l = inr r ↔ l = inr <$> r.
Proof.
  split.
  - revert r. induction l as [|[e|a] l IH]; intros r H; simpl in *; simplify_eq; [done|].
    destruct (collect l); simplify_eq. simpl. by rewrite <- IH.
  - intros ->. induction r as [|a r IH]; [done|].
    rewrite fmap_cons. cbn [collect]. by rewrite IH.
Qed.

Section Laws.
Context `{C : Codec} {L : CodecLaws C}.

Lemma get_hash256_is_blake3 input : get_hash256_from_binary input = blake3_hex input.
Proof.
  unfold get_hash256_from_binary. f_equal.
  rewrite <- (concat_chunks BUFFER_SIZE input) at 2 by done.
  generalize (chunks BUFFER_SIZE input). intros cs.
  enough (∀ a, foldl (λ fed chunk, fed ++ chunk) a cs = a ++ concat cs) as H by apply H.
  induction cs as [|c cs IH]; intros a; simpl; [by rewrite app_nil_r|].
  by rewrite IH, app_assoc.
Qed.

(** One stored chunk: its flag, its 16-bit length, its body. *)
Definition chunk_record (flag : N) (body : bytes) : bytes :=
  byte_of flag :: le_bytes 2 (as_u16 (len body)) ++ body.

Lemma compress_chunk_record chunk :
  (len chunk < 2 ^ 16)%N →
  ∃ flag body, compress_chunk chunk = inr (chunk_record flag body) ∧
    (len body <= len chunk)%N ∧
    (flag = 0%N ∧ body = chunk ∨ flag = 1%N ∧ gz_decode body = Some chunk).
Proof.
  intros Hlen. unfold compress_chunk, encode_.
  destruct (gz_encode_total chunk) as [e He]. rewrite He.
  destruct (N.ltb_spec (len chunk) (len e)).
  - exists 0%N, chunk. repeat split; [lia|by left].
  - rewrite (proj2 (N.ltb_ge _ _)) by lia.
    exists 1%N, e. repeat split; [done|right]. split; [done|]. by apply gz_roundtrip.
Qed.

Definition decode_record (r : N * bytes) : Error + bytes :=
  match r.1 with
  | 0%N => inr r.2
  | 1%N => decode_ r.2
  | _ => inl (IoError InvalidData "Unknown chunk flag")
  end.
Definition records (rs : list (N * bytes)) : bytes :=
  concat ((λ r, chunk_record r.1 r.2) <$> rs).
Definition fits (r : N * bytes) : Prop := (r.1 < 256)%N ∧ (len r.2 < 2 ^ 16)%N.

Lemma nth_app_exact (a b : bytes) k : byte_at (a ++ b) (length a + k) = byte_at b k.
Proof. unfold byte_at. rewrite app_nth2_plus. done. Qed.

Lemma scan_records rs pre fuel acc :
  Forall fits rs → length (records rs) < fuel →
  ∃ ps, scan_chunks fuel (pre ++ records rs) (length pre) acc = Ok (acc ++ ps) ∧
        decompress_chunk (pre ++ records rs) <$> ps = decode_record <$> rs.
Proof.
  revert pre fuel acc. induction rs as [|[f b] rs IH]; intros pre fuel acc Hf Hfuel;
    (destruct fuel as [|fuel]; [lia|]).
  - exists []. cbn [scan_chunks]. unfold records; simpl. rewrite app_nil_r.
    rewrite (proj2 (Nat.ltb_ge _ _)) by lia. by rewrite app_nil_r.
  - apply Forall_cons in Hf as [[Hflag Hlen] Hf]. cbn [fst snd] in Hflag, Hlen.
    unfold records in *. rewrite fmap_cons in *. cbn [concat fst snd] in *.
    fold (records rs) in *.
    set (hdr := byte_of f :: le_bytes 2 (as_u16 (len b))) in *.
    assert (Hrec : chunk_record f b = hdr ++ b) by done.
    set (input := pre ++ chunk_record f b ++ records rs).
    assert (Hsplit : input = pre ++ hdr ++ b ++ records rs)
      by (unfold input; by rewrite Hrec, <- app_assoc).
    assert (Hh : length hdr = 3) by done.
    assert (Hl : length input = length pre + 3 + length b + length (records rs))
      by (rewrite Hsplit, !length_app, Hh; lia).
    cbn [fst snd] in Hfuel. rewrite Hrec, !length_app, Hh in Hfuel.
    cbn [scan_chunks].
    rewrite (proj2 (Nat.ltb_lt (length pre) _)) by lia. cbn [negb].
    rewrite (proj2 (Nat.ltb_ge (length input) _)) by lia.
    assert (H0 : byte_at input (length pre) = byte_of f).
    { rewrite Hsplit, <- (Nat.add_0_r (length pre)). by rewrite nth_app_exact. }
    assert (H1 : byte_at input (length pre + 1) = byte_at hdr 1)
      by (rewrite Hsplit; by rewrite nth_app_exact).
    assert (H2 : byte_at input (length pre + 2) = byte_at hdr 2)
      by (rewrite Hsplit; by rewrite nth_app_exact).
    assert (Hle : le_val [byte_at hdr 1; byte_at hdr 2] = len b).
    { change [byte_at hdr 1; byte_at hdr 2] with (le_bytes 2 (as_u16 (len b))).
      rewrite wrap_small by done. by rewrite le_val_le_bytes. }
    rewrite H0, H1, H2, Hle, to_u8_byte_of by done. unfold len; rewrite Nat2N.id.
    rewrite (proj2 (Nat.ltb_ge (length input) _)) by lia.
    destruct (IH (pre ++ hdr ++ b) fuel (acc ++ [(f, length pre + 3, length pre + 3 + length b)]))
      as (ps & Hs & Hd); [done|lia|].
    replace ((pre ++ hdr ++ b) ++ records rs) with input in Hs, Hd
      by (by rewrite Hsplit, <- !app_assoc).
    replace (length (pre ++ hdr ++ b)) with (length pre + 3 + length b) in Hs
      by (rewrite !length_app, Hh; lia).
    exists ((f, length pre + 3, length pre + 3 + length b) :: ps). split.
    + rewrite Hs. by rewrite <- app_assoc.
    + rewrite !fmap_cons. f_equal; [|exact Hd].
      unfold decompress_chunk, decode_record. cbn [fst snd].
      replace (length pre + 3 + length b - (length pre + 3)) with (length b) by lia.
      assert (drop (length pre + 3) input = b ++ records rs) as ->.
      { rewrite Hsplit, app_assoc.
        replace (length pre + 3) with (length (pre ++ hdr)) by (rewrite length_app; lia).
        apply drop_app_length. }
      by rewrite take_app_length.
Qed.

Lemma decompress_records rs outs n :
  Forall fits rs → decode_record <$> rs = inr <$> outs →
  decompress_all (records rs) n = Ok (concat outs).
Proof.
  intros Hf Ho. unfold decompress_all.
  destruct (scan_records rs [] (S (length (records rs))) [] Hf) as (ps & Hs & Hd); [lia|].
  simpl app in *. simpl length in Hs. rewrite Hs, Hd, Ho.
  rewrite (proj2 (collect_inr _ _) eq_refl). apply assemble_concat.
Qed.

Lemma compress_chunks_records cs :
  Forall (λ c, (len c < 2 ^ 16)%N) cs →
  ∃ rs, collect (compress_chunk <$> cs) = inr ((λ r, chunk_record r.1 r.2) <$> rs) ∧
    Forall fits rs ∧ decode_record <$> rs = inr <$> cs ∧
    (len (records rs) <= len (concat cs) + 3 * len cs)%N.
Proof.
  induction cs as [|c cs IH]; intros Hall.
  - exists []. done.
  - apply Forall_cons in Hall as [Hc Hall].
    destruct (IH Hall) as (rs & Hcol & Hfit & Hdec & Hsz).
    destruct (compress_chunk_record c Hc) as (f & b & Hcc & Hb & Hcase).
    exists ((f, b) :: rs). rewrite !fmap_cons. cbn [collect]. rewrite Hcc, Hcol.
    split_and!; [done| | |].
    + constructor; [|done]. split; simpl; [destruct Hcase as [[-> _]|[-> _]]; lia|lia].
    + f_equal; [|done]. unfold decode_record, decode_. simpl.
      destruct Hcase as [[-> ->]|[-> Hdec']]; [done|]. by rewrite Hdec'.
    + unfold records, len in *. rewrite fmap_cons. cbn [concat fst snd].
      rewrite !length_app. simpl length. lia.
Qed.

Lemma compress_all_records bm input :
  (0 < chunk_size bm < 2 ^ 16)%N →
  ∃ rs, compress_all bm input = Ok (records rs) ∧ Forall fits rs ∧
    decode_record <$> rs = inr <$> chunks (chunk_size bm) input ∧
    (len (records rs) <= len input + 3 * len (chunks (chunk_size bm) input))%N.
Proof.
  intros Hn. destruct (compress_chunks_records (chunks (chunk_size bm) input))
    as (rs & Hcol & Hfit & Hdec & Hsz).
  { eapply Forall_impl; [apply chunks_size|]. intros c Hc; simpl in *. lia. }
  exists rs. rewrite concat_chunks in Hsz by lia. split_and!; try done.
  unfold compress_all. rewrite Hcol. destruct (_ =? _)%N; apply assemble_concat.
Qed.

(** ** Properties *)

Lemma compress_all_total bm input :
  (0 < chunk_size bm < 2 ^ 16)%N → ∃ z, compress_all bm input = Ok z.
Proof. intros Hn. destruct (compress_all_records bm input Hn) as (rs & -> & _). eauto. Qed.
Lemma compress_all_decodes bm input hint z :
  (0 < chunk_size bm < 2 ^ 16)%N → compress_all bm input = Ok z →
  decompress_all z hint = Ok input.
Proof.
  intros Hn. destruct (compress_all_records bm input Hn) as (rs & -> & Hf & Hd & _).
  intros [= <-]. rewrite (decompress_records rs _ hint Hf Hd). by rewrite concat_chunks by lia.
Qed.

(** C21 (roundtrip): for every payload, [compress_all] succeeds, and
    [decompress_all] gives the payload back whatever size hint it is given,
    for every chunk size a 16-bit length can describe. *)
Theorem decompress_compress bm input hint :
  (0 < chunk_size bm < 2 ^ 16)%N →
  ∃ z, compress_all bm input = Ok z ∧ decompress_all z hint = Ok input.
Proof.
  intros Hn. destruct (compress_all_total bm input Hn) as [z Hz].
  exists z. split; [done|]. by eapply compress_all_decodes.
Qed.

(** Compression never costs more than three bytes per chunk, an
    incompressible chunk being stored raw. *)
Theorem compress_expansion bm input z :
  (0 < chunk_size bm < 2 ^ 16)%N → compress_all bm input = Ok z →
  (len z <= len input + 3 * len (chunks (chunk_size bm) input))%N.
Proof.
  intros Hn Hz. destruct (compress_all_records bm input Hn) as (rs & Hz' & _ & _ & Hs).
  rewrite Hz' in Hz. by simplify_eq.
Qed.
End Laws.

Section Total.
Context `{C : Codec}.

Lemma scan_chunks_total fuel input i acc s :
  length input - i < fuel → scan_chunks fuel input i acc ≠ Halt s.
Proof.
  revert i acc. induction fuel as [|fuel IH]; intros i acc Hf; [lia|].
  cbn [scan_chunks]. destruct (Nat.ltb_spec i (length input)); [|done]. cbn [negb].
  destruct (Nat.ltb_spec (length input) (i + 3)); [done|].
  destruct (Nat.ltb_spec (length input) (i + 3 + N.to_nat (le_val
    [byte_at input (i + 1); byte_at input (i + 2)]))); [done|].
  apply IH. lia.
Qed.

(** On any bytes whatsoever [decompress_all] returns data or an
    error: the header scan terminates, no slice is out of range, and the
    [unsafe] assembly neither leaves its buffer nor exposes uninitialised
    memory. *)
Theorem decompress_total input hint s : decompress_all input hint ≠ Halt s.
Proof.
  unfold decompress_all.
  destruct (scan_chunks _ _ _ _) eqn:E; [|done|].
  - destruct (collect _); [done|]. by rewrite assemble_concat.
  - exfalso. eapply scan_chunks_total, E. lia.
Qed.
End Total.

(** ** A concrete codec *)

(** Run-length flavour: a body of equal bytes shrinks, so both branches of
    [compress_chunk] are exercised. *)
Definition demo_encode (b : bytes) : option bytes :=
  match b with
  | x :: _ => if bool_decide (b = replicate (length b) x) && (length b <? 256)
              then Some [byte_of 1; byte_of (len b); x]
              else Some (byte_of 0 :: b)
  | [] => Some [byte_of 0]
  end.
Definition demo_decode (e : bytes) : option bytes :=
  match e with
  | x :: e' =>
      if bool_decide (x = byte_of 0) then Some e'
      else match e' with
           | [n; y] => Some (replicate (N.to_nat (to_u8 n)) y)
           | _ => None
           end
  | [] => None
  end.
#[export] Instance demo_codec : Codec :=
  {| blake3_hex := bytes_str; gz_encode := demo_encode; gz_decode := demo_decode |}.
#[export] Instance demo_codec_laws : CodecLaws demo_codec.
Proof.
  split.
  - intros b. unfold gz_encode; simpl. unfold demo_encode. repeat case_match; eauto.
  - intros b e. unfold gz_encode, gz_decode; simpl. unfold demo_encode.
    destruct b as [|x b]; [by intros [= <-]|].
    destruct (bool_decide (x :: b = _) && _) eqn:E; [|by intros [= <-]].
    apply andb_true_iff in E as [E1 E2]. apply bool_decide_eq_true in E1.
    apply Nat.ltb_lt in E2. intros [= <-].
    change (Some (replicate (N.to_nat (to_u8 (byte_of (len (x :: b))))) x) = Some (x :: b)).
    f_equal. transitivity (replicate (length (x :: b)) x); [|done]. f_equal. unfold len.
    rewrite to_u8_byte_of by lia. lia.
Qed.

Definition demo_bm : BlockManager := mkBlockManager 4 16 4.
Definition demo_input : bytes := str_bytes "aaaabcdeffffffffffg".

Lemma decompress_compress_witness :
  ∃ z, compress_all demo_bm demo_input = Ok z ∧ decompress_all z 0 = Ok demo_input.
Proof. apply (decompress_compress demo_bm demo_input 0). vm_compute. done. Defined.

Lemma compress_expansion_witness :
  let z := match compress_all demo_bm demo_input with Ok z => z | _ => [] end in
  (len z <= len demo_input + 3 * len (chunks 4 demo_input))%N.
Proof.
  intros z. apply (compress_expansion demo_bm demo_input z); [vm_compute; done|].
  vm_compute. reflexivity.
Defined.
