(* ===== verification/World.v ===== *)
(** * What the store persists: tables and files

    The state behind a [StoreManager]: the SQLite tables of
    [linabase/src/dao.rs] ([SQL_INIT]) and the directory tree below its root,
    with the outside-world values the code draws (time, random identifiers). *)
From S2P Require Import Prelude Io Strs.

(** Values that come from crates and from the operating system. *)
Class Platform := {
  (** [chrono]'s formatting of a clock value with ["%Y%m%d%H%M%S"] and with
      ["%Y-%m-%d %H:%M:%S"]. *)
  fmt_compact : N → string;
  fmt_datetime : N → string;
  (** The [k]-th random draw of [nanoid!(8, &NANOID_MAP)] and of
      [Uuid::new_v4().to_string()]. *)
  nanoid8 : nat → string;
  uuid_v4 : nat → string;
  (** SQLite's [value LIKE pattern]. *)
  sql_like : string → string → bool
}.

(** No dot occurs in [s]. *)
Definition dotless (s : string) : Prop := find_char DOT s = None.

Lemma dotless_app s u : dotless (s +:+ u) ↔ dotless s ∧ dotless u.
Proof.
  unfold dotless. induction s as [|c s IH]; simpl; [by split; [|intros []]|].
  destruct (ascii_dec c DOT); [naive_solver|]. rewrite !fmap_None. exact IH.
Qed.

(** What the code relies on: identifiers do not repeat, a timestamp is long
    enough to cut the directory names from, is printable and contains no dot; so
    is a UUID. *)
Class PlatformLaws (P : Platform) : Prop := {
  gen_unique : ∀ t t' k k',
    fmt_compact t +:+ nanoid8 k = fmt_compact t' +:+ nanoid8 k' → k = k';
  gen_long : ∀ t k, 6 ≤ String.length (fmt_compact t +:+ nanoid8 k);
  gen_dotless : ∀ t k, dotless (fmt_compact t +:+ nanoid8 k);
  gen_printable : ∀ t k, printable (str_bytes (fmt_compact t +:+ nanoid8 k));
  uuid_unique : ∀ k k', uuid_v4 k = uuid_v4 k' → k = k';
  uuid_printable : ∀ k, uuid_v4 k ≠ "" ∧ printable (str_bytes (uuid_v4 k));
  uuid_dotless : ∀ k, dotless (uuid_v4 k)
}.

(** An identifier the directory names can be cut from without a panic. *)
Definition sliceable (id : string) : Prop := is_char_boundary id 4 && is_char_boundary id 6 = true.
Lemma sliceable_long id : sliceable id → 6 ≤ String.length id.
Proof. intros [_ H]%andb_true_iff. by apply boundary_length. Qed.
Lemma gen_sliceable `{PlatformLaws} t k : sliceable (fmt_compact t +:+ nanoid8 k).
Proof.
  pose proof (gen_long t k). apply andb_true_iff. split; (apply printable_boundary; [apply gen_printable|lia]).
Qed.

(** ** Tables *)

(** [struct Link], [struct Source] and [struct DirEntry]. *)
Record Link := mkLink {
  l_id : string;
  l_name : string;
  l_ext : string;
  l_source_id : string;
  l_mode : N
}.
Record Source := mkSource {
  s_id : string;
  s_hash256 : string;
  s_compressed : bool;
  s_size : N;
  s_count : N;
  s_create_at : string;
  s_update_at : string
}.
Record DirEntry := mkDirEntry {
  d_path : string;
  d_parent : string;
  d_mode : N
}.

(** Rows as SQLite holds them, under their primary key: integer columns are
    signed 64-bit. *)
Record LinkRow := mkLinkRow { lr_name : string; lr_ext : string; lr_source_id : string; lr_mode : Z }.
Record SourceRow := mkSourceRow {
  sr_hash256 : string; sr_compressed : bool; sr_size : Z; sr_count : Z;
  sr_create_at : string; sr_update_at : string
}.
Record DirRow := mkDirRow { dr_parent : string; dr_mode : Z }.

Record Db := mkDb {
  link : gmap string LinkRow;
  source : gmap string SourceRow;
  dir : gmap string DirRow
}.

(** [row.get::<i64, _>("mode") as u32] *)
Definition u32_of_i64 (z : Z) : N := Z.to_N (z mod 2 ^ 32).

Definition link_of_row (id : string) (r : LinkRow) : Link :=
  mkLink id (lr_name r) (lr_ext r) (lr_source_id r) (u32_of_i64 (lr_mode r)).
Definition source_of_row (id : string) (r : SourceRow) : Source :=
  mkSource id (sr_hash256 r) (sr_compressed r) (u64_of_i64 (sr_size r)) (u64_of_i64 (sr_count r))
    (sr_create_at r) (sr_update_at r).
Definition dir_of_row (path : string) (r : DirRow) : DirEntry :=
  mkDirEntry path (dr_parent r) (u32_of_i64 (dr_mode r)).

(** ** Files *)

(** A path below the file-system root, component by component. *)
Abbreviation path := (list string).

Record Fs := mkFs {
  files : gmap path bytes;
  dirs : gset path
}.

Record Store := mkStore { db : Db; fs : Fs }.

Definition set_link (f : gmap string LinkRow → gmap string LinkRow) (d : Db) : Db :=
  mkDb (f (link d)) (source d) (dir d).
Definition set_source (f : gmap string SourceRow → gmap string SourceRow) (d : Db) : Db :=
  mkDb (link d) (f (source d)) (dir d).
Definition set_dir (f : gmap string DirRow → gmap string DirRow) (d : Db) : Db :=
  mkDb (link d) (source d) (f (dir d)).

Definition empty_store : Store := mkStore (mkDb ∅ ∅ ∅) (mkFs ∅ ∅).

(** ** A concrete platform, for the worked examples *)

Fixpoint tally (k : nat) : string :=
  match k with O => "" | S k' => String "a"%char (tally k') end.

(** [%] matches any text, [_] any one byte, everything else itself. *)
Fixpoint like (pattern value : string) : bool :=
  match pattern with
  | "" => String.eqb value ""
  | String p ps =>
      if ascii_dec p "%"
      then (fix any (v : string) : bool :=
              like ps v || match v with "" => false | String _ v' => any v' end) value
      else match value with
           | "" => false
           | String v vs =>
               (bool_decide (p = "_"%char) || bool_decide (p = v)) && like ps vs
           end
  end.

#[export] Instance demo_platform : Platform := {|
  fmt_compact := λ _, "20240501093000";
  fmt_datetime := λ _, "2024-05-01 09:30:00";
  nanoid8 := tally;
  uuid_v4 := λ k, String "u"%char (tally k);
  sql_like := λ value pattern, like pattern value
|}.

Lemma tally_inj k k' : tally k = tally k' → k = k'.
Proof. revert k'; induction k; intros [|k'] [=]; auto. Qed.

Lemma dotless_tally k : dotless (tally k).
Proof.
  induction k as [|k IH]; [done|]. unfold dotless in *. simpl.
  destruct (ascii_dec "a" DOT); [done|]. by rewrite IH.
Qed.

Lemma printable_tally k : printable (str_bytes (tally k)).
Proof. induction k as [|k IH]; [constructor|]. apply Forall_cons. split; [by vm_compute|done]. Qed.

#[export] Instance demo_platform_laws : PlatformLaws demo_platform.
Proof.
  split; simpl.
  - intros _ _ k k' H. apply tally_inj. by apply (inj (String.append "20240501093000")).
  - intros. lia.
  - intros _ k. apply dotless_app. split; [by vm_compute|apply dotless_tally].
  - intros _ k. apply (Forall_app_2 _ (str_bytes "20240501093000")); [|apply printable_tally].
    by repeat constructor.
  - intros k k' [= H]. by apply tally_inj.
  - intros k. split; [done|]. apply Forall_cons. split; [by vm_compute|apply printable_tally].
  - intros k. pose proof (dotless_tally k) as Hk. unfold dotless in *. simpl. by rewrite Hk.
Qed.
