(* ===== verification/Dao.v ===== *)
(** * The metadata database ([linabase/src/dao.rs])

    One definition per method of [Dao]: the SQL statement it runs, as an atomic
    operation on the tables with the constraints [SQL_INIT] declares (primary
    keys, the foreign key from [link] to [source] with [ON DELETE RESTRICT]; the
    pool is opened with [foreign_keys(true)]).  Every statement may also fail
    for reasons of its own (a busy or full database): that is the oracle's
    choice.  Rows come back in an order SQLite does not promise. *)
From S2P Require Import Prelude Io Strs World.

Section Dao.
Context `{P : Platform}.

(** A read, and a write that reports a constraint violation as [None]. *)
Definition query {A} (context : string) (f : Db → A) : IO Store A :=
  external (λ _, AnyhowError context) (λ _ s, s) (λ s, (inr (f (db s)), s)).
Definition execute (context : string) (f : Db → option Db) : IO Store unit :=
  external (λ _, AnyhowError context) (λ _ s, s)
    (λ s, match f (db s) with
          | Some d => (inr tt, mkStore d (fs s))
          | None => (inl (AnyhowError context), s)
          end).

(** Foreign-key test: does a link refer to this source. *)
Definition referenced (source_id : string) (d : Db) : bool :=
  bool_decide (filter (λ kv, lr_source_id kv.2 = source_id) (link d) ≠ ∅).

(** [Dao::new]: open (or create) the database file, run [SQL_INIT]
    ([CREATE ... IF NOT EXISTS]: existing tables keep their rows), then try
    the two column migrations, whose failure on an up-to-date schema is
    ignored. *)
Definition init_schema : IO Store unit :=
  execute "Failed to initialize database schema" Some;;
  ignore (execute "ALTER TABLE link" Some);;
  ignore (execute "ALTER TABLE dir" Some).
Definition Dao_new : IO Store unit :=
  query "Failed to create database directory" (λ _, tt);;
  query "Failed to connect to database" (λ _, tt);;
  init_schema.

(** *** Links *)

Definition insert_link_with_id (id name ext source_id : string) (mode : N) : IO Store unit :=
  execute "Failed to insert link" (λ d,
    if bool_decide (is_Some (link d !! id)) then None       (* PRIMARY KEY *)
    else if bool_decide (source d !! source_id = None) then None   (* FOREIGN KEY *)
    else Some (set_link <[id := mkLinkRow name ext source_id (Z.of_N mode)]> d)).

Definition select_links (p : LinkRow → Prop) `{∀ r, Decision (p r)} (d : Db) : list Link :=
  (λ kv, link_of_row kv.1 kv.2) <$> map_to_list (filter (λ kv, p kv.2) (link d)).

Definition get_links_by_name (name : string) (fuzzy : bool) : IO Store (list Link) :=
  if fuzzy
  then query "Failed to query links by name (fuzzy)"
         (select_links (λ r, sql_like (lr_name r) name = true))
  else query "Failed to query links by name" (select_links (λ r, lr_name r = name)).

Definition get_links_by_ext (ext : string) : IO Store (list Link) :=
  query "Failed to query links by ext" (select_links (λ r, lr_ext r = ext)).

(** [LIMIT ?1] binds [n as i64]: a negative limit means no limit. *)
Definition get_n_links (n : N) : IO Store (list Link) :=
  if (n =? 0)%N
  then query "Failed to query all links" (select_links (λ _, True))
  else query "Failed to query links with limit" (λ d,
         let rows := select_links (λ _, True) d in
         if (i64_of_u64 n <? 0)%Z then rows else take (Z.to_nat (i64_of_u64 n)) rows).

Definition set_link_mode (name : string) (mode : N) : IO Store unit :=
  execute "Failed to update link mode" (λ d,
    Some (set_link (fmap (λ r, if bool_decide (lr_name r = name)
            then mkLinkRow (lr_name r) (lr_ext r) (lr_source_id r) (Z.of_N mode) else r)) d)).

Definition delete_link_by_id (id : string) : IO Store unit :=
  execute "Failed to delete link" (λ d, Some (set_link (delete id) d)).

(** [UPDATE] of an absent row succeeds and changes nothing. *)
Definition update_link_source_id (link_id new_source_id : string) : IO Store unit :=
  execute "Failed to update link source_id" (λ d,
    match link d !! link_id with
    | None => Some d
    | Some r =>
        if bool_decide (source d !! new_source_id = None) then None   (* FOREIGN KEY *)
        else Some (set_link <[link_id :=
               mkLinkRow (lr_name r) (lr_ext r) new_source_id (lr_mode r)]> d)
    end).

(** *** Directories *)

Definition insert_dir (path parent : string) : IO Store unit :=
  execute "Failed to insert dir" (λ d,
    if bool_decide (is_Some (dir d !! path)) then None
    else Some (set_dir <[path := mkDirRow parent 493]> d)).

Definition delete_dir (path : string) : IO Store unit :=
  execute "Failed to delete dir" (λ d, Some (set_dir (delete path) d)).

Definition get_dir_by_path (path : string) : IO Store (option DirEntry) :=
  query "Failed to get dir by path" (λ d, dir_of_row path <$> dir d !! path).

(** [ORDER BY path], with SQLite's default byte-wise collation. *)
Definition path_le (a b : DirEntry) : Prop := String.leb (d_path a) (d_path b) = true.
#[export] Instance path_le_dec : RelDecision path_le.
Proof. unfold path_le. intros a b. apply _. Defined.
Definition select_dirs (p : DirRow → Prop) `{∀ r, Decision (p r)} (d : Db) : list DirEntry :=
  merge_sort path_le
    ((λ kv, dir_of_row kv.1 kv.2) <$> map_to_list (filter (λ kv, p kv.2) (dir d))).

Definition list_dirs_by_parent (parent : string) : IO Store (list DirEntry) :=
  query "Failed to list dirs by parent" (select_dirs (λ r, dr_parent r = parent)).

Definition list_all_dirs : IO Store (list DirEntry) :=
  query "Failed to list all dirs" (select_dirs (λ _, True)).

Definition set_dir_mode (path : string) (mode : N) : IO Store unit :=
  execute "Failed to update dir mode" (λ d,
    Some (set_dir (alter (λ r, mkDirRow (dr_parent r) (Z.of_N mode)) path) d)).

(** *** Sources *)

Definition insert_source_with_count (id hash256 : string) (compressed : bool)
    (size count : N) : IO Store unit :=
  t ← now;
  execute "Failed to insert source" (λ d,
    if bool_decide (is_Some (source d !! id)) then None
    else Some (set_source <[id := mkSourceRow hash256 compressed (i64_of_u64 size)
                 (i64_of_u64 count) (fmt_datetime t) (fmt_datetime t)]> d)).

Definition insert_source (id hash256 : string) (compressed : bool) (size : N) : IO Store unit :=
  insert_source_with_count id hash256 compressed size 1.

Definition list_source_ids : IO Store (list string) :=
  query "Failed to list source ids" (λ d, (map_to_list (source d)).*1).

Definition get_source_by_id (id : string) : IO Store (option Source) :=
  query "Failed to query source by id" (λ d, source_of_row id <$> source d !! id).

(** [fetch_optional]: the first row, if any. *)
Definition get_source_by_hash256 (hash256 : string) : IO Store (option Source) :=
  query "Failed to query source by hash256" (λ d,
    head ((λ kv, source_of_row kv.1 kv.2) <$>
          map_to_list (filter (λ kv, sr_hash256 kv.2 = hash256) (source d)))).

Definition update_source (id new_hash256 : string) (new_compressed : bool)
    (new_size new_count : N) : IO Store unit :=
  t ← now;
  execute "Failed to update source" (λ d,
    Some (set_source (alter (λ r, mkSourceRow new_hash256 new_compressed (i64_of_u64 new_size)
            (i64_of_u64 new_count) (sr_create_at r) (fmt_datetime t)) id) d)).

(** [ON DELETE RESTRICT]. *)
Definition delete_source_by_id (id : string) : IO Store unit :=
  execute "Failed to delete source" (λ d,
    if referenced id d then None else Some (set_source (delete id) d)).
End Dao.
