(* ===== verification/Disk.v ===== *)
(** * The file operations the store uses ([std::fs], [tokio::fs])

    Each call is one external step: it may be refused, or the process may die
    in it.  A regular file sitting where a directory is needed, a full disk or
    missing permissions all show as such a refusal. *)
From S2P Require Import Prelude Io Strs World.

Definition os_error (k : ErrorKind) : Error := IoError k "os error".

Definition set_files (f : gmap path bytes → gmap path bytes) (s : Store) : Store :=
  mkStore (db s) (mkFs (f (files (fs s))) (dirs (fs s))).
Definition add_dirs (ds : gset path) (s : Store) : Store :=
  mkStore (db s) (mkFs (files (fs s)) (ds ∪ dirs (fs s))).

(** The directory a path lies in. *)
Definition parent_of (p : path) : path := take (length p - 1) p.

(** Where the components of a path lead, from the directory [c]; directories
    are not symbolic links. *)
Definition enter (p : path) (k : Component) : path :=
  match k with
  | RootDir => []
  | CurDir => p
  | ParentDir => parent_of p
  | Normal s => p ++ [s]
  end.
Definition locate (c : path) (l : list Component) : path := foldl enter c l.
(** All the directories on the way to [p], [p] included. *)
Fixpoint prefixes (p : path) : list path :=
  match p with
  | [] => [[]]
  | c :: p' => [] :: (cons c <$> prefixes p')
  end.

Definition fs_create_dir_all (p : path) : IO Store unit :=
  external os_error (λ _ s, s) (λ s, (inr tt, add_dirs (list_to_set (prefixes p)) s)).

Definition fs_read (p : path) : IO Store bytes :=
  external os_error (λ _ s, s) (λ s,
    match files (fs s) !! p with
    | Some b => (inr b, s)
    | None => (inl (os_error NotFound), s)
    end).

(** [File::create]: the file exists and is empty afterwards. *)
Definition file_create (p : path) : IO Store unit :=
  external os_error (λ _ s, s) (λ s,
    if bool_decide (parent_of p ∈ dirs (fs s))
    then (inr tt, set_files <[p := []]> s)
    else (inl (os_error NotFound), s)).

(** [write_all] on a freshly created file; interrupted, it leaves a prefix. *)
Definition file_write_all (p : path) (b : bytes) : IO Store unit :=
  external os_error (λ n s, set_files <[p := take n b]> s)
    (λ s, (inr tt, set_files <[p := b]> s)).

Definition file_sync_all (p : path) : IO Store unit :=
  external os_error (λ _ s, s) (λ s, (inr tt, s)).

(** [fs::write]: create or truncate, then write. *)
Definition fs_write (p : path) (b : bytes) : IO Store unit :=
  external os_error (λ n s, set_files <[p := take n b]> s)
    (λ s, (inr tt, set_files <[p := b]> s)).

Definition fs_rename (from to : path) : IO Store unit :=
  external os_error (λ _ s, s) (λ s,
    match files (fs s) !! from with
    | Some b => (inr tt, set_files (λ m, <[to := b]> (delete from m)) s)
    | None => (inl (os_error NotFound), s)
    end).

Definition fs_remove_file (p : path) : IO Store unit :=
  external os_error (λ _ s, s) (λ s,
    match files (fs s) !! p with
    | Some _ => (inr tt, set_files (delete p) s)
    | None => (inl (os_error NotFound), s)
    end).

(** Entries of a directory: what [read_dir] reports, in no promised order. *)
Inductive Entry := EFile (name : string) | EDir (name : string).

Definition child_of (d p : path) : option string :=
  if bool_decide (parent_of p = d) then last p else None.

Definition entries (d : path) (s : Store) : list Entry :=
  omap (λ p, EDir <$> child_of d p) (elements (dirs (fs s)))
  ++ omap (λ kv, EFile <$> child_of d kv.1) (map_to_list (files (fs s))).

Definition fs_read_dir (d : path) : IO Store (list Entry) :=
  external os_error (λ _ s, s) (λ s,
    if bool_decide (d ∈ dirs (fs s)) then (inr (entries d s), s)
    else (inl (os_error NotFound), s)).

(** [entry?] on the iterator, and [DirEntry::metadata]: the kind of an entry
    that still exists. *)
Definition next_entry (e : Entry) : IO Store Entry :=
  external os_error (λ _ s, s) (λ s, (inr e, s)).
Definition entry_name (e : Entry) : string := match e with EFile n | EDir n => n end.
Definition entry_is_dir (d : path) (e : Entry) : IO Store bool :=
  external os_error (λ _ s, s) (λ s,
    let p := d ++ [entry_name e] in
    if bool_decide (p ∈ dirs (fs s)) then (inr true, s)
    else if bool_decide (is_Some (files (fs s) !! p)) then (inr false, s)
    else (inl (os_error NotFound), s)).

(** ** Lemmas: paths *)

Lemma prefixes_self p : p ∈ prefixes p.
Proof. induction p as [|c p IH]; simpl; [by left|]. right. by apply list_elem_of_fmap_2. Qed.
Lemma parent_of_snoc d c : parent_of (d ++ [c]) = d.
Proof.
  unfold parent_of. rewrite length_app. simpl. replace (length d + 1 - 1) with (length d) by lia.
  by rewrite take_app_length.
Qed.
Lemma prefixes_length p q : q ∈ prefixes p → length q ≤ length p.
Proof.
  revert q. induction p as [|c p IH]; intros q; simpl.
  - rewrite list_elem_of_singleton. by intros ->.
  - rewrite elem_of_cons, list_elem_of_fmap. intros [->|(q' & -> & Hq%IH)]; simpl; lia.
Qed.
