(* ===== verification/Store.v ===== *)
(** * The store manager ([linabase/src/service.rs])

    One definition per method of [StoreManager].  Operations that change the
    store hold [operation_lock] for writing over the whole of their effects and
    readers hold it for reading, so each operation is one atomic run here. *)
From S2P Require Import Prelude Io Strs Block World Dao Disk.

Definition err_text (e : Error) : string :=
  match e with IoError _ m => m | AnyhowError m => m end.

Section Store.
Context `{P : Platform} `{C : Codec}.
(** [self.root] and [self.bm]. *)
Variable root : path.
Variable bm : BlockManager.

(** [task::spawn_blocking(...).await.map_err(...)??]: a panic of the task is
    an error of the caller. *)
Definition spawn_blocking {A} (what : string) (r : Res A) : IO Store A :=
  match r with
  | Ok a => ret a
  | Err e => fail e
  | Halt _ => fail (boxed_io_error Other (what +:+ " task join error"))
  end.

Definition with_dao {A} (m : IO Store A) : IO Store A := map_err dao_to_io_error m.

(** *** Identifiers and paths *)

Definition file_name_gen : IO Store string :=
  t ← now; k ← draw; ret (fmt_compact t +:+ nanoid8 k).
Definition new_uuid : IO Store string := k ← draw; ret (uuid_v4 k).

Definition dir_path (source_id : string) : path :=
  root ++ ["linadata"%string; String.substring 0 4 source_id; String.substring 4 2 source_id].
Definition file_path (source_id : string) : path := dir_path source_id ++ [source_id].

(** [&source_id[..4]] and [&source_id[4..6]] panic on a shorter text, and where a
    character would be cut. *)
Definition source_dir (source_id : string) : IO Store path :=
  if is_char_boundary source_id 4 && is_char_boundary source_id 6 then ret (dir_path source_id)
  else panic "byte index is out of bounds or not a char boundary".
Definition source_path (source_id : string) : IO Store path :=
  d ← source_dir source_id; ret (d ++ [source_id]).

Definition persist_source_bytes (source_id : string) (b : bytes) : IO Store unit :=
  d ← source_dir source_id;
  fs_create_dir_all d;;
  let target_path := d ++ [source_id] in
  u ← new_uuid;
  let tmp_path := d ++ [source_id +:+ ".tmp-" +:+ u] in
  file_create tmp_path;;
  file_write_all tmp_path b;;
  file_sync_all tmp_path;;
  r ← attempt (fs_rename tmp_path target_path);
  match r with
  | inl err => ignore (fs_remove_file tmp_path);; fail err
  | inr _ => ret tt
  end.

Definition remove_source_file_if_exists (source_id : string) : IO Store unit :=
  p ← source_path source_id;
  r ← attempt (fs_remove_file p);
  match r with
  | inr _ => ret tt
  | inl (IoError NotFound _) => ret tt
  | inl err => fail err
  end.

(** *** Reading *)

Definition list_locked (pattern : string) (n : N) (isext use_regex : bool) : IO Store (list Link) :=
  if isext then with_dao (get_links_by_ext pattern)
  else if (is_empty pattern || String.eqb pattern "*") && use_regex then with_dao (get_n_links n)
  else if contains "*" pattern && use_regex
  then with_dao (get_links_by_name (replace_char "*" "%" pattern) true)
  else with_dao (get_links_by_name pattern false).

Definition get_binary_data (file_name : string) : IO Store bytes :=
  if is_empty file_name then fail (boxed_io_error Other "No filename provided") else
  links ← with_dao (get_links_by_name file_name false);
  link ← of_option (boxed_io_error NotFound "File not found") (links !! 0);
  src ← with_dao (get_source_by_id (l_source_id link));
  source ← of_option (boxed_io_error NotFound "File not found") src;
  p ← source_path (s_id source);
  file_bytes ← fs_read p;
  decoded ← (if s_compressed source
             then spawn_blocking "decompress" (decompress_all file_bytes (s_size source))
             else ret file_bytes);
  if String.eqb (get_hash256_from_binary decoded) (s_hash256 source)
  then ret decoded
  else fail (boxed_io_error InvalidData "data integrity check failed").

(** *** Writing *)

Definition release_source (link : Link) (source : Source) (source_count : N) : IO Store unit :=
  if (0 <? source_count)%N then
    with_dao (update_source (s_id source) (s_hash256 source) (s_compressed source)
                (s_size source) source_count)
  else
    source_path ← source_path (l_source_id link);
    source_dir ← source_dir (l_source_id link);
    let tombstone_path := source_dir ++ [l_source_id link +:+ ".deleting"] in
    fs_rename source_path tombstone_path;;
    r ← attempt (delete_source_by_id (s_id source));
    match r with
    | inl err => ignore (fs_rename tombstone_path source_path);; fail (dao_to_io_error err)
    | inr _ =>
        r ← attempt (fs_remove_file tombstone_path);
        match r with
        | inl err =>
            ignore (fs_rename tombstone_path source_path);;
            ignore (insert_source_with_count (s_id source) (s_hash256 source)
                      (s_compressed source) (s_size source) (s_count source));;
            fail err
        | inr _ => ret tt
        end
    end.

(** The three steps both replacing branches of [put_binary_data_locked] share:
    a new source for the new bytes, the link moved to it, the old source
    released; each failure undoes the steps before it. *)
Definition replace_with (new_source_id : string) (link : Link) (source : Source)
    (compressed : bool) (new_hash256 : string) (new_size : N) (new_storage_bytes : bytes)
    : IO Store unit :=
  persist_source_bytes new_source_id new_storage_bytes;;
  r ← attempt (insert_source new_source_id new_hash256 compressed new_size);
  match r with
  | inl err =>
      ignore (remove_source_file_if_exists new_source_id);; fail (dao_to_io_error err)
  | inr _ =>
      r ← attempt (update_link_source_id (l_id link) new_source_id);
      match r with
      | inl err =>
          ignore (delete_source_by_id new_source_id);;
          ignore (remove_source_file_if_exists new_source_id);;
          fail (dao_to_io_error err)
      | inr _ =>
          source_count ← of_option (IoError Other "Source count is 0")
                           (checked_sub (s_count source) 1);
          r ← attempt (release_source link source source_count);
          match r with
          | inl err =>
              ignore (update_link_source_id (l_id link) (s_id source));;
              ignore (delete_source_by_id new_source_id);;
              ignore (remove_source_file_if_exists new_source_id);;
              fail (IoError Other (err_text err))
          | inr _ => ret tt
          end
      end
  end.
Definition replace_source (link : Link) (source : Source) (compressed : bool)
    (new_hash256 : string) (new_size : N) (new_storage_bytes : bytes) : IO Store unit :=
  new_source_id ← file_name_gen;
  replace_with new_source_id link source compressed new_hash256 new_size new_storage_bytes.

(** Covering a source no other link shares: its file and row change in place. *)
Definition overwrite_source (link : Link) (source : Source) (compressed : bool)
    (new_hash256 : string) (new_size : N) (new_storage_bytes : bytes) : IO Store unit :=
  p ← source_path (l_source_id link);
  previous_storage_bytes ← fs_read p;
  persist_source_bytes (l_source_id link) new_storage_bytes;;
  r ← attempt (update_source (l_source_id link) new_hash256 compressed new_size (s_count source));
  match r with
  | inl err =>
      ignore (persist_source_bytes (l_source_id link) previous_storage_bytes);;
      fail (dao_to_io_error err)
  | inr _ => ret tt
  end.

(** A new name for contents the store already holds. *)
Definition share_source (file_name ext : string) (source : Source) : IO Store unit :=
  link_id ← new_uuid;
  with_dao (insert_link_with_id link_id file_name ext (s_id source) 420);;
  r ← attempt (update_source (s_id source) (s_hash256 source) (s_compressed source)
                 (s_size source) (as_u64 (s_count source + 1)));
  match r with
  | inl err => ignore (delete_link_by_id link_id);; fail (dao_to_io_error err)
  | inr _ => ret tt
  end.

(** A new name for new contents. *)
Definition create_with (source_id link_id file_name ext : string) (compressed : bool)
    (new_hash256 : string) (new_size : N) (new_storage_bytes : bytes) : IO Store unit :=
  persist_source_bytes source_id new_storage_bytes;;
  r ← attempt (insert_source source_id new_hash256 compressed new_size);
  match r with
  | inl err => ignore (remove_source_file_if_exists source_id);; fail (dao_to_io_error err)
  | inr _ =>
      r ← attempt (insert_link_with_id link_id file_name ext source_id 420);
      match r with
      | inl err =>
          ignore (delete_source_by_id source_id);;
          ignore (remove_source_file_if_exists source_id);;
          fail (dao_to_io_error err)
      | inr _ => ret tt
      end
  end.
Definition create_source (file_name ext : string) (compressed : bool)
    (new_hash256 : string) (new_size : N) (new_storage_bytes : bytes) : IO Store unit :=
  source_id ← file_name_gen;
  link_id ← new_uuid;
  create_with source_id link_id file_name ext compressed new_hash256 new_size new_storage_bytes.

Definition put_binary_data_locked (file_name : string) (cover compressed : bool)
    (new_hash256 : string) (new_size : N) (new_storage_bytes : bytes) (ext : string)
    : IO Store unit :=
  links ← with_dao (get_links_by_name file_name false);
  match links !! 0 with
  | Some link =>
      src ← with_dao (get_source_by_id (l_source_id link));
      source ← of_option (boxed_io_error NotFound "Source not found") src;
      if cover then
        if (1 <? s_count source)%N
        then replace_source link source compressed new_hash256 new_size new_storage_bytes
        else overwrite_source link source compressed new_hash256 new_size new_storage_bytes
      else if String.eqb new_hash256 (s_hash256 source)
              && Bool.eqb (s_compressed source) compressed
      then ret tt
      else replace_source link source compressed new_hash256 new_size new_storage_bytes
  | None =>
      found ← with_dao (get_source_by_hash256 new_hash256);
      match found with
      | Some source => share_source file_name ext source
      | None => create_source file_name ext compressed new_hash256 new_size new_storage_bytes
      end
  end.

Definition put_binary_data (file_name : string) (input : bytes) (cover compressed : bool)
    : IO Store unit :=
  if is_empty file_name then fail (boxed_io_error Other "No filename provided") else
  let new_size := len input in
  let ext := ext_of file_name in
  let new_hash256 := get_hash256_from_binary input in
  new_storage_bytes ← spawn_blocking "encode"
                        (if compressed then compress_all bm input else Ok input);
  put_binary_data_locked file_name cover compressed new_hash256 new_size new_storage_bytes ext.

(** *** Deleting *)

Definition delete_one (link : Link) : IO Store unit :=
  src ← with_dao (get_source_by_id (l_source_id link));
  source ← of_option (boxed_io_error NotFound "File not found") src;
  source_count ← of_option (IoError Other "Source count is 0") (checked_sub (s_count source) 1);
  delete_link_by_id (l_id link);;
  r ← attempt (release_source link source source_count);
  match r with
  | inl err =>
      let ext := ext_of (l_name link) in
      ignore (insert_link_with_id (l_id link) (l_name link) ext (l_source_id link) (l_mode link));;
      fail err
  | inr _ => ret tt
  end.

Definition delete_ (pattern : string) (use_regx : bool) : IO Store unit :=
  if is_empty pattern then fail (boxed_io_error Other "No files requested") else
  links ← list_locked pattern 0 false use_regx;
  for_each links delete_one.

(** *** Directories and modes *)

Definition list_ := list_locked.
Definition is_dir (p : string) : IO Store bool :=
  d ← with_dao (get_dir_by_path p); ret (bool_decide (is_Some d)).
Definition list_child_dirs (parent : string) : IO Store (list DirEntry) :=
  with_dao (list_dirs_by_parent parent).
Definition all_dirs : IO Store (list DirEntry) := with_dao list_all_dirs.
Definition mkdir (p parent : string) : IO Store unit := with_dao (insert_dir p parent).
Definition rmdir (p : string) : IO Store unit := with_dao (delete_dir p).
Definition set_file_mode (name : string) (mode : N) : IO Store unit :=
  with_dao (set_link_mode name mode).
Definition chmod_dir (p : string) (mode : N) : IO Store unit :=
  with_dao (set_dir_mode p mode).

(** One iteration of the inner loop of [sync_dirs_from_links]: extend the
    accumulated path by [part] and try to insert it below [prev]. *)
Fixpoint insert_ancestors (parts : list string) (acc prev : string) : IO Store unit :=
  match parts with
  | [] => ret tt
  | part :: parts' =>
      let acc := (if is_empty acc then acc else acc +:+ "/") +:+ part in
      ignore (insert_dir acc prev);;
      insert_ancestors parts' acc acc
  end.
Definition sync_dirs_from_links : IO Store unit :=
  links ← list_locked "*" 0 false true;
  for_each links (λ link,
    match rfind_char SLASH (l_name link) with
    | Some slash =>
        insert_ancestors (split_on SLASH (str_take slash (l_name link))) "" ""
    | None => ret tt
    end).

(** *** Start-up *)

(** One file of a source directory. *)
Definition reconcile_leaf (known_ids : gset string) (mid_path : path) (leaf : Entry)
    : IO Store unit :=
  leaf ← next_entry leaf;
  meta ← attempt (entry_is_dir mid_path leaf);
  match meta with
  | inl _ | inr true => ret tt
  | inr false =>
      let name := entry_name leaf in
      let leaf_path := mid_path ++ [name] in
      if negb (valid_utf8 (str_bytes name)) then ret tt
      else if contains ".tmp-" name then ignore (fs_remove_file leaf_path)
      else match strip_suffix ".deleting" name with
           | Some stem =>
               if bool_decide (stem ∈ known_ids)
               then ignore (fs_rename leaf_path (mid_path ++ [stem]))
               else ignore (fs_remove_file leaf_path)
           | None =>
               if bool_decide (name ∈ known_ids) then ret tt
               else ignore (fs_remove_file leaf_path)
           end
  end.

(** A directory level: entries that are directories with a name of [width]
    bytes are entered. *)
Definition reconcile_level (width : nat) (d : path) (visit : path → IO Store unit)
    (entry : Entry) : IO Store unit :=
  entry ← next_entry entry;
  meta ← attempt (entry_is_dir d entry);
  match meta with
  | inl _ | inr false => ret tt
  | inr true =>
      let name := entry_name entry in
      if negb (valid_utf8 (str_bytes name)) || negb (String.length name =? width)
      then ret tt
      else visit (d ++ [name])
  end.

Definition read_dir_or_skip (d : path) (visit : Entry → IO Store unit) : IO Store unit :=
  r ← attempt (fs_read_dir d);
  match r with
  | inl _ => ret tt
  | inr es => for_each es visit
  end.

Definition reconcile_orphans : IO Store unit :=
  ids ← with_dao list_source_ids;
  let known_ids : gset string := list_to_set ids in
  let linadata_root := root ++ ["linadata"%string] in
  top ← attempt (fs_read_dir linadata_root);
  match top with
  | inl (IoError NotFound _) => ret tt
  | inl err => fail err
  | inr es =>
      for_each es (reconcile_level 4 linadata_root (λ top_path,
        read_dir_or_skip top_path (reconcile_level 2 top_path (λ mid_path,
          read_dir_or_skip mid_path (reconcile_leaf known_ids mid_path)))))
  end.

(** [StoreManager::new] *)
Definition StoreManager_new : IO Store unit :=
  fs_create_dir_all (root ++ ["linadata"%string]);;
  with_dao Dao_new;;
  r ← attempt reconcile_orphans;
  match r with
  | inl err => fail (boxed_io_error Other ("Startup reconciliation failed: " +:+ err_text err))
  | inr _ =>
      r ← attempt sync_dirs_from_links;
      match r with
      | inl err => fail (boxed_io_error Other ("Startup dir sync failed: " +:+ err_text err))
      | inr _ => ret tt
      end
  end.

(** *** Files of the host *)

Definition host_path (p : string) : path := as_os_str <$> components p.

Definition get_and_save (requested : list string) (dest : string) : IO Store unit :=
  if bool_decide (requested = []) then fail (boxed_io_error Other "No files requested") else
  let dest_root := host_path dest in
  fs_create_dir_all dest_root;;
  for_each requested (λ file,
    data ← get_binary_data file;
    name ← of_option (boxed_io_error InvalidInput "Invalid file name for save target")
             (file_name file);
    let dest_path := dest_root ++ [name] in
    fs_create_dir_all (parent_of dest_path);;
    fs_write dest_path data).

Definition put (requested : list string) (cover compressed : bool) : IO Store unit :=
  if bool_decide (requested = []) then fail (boxed_io_error Other "No files requested") else
  for_each requested (λ file,
    name ← of_option (boxed_io_error InvalidInput "Invalid file path format") (file_name file);
    name ← of_option (boxed_io_error InvalidInput "File name contains invalid UTF-8 characters")
             (from_utf8 (str_bytes name));
    r ← attempt (fs_read (host_path file));
    match r with
    | inr input => put_binary_data name input cover compressed
    | inl (IoError NotFound _) =>
        fail (boxed_io_error NotFound ("File " +:+ file +:+ " not found"))
    | inl err => fail err
    end).
End Store.
