(* ===== verification/Frames.v ===== *)
(** * What the store manager leaves alone

    The operations on files never touch the table of directories, nor the clock:
    frame properties, by [Preserves] and [Timeless] instances for the statements
    and file operations they are made of. *)
From S2P Require Import Prelude Io Runs Strs Block World Dao Disk Store.

(** The table of directories. *)
Definition dir_table (s : Store) : gmap string DirRow := dir (db s).

Section Frames.
Context `{P : Platform} `{C : Codec}.
Variable root : path.
Variable bm : BlockManager.

#[export] Instance query_frame {X A} (f : Store → X) ctx (g : Db → A) : Preserves f (query ctx g).
Proof. by apply external_preserves. Qed.
Lemma execute_frame ctx g : (∀ d d', g d = Some d' → dir d' = dir d) → Preserves dir_table (execute ctx g).
Proof.
  intros Hg. apply external_preserves; [done|]. intros s. destruct (g (db s)) as [d|] eqn:E; [|done].
  by apply Hg.
Qed.
Ltac statement := apply execute_frame; intros d d' H; repeat case_bool_decide; simplify_eq; try done;
  repeat case_match; simplify_eq; done.

#[export] Instance insert_link_frame i n e s m : Preserves dir_table (insert_link_with_id i n e s m).
Proof. statement. Qed.
#[export] Instance set_link_mode_frame n m : Preserves dir_table (set_link_mode n m).
Proof. statement. Qed.
#[export] Instance delete_link_frame i : Preserves dir_table (delete_link_by_id i).
Proof. statement. Qed.
#[export] Instance update_link_frame i s : Preserves dir_table (update_link_source_id i s).
Proof. statement. Qed.
#[export] Instance insert_source_frame i h c z n : Preserves dir_table (insert_source_with_count i h c z n).
Proof. apply bind_preserves; [apply _|intros t]. statement. Qed.
#[export] Instance update_source_frame i h c z n : Preserves dir_table (update_source i h c z n).
Proof. apply bind_preserves; [apply _|intros t]. statement. Qed.
#[export] Instance delete_source_frame i : Preserves dir_table (delete_source_by_id i).
Proof. statement. Qed.

Ltac disk := apply external_preserves; [done|intros s; repeat case_match; done].
#[export] Instance create_dir_frame p : Preserves dir_table (fs_create_dir_all p).
Proof. disk. Qed.
#[export] Instance fs_read_frame p : Preserves dir_table (fs_read p).
Proof. disk. Qed.
#[export] Instance file_create_frame p : Preserves dir_table (file_create p).
Proof. disk. Qed.
#[export] Instance file_write_frame p b : Preserves dir_table (file_write_all p b).
Proof. disk. Qed.
#[export] Instance file_sync_frame p : Preserves dir_table (file_sync_all p).
Proof. disk. Qed.
#[export] Instance fs_rename_frame p q : Preserves dir_table (fs_rename p q).
Proof. disk. Qed.
#[export] Instance fs_remove_frame p : Preserves dir_table (fs_remove_file p).
Proof. disk. Qed.

Ltac frame := repeat (apply _ || apply bind_preserves || case_match || intros ? || apply attempt_preserves
  || apply ignore_preserves || apply map_err_preserves || apply for_each_preserves).

#[export] Instance spawn_frame {A} w (r : Res A) : Preserves dir_table (spawn_blocking w r).
Proof. unfold spawn_blocking. frame. Qed.
#[export] Instance source_path_frame s : Preserves dir_table (source_path root s).
Proof. unfold source_path, source_dir. frame. Qed.
#[export] Instance source_dir_frame s : Preserves dir_table (source_dir root s).
Proof. unfold source_dir. frame. Qed.
#[export] Instance persist_frame s b : Preserves dir_table (persist_source_bytes root s b).
Proof. unfold persist_source_bytes, new_uuid. frame. Qed.
#[export] Instance remove_frame s : Preserves dir_table (remove_source_file_if_exists root s).
Proof. unfold remove_source_file_if_exists. frame. Qed.
#[export] Instance release_frame l s n : Preserves dir_table (release_source root l s n).
Proof. unfold release_source, with_dao. frame. Qed.
#[export] Instance list_frame p n e r : Preserves dir_table (list_locked p n e r).
Proof. unfold list_locked, get_links_by_ext, get_n_links, get_links_by_name, with_dao. frame. Qed.
#[export] Instance list_op_frame p n e r : Preserves dir_table (list_ p n e r).
Proof. apply list_frame. Qed.
#[export] Instance get_frame n : Preserves dir_table (get_binary_data root n).
Proof. unfold get_binary_data, get_links_by_name, get_source_by_id, with_dao. frame. Qed.
#[export] Instance replace_frame i l s c h z b : Preserves dir_table (replace_with root i l s c h z b).
Proof. unfold replace_with, insert_source. frame. Qed.
#[export] Instance put_frame n d cover cmp : Preserves dir_table (put_binary_data root bm n d cover cmp).
Proof.
  unfold put_binary_data, put_binary_data_locked, replace_source, overwrite_source, share_source,
    create_source, create_with, file_name_gen, new_uuid, insert_source, get_links_by_name,
    get_source_by_id, get_source_by_hash256, with_dao. frame.
Qed.
#[export] Instance delete_frame n r : Preserves dir_table (delete_ root n r).
Proof. unfold delete_, delete_one, get_source_by_id, with_dao. frame. Qed.
#[export] Instance set_file_mode_frame n m : Preserves dir_table (set_file_mode n m).
Proof. unfold set_file_mode, with_dao. frame. Qed.
End Frames.

(** *** The clock *)

Section Clock.
Context `{P : Platform} `{C : Codec}.
Variable root : path.
Variable bm : BlockManager.

#[export] Instance query_timeless {A} ctx (g : Db → A) : Timeless (query ctx g).
Proof. apply external_timeless. Qed.
#[export] Instance execute_timeless ctx g : Timeless (execute ctx g).
Proof. apply external_timeless. Qed.
Ltac tick := repeat (apply _ || apply external_timeless || apply bind_timeless || case_match || intros ?
  || apply attempt_timeless || apply ignore_timeless || apply map_err_timeless || apply for_each_timeless).

#[export] Instance spawn_timeless {A} w (r : Res A) : Timeless (spawn_blocking w r).
Proof. unfold spawn_blocking. tick. Qed.
#[export] Instance source_dir_timeless s : Timeless (source_dir root s).
Proof. unfold source_dir. tick. Qed.
#[export] Instance persist_timeless s b : Timeless (persist_source_bytes root s b).
Proof. unfold persist_source_bytes, new_uuid. tick. Qed.
#[export] Instance release_timeless l s n : Timeless (release_source root l s n).
Proof. unfold release_source, source_path, with_dao, update_source, delete_source_by_id, insert_source_with_count. tick. Qed.
#[export] Instance get_timeless n : Timeless (get_binary_data root n).
Proof. unfold get_binary_data, get_links_by_name, get_source_by_id, source_path, with_dao. tick. Qed.
#[export] Instance replace_timeless i l s c h z b : Timeless (replace_with root i l s c h z b).
Proof.
  unfold replace_with, insert_source, insert_source_with_count, update_link_source_id, delete_source_by_id,
    remove_source_file_if_exists, source_path. tick.
Qed.
#[export] Instance put_timeless n d cover cmp : Timeless (put_binary_data root bm n d cover cmp).
Proof.
  unfold put_binary_data, put_binary_data_locked, replace_source, overwrite_source, share_source, create_source,
    create_with, file_name_gen, new_uuid, insert_source, insert_source_with_count, insert_link_with_id, update_source,
    delete_link_by_id, delete_source_by_id, remove_source_file_if_exists, source_path, get_links_by_name,
    get_source_by_id, get_source_by_hash256, with_dao. tick.
Qed.
#[export] Instance delete_timeless n r : Timeless (delete_ root n r).
Proof.
  unfold delete_, delete_one, list_locked, get_links_by_name, get_links_by_ext, get_n_links, get_source_by_id,
    delete_link_by_id, insert_link_with_id, with_dao. tick.
Qed.
End Clock.
