(* ===== verification/Layers.v ===== *)
(** * From runs to tables: the middle layer of the store's proof

    A run of the store manager goes through SQL statements and file operations,
    any one of which may fail.  This file relates the detailed state to the
    part of it the manager's promises depend on ([Tables]): which name points to
    which source, what each source row says, and the bytes filed under each
    source identifier.  Timestamps, modes, temporary files and tombstones are
    forgotten.  Every primitive gets one lemma: started with at most one failure
    ahead it either does its work, or fails having changed nothing (and then
    nothing else can fail). *)
From S2P Require Import Prelude Io Runs Strs World Dao Disk Block Store.

Record SrcCore := mkCore { hash_of : string; compressed_of : bool; size_of : Z; count_of : Z }.
Definition core_row (r : SourceRow) : SrcCore :=
  mkCore (sr_hash256 r) (sr_compressed r) (sr_size r) (sr_count r).
Definition link_core (r : LinkRow) : string * string := (lr_name r, lr_source_id r).

Record Tables := mkTables {
  t_links : gmap string (string * string);     (* link id -> name, source id *)
  t_sources : gmap string SrcCore;
  t_payloads : gmap string bytes               (* source id -> bytes on disk *)
}.

Definition set_t_links f t := mkTables (f (t_links t)) (t_sources t) (t_payloads t).
Definition set_t_sources f t := mkTables (t_links t) (f (t_sources t)) (t_payloads t).
Definition set_t_payloads f t := mkTables (t_links t) (t_sources t) (f (t_payloads t)).

(** ** The abstraction *)

Section Rel.
Context `{P : Platform}.
Variable root : path.

Record Rel (s : Store) (t : Tables) : Prop := {
  rel_links : link_core <$> link (db s) = t_links t;
  rel_sources : core_row <$> source (db s) = t_sources t;
  rel_payloads : ∀ id, dotless id → files (fs s) !! file_path root id = t_payloads t !! id
}.

(** A step of the store manager: it succeeds with a result in [Q] and takes
    the tables to [t'], or the one failure happens and they are [tf]. *)
Definition step_to {A} (w : Env Store) (tf t' : Tables) (Q : A → Prop)
    : Res A * Env Store → Prop :=
  ends w (λ w', Rel (state w') tf) (λ a w', Q a ∧ Rel (state w') t').

Lemma file_path_inj id id' : file_path root id = file_path root id' → id = id'.
Proof. unfold file_path, dir_path. intros H%(f_equal last). rewrite !last_snoc in H. congruence. Qed.

(** Temporary files and tombstones are never the file of a source. *)
Lemma sibling_ne id id' suffix :
  dotless id' → ¬ dotless suffix →
  dir_path root id ++ [id +:+ suffix] ≠ file_path root id'.
Proof.
  intros Hd Hs H%(f_equal last). unfold file_path in H. rewrite !last_snoc in H.
  simplify_eq. by apply dotless_app in Hd as [_ ?].
Qed.

(** *** Statements *)

Lemma query_step {A} ctx (f : Db → A) w t (Q : A → Prop) :
  Rel (state w) t → one_failure (fates w) → Q (f (db (state w))) →
  step_to w t t Q (query ctx f w).
Proof. intros. eapply external_ends; [done|done| |]; intros; simplify_eq; by rewrite ?H2. Qed.

(** A statement changes no file, whether it goes through or not. *)
Lemma execute_step ctx f w t t' d :
  Rel (state w) t → one_failure (fates w) → f (db (state w)) = Some d →
  Rel (mkStore d (fs (state w))) t' →
  ends w (λ w', Rel (state w') t ∧ fs (state w') = fs (state w))
    (λ _ w', Rel (state w') t' ∧ fs (state w') = fs (state w)) (execute ctx f w).
Proof.
  intros HR Hf Hd HR'. eapply external_ends; [done|by rewrite Hd| |];
    intros; by (rewrite H || rewrite H0).
Qed.

Lemma rel_source_None s t id : Rel s t → t_sources t !! id = None → source (db s) !! id = None.
Proof. intros [_ <- _] H. by rewrite lookup_fmap, fmap_None in H. Qed.
Lemma rel_source_Some s t id c :
  Rel s t → t_sources t !! id = Some c → ∃ r, source (db s) !! id = Some r ∧ core_row r = c.
Proof. intros [_ <- _] H. rewrite lookup_fmap in H. apply fmap_Some in H. naive_solver. Qed.
Lemma rel_link_None s t id : Rel s t → t_links t !! id = None → link (db s) !! id = None.
Proof. intros [<- _ _] H. by rewrite lookup_fmap, fmap_None in H. Qed.
Lemma rel_link_Some s t id c :
  Rel s t → t_links t !! id = Some c → ∃ r, link (db s) !! id = Some r ∧ link_core r = c.
Proof. intros [<- _ _] H. rewrite lookup_fmap in H. apply fmap_Some in H. naive_solver. Qed.

(** *** What the queries return *)

Lemma elem_select_links p `{∀ r, Decision (p r)} d l :
  l ∈ select_links p d ↔ ∃ id r, link d !! id = Some r ∧ p r ∧ l = link_of_row id r.
Proof.
  unfold select_links. rewrite list_elem_of_fmap. split.
  - intros ([id r] & -> & Hin). apply elem_of_map_to_list, map_lookup_filter_Some in Hin.
    naive_solver.
  - intros (id & r & ? & ? & ->). exists (id, r). split; [done|].
    by apply elem_of_map_to_list, map_lookup_filter_Some.
Qed.

Lemma select_links_none p `{∀ r, Decision (p r)} d :
  (∀ id r, link d !! id = Some r → ¬ p r) → select_links p d = [].
Proof.
  intros Hn. apply elem_of_nil_inv. intros l (id & r & ? & ? & _)%elem_select_links.
  by eapply Hn.
Qed.

Lemma select_links_one p `{∀ r, Decision (p r)} d i r0 :
  link d !! i = Some r0 → p r0 → (∀ id r, link d !! id = Some r → p r → id = i) →
  select_links p d = [link_of_row i r0].
Proof.
  intros Hi Hp Hu. unfold select_links.
  replace (filter (λ kv, p kv.2) (link d)) with ({[i := r0]} : gmap string LinkRow).
  - by rewrite map_to_list_singleton.
  - apply map_eq. intros j. apply option_eq. intros r.
    rewrite lookup_singleton_Some, map_lookup_filter_Some. split.
    + by intros [<- <-].
    + intros [Hj Hpr]. simpl in Hpr. rewrite (Hu j r Hj Hpr) in *. naive_solver.
Qed.

Definition link_says (l : Link) (i name sid : string) : Prop :=
  l_id l = i ∧ l_name l = name ∧ l_source_id l = sid.
Definition source_says (src : Source) (id : string) (c : SrcCore) : Prop :=
  s_id src = id ∧ s_hash256 src = hash_of c ∧ s_compressed src = compressed_of c ∧
  s_size src = u64_of_i64 (size_of c) ∧ s_count src = u64_of_i64 (count_of c).

Lemma source_of_row_says id r : source_says (source_of_row id r) id (core_row r).
Proof. done. Qed.

Definition names_unique (t : Tables) : Prop := ∀ i j n s s',
  t_links t !! i = Some (n, s) → t_links t !! j = Some (n, s') → i = j.

Lemma links_named_step w t name i sid :
  Rel (state w) t → one_failure (fates w) → names_unique t →
  t_links t !! i = Some (name, sid) →
  step_to w t t (λ ls, ∃ l, ls = [l] ∧ link_says l i name sid)
    (with_dao (get_links_by_name name false) w).
Proof.
  intros HR Hf Hu Hi. apply map_err_ends, query_step; [done..|].
  destruct (rel_link_Some _ _ _ _ HR Hi) as (r & Hr & [= <- <-]).
  exists (link_of_row i r). split; [|done]. apply select_links_one; [done..|].
  intros id r' Hr' En. apply (Hu id i (lr_name r) (lr_source_id r') (lr_source_id r)); [|done].
  destruct HR as [<- _ _]. rewrite lookup_fmap, Hr'. simpl. unfold link_core. by rewrite En.
Qed.

Lemma links_unnamed_step w t name :
  Rel (state w) t → one_failure (fates w) →
  (∀ i sid, t_links t !! i ≠ Some (name, sid)) →
  step_to w t t (λ ls, ls = []) (with_dao (get_links_by_name name false) w).
Proof.
  intros HR Hf Hn. apply map_err_ends, query_step; [done..|].
  apply select_links_none. intros id r Hr En. apply (Hn id (lr_source_id r)).
  destruct HR as [<- _ _]. rewrite lookup_fmap, Hr. simpl. unfold link_core. by rewrite En.
Qed.

Lemma source_by_id_step w t id c :
  Rel (state w) t → one_failure (fates w) → t_sources t !! id = Some c →
  step_to w t t (λ o, ∃ src, o = Some src ∧ source_says src id c)
    (with_dao (get_source_by_id id) w).
Proof.
  intros HR Hf Hc. apply map_err_ends, query_step; [done..|].
  destruct (rel_source_Some _ _ _ _ HR Hc) as (r & -> & <-). eexists; split; [done|].
  apply source_of_row_says.
Qed.

Lemma source_by_hash_step w t h :
  Rel (state w) t → one_failure (fates w) →
  step_to w t t (λ o, match o with
      | Some src => ∃ id c, t_sources t !! id = Some c ∧ source_says src id c ∧ hash_of c = h
      | None => ∀ id c, t_sources t !! id = Some c → hash_of c ≠ h
      end) (with_dao (get_source_by_hash256 h) w).
Proof.
  intros HR Hf. apply map_err_ends, query_step; [done..|].
  destruct (map_to_list (filter (λ kv, sr_hash256 kv.2 = h) (source (db (state w)))))
    as [|[id r] l] eqn:E; simpl.
  - apply map_to_list_empty_iff in E. intros id c Hc Hh.
    destruct (rel_source_Some _ _ _ _ HR Hc) as (r & Hr & <-).
    assert (Hin : filter (λ kv, sr_hash256 kv.2 = h) (source (db (state w))) !! id = Some r)
      by by apply map_lookup_filter_Some.
    by rewrite E, lookup_empty in Hin.
  - assert (Hin : (id, r) ∈ (id, r) :: l) by by left. rewrite <- E in Hin.
    apply elem_of_map_to_list, map_lookup_filter_Some in Hin as [Hr Hh].
    exists id, (core_row r). split; [|by split]. destruct HR as [_ <- _].
    by rewrite lookup_fmap, Hr.
Qed.

(** *** What the statements do *)

(** A statement takes the tables from [t] to [t'], or fails and leaves them;
    the files stay as they are. *)
Definition db_step (w : Env Store) (t t' : Tables) : Res unit * Env Store → Prop :=
  ends w (λ w', Rel (state w') t ∧ fs (state w') = fs (state w))
    (λ _ w', Rel (state w') t' ∧ fs (state w') = fs (state w)).

Lemma db_step_to w t t' r : db_step w t t' r → step_to w t t' (λ _, True) r.
Proof. intros. eapply ends_mono; [done|naive_solver..]. Qed.

Lemma rel_set_links s t f g :
  Rel s t → link_core <$> f (link (db s)) = g (link_core <$> link (db s)) →
  Rel (mkStore (set_link f (db s)) (fs s)) (set_t_links g t).
Proof. intros [Hl ? ?] Hf. split; simpl; [by rewrite Hf, Hl|done..]. Qed.
Lemma rel_set_sources s t f g :
  Rel s t → core_row <$> f (source (db s)) = g (core_row <$> source (db s)) →
  Rel (mkStore (set_source f (db s)) (fs s)) (set_t_sources g t).
Proof. intros [? Hl ?] Hf. split; simpl; [done|by rewrite Hf, Hl|done]. Qed.

Lemma insert_source_step w t id h c sz cnt :
  Rel (state w) t → one_failure (fates w) → t_sources t !! id = None →
  db_step w t (set_t_sources <[id := mkCore h c (i64_of_u64 sz) (i64_of_u64 cnt)]> t)
    (insert_source_with_count id h c sz cnt w).
Proof.
  intros HR Hf Hid. pose proof (rel_source_None _ _ _ HR Hid) as Hr.
  unfold insert_source_with_count, now, mbind, IO_mbind, bind.
  eapply execute_step; [done..| |].
  - rewrite bool_decide_eq_false_2; [done|]. rewrite Hr. by intros [? [=]].
  - apply rel_set_sources; [done|]. by rewrite fmap_insert.
Qed.

Lemma insert_link_step w t id name ext sid m :
  Rel (state w) t → one_failure (fates w) →
  t_links t !! id = None → is_Some (t_sources t !! sid) →
  db_step w t (set_t_links <[id := (name, sid)]> t) (insert_link_with_id id name ext sid m w).
Proof.
  intros HR Hf Hid [c Hc]. pose proof (rel_link_None _ _ _ HR Hid) as Hr.
  destruct (rel_source_Some _ _ _ _ HR Hc) as (r & Hs & _).
  eapply execute_step; [done..| |].
  - rewrite bool_decide_eq_false_2 by (rewrite Hr; by intros [? [=]]).
    by rewrite bool_decide_eq_false_2 by (by rewrite Hs).
  - apply rel_set_links; [done|]. by rewrite fmap_insert.
Qed.

Lemma update_link_step w t lid name s0 sid :
  Rel (state w) t → one_failure (fates w) →
  t_links t !! lid = Some (name, s0) → is_Some (t_sources t !! sid) →
  db_step w t (set_t_links <[lid := (name, sid)]> t) (update_link_source_id lid sid w).
Proof.
  intros HR Hf Hl [c Hc]. destruct (rel_source_Some _ _ _ _ HR Hc) as (r & Hs & _).
  destruct (rel_link_Some _ _ _ _ HR Hl) as (lr & Hlr & [= Hn _]).
  eapply execute_step; [done..| |].
  - rewrite Hlr. by rewrite bool_decide_eq_false_2 by (by rewrite Hs).
  - apply rel_set_links; [done|]. rewrite fmap_insert. unfold link_core. simpl. by rewrite Hn.
Qed.

Lemma delete_link_step w t lid :
  Rel (state w) t → one_failure (fates w) →
  db_step w t (set_t_links (delete lid) t) (delete_link_by_id lid w).
Proof.
  intros HR Hf. eapply execute_step; [done..|].
  apply rel_set_links; [done|]. by rewrite fmap_delete.
Qed.

Lemma delete_source_step w t sid :
  Rel (state w) t → one_failure (fates w) →
  (∀ i n, t_links t !! i ≠ Some (n, sid)) →
  db_step w t (set_t_sources (delete sid) t) (delete_source_by_id sid w).
Proof.
  intros HR Hf Hn. eapply execute_step; [done..| |].
  - unfold referenced. rewrite bool_decide_eq_false_2; [done|]. intros Hne. apply Hne.
    apply map_empty. intros i. apply eq_None_not_Some. intros [r Hr].
    apply map_lookup_filter_Some in Hr as [Hr Hs]. simpl in Hs. apply (Hn i (lr_name r)). destruct HR as [<- _ _]. rewrite lookup_fmap, Hr. simpl.
    unfold link_core. by rewrite Hs.
  - apply rel_set_sources; [done|]. by rewrite fmap_delete.
Qed.

Lemma update_source_step w t sid h c sz cnt :
  Rel (state w) t → one_failure (fates w) → is_Some (t_sources t !! sid) →
  db_step w t (set_t_sources <[sid := mkCore h c (i64_of_u64 sz) (i64_of_u64 cnt)]> t)
    (update_source sid h c sz cnt w).
Proof.
  intros HR Hf [c0 Hc]. destruct (rel_source_Some _ _ _ _ HR Hc) as (r & Hr & _).
  unfold update_source, now, mbind, IO_mbind, bind.
  eapply execute_step; [done..|]. apply rel_set_sources; [done|].
  apply map_eq. intros i. rewrite lookup_fmap.
  destruct (decide (i = sid)) as [->|Hi].
  - by rewrite lookup_alter_eq, lookup_insert_eq, Hr.
  - by rewrite lookup_alter_ne, lookup_insert_ne, lookup_fmap by done.
Qed.

(** *** What the file operations do *)

(** Changes of files no source owns (temporary files, tombstones). *)
Lemma rel_set_files s t g :
  Rel s t →
  (∀ id, dotless id → g (files (fs s)) !! file_path root id = files (fs s) !! file_path root id) →
  Rel (set_files g s) t.
Proof. intros [? ? Hp] Hg. split; simpl; [done..|]. intros id Hd. by rewrite Hg, Hp. Qed.

Lemma rel_sibling_file s t id suffix b :
  Rel s t → ¬ dotless suffix →
  Rel (set_files <[dir_path root id ++ [id +:+ suffix] := b]> s) t.
Proof.
  intros HR Hs. apply rel_set_files; [done|]. intros id' Hd.
  apply lookup_insert_ne. by apply sibling_ne.
Qed.
Lemma rel_sibling_delete s t id suffix :
  Rel s t → ¬ dotless suffix →
  Rel (set_files (delete (dir_path root id ++ [id +:+ suffix])) s) t.
Proof.
  intros HR Hs. apply rel_set_files; [done|]. intros id' Hd.
  apply lookup_delete_ne. by apply sibling_ne.
Qed.

Lemma rel_payload_insert s t id b :
  Rel s t → Rel (set_files <[file_path root id := b]> s) (set_t_payloads <[id := b]> t).
Proof.
  intros [? ? Hp]. split; simpl; [done..|]. intros id' Hd.
  destruct (decide (id = id')) as [->|Hne]; [by rewrite !lookup_insert_eq|].
  rewrite !lookup_insert_ne; auto. by intros ?%file_path_inj.
Qed.
Lemma rel_payload_delete s t id :
  Rel s t → Rel (set_files (delete (file_path root id)) s) (set_t_payloads (delete id) t).
Proof.
  intros [? ? Hp]. split; simpl; [done..|]. intros id' Hd.
  destruct (decide (id = id')) as [->|Hne]; [by rewrite !lookup_delete_eq|].
  rewrite !lookup_delete_ne; auto. by intros ?%file_path_inj.
Qed.

Lemma source_dir_ok id w : sliceable id → source_dir root id w = (Ok (dir_path root id), w).
Proof.
  intros H. unfold source_dir. by rewrite H.
Qed.
Lemma source_path_ok id w :
  sliceable id → source_path root id w = (Ok (file_path root id), w).
Proof.
  intros H. unfold source_path, mbind, IO_mbind, bind. by rewrite source_dir_ok.
Qed.
Lemma dotted s : (∃ a b, s = a +:+ String DOT b) → ¬ dotless s.
Proof.
  intros (a & b & ->) [_ H]%dotless_app. unfold dotless in H. simpl in H.
  by destruct (ascii_dec DOT DOT).
Qed.

(** Work on a temporary file leaves the tables alone, and the file where it is. *)
Lemma tmp_step err f w t p b :
  Rel (state w) t → one_failure (fates w) →
  (∃ id suffix, p = dir_path root id ++ [id +:+ suffix] ∧ ¬ dotless suffix) →
  f (state w) = (inr tt, set_files <[p := b]> (state w)) →
  ∀ partial, (∀ n, (∃ b', partial n (state w) = set_files <[p := b']> (state w)) ∨
                   partial n (state w) = state w) →
  ends w (λ w', Rel (state w') t)
    (λ _ w', Rel (state w') t ∧ files (fs (state w')) !! p = Some b)
    (external err partial f w).
Proof.
  intros HR Hf (id & suffix & -> & Hd) Hs partial Hp.
  eapply external_ends; [done|done| |].
  - intros w' -> _. split; [by apply rel_sibling_file|]. apply lookup_insert_eq.
  - intros n w' -> _. destruct (Hp n) as [[b' ->]| ->]; [by apply rel_sibling_file|done].
Qed.

Lemma persist_step w t id b :
  Rel (state w) t → one_failure (fates w) → sliceable id →
  step_to w t (set_t_payloads <[id := b]> t) (λ _, True) (persist_source_bytes root id b w).
Proof.
  intros HR Hf Hlen. unfold persist_source_bytes.
  eapply bind_ends with (Q1 := λ d w', d = dir_path root id ∧ w' = w).
  { rewrite source_dir_ok by done. constructor; [done|by apply next_refl]. }
  intros d w0 [-> ->] _.
  eapply bind_ends with (Q1 := λ _ w', Rel (state w') t ∧ dir_path root id ∈ dirs (fs (state w'))).
  { eapply external_ends; [done|done| |]; intros; rewrite H; [|done].
    split; [by destruct HR|]. simpl. apply elem_of_union_l, elem_of_list_to_set, prefixes_self. }
  intros _ w1 [HR1 Hd1] Hn1. eapply bind_ends with (Q1 := λ u w', state w' = state w1).
  { constructor; [done|]. destruct Hn1. split; simpl; auto with lia. }
  intros u w2 E2 Hn2. set (tmp := dir_path root id ++ [id +:+ ".tmp-" +:+ u]).
  assert (Htmp : ∃ id' suffix, tmp = dir_path root id' ++ [id' +:+ suffix] ∧ ¬ dotless suffix).
  { exists id, (".tmp-" +:+ u). split; [done|]. apply dotted. by exists "", ("tmp-" +:+ u). }
  rewrite <- E2 in HR1, Hd1.
  eapply bind_ends; [eapply (tmp_step _ _ w2 t tmp []); eauto with lina|].
  { simpl. unfold tmp. rewrite parent_of_snoc. by rewrite bool_decide_eq_true_2. }
  intros _ w3 [HR3 _] Hn3.
  eapply bind_ends; [eapply (tmp_step _ _ w3 t tmp b); eauto with lina|].
  intros _ w4 [HR4 Hb4] Hn4.
  eapply bind_ends with (Q1 := λ _ w', state w' = state w4).
  { eapply external_ends; [eauto with lina|done|done|]. by intros _ w' ->. }
  intros _ w5 E5 Hn5. rewrite <- E5 in HR4, Hb4.
  eapply attempt_ends with (F0 := λ w', state w' = state w5).
  - eapply external_ends with (Q := λ _ w', Rel (state w') (set_t_payloads <[id := b]> t));
      [eauto with lina|by rewrite Hb4| |done].
    intros w' -> _.
    change (Rel (set_files <[file_path root id := b]> (set_files (delete tmp) (state w5)))
              (set_t_payloads <[id := b]> t)).
    apply rel_payload_insert.
    destruct Htmp as (id' & suffix & -> & ?). by apply rel_sibling_delete.
  - intros [] w6 HR6 Hn6. apply ret_ends; eauto with lina.
  - intros e w6 E6 Hn6. rewrite <- E6 in HR4, Hb4.
    eapply ignore_reports with (F0 := λ _, True) (Q1 := λ _ w', Rel (state w') t).
    + eauto with lina.
    + eapply external_ends; [eauto with lina|by rewrite Hb4| |done].
      intros w' -> _. destruct Htmp as (id' & suffix & -> & ?). by apply rel_sibling_delete.
    + intros _ w7 HR7 Hn7. apply fail_reports; eauto with lina.
Qed.

Lemma read_payload_step w t id b :
  Rel (state w) t → one_failure (fates w) → dotless id → t_payloads t !! id = Some b →
  ends w (λ w', state w' = state w) (λ a w', a = b ∧ state w' = state w)
    (fs_read (file_path root id) w).
Proof.
  intros [_ _ Hp] Hf Hd Hb. rewrite <- Hp in Hb by done.
  eapply external_ends; [done|by rewrite Hb|done|done].
Qed.

(** Undoing a persist: no failure is left at that point. *)
Lemma remove_file_step w t id :
  Rel (state w) t → calm (fates w) → sliceable id → dotless id →
  is_Some (t_payloads t !! id) →
  step_to w t (set_t_payloads (delete id) t) (λ _, True) (remove_source_file_if_exists root id w).
Proof.
  intros HR Hc Hlen Hd [b Hb]. pose proof (calm_one_failure _ Hc) as Hf.
  unfold remove_source_file_if_exists.
  eapply bind_ends with (Q1 := λ p w', p = file_path root id ∧ w' = w).
  { rewrite source_path_ok by done. constructor; [done|by apply next_refl]. }
  intros p w0 [-> ->] _. pose proof HR as [_ _ Hp]. rewrite <- Hp in Hb by done.
  eapply attempt_ends with (F0 := λ _, True)
    (Q1 := λ _ w', Rel (state w') (set_t_payloads (delete id) t)).
  - eapply external_ends; [done|by rewrite Hb| |done].
    intros w' -> _. by apply rel_payload_delete.
  - intros [] w1 HR1 Hn. apply ret_ends; eauto with lina.
  - intros e w1 _ []. done.
Qed.

(** *** Releasing a source *)

Definition in_i64 (z : Z) : Prop := (- 2 ^ 63 ≤ z < 2 ^ 63)%Z.
Lemma i64_u64_i64 z : in_i64 z → i64_of_u64 (u64_of_i64 z) = z.
Proof.
  unfold in_i64, i64_of_u64, u64_of_i64. intros H.
  pose proof (Z.mod_pos_bound z (2 ^ 64) ltac:(lia)).
  rewrite wrap_small by lia. destruct (N.ltb_spec (Z.to_N (z mod 2 ^ 64)) (2 ^ 63)).
  - destruct (decide (0 ≤ z)%Z); [rewrite Z.mod_small in * by lia; lia|].
    exfalso. replace z with (z + 2 ^ 64 + (-1) * 2 ^ 64)%Z in H1 by lia.
    rewrite Z.mod_add, Z.mod_small in H1 by lia. lia.
  - destruct (decide (0 ≤ z)%Z); [exfalso; rewrite Z.mod_small in * by lia; lia|].
    replace z with (z + 2 ^ 64 + (-1) * 2 ^ 64)%Z at 1 by lia.
    rewrite Z.mod_add, Z.mod_small by lia. lia.
Qed.

Lemma release_shared_step w t l i name sid src c n :
  Rel (state w) t → one_failure (fates w) →
  t_sources t !! sid = Some c → source_says src sid c → link_says l i name sid →
  in_i64 (size_of c) → (0 < n < 2 ^ 63)%N →
  db_step w t (set_t_sources <[sid := mkCore (hash_of c) (compressed_of c) (size_of c) (Z.of_N n)]> t)
    (release_source root l src n w).
Proof.
  intros HR Hf Hc (Hid & Hh & Hcm & Hsz & _) _ Hr Hn. unfold release_source.
  rewrite (proj2 (N.ltb_lt _ _)) by lia. rewrite Hid, Hh, Hcm, Hsz.
  apply map_err_ends.
  pose proof (update_source_step w t sid (hash_of c) (compressed_of c) (u64_of_i64 (size_of c)) n
    HR Hf ltac:(eauto)) as H.
  by rewrite i64_u64_i64, i64_of_u64_small in H by (done || lia).
Qed.

(** A rename between a source's file and its tombstone. *)
Lemma rel_bury s t id b :
  Rel s t → 
  Rel (set_files (λ m, <[dir_path root id ++ [id +:+ ".deleting"] := b]>
                         (delete (file_path root id) m)) s)
      (set_t_payloads (delete id) t).
Proof.
  intros HR.
  change (Rel (set_files <[dir_path root id ++ [id +:+ ".deleting"] := b]>
                 (set_files (delete (file_path root id)) s)) (set_t_payloads (delete id) t)).
  apply rel_sibling_file; [by apply rel_payload_delete|apply dotted; by exists "", "deleting"].
Qed.
Lemma rel_unbury s t id b :
  Rel s t →
  Rel (set_files (λ m, <[file_path root id := b]>
                         (delete (dir_path root id ++ [id +:+ ".deleting"]) m)) s)
      (set_t_payloads <[id := b]> t).
Proof.
  intros HR.
  change (Rel (set_files <[file_path root id := b]>
                 (set_files (delete (dir_path root id ++ [id +:+ ".deleting"])) s))
              (set_t_payloads <[id := b]> t)).
  apply rel_payload_insert, rel_sibling_delete; [done|]. apply dotted. by exists "", "deleting".
Qed.

Lemma unbury_step w t id b :
  Rel (state w) t → calm (fates w) →
  files (fs (state w)) !! (dir_path root id ++ [id +:+ ".deleting"]) = Some b →
  step_to w t (set_t_payloads <[id := b]> t) (λ _, True)
    (fs_rename (dir_path root id ++ [id +:+ ".deleting"]) (file_path root id) w).
Proof.
  intros HR Hc Hb. eapply external_ends; [by apply calm_one_failure|by rewrite Hb| |].
  - intros w' -> _. split; [done|]. by apply rel_unbury.
  - by intros _ w' -> _.
Qed.

Lemma payloads_redo t id b :
  t_payloads t !! id = Some b →
  set_t_payloads <[id := b]> (set_t_payloads (delete id) t) = t.
Proof.
  destruct t as [tl ts tp]; simpl. intros Hb. unfold set_t_payloads; simpl. f_equal.
  by rewrite insert_delete_eq, insert_id.
Qed.
Lemma sources_redo t id c :
  t_sources t !! id = Some c →
  set_t_sources <[id := c]> (set_t_sources (delete id) t) = t.
Proof.
  destruct t as [tl ts tp]; simpl. intros Hb. unfold set_t_sources; simpl. f_equal.
  by rewrite insert_delete_eq, insert_id.
Qed.

Lemma release_last_step w t l i name sid src c raw :
  Rel (state w) t → one_failure (fates w) →
  t_sources t !! sid = Some c → t_payloads t !! sid = Some raw →
  source_says src sid c → link_says l i name sid → 
  in_i64 (size_of c) → in_i64 (count_of c) → dotless sid → sliceable sid →
  (∀ j n, t_links t !! j ≠ Some (n, sid)) →
  step_to w t (set_t_payloads (delete sid) (set_t_sources (delete sid) t)) (λ _, True)
    (release_source root l src 0 w).
Proof.
  intros HR Hf Hc Hraw (Hid & Hh & Hcm & Hsz & Hct) (_ & _ & Hls) Hr Hr' Hd Hlen Hfree.
  unfold release_source. rewrite Hls, Hid. simpl (0 <? 0)%N. cbv iota.
  set (tomb := dir_path root sid ++ [sid +:+ ".deleting"]).
  eapply bind_ends with (Q1 := λ p w', p = file_path root sid ∧ w' = w).
  { rewrite source_path_ok by done. constructor; [done|by apply next_refl]. }
  intros p w0 [-> ->] _.
  eapply bind_ends with (Q1 := λ p w', p = dir_path root sid ∧ w' = w).
  { rewrite source_dir_ok by done. constructor; [done|by apply next_refl]. }
  intros p w0 [-> ->] _.
  eapply bind_ends with (Q1 := λ _ w', Rel (state w') (set_t_payloads (delete sid) t) ∧
                                 files (fs (state w')) !! tomb = Some raw).
  { pose proof HR as [_ _ Hp]. rewrite <- Hp in Hraw by done.
    eapply external_ends; [done|by rewrite Hraw| |by intros _ w' -> _].
    intros w' -> _. split; [by apply rel_bury|]. apply lookup_insert_eq. }
  intros _ w1 [HR1 Ht1] Hn1.
  eapply attempt_ends; [eapply delete_source_step; eauto with lina| |].
  - intros [] w2 [HR2 Efs] Hn2. rewrite <- Efs in Ht1. unfold tomb in Ht1.
    eapply attempt_ends with (F0 := λ w', state w' = state w2)
      (Q1 := λ _ w', Rel (state w') (set_t_payloads (delete sid) (set_t_sources (delete sid) t))).
    + eapply external_ends; [eauto with lina|by rewrite Ht1| |done].
      intros w' -> _. apply rel_sibling_delete; [done|]. apply dotted. by exists "", "deleting".
    + intros [] w3 HR3 Hn3. apply ret_ends; eauto with lina.
    + intros e w3 E3 Hn3. rewrite <- E3 in HR2, Ht1.
      eapply ignore_reports; [eauto with lina|eapply unbury_step; eauto with lina|].
      intros _ w4 [_ HR4] Hn4. rewrite Hh, Hcm, Hsz, Hct.
      eapply ignore_reports; [by apply (next_calm _ _ Hn4), (failed_calm _ _ Hn3)|
        eapply insert_source_step; [exact HR4|eauto with lina|apply lookup_delete_eq]|].
      intros _ w5 [HR5 _] Hn5. apply fail_reports; [eauto with lina|].
      revert HR5. rewrite !i64_u64_i64 by done.
      change (set_t_sources (delete sid) (set_t_payloads (delete sid) t))
        with (set_t_payloads (delete sid) (set_t_sources (delete sid) t)).
      rewrite payloads_redo by done. destruct c. by rewrite sources_redo.
  - intros e w2 [HR2 Efs] Hn2. rewrite <- Efs in Ht1.
    eapply ignore_reports; [eauto with lina|eapply unbury_step; eauto with lina|].
    intros _ w3 [_ HR3] Hn3. apply fail_reports; [eauto with lina|].
    by rewrite payloads_redo in HR3.
Qed.
End Rel.
