(* ===== verification/Catalog.v ===== *)
(** * The store's contract: a map from names to contents

    What [StoreManager] promises is a finite map from file names to byte
    strings.  This file defines when the tables behind the manager ([Tables])
    are well formed ([Inv]: unique names, no dangling reference, exact reference
    counts, contents that match their recorded hash, fresh identifiers), which
    map they stand for ([represents]), and the three changes of the tables the
    manager makes ([drop_link], [new_source], [share_link]), each preserving
    well-formedness and doing to the map what its name says. *)
From S2P Require Import Prelude Io Strs World Block Layers.

(** Links that refer to a source. *)
Definition nrefs (l : gmap string (string * string)) (s : string) : nat :=
  size (filter (λ kv, kv.2.2 = s) l).

(** The bytes a source stands for. *)
Definition decoded `{Codec} (c : SrcCore) (raw : bytes) : option bytes :=
  if compressed_of c
  then match decompress_all raw 0 with Ok b => Some b | _ => None end
  else Some raw.
Definition content `{Codec} (t : Tables) (s : string) : option bytes :=
  c ← t_sources t !! s; raw ← t_payloads t !! s; decoded c raw.

(** The map the tables stand for. *)
Definition represents `{Codec} (t : Tables) (m : gmap string bytes) : Prop := ∀ n data,
  m !! n = Some data ↔ ∃ i s, t_links t !! i = Some (n, s) ∧ content t s = Some data.

Definition source_id_at `{Platform} (d : nat) (s : string) : Prop :=
  ∃ tm k, k < d ∧ s = fmt_compact tm +:+ nanoid8 k.
Definition link_id_at `{Platform} (d : nat) (i : string) : Prop := ∃ k, k < d ∧ i = uuid_v4 k.

(** The count recorded for source [s]: never less than its links, and more by at
    most [slack]. *)
Definition tallied (slack : nat) (l : gmap string (string * string)) (s : string) (c : SrcCore) : Prop :=
  (Z.of_nat (nrefs l s) ≤ count_of c ≤ Z.of_nat (nrefs l s + slack) ∧ 0 < count_of c)%Z.

(** Well-formed tables, all identifiers being among the first [d] drawn.  [slack] is 0
    in normal operation; an operation the process died in may leave a source with
    a reference too many. *)
Record Inv `{P : Platform} `{C : Codec} (t : Tables) (d slack : nat) : Prop := {
  inv_names : names_unique t;
  inv_links : ∀ i n s, t_links t !! i = Some (n, s) → is_Some (t_sources t !! s);
  inv_content : ∀ s c, t_sources t !! s = Some c →
    ∃ data, content t s = Some data ∧ get_hash256_from_binary data = hash_of c;
  inv_count : ∀ s c, t_sources t !! s = Some c →
    tallied slack (t_links t) s c;
  inv_size : ∀ s c, t_sources t !! s = Some c → in_i64 (size_of c);
  inv_payloads : ∀ s, is_Some (t_payloads t !! s) → is_Some (t_sources t !! s);
  inv_link_ids : ∀ i x, t_links t !! i = Some x → link_id_at d i;
  inv_source_ids : ∀ s c, t_sources t !! s = Some c → source_id_at d s
}.

(** What reading depends on: unlike [Inv] it says nothing of the reference
    counts, and nothing of files without a row. *)
Record Sound `{P : Platform} `{C : Codec} (t : Tables) : Prop := {
  so_names : names_unique t;
  so_links : ∀ i n s, t_links t !! i = Some (n, s) → is_Some (t_sources t !! s);
  so_content : ∀ s c, t_sources t !! s = Some c →
    ∃ data, content t s = Some data ∧ get_hash256_from_binary data = hash_of c;
  so_ids : ∀ s c, t_sources t !! s = Some c →
    dotless s ∧ sliceable s ∧ printable (str_bytes s)
}.

(** The counts fit their column, with room for one more link. *)
Definition has_room (slack : nat) (t : Tables) : Prop := (Z.of_nat (size (t_links t) + slack) < 2 ^ 63 - 1)%Z.

(** ** The changes *)

Definition with_count (n : Z) (c : SrcCore) : SrcCore :=
  mkCore (hash_of c) (compressed_of c) (size_of c) n.

(** One reference to source [s] less: the last one takes the source with it. *)
Definition unref (s : string) (t : Tables) : Tables :=
  match t_sources t !! s with
  | Some c =>
      if (count_of c =? 1)%Z
      then mkTables (t_links t) (delete s (t_sources t)) (delete s (t_payloads t))
      else mkTables (t_links t) (<[s := with_count (count_of c - 1) c]> (t_sources t)) (t_payloads t)
  | None => t
  end.
Definition drop_link (i s : string) (t : Tables) : Tables :=
  unref s (set_t_links (delete i) t).
Definition new_source (i n s : string) (c : SrcCore) (raw : bytes) (t : Tables) : Tables :=
  mkTables (<[i := (n, s)]> (t_links t)) (<[s := c]> (t_sources t)) (<[s := raw]> (t_payloads t)).
Definition share_link (i n s : string) (c : SrcCore) (t : Tables) : Tables :=
  mkTables (<[i := (n, s)]> (t_links t)) (<[s := with_count (count_of c + 1) c]> (t_sources t))
    (t_payloads t).

(** ** Counting references *)

Lemma nrefs_insert l i n s s' :
  l !! i = None →
  nrefs (<[i := (n, s)]> l) s' = (if decide (s = s') then 1 else 0) + nrefs l s'.
Proof.
  intros Hi. unfold nrefs. rewrite map_filter_insert. simpl. case_decide.
  - rewrite map_size_insert_None; [done|]. apply map_lookup_filter_None. by left.
  - by rewrite delete_id.
Qed.

Lemma nrefs_delete l i n s s' :
  l !! i = Some (n, s) →
  nrefs l s' = (if decide (s = s') then 1 else 0) + nrefs (delete i l) s'.
Proof.
  intros Hi. rewrite <- (insert_id l i (n, s) Hi) at 1. rewrite <- insert_delete_eq.
  apply nrefs_insert, lookup_delete_eq.
Qed.

Lemma nrefs_zero l s j n : nrefs l s = 0 → l !! j ≠ Some (n, s).
Proof.
  unfold nrefs. intros H%map_size_empty_iff Hj.
  assert (Hf : filter (λ kv, kv.2.2 = s) l !! j = Some (n, s)) by by apply map_lookup_filter_Some.
  by rewrite H, lookup_empty in Hf.
Qed.

Lemma nrefs_unused l s : (∀ j n, l !! j ≠ Some (n, s)) → nrefs l s = 0.
Proof.
  intros H. unfold nrefs. apply map_size_empty_iff, map_empty. intros j.
  apply eq_None_not_Some. intros [[n s'] Hf]. apply map_lookup_filter_Some in Hf as [Hf Hs].
  simpl in Hs. subst. by eapply H.
Qed.

Lemma nrefs_le l s : nrefs l s ≤ size l.
Proof. unfold nrefs. apply map_subseteq_size, map_filter_subseteq. Qed.

Section Catalog.
Context `{P : Platform} `{PL : !PlatformLaws P} `{C : Codec}.
Context {slack : nat}.
Implicit Types (t : Tables) (m : gmap string bytes).

Lemma link_id_weaken d d' i : d ≤ d' → link_id_at d i → link_id_at d' i.
Proof. intros Hd (k & ? & ?). exists k. split; [lia|done]. Qed.
Lemma inv_weaken t d d' : d ≤ d' → Inv t d slack → Inv t d' slack.
Proof.
  intros Hd []; split; try done.
  - intros i x Hi%inv_link_ids0. by eapply link_id_weaken.
  - intros s c Hs. destruct (inv_source_ids0 s c Hs) as (tm & k & ? & ?).
    exists tm, k. split; [lia|done].
Qed.

Lemma source_id_shape d s : source_id_at d s → dotless s ∧ sliceable s.
Proof. intros (tm & k & _ & ->). split; [apply gen_dotless|apply gen_sliceable]. Qed.

Lemma source_id_printable d s : source_id_at d s → printable (str_bytes s).
Proof. intros (tm & k & _ & ->). apply gen_printable. Qed.

Lemma inv_sound t d : Inv t d slack → Sound t.
Proof.
  intros []; split; try done. intros s c Hs%inv_source_ids0.
  destruct (source_id_shape _ _ Hs). eauto using source_id_printable.
Qed.

(** Identifiers not drawn yet are not in use. *)
Lemma fresh_source t d tm : Inv t d slack → t_sources t !! (fmt_compact tm +:+ nanoid8 d) = None.
Proof.
  intros HI. apply eq_None_not_Some. intros [c Hc].
  destruct (inv_source_ids _ _ _ HI _ _ Hc) as (tm' & k & Hk & E%gen_unique). lia.
Qed.
Lemma fresh_payload t d tm : Inv t d slack → t_payloads t !! (fmt_compact tm +:+ nanoid8 d) = None.
Proof.
  intros HI. apply eq_None_not_Some. intros Hp%(inv_payloads _ _ _ HI).
  rewrite (fresh_source _ _ _ HI) in Hp. by destruct Hp.
Qed.
Lemma fresh_link t d d' : Inv t d slack → d ≤ d' → t_links t !! uuid_v4 d' = None.
Proof.
  intros HI Hd. apply eq_None_not_Some. intros [x Hx].
  destruct (inv_link_ids _ _ _ HI _ _ Hx) as (k & Hk & E%uuid_unique). lia.
Qed.

Lemma content_ne t t' s :
  t_sources t' !! s = t_sources t !! s → t_payloads t' !! s = t_payloads t !! s →
  content t' s = content t s.
Proof. intros Hs Hp. unfold content. by rewrite Hs, Hp. Qed.

Lemma content_with_count n c raw : decoded (with_count n c) raw = decoded c raw.
Proof. done. Qed.

(** A link refers to its source, so a count of one leaves no other. *)
Lemma last_ref t d i n s c :
  Inv t d slack → t_links t !! i = Some (n, s) → t_sources t !! s = Some c →
  (Z.of_nat (S (nrefs (delete i (t_links t)) s)) ≤ count_of c)%Z.
Proof.
  intros HI Hi Hc. destruct (inv_count _ _ _ HI _ _ Hc) as [[Hle _] _].
  rewrite (nrefs_delete _ _ _ _ s Hi), decide_True in Hle by done. done.
Qed.

(** What dropping link [i] leaves of the sources. *)
Lemma drop_sources t d i n s s' c' :
  Inv t d slack → t_links t !! i = Some (n, s) → t_sources (drop_link i s t) !! s' = Some c' →
  (∃ c, t_sources t !! s' = Some c ∧ hash_of c' = hash_of c ∧ size_of c' = size_of c) ∧
  content (drop_link i s t) s' = content t s' ∧
  tallied slack (delete i (t_links t)) s' c'.
Proof.
  intros HI Hi. destruct (inv_links _ _ _ HI _ _ _ Hi) as [c Hc].
  pose proof (last_ref _ _ _ _ _ _ HI Hi Hc) as Hn.
  assert (Hother : s' ≠ s → t_sources t !! s' = Some c' → tallied slack (delete i (t_links t)) s' c').
  { intros Hne Hc'. pose proof (inv_count _ _ _ HI _ _ Hc') as E. unfold tallied in *.
    by rewrite (nrefs_delete _ _ _ _ s' Hi), decide_False in E. }
  unfold drop_link, unref, set_t_links; simpl. rewrite Hc. destruct (Z.eqb_spec (count_of c) 1); simpl.
  - rewrite lookup_delete_Some. intros [Hne Hc']. split; [by exists c'|].
    split; [|auto]. apply content_ne; simpl; by rewrite lookup_delete_ne.
  - destruct (decide (s' = s)) as [->|Hne].
    + rewrite lookup_insert_eq. intros [= <-]. split; [by exists c|]. split.
      * unfold content; simpl. by rewrite lookup_insert_eq, Hc.
      * pose proof (inv_count _ _ _ HI _ _ Hc) as E. unfold tallied in *; simpl.
        rewrite (nrefs_delete _ _ _ _ s Hi), decide_True in E by done. lia.
    + rewrite lookup_insert_ne by done. intros Hc'. split; [by exists c'|].
      split; [|auto]. apply content_ne; simpl; by rewrite ?lookup_insert_ne.
Qed.

Lemma drop_links t d i n s :
  Inv t d slack → t_links t !! i = Some (n, s) → t_links (drop_link i s t) = delete i (t_links t).
Proof.
  intros HI Hi. destruct (inv_links _ _ _ HI _ _ _ Hi) as [c Hc].
  unfold drop_link, unref; simpl. rewrite Hc. by case_match.
Qed.

Lemma drop_keeps t d i n s j n' s' :
  Inv t d slack → t_links t !! i = Some (n, s) → delete i (t_links t) !! j = Some (n', s') →
  is_Some (t_sources (drop_link i s t) !! s').
Proof.
  intros HI Hi Hj. destruct (inv_links _ _ _ HI _ _ _ Hi) as [c Hc].
  pose proof Hj as [Hij Hj']%lookup_delete_Some.
  destruct (inv_links _ _ _ HI _ _ _ Hj') as [c' Hc'].
  unfold drop_link, unref; simpl. rewrite Hc. destruct (Z.eqb_spec (count_of c) 1); simpl.
  - rewrite lookup_delete_ne; [by exists c'|]. intros <-.
    pose proof (last_ref _ _ _ _ _ _ HI Hi Hc). apply (nrefs_zero (delete i (t_links t)) s j n'); [lia|done].
  - destruct (decide (s = s')) as [->|Hne]; [rewrite lookup_insert_eq; eauto|].
    rewrite lookup_insert_ne by done. eauto.
Qed.

Lemma drop_payloads t d i n s s' :
  Inv t d slack → t_links t !! i = Some (n, s) → is_Some (t_payloads (drop_link i s t) !! s') →
  is_Some (t_sources (drop_link i s t) !! s').
Proof.
  intros HI Hi. destruct (inv_links _ _ _ HI _ _ _ Hi) as [c Hc].
  unfold drop_link, unref; simpl. rewrite Hc. case_match; simpl.
  - intros [b [? Hb]%lookup_delete_Some]. rewrite lookup_delete_ne by done.
    by eapply inv_payloads.
  - intros Hp%(inv_payloads _ _ _ HI). destruct (decide (s = s')) as [->|?];
      [rewrite lookup_insert_eq; eauto|by rewrite lookup_insert_ne].
Qed.

Lemma drop_inv t d i n s :
  Inv t d slack → t_links t !! i = Some (n, s) → Inv (drop_link i s t) d slack.
Proof.
  intros HI Hi. pose proof (drop_links _ _ _ _ _ HI Hi) as El.
  assert (Hs := λ s' c', drop_sources _ _ _ _ _ s' c' HI Hi).
  split.
  - intros j j' m x x'. rewrite El, !lookup_delete_Some. intros [_ ?] [_ ?].
    by eapply (inv_names _ _ _ HI).
  - intros j m x. rewrite El. by eapply drop_keeps.
  - intros x c Hc. destruct (Hs _ _ Hc) as ((c0 & Hc0 & -> & _) & -> & _).
    by apply (inv_content _ _ _ HI).
  - intros x c Hc. rewrite El. by destruct (Hs _ _ Hc) as (_ & _ & ? & ?).
  - intros x c Hc. destruct (Hs _ _ Hc) as ((c0 & Hc0 & _ & ->) & _).
    by apply (inv_size _ _ _ HI x).
  - intros x. by eapply drop_payloads.
  - intros j x. rewrite El. intros [_ ?]%lookup_delete_Some. by eapply inv_link_ids.
  - intros x c Hc. destruct (Hs _ _ Hc) as ((c0 & Hc0 & _) & _). by eapply inv_source_ids.
Qed.

Lemma drop_represents t d m i n s :
  Inv t d slack → represents t m → t_links t !! i = Some (n, s) →
  represents (drop_link i s t) (delete n m).
Proof.
  intros HI HR Hi n' data. rewrite lookup_delete_Some, (HR n' data), (drop_links _ _ _ _ _ HI Hi).
  assert (Hct : ∀ j s', delete i (t_links t) !! j = Some (n', s') →
                        content (drop_link i s t) s' = content t s').
  { intros j s' Hj. destruct (drop_keeps _ _ _ _ _ _ _ _ HI Hi Hj) as [c' Hc'].
    by destruct (drop_sources _ _ _ _ _ _ _ HI Hi Hc') as (_ & ? & _). }
  split.
  - intros (Hn & j & s' & Hj & Hd). exists j, s'.
    assert (Hj' : delete i (t_links t) !! j = Some (n', s')).
    { apply lookup_delete_Some. split; [|done]. intros <-. naive_solver. }
    split; [done|]. by rewrite (Hct _ _ Hj').
  - intros (j & s' & Hj & Hd). rewrite (Hct _ _ Hj) in Hd.
    apply lookup_delete_Some in Hj as [Hij Hj]. split; [|eauto].
    intros <-. apply Hij. by eapply (inv_names _ _ _ HI).
Qed.

Definition unlinked t (n : string) : Prop := ∀ j s, t_links t !! j ≠ Some (n, s).

Lemma unlinked_represents t m n :
  Sound t → represents t m → m !! n = None ↔ unlinked t n.
Proof.
  intros HI HR. rewrite eq_None_not_Some. split.
  - intros Hn j s Hj. apply Hn. destruct (so_links _ HI _ _ _ Hj) as [c Hc].
    destruct (so_content _ HI _ _ Hc) as (data & Hd & _). exists data. apply HR. eauto.
  - intros Hu [data (j & s & Hj & _)%HR]. by eapply Hu.
Qed.

Lemma unlinked_drop t d i n s :
  Inv t d slack → t_links t !! i = Some (n, s) → unlinked (drop_link i s t) n.
Proof.
  intros HI Hi j s' Hj. rewrite (drop_links _ _ _ _ _ HI Hi) in Hj.
  apply lookup_delete_Some in Hj as [Hij Hj]. apply Hij. by eapply (inv_names _ _ _ HI).
Qed.

(** Adding a link under a new name, whatever happens to the sources. *)
Lemma names_unique_insert t i n s :
  names_unique t → unlinked t n →
  names_unique (set_t_links <[i := (n, s)]> t).
Proof.
  intros Hu Hn j j' m x x'; simpl. rewrite !lookup_insert_Some.
  intros [[<- E]|[? ?]] [[<- E']|[? ?]]; simplify_eq; [done|by exfalso; eapply Hn..|].
  by eapply Hu.
Qed.

Lemma insert_represents t t' m i n s data :
  represents t m → unlinked t n → t_links t !! i = None →
  t_links t' = <[i := (n, s)]> (t_links t) → content t' s = Some data →
  (∀ j n' s', t_links t !! j = Some (n', s') → content t' s' = content t s') →
  represents t' (<[n := data]> m).
Proof.
  intros HR Hn Hi El Hd Hct n' data'. rewrite El, lookup_insert_Some, (HR n' data'). split.
  - intros [[<- <-]|[Hne (j & s' & Hj & Hs')]].
    + exists i, s. by rewrite lookup_insert_eq.
    + exists j, s'. rewrite lookup_insert_ne by congruence. split; [done|].
      by rewrite (Hct _ _ _ Hj).
  - intros (j & s' & [[<- [= <- <-]]|[? Hj]]%lookup_insert_Some & Hs').
    + left. split; [done|congruence].
    + right. rewrite (Hct _ _ _ Hj) in Hs'. split; [|eauto]. intros <-. by eapply Hn.
Qed.

Section NewSource.
Context (t : Tables) (d : nat) (i n s : string) (c : SrcCore) (raw data : bytes).
Context (HI : Inv t d slack) (Hi : t_links t !! i = None) (Hn : unlinked t n)
  (Hs : t_sources t !! s = None) (Hdec : decoded c raw = Some data).

Lemma new_content : content (new_source i n s c raw t) s = Some data.
Proof. unfold content; simpl. by rewrite !lookup_insert_eq. Qed.
Lemma new_content_old s' :
  is_Some (t_sources t !! s') → content (new_source i n s c raw t) s' = content t s'.
Proof.
  intros [c' Hc']. assert (s ≠ s') by congruence.
  apply content_ne; simpl; by rewrite lookup_insert_ne.
Qed.

Lemma new_represents m : represents t m → represents (new_source i n s c raw t) (<[n := data]> m).
Proof.
  intros HR. eapply insert_represents; [done..|apply new_content|].
  intros j n' s' Hj. apply new_content_old. by eapply inv_links.
Qed.

Lemma new_inv :
  link_id_at d i → source_id_at d s → count_of c = 1%Z → in_i64 (size_of c) →
  get_hash256_from_binary data = hash_of c → Inv (new_source i n s c raw t) d slack.
Proof.
  intros Hli Hsi Hc1 Hsz Hh. split; simpl.
  - apply (names_unique_insert t); [by eapply inv_names|done].
  - intros j n' s' [[_ [= _ <-]]|[_ Hj]]%lookup_insert_Some; [rewrite lookup_insert_eq; eauto|].
    destruct (decide (s = s')) as [->|Hne]; [rewrite lookup_insert_eq; eauto|].
    rewrite lookup_insert_ne by done. by eapply inv_links.
  - intros s' c' [[<- <-]|[_ Hc']]%lookup_insert_Some.
    + exists data. split; [apply new_content|done].
    + rewrite new_content_old by eauto. by apply (inv_content _ _ _ HI).
  - intros s' c' [[<- <-]|[Hne Hc']]%lookup_insert_Some; unfold tallied; rewrite nrefs_insert by done.
    + rewrite decide_True, nrefs_unused, Hc1 by (done || intros j n' Hj;
        destruct (inv_links _ _ _ HI _ _ _ Hj); congruence). simpl. lia.
    + rewrite decide_False by done. by apply (inv_count _ _ _ HI).
  - intros s' c' [[<- <-]|[_ Hc']]%lookup_insert_Some; [done|by eapply inv_size].
  - intros s'. destruct (decide (s = s')) as [->|Hne]; [rewrite !lookup_insert_eq; eauto|].
    rewrite !lookup_insert_ne by done. by apply (inv_payloads _ _ _ HI).
  - intros j x [[<- <-]|[_ Hj]]%lookup_insert_Some; [done|by eapply inv_link_ids].
  - intros s' c' [[<- <-]|[_ Hc']]%lookup_insert_Some; [done|by eapply inv_source_ids].
Qed.
End NewSource.

Section ShareLink.
Context (t : Tables) (d : nat) (i n s : string) (c : SrcCore).
Context (HI : Inv t d slack) (Hi : t_links t !! i = None) (Hn : unlinked t n)
  (Hs : t_sources t !! s = Some c).

Lemma share_content s' : content (share_link i n s c t) s' = content t s'.
Proof.
  destruct (decide (s = s')) as [<-|Hne].
  - unfold content; simpl. by rewrite lookup_insert_eq, Hs.
  - apply content_ne; simpl; by rewrite ?lookup_insert_ne.
Qed.

Lemma share_represents m data :
  represents t m → content t s = Some data →
  represents (share_link i n s c t) (<[n := data]> m).
Proof.
  intros HR Hd. eapply insert_represents; [done..|by rewrite share_content|].
  intros. apply share_content.
Qed.

Lemma share_inv : link_id_at d i → Inv (share_link i n s c t) d slack.
Proof.
  intros Hli. split; simpl.
  - apply (names_unique_insert t); [by eapply inv_names|done].
  - intros j n' s' Hj. destruct (decide (s = s')) as [->|Hne]; [rewrite lookup_insert_eq; eauto|].
    rewrite lookup_insert_ne by done.
    apply lookup_insert_Some in Hj as [[_ [= _ <-]]|[_ Hj]]; [done|by eapply inv_links].
  - intros s' c'. rewrite share_content.
    intros [[<- <-]|[_ Hc']]%lookup_insert_Some; simpl; by apply (inv_content _ _ _ HI).
  - intros s' c' [[<- <-]|[Hne Hc']]%lookup_insert_Some; unfold tallied; rewrite nrefs_insert by done; simpl.
    + rewrite decide_True by done. destruct (inv_count _ _ _ HI _ _ Hs). lia.
    + rewrite decide_False by done. by apply (inv_count _ _ _ HI).
  - intros s' c' [[<- <-]|[_ Hc']]%lookup_insert_Some; simpl; by eapply inv_size.
  - intros s' Hp%(inv_payloads _ _ _ HI). destruct (decide (s = s')) as [->|Hne];
      [rewrite !lookup_insert_eq; eauto|by rewrite !lookup_insert_ne].
  - intros j x [[<- <-]|[_ Hj]]%lookup_insert_Some; [done|by eapply inv_link_ids].
  - intros s' c' [[<- <-]|[_ Hc']]%lookup_insert_Some; by eapply inv_source_ids.
Qed.
End ShareLink.

(** *** Half-way: one change, and the count not yet adjusted *)

Lemma inv_slack t d slack' : slack ≤ slack' → Inv t d slack → Inv t d slack'.
Proof.
  intros Hk []; split; try done. intros s c Hc. destruct (inv_count0 s c Hc). unfold tallied. lia.
Qed.

(** A source without a link. *)
Lemma orphan_inv t d s c raw data :
  Inv t d slack → 0 < slack → t_sources t !! s = None → decoded c raw = Some data →
  get_hash256_from_binary data = hash_of c → source_id_at d s → count_of c = 1%Z → in_i64 (size_of c) →
  Inv (mkTables (t_links t) (<[s := c]> (t_sources t)) (<[s := raw]> (t_payloads t))) d slack.
Proof.
  intros HI Hk Hs Hdec Hh Hsi Hc1 Hsz. destruct HI; split; simpl; try done.
  - intros j n' s' Hj. rewrite lookup_insert_is_Some. destruct (decide (s = s')); eauto.
  - intros s' c' [[<- <-]|[Hne Hc']]%lookup_insert_Some.
    + exists data. split; [|done]. unfold content; simpl. by rewrite !lookup_insert_eq.
    + rewrite (content_ne t) by (simpl; by rewrite lookup_insert_ne). by apply inv_content0.
  - intros s' c' [[<- <-]|[Hne Hc']]%lookup_insert_Some; [|by apply inv_count0].
    unfold tallied. rewrite Hc1, nrefs_unused; [lia|]. intros j n' Hj.
    destruct (inv_links0 _ _ _ Hj). congruence.
  - intros s' c' [[<- <-]|[_ Hc']]%lookup_insert_Some; [done|by eapply inv_size0].
  - intros s'. rewrite !lookup_insert_is_Some. naive_solver.
  - intros s' c' [[<- <-]|[_ Hc']]%lookup_insert_Some; [done|by eapply inv_source_ids0].
Qed.

(** A link more, if the count allows for it. *)
Lemma link_added_inv t d i n s c :
  Inv t d slack → t_links t !! i = None → unlinked t n → t_sources t !! s = Some c →
  (Z.of_nat (nrefs (t_links t) s) < count_of c)%Z → link_id_at d i →
  Inv (set_t_links <[i := (n, s)]> t) d slack.
Proof.
  intros HI Hi Hn Hs Hlt Hli. pose proof (names_unique_insert t i n s (inv_names _ _ _ HI) Hn).
  destruct HI; split; simpl; try done.
  - intros j n' s' [[_ [= _ <-]]|[_ Hj]]%lookup_insert_Some; [eauto|by eapply inv_links0].
  - intros s' c' Hc'. pose proof (inv_count0 _ _ Hc') as Hc. unfold tallied in *.
    rewrite nrefs_insert by done. case_decide; [|done]. simplify_eq. lia.
  - intros j x [[<- <-]|[_ Hj]]%lookup_insert_Some; [done|by eapply inv_link_ids0].
Qed.

(** A link less: its source has a reference too many. *)
Lemma link_gone_inv t d i n s :
  Inv t d slack → t_links t !! i = Some (n, s) → Inv (set_t_links (delete i) t) d (S slack).
Proof.
  intros [] Hi; split; simpl; try done.
  - intros j j' m x x'. simpl. rewrite !lookup_delete_Some. intros [_ ?] [_ ?]. by eapply inv_names0.
  - intros j m x [_ Hj]%lookup_delete_Some. by eapply inv_links0.
  - intros s' c' Hc'. pose proof (inv_count0 _ _ Hc') as Hc. unfold tallied in *.
    rewrite (nrefs_delete _ _ _ _ s' Hi) in Hc. case_decide; lia.
  - intros j x [_ Hj]%lookup_delete_Some. by eapply inv_link_ids0.
Qed.

(** *** Which contents are stored *)

Definition tables_within (V : bytes → Prop) t : Prop := ∀ s data, content t s = Some data → V data.

Lemma within_sources V t t' : tables_within V t →
  (∀ s, is_Some (t_sources t' !! s) → content t' s = content t s) → tables_within V t'.
Proof.
  intros HV He s data Hd. apply (HV s). rewrite <- He; [done|]. unfold content in Hd.
  by destruct (t_sources t' !! s).
Qed.
Lemma within_links V t f : tables_within V t → tables_within V (set_t_links f t).
Proof. done. Qed.
Lemma within_drop V t d i n s :
  Inv t d slack → t_links t !! i = Some (n, s) → tables_within V t → tables_within V (drop_link i s t).
Proof.
  intros HI Hi HV. apply (within_sources V t); [done|]. intros s' [c' Hc'].
  by destruct (drop_sources _ _ _ _ _ _ _ HI Hi Hc') as (_ & ? & _).
Qed.
Lemma within_share V t i n s c :
  t_sources t !! s = Some c → tables_within V t → tables_within V (share_link i n s c t).
Proof. intros Hs HV. apply (within_sources V t); [done|]. intros s' _. by apply share_content. Qed.
Lemma within_source V t l s c raw data :
  decoded c raw = Some data → V data → tables_within V t →
  tables_within V (mkTables l (<[s := c]> (t_sources t)) (<[s := raw]> (t_payloads t))).
Proof.
  intros Hdec Hd HV s' data'. destruct (decide (s = s')) as [<-|Hne].
  - unfold content; simpl. rewrite !lookup_insert_eq. simpl. congruence.
  - intros Hd'. apply (HV s'). by rewrite (content_ne t) in Hd' by (simpl; by rewrite lookup_insert_ne).
Qed.

(** Contents no name has belong to sources without a link. *)
Lemma unnamed_unlinked t m s data :
  represents t m → content t s = Some data → (∀ n, m !! n ≠ Some data) → nrefs (t_links t) s = 0.
Proof.
  intros Hm Hd Hn. apply nrefs_unused. intros j n Hj. apply (Hn n), Hm. eauto.
Qed.
End Catalog.
