(* ===== verification/Contract.v ===== *)
(** * The store manager keeps its contract

    Every operation of [StoreManager] on names and contents is a refinement of
    the operation on the map the tables stand for, whichever single SQL
    statement or file operation fails on the way: it does its work and says so,
    or it reports an error and the map is what it was.  *)
From S2P Require Import Prelude Io Runs Strs World Dao Disk Block Store Layers Catalog.

Section Contract.
Context `{P : Platform} `{PL : !PlatformLaws P} `{C : Codec} `{CL : !CodecLaws C}.
Variable root : path.
Variable bm : BlockManager.
Variable slack : nat.
Implicit Types (w : Env Store) (t : Tables) (m : gmap string bytes).

(** An operation that changes the tables from [t] into some [t'] with [G]. *)
Definition changes {A} (w : Env Store) (t : Tables) (G : Tables → Prop)
    : Res A * Env Store → Prop :=
  ends w (λ w', Rel root (state w') t ∧ Inv t (draws w') slack)
    (λ _ w', ∃ t', G t' ∧ Rel root (state w') t' ∧ Inv t' (draws w') slack).

Lemma step_changes {A} w t t' (Q : A → Prop) (G : Tables → Prop) r :
  Inv t (draws w) slack → step_to root w t t' Q r →
  (∀ d, draws w ≤ d → Inv t' d slack) → G t' → changes w t G r.
Proof.
  intros HI [a w' [_ HR] Hn|e w' HR Hn] HI' HG; constructor; try done.
  - exists t'. split_and!; [done|done|]. apply HI', (next_draws _ _ Hn).
  - split; [done|]. eapply inv_weaken; [apply (failed_draws _ _ Hn)|done].
Qed.

Lemma changes_mono {A} w t (G G' : Tables → Prop) (r : Res A * Env Store) :
  changes w t G r → (∀ t', G t' → G' t') → changes w t G' r.
Proof. intros H HG. eapply ends_mono; [exact H|done|]. intros a w' (t' & ? & ?). eauto. Qed.

(** A step that only reads, then the rest. *)
Lemma read_changes {A B} w t (Q : A → Prop) (G : Tables → Prop) (m : IO Store A) (k : A → IO Store B) :
  Inv t (draws w) slack → step_to root w t t Q (m w) →
  (∀ a w1, Q a → Rel root (state w1) t → Inv t (draws w1) slack → one_failure (fates w1) →
     changes w1 t G (k a w1)) →
  changes w t G ((m ≫= k) w).
Proof.
  intros HI Hm Hk. unfold mbind, IO_mbind, bind.
  destruct Hm as [a w1 [HQ HR] Hn|e w1 HR Hn].
  - destruct (Hk a w1 HQ HR) as [b w2 Hb Hn2|e w2 Hb Hn2]; eauto with lina.
    + eapply inv_weaken; [apply (next_draws _ _ Hn)|done].
    + constructor; eauto with lina.
    + constructor; eauto with lina.
  - constructor; [|done]. split; [done|]. eapply inv_weaken; [apply (failed_draws _ _ Hn)|done].
Qed.

Lemma ret_changes {A} w t (G : Tables → Prop) (a : A) :
  Rel root (state w) t → Inv t (draws w) slack → one_failure (fates w) → G t →
  changes w t G (ret a w).
Proof. intros. apply ret_ends; [done|]. eauto. Qed.

(** *** Adding a source under a fresh identifier, and undoing it *)

Section Fresh.
Context (new : string) (raw : bytes) (c : SrcCore) (t : Tables).
Context (Hlong : sliceable new) (Hdl : dotless new)
  (Hs : t_sources t !! new = None) (Hp : t_payloads t !! new = None)
  (Hrefs : ∀ j n, t_links t !! j ≠ Some (n, new)).

Definition with_file : Tables := set_t_payloads <[new := raw]> t.
Definition with_source : Tables := set_t_sources <[new := c]> with_file.

Lemma undo_file : set_t_payloads (delete new) with_file = t.
Proof.
  unfold with_file, set_t_payloads; destruct t; simpl in *. f_equal. by rewrite delete_insert_id.
Qed.
Lemma undo_source : set_t_sources (delete new) with_source = with_file.
Proof.
  unfold with_source, with_file, set_t_sources; destruct t; simpl in *.
  f_equal. by rewrite delete_insert_id.
Qed.

Lemma abandon_file {A} e w :
  Rel root (state w) with_file → calm (fates w) →
  reports w (λ w', Rel root (state w') t)
    ((ignore (remove_source_file_if_exists root new);; fail (A:=A) e) w).
Proof.
  intros HR Hc. eapply ignore_reports; [done| |].
  - eapply remove_file_step; [done..|]. simpl. rewrite lookup_insert_eq. eauto.
  - intros _ w1 [_ HR1] Hn. apply fail_reports; [eauto with lina|]. by rewrite undo_file in HR1.
Qed.

Lemma abandon_source {A} e w :
  Rel root (state w) with_source → calm (fates w) →
  reports w (λ w', Rel root (state w') t)
    ((ignore (delete_source_by_id new);;
      ignore (remove_source_file_if_exists root new);; fail (A:=A) e) w).
Proof.
  intros HR Hc. eapply ignore_reports; [done| |].
  - eapply delete_source_step; [done|by apply calm_one_failure|done].
  - intros _ w1 [HR1 _] Hn. rewrite undo_source in HR1.
    apply abandon_file; [done|]. by apply (next_calm _ _ Hn).
Qed.
End Fresh.

(** *** Giving up a reference *)

Section Release.
Context (t : Tables) (l : Link) (i name sid : string) (src : Source) (c : SrcCore) (raw : bytes).
Context (Hl : link_says l i name sid) (Hsrc : source_says src sid c)
  (Hc : t_sources t !! sid = Some c) (Hraw : t_payloads t !! sid = Some raw)
  (Hsize : in_i64 (size_of c)) (Hshape : dotless sid ∧ sliceable sid)
  (Hcount : (Z.of_nat (S (nrefs (t_links t) sid)) ≤ count_of c)%Z)
  (Hroom : (count_of c < 2 ^ 63)%Z).

Lemma s_count_val : s_count src = Z.to_N (count_of c).
Proof. destruct Hsrc as (_ & _ & _ & _ & ->). unfold u64_of_i64. by rewrite Z.mod_small by lia. Qed.

Lemma count_checked : checked_sub (s_count src) 1 = Some (s_count src - 1)%N.
Proof.
  unfold checked_sub. rewrite s_count_val. by rewrite (proj2 (N.leb_le _ _)) by lia.
Qed.

Lemma release_step w :
  Rel root (state w) t → one_failure (fates w) →
  step_to root w t (unref sid t) (λ _, True) (release_source root l src (s_count src - 1) w).
Proof.
  intros HR Hf. unfold unref. rewrite Hc, s_count_val.
  destruct (Z.eqb_spec (count_of c) 1) as [E|E].
  - replace (Z.to_N (count_of c) - 1)%N with 0%N by lia.
    change (mkTables (t_links t) (delete sid (t_sources t)) (delete sid (t_payloads t)))
      with (set_t_payloads (delete sid) (set_t_sources (delete sid) t)).
    eapply release_last_step; try done; [unfold in_i64; lia|tauto..|].
    intros j n. apply nrefs_zero. lia.
  - replace (count_of c - 1)%Z with (Z.of_N (Z.to_N (count_of c) - 1)) by lia.
    eapply db_step_to, release_shared_step; try done. lia.
Qed.
End Release.

(** *** The new contents *)

Section Put.
Context (name hash : string) (cmp : bool) (data raw : bytes).
Context (Hhash : get_hash256_from_binary data = hash)
  (Hdec : decoded (mkCore hash cmp (i64_of_u64 (len data)) 1) raw = Some data).
Abbreviation core := (mkCore hash cmp (i64_of_u64 (len data)) 1).

Lemma in_i64_cast n : in_i64 (i64_of_u64 n).
Proof.
  unfold in_i64, i64_of_u64. pose proof (wrap_lt 64 n).
  destruct (N.ltb_spec (as_u64 n) (2 ^ 63)); lia.
Qed.

(** A draw of an identifier. *)
Lemma gen_ends {A} (k : string → IO Store A) w F (Q : A → Env Store → Prop) :
  one_failure (fates w) →
  (∀ tm w1, state w1 = state w → fates w1 = fates w → draws w1 = S (draws w) →
     ends w1 F Q (k (fmt_compact tm +:+ nanoid8 (draws w)) w1)) →
  ends w F Q ((file_name_gen ≫= k) w).
Proof.
  intros Hf Hk. unfold file_name_gen, now, draw, ret, mbind, IO_mbind, bind; simpl.
  destruct (Hk (clock w) (mkEnv (state w) (fates w) (clock w) (S (draws w))) eq_refl eq_refl
              eq_refl) as [a w' ? [? ? ?]|e w' ? [? ? ?]];
    constructor; try done; split; simpl in *; auto with lia.
Qed.
Lemma uuid_ends {A} (k : string → IO Store A) w F (Q : A → Env Store → Prop) :
  one_failure (fates w) →
  (∀ w1, state w1 = state w → fates w1 = fates w → draws w1 = S (draws w) →
     ends w1 F Q (k (uuid_v4 (draws w)) w1)) →
  ends w F Q ((new_uuid ≫= k) w).
Proof.
  intros Hf Hk. unfold new_uuid, draw, ret, mbind, IO_mbind, bind; simpl.
  destruct (Hk (mkEnv (state w) (fates w) (clock w) (S (draws w))) eq_refl eq_refl
              eq_refl) as [a w' ? [? ? ?]|e w' ? [? ? ?]];
    constructor; try done; split; simpl in *; auto with lia.
Qed.

(** *** A name moves to a source of its own *)

Section Replace.
Context (t : Tables) (l : Link) (i sid new : string) (src : Source) (c : SrcCore) (raw0 : bytes).
Context (Hl : link_says l i name sid) (Hsrc : source_says src sid c)
  (Hi : t_links t !! i = Some (name, sid)) (Hc : t_sources t !! sid = Some c)
  (Hraw0 : t_payloads t !! sid = Some raw0) (Hsize : in_i64 (size_of c))
  (Hshape : dotless sid ∧ sliceable sid)
  (Hcount : (Z.of_nat (S (nrefs (delete i (t_links t)) sid)) ≤ count_of c)%Z)
  (Hroom : (count_of c < 2 ^ 63)%Z)
  (Hnew : dotless new ∧ sliceable new) (Hns : t_sources t !! new = None)
  (Hnp : t_payloads t !! new = None) (Hrefs : ∀ j n, t_links t !! j ≠ Some (n, new)).

Definition moved : Tables := set_t_links <[i := (name, new)]> (with_source new raw core t).

Lemma new_ne : new ≠ sid.
Proof. congruence. Qed.

Lemma moved_back : set_t_links <[i := (name, sid)]> moved = with_source new raw core t.
Proof.
  unfold moved, set_t_links; simpl. rewrite insert_insert_eq, insert_id by done. done.
Qed.

Lemma moved_nrefs : nrefs (t_links moved) sid = nrefs (delete i (t_links t)) sid.
Proof.
  unfold moved; simpl. rewrite <- insert_delete_eq, nrefs_insert by apply lookup_delete_eq.
  rewrite decide_False by apply new_ne. done.
Qed.

Lemma unref_moved : unref sid moved = new_source i name new core raw (drop_link i sid t).
Proof.
  pose proof new_ne as Hne. unfold drop_link, unref; simpl.
  rewrite lookup_insert_ne, Hc by done. unfold new_source.
  case_match; simpl; rewrite insert_delete_eq; f_equal.
  - by rewrite insert_delete_ne.
  - by rewrite insert_delete_ne.
  - by rewrite insert_insert_ne.
Qed.

Lemma undo_moved {A} e w :
  Rel root (state w) moved → calm (fates w) →
  reports w (λ w', Rel root (state w') t)
    ((ignore (update_link_source_id (l_id l) (s_id src));;
      ignore (delete_source_by_id new);;
      ignore (remove_source_file_if_exists root new);; fail (A:=A) e) w).
Proof.
  intros HR Hcalm. destruct Hl as (-> & _ & _), Hsrc as (-> & _).
  eapply ignore_reports; [done| |].
  - eapply (update_link_step _ _ _ _ name new); [done|by apply calm_one_failure| |].
    + apply lookup_insert_eq.
    + simpl. rewrite lookup_insert_ne by apply new_ne. eauto.
  - intros _ w1 [HR1 _] Hn. rewrite moved_back in HR1.
    eapply (abandon_source new raw core t); try apply Hnew; try done.
    by apply (next_calm _ _ Hn).
Qed.

Lemma replace_step w :
  Rel root (state w) t → one_failure (fates w) →
  step_to root w t (new_source i name new core raw (drop_link i sid t)) (λ _, True)
    (replace_with root new l src cmp hash (len data) raw w).
Proof.
  intros HR Hf. unfold replace_with. pose proof new_ne as Hne.
  eapply bind_ends; [eapply persist_step; try apply Hnew; done|].
  intros _ w1 [_ HR1] Hn1.
  eapply attempt_ends; [eapply (insert_source_step root w1 (with_file new raw t));
    eauto with lina| |].
  2: { intros e w2 [HR2 _] Hn2. eapply abandon_file; try apply Hnew; eauto with lina. }
  intros [] w2 [HR2 _] Hn2.
  change (Rel root (state w2) (with_source new raw core t)) in HR2.
  eapply attempt_ends; [eapply update_link_step; [exact HR2|eauto with lina|..]| |].
  - destruct Hl as (-> & _ & _). done.
  - simpl. rewrite lookup_insert_eq. eauto.
  - intros [] w3 [HR3 _] Hn3. destruct Hl as (Eli & Hl').
    rewrite Eli in HR3. change (Rel root (state w3) moved) in HR3.
    assert (checked_sub (s_count src) 1 = Some (s_count src - 1)%N) as ->.
    { eapply (count_checked moved); try done. by rewrite moved_nrefs. }
    eapply bind_ends with (Q1 := λ n w', n = (s_count src - 1)%N ∧ w' = w3);
      [constructor; [done|eauto with lina]|].
    intros _ w4 [-> ->] _.
    eapply attempt_ends; [eapply (release_step moved l i name sid src c raw0)| |];
      eauto with lina.
    + simpl. by rewrite lookup_insert_ne.
    + simpl. by rewrite lookup_insert_ne.
    + by rewrite moved_nrefs.
    + intros [] w5 [_ HR5] Hn5. rewrite unref_moved in HR5.
      apply ret_ends; eauto with lina.
    + intros e w5 HR5 Hn5. apply undo_moved; eauto with lina.
  - intros e w3 [HR3 _] Hn3. eapply abandon_source; try apply Hnew; eauto with lina.
Qed.
End Replace.

(** The name [name] now has the contents [data]. *)
Definition puts t t' : Prop := ∀ m, represents t m → represents t' (<[name := data]> m).

Lemma replaced t d i sid s :
  Inv t d slack → t_links t !! i = Some (name, sid) →
  t_sources (drop_link i sid t) !! s = None → source_id_at d s →
  Inv (new_source i name s core raw (drop_link i sid t)) d slack ∧
  puts t (new_source i name s core raw (drop_link i sid t)).
Proof.
  intros HI Hi Hs Hid. pose proof (drop_inv _ _ _ _ _ HI Hi) as HI'.
  pose proof (drop_links _ _ _ _ _ HI Hi) as El.
  assert (Hi' : t_links (drop_link i sid t) !! i = None) by (rewrite El; apply lookup_delete_eq).
  pose proof (unlinked_drop _ _ _ _ _ HI Hi) as Hu. split.
  - eapply new_inv; try done; [|apply in_i64_cast].
    apply (inv_link_ids _ _ _ HI _ _ Hi).
  - intros m HR. rewrite <- insert_delete_eq. eapply new_represents; try done.
    by eapply drop_represents.
Qed.

(** Everything the branches for an existing name start from. *)
Record linked t d (l : Link) (i sid : string) (src : Source) (c : SrcCore) : Prop := {
  li_inv : Inv t d slack;
  li_room : has_room slack t;
  li_link : link_says l i name sid;
  li_source : source_says src sid c;
  li_name : t_links t !! i = Some (name, sid);
  li_core : t_sources t !! sid = Some c
}.

Lemma linked_facts t d l i sid src c : linked t d l i sid src c →
  (∃ raw0, t_payloads t !! sid = Some raw0) ∧ in_i64 (size_of c) ∧
  (dotless sid ∧ sliceable sid) ∧
  (Z.of_nat (S (nrefs (delete i (t_links t)) sid)) ≤ count_of c)%Z ∧ (count_of c < 2 ^ 63)%Z.
Proof.
  intros [HI Hroom Hl Hsrc Hi Hc]. split_and!.
  - destruct (inv_content _ _ _ HI _ _ Hc) as (d0 & Hd0 & _).
    unfold content in Hd0. rewrite Hc in Hd0. simpl in Hd0.
    destruct (t_payloads t !! sid) eqn:Hraw0; [eauto|done].
  - by eapply inv_size.
  - by eapply source_id_shape, inv_source_ids.
  - by eapply source_id_shape, inv_source_ids.
  - by eapply last_ref.
  - pose proof (nrefs_le (t_links t) sid). destruct (inv_count _ _ _ HI _ _ Hc).
    unfold has_room in Hroom. lia.
Qed.

Lemma replace_changes w t l i sid src c :
  Rel root (state w) t → one_failure (fates w) → linked t (draws w) l i sid src c →
  changes w t (puts t) (replace_source root l src cmp hash (len data) raw w).
Proof.
  intros HR Hf HL. unfold replace_source.
  destruct (linked_facts _ _ _ _ _ _ _ HL) as ((raw0 & Hraw0) & Hsz & Hshape & Hcount & Hlt).
  destruct HL as [HI Hroom Hl Hsrc Hi Hc].
  apply gen_ends; [done|]. intros tm w1 E1 Ef1 Ed1.
  set (new := fmt_compact tm +:+ nanoid8 (draws w)).
  assert (Hid : source_id_at (draws w1) new) by (exists tm, (draws w); split; [lia|done]).
  pose proof (fresh_source _ _ tm HI : t_sources t !! new = None) as Hns.
  pose proof (fresh_payload _ _ tm HI : t_payloads t !! new = None) as Hnp.
  assert (Hrefs : ∀ j n, t_links t !! j ≠ Some (n, new)).
  { intros j n Hj. destruct (inv_links _ _ _ HI _ _ _ Hj). congruence. }
  assert (Hnd : t_sources (drop_link i sid t) !! new = None).
  { apply eq_None_not_Some. intros [c' Hc'].
    destruct (drop_sources _ _ _ _ _ _ _ HI Hi Hc') as ((? & ? & _) & _). congruence. }
  rewrite <- E1 in HR. rewrite <- Ef1 in Hf.
  apply (inv_weaken _ _ (draws w1)) in HI; [|lia].
  destruct (replaced _ _ _ _ _ HI Hi Hnd Hid) as [HI' Hputs].
  eapply (step_changes w1 t (new_source i name new core raw (drop_link i sid t)));
    [done| |intros; by eapply inv_weaken|done].
  eapply replace_step; try done. by eapply source_id_shape.
Qed.

Lemma overwrite_changes w t l i sid src c :
  Rel root (state w) t → one_failure (fates w) → linked t (draws w) l i sid src c →
  count_of c = 1%Z →
  changes w t (puts t) (overwrite_source root l src cmp hash (len data) raw w).
Proof.
  intros HR Hf HL H1.
  destruct (linked_facts _ _ _ _ _ _ _ HL) as ((raw0 & Hraw0) & Hsz & [Hdl Hlong] & Hcount & Hlt).
  destruct HL as [HI Hroom Hl Hsrc Hi Hc].
  assert (Hd : drop_link i sid t = mkTables (delete i (t_links t)) (delete sid (t_sources t))
                                     (delete sid (t_payloads t))).
  { unfold drop_link, unref; simpl. by rewrite Hc, H1. }
  destruct (replaced t (draws w) i sid sid HI Hi) as [HI' Hputs].
  { rewrite Hd. apply lookup_delete_eq. }
  { by eapply inv_source_ids. }
  eapply (step_changes _ _ _ (λ _, True)); [done| |intros; by eapply inv_weaken|exact Hputs].
  unfold overwrite_source. destruct Hl as (_ & _ & ->).
  eapply bind_ends with (Q1 := λ p w', p = file_path root sid ∧ w' = w).
  { rewrite source_path_ok by done. constructor; [done|by apply next_refl]. }
  intros p w0 [-> ->] _.
  eapply bind_ends with (Q1 := λ b w', b = raw0 ∧ Rel root (state w') t).
  { eapply ends_mono; [eapply read_payload_step; eauto|by intros ? ->|by intros ?? [-> ->]]. }
  intros _ w1 [-> HR1] Hn1.
  eapply bind_ends; [eapply persist_step; eauto with lina|]. intros _ w2 [_ HR2] Hn2.
  eapply attempt_ends; [eapply update_source_step; [exact HR2|eauto with lina|by exists c]| |].
  - intros [] w3 [HR3 _] Hn3. apply ret_ends; [eauto with lina|]. split; [done|].
    rewrite Hd. unfold new_source; simpl. rewrite !insert_delete_eq, (insert_id (t_links t)) by done.
    destruct Hsrc as (_ & _ & _ & _ & Hct). rewrite Hct, H1 in HR3. exact HR3.
  - intros e w3 [HR3 _] Hn3. eapply ignore_reports; [eauto with lina| |].
    + eapply persist_step; [exact HR3|eauto with lina|done].
    + intros _ w4 [_ HR4] Hn4. apply fail_reports; [eauto with lina|].
      unfold set_t_payloads in HR4; simpl in HR4. rewrite insert_insert_eq, insert_id in HR4 by done.
      by destruct t.
Qed.

(** *** A new name *)

Lemma share_changes w t ext sid src c :
  Rel root (state w) t → one_failure (fates w) → Inv t (draws w) slack → has_room slack t →
  unlinked t name → t_sources t !! sid = Some c → source_says src sid c →
  content t sid = Some data →
  changes w t (puts t) (share_source name ext src w).
Proof.
  intros HR Hf HI Hroom Hu Hc (Hid & Hh & Hcm & Hsz & Hct) Hd. unfold share_source.
  apply uuid_ends; [done|]. intros w1 E1 Ef1 Ed1.
  pose proof (fresh_link t (draws w) (draws w) HI (le_n _)) as Hfree.
  set (lid := uuid_v4 (draws w)). rewrite <- E1 in HR. rewrite <- Ef1 in Hf.
  apply (inv_weaken _ _ (draws w1)) in HI; [|lia].
  pose proof (inv_size _ _ _ HI _ _ Hc). destruct (inv_count _ _ _ HI _ _ Hc) as [Hn Hpos].
  pose proof (nrefs_le (t_links t) sid). unfold has_room in Hroom.
  assert (Hli : link_id_at (draws w1) lid) by (exists (draws w); split; [lia|done]).
  eapply (step_changes _ _ (share_link lid name sid c t) (λ _, True));
    [done| |intros; eapply inv_weaken; [done|by apply share_inv]|
     intros m HR'; by apply share_represents].
  eapply bind_ends; [apply map_err_ends; rewrite Hid; eapply db_step_to, insert_link_step; eauto|].
  intros _ w2 [_ HR2] Hn2.
  eapply attempt_ends; [rewrite Hid; eapply update_source_step; [exact HR2|eauto with lina|by exists c]| |].
  - intros [] w3 [HR3 _] Hn3. apply ret_ends; [eauto with lina|]. split; [done|].
    rewrite Hh, Hcm, Hsz, Hct, i64_u64_i64 in HR3 by done.
    replace (i64_of_u64 (as_u64 (u64_of_i64 (count_of c) + 1))) with (count_of c + 1)%Z in HR3;
      [exact HR3|]. unfold u64_of_i64. rewrite Z.mod_small by lia.
    rewrite wrap_small, i64_of_u64_small by lia. lia.
  - intros e w3 [HR3 _] Hn3. eapply ignore_reports; [eauto with lina| |].
    + eapply delete_link_step; [exact HR3|eauto with lina].
    + intros _ w4 [HR4 _] Hn4. apply fail_reports; [eauto with lina|].
      unfold set_t_links in HR4; simpl in HR4. rewrite delete_insert_id in HR4 by done.
      by destruct t.
Qed.

Lemma create_changes w t ext :
  Rel root (state w) t → one_failure (fates w) → Inv t (draws w) slack → unlinked t name →
  changes w t (puts t) (create_source root name ext cmp hash (len data) raw w).
Proof.
  intros HR Hf HI Hu. unfold create_source.
  apply gen_ends; [done|]. intros tm w1 E1 Ef1 Ed1. set (new := fmt_compact tm +:+ nanoid8 (draws w)).
  pose proof (fresh_source _ _ tm HI : t_sources t !! new = None) as Hns.
  pose proof (fresh_payload _ _ tm HI : t_payloads t !! new = None) as Hnp.
  assert (Hrefs : ∀ j n, t_links t !! j ≠ Some (n, new)).
  { intros j n Hj. destruct (inv_links _ _ _ HI _ _ _ Hj). congruence. }
  rewrite <- Ef1 in Hf. rewrite <- E1 in HR. apply (inv_weaken _ _ (draws w1)) in HI; [|lia].
  apply uuid_ends; [done|]. intros w2 E2 Ef2 Ed2. set (lid := uuid_v4 (draws w1)).
  pose proof (fresh_link _ _ _ HI (le_n _) : t_links t !! lid = None) as Hfree.
  rewrite <- E2 in HR. rewrite <- Ef2 in Hf. apply (inv_weaken _ _ (draws w2)) in HI; [|lia].
  assert (Hid : source_id_at (draws w2) new) by (exists tm, (draws w); split; [lia|done]).
  destruct (source_id_shape _ _ Hid) as [Hdl Hlong].
  eapply (step_changes _ _ (new_source lid name new core raw t) (λ _, True)); [done| | |].
  2: { intros d Hd. eapply inv_weaken; [exact Hd|]. eapply new_inv; try done; [|apply in_i64_cast].
       exists (draws w1). split; [lia|done]. }
  2: { intros m HR'. by eapply new_represents. }
  eapply bind_ends; [by eapply persist_step|]. intros _ w3 [_ HR3] Hn3.
  eapply attempt_ends; [eapply (insert_source_step root w3 (with_file new raw t)); eauto with lina| |].
  2: { intros e w4 [HR4 _] Hn4. eapply abandon_file; eauto with lina. }
  intros [] w4 [HR4 _] Hn4. change (Rel root (state w4) (with_source new raw core t)) in HR4.
  eapply attempt_ends; [eapply insert_link_step; [exact HR4|eauto with lina|done|]| |].
  - simpl. rewrite lookup_insert_eq. eauto.
  - intros [] w5 [HR5 _] Hn5. apply ret_ends; eauto with lina.
  - intros e w5 [HR5 _] Hn5. eapply abandon_source; eauto with lina.
Qed.

(** *** The four ways a put can go *)

Lemma put_locked_changes w t m cover ext :
  Rel root (state w) t → one_failure (fates w) → Inv t (draws w) slack → has_room slack t →
  represents t m → (∀ sid d0, content t sid = Some d0 →
                      get_hash256_from_binary d0 = hash → d0 = data) →
  changes w t (λ t', represents t' (<[name := data]> m))
    (put_binary_data_locked root name cover cmp hash (len data) raw ext w).
Proof.
  intros HR Hf HI Hroom Hm Hcol. unfold put_binary_data_locked.
  assert (Hputs : ∀ A w' (r : Res A * _), changes w' t (puts t) r →
            changes w' t (λ t', represents t' (<[name := data]> m)) r)
    by (intros; eapply changes_mono; [done|auto]).
  destruct (m !! name) as [old|] eqn:Hold.
  - pose proof Hold as (i & sid & Hi & Hct)%Hm. destruct (inv_links _ _ _ HI _ _ _ Hi) as [c Hc].
    eapply read_changes; [done|eapply links_named_step; eauto; by eapply inv_names|].
    intros ls w1 (l & -> & Hl) HR1 HI1 Hf1. simpl.
    destruct Hl as (Hli & Hln & Hls). rewrite Hls.
    eapply read_changes; [done|by eapply source_by_id_step|].
    intros o w2 (src & -> & Hsrc) HR2 HI2 Hf2.
    assert (HL : linked t (draws w2) l i sid src c) by done.
    change (changes w2 t (λ t', represents t' (<[name := data]> m))
      ((if cover then
          if (1 <? s_count src)%N then replace_source root l src cmp hash (len data) raw
          else overwrite_source root l src cmp hash (len data) raw
        else if (hash =? s_hash256 src)%string && Bool.eqb (s_compressed src) cmp then ret ()
        else replace_source root l src cmp hash (len data) raw) w2)).
    destruct cover; [|destruct (_ && _) eqn:Esame].
    + destruct (N.ltb_spec 1 (s_count src)); apply Hputs; [by eapply replace_changes|].
      eapply overwrite_changes; [done..|].
      destruct (linked_facts _ _ _ _ _ _ _ HL) as (_ & _ & _ & Hcount & Hlt).
      destruct Hsrc as (_ & _ & _ & _ & Hn). rewrite Hn in H. unfold u64_of_i64 in H.
      rewrite Z.mod_small in H by lia. lia.
    + apply andb_true_iff in Esame as [Eh%String.eqb_eq _].
      apply ret_changes; [done..|]. rewrite insert_id; [done|].
      destruct Hsrc as (_ & Hh & _). destruct (inv_content _ _ _ HI _ _ Hc) as (d0 & Hd0 & Hd0h).
      rewrite Hold. f_equal. assert (old = d0) as -> by congruence.
      apply (Hcol sid); congruence.
    + apply Hputs. by eapply replace_changes.
  - pose proof (proj1 (unlinked_represents _ _ _ (inv_sound _ _ HI) Hm) Hold) as Hu.
    eapply read_changes; [done|by eapply links_unnamed_step|]. intros ls w1 -> HR1 HI1 Hf1. simpl.
    eapply read_changes; [done|by apply source_by_hash_step|].
    intros [src|] w2 Ho HR2 HI2 Hf2; apply Hputs.
    + destruct Ho as (sid & c & Hc & Hsrc & Hh).
      destruct (inv_content _ _ _ HI _ _ Hc) as (d0 & Hd0 & Hd0h).
      eapply share_changes; [done..|]. rewrite Hd0. f_equal. apply (Hcol sid); congruence.
    + by apply create_changes.
Qed.
End Put.
End Contract.
