(* ===== verification/Crash.v ===== *)
(** * The process dies inside an operation

    The other failures of the store are reported to the caller, which undoes
    its work; a crash is not.  This file says what the tables and files can
    look like when the process dies at an arbitrary statement or file operation
    of [put_binary_data] or [delete] ([Stands]: once the next start has put the
    source directory in order, the tables stand for a map, and are well formed
    but for a reference too many), with a small logic for runs that may die
    ([dies]). *)
From S2P Require Import Prelude Io Runs Strs World Dao Disk Block Store Frames Layers Catalog Contract.

(** ** Runs that may die

    Nothing fails, but at some external call the process may die. *)
Fixpoint until_death (fs : list Fate) : Prop :=
  match fs with
  | [] | Die _ :: _ => True
  | Pass :: fs' => until_death fs'
  | FailWith _ _ :: _ => False
  end.

(** The run ends well with [Q], or the process dies in a state with [C], of which
    the number of identifiers drawn is a part. *)
Inductive dies {St A} (w : Env St) (C : nat → St → Prop) (Q : A → Env St → Prop)
    : Res A * Env St → Prop :=
  | dies_ok a w' : Q a w' → until_death (fates w') → draws w ≤ draws w' → dies w C Q (Ok a, w')
  | dies_crash w' : C (draws w') (state w') → dies w C Q (Halt Crash, w').

Section Dies.
Context {St : Type}.
Implicit Types (w : Env St) (C : nat → St → Prop).

Lemma ret_dies {A} (a : A) w C (Q : A → Env St → Prop) :
  until_death (fates w) → Q a w → dies w C Q (ret a w).
Proof. intros. by constructor. Qed.

Lemma bind_dies {A B} (m : IO St A) (k : A → IO St B) w C Q1 (Q2 : B → Env St → Prop) :
  dies w C Q1 (m w) →
  (∀ a w1, Q1 a w1 → until_death (fates w1) → draws w ≤ draws w1 → dies w1 C Q2 (k a w1)) →
  dies w C Q2 ((m ≫= k) w).
Proof.
  intros Hm Hk. unfold mbind, IO_mbind, bind. destruct Hm as [a w1 HQ Hf Hd|w1 HC].
  - destruct (Hk a w1 HQ Hf Hd); constructor; eauto with lia.
  - by constructor.
Qed.

Lemma attempt_dies {A B} (m : IO St A) (k : Error + A → IO St B) w C Q1 (Q2 : B → Env St → Prop) :
  dies w C Q1 (m w) →
  (∀ a w1, Q1 a w1 → until_death (fates w1) → draws w ≤ draws w1 → dies w1 C Q2 (k (inr a) w1)) →
  dies w C Q2 ((attempt m ≫= k) w).
Proof.
  intros Hm Hk. eapply bind_dies with (Q1 := λ r w1, ∃ a, r = inr a ∧ Q1 a w1).
  - unfold attempt. destruct Hm; constructor; eauto.
  - intros r w1 (a & -> & HQ). by apply Hk.
Qed.

Lemma dies_mono {A} w C C' (Q Q' : A → Env St → Prop) r :
  dies w C Q r → (∀ d s, C d s → C' d s) → (∀ a w', Q a w' → Q' a w') → dies w C' Q' r.
Proof. intros []; constructor; auto. Qed.

(** A draw moves nothing but the number of draws. *)
Lemma drawn_dies {A} w w1 C (Q : A → Env St → Prop) r :
  draws w ≤ draws w1 → dies w1 C Q r → dies w C Q r.
Proof. intros Hd []; constructor; auto with lia. Qed.

(** An external call: dead before, half-way, or done. *)
Lemma external_dies {A} err partial (f : St → (Error + A) * St) w C (Q : A → Env St → Prop) a s' :
  until_death (fates w) → f (state w) = (inr a, s') → (∀ n, C (draws w) (partial n (state w))) →
  (∀ w', state w' = s' → Q a w') → dies w C Q (external err partial f w).
Proof.
  intros Hf Hs HC HQ. unfold external. destruct w as [st [|[|k n|n] fs] ck dr]; simpl in *.
  - rewrite Hs. constructor; simpl; auto.
  - rewrite Hs. constructor; simpl; auto.
  - done.
  - apply dies_crash, HC.
Qed.
End Dies.

(** Calls that happen entirely or not at all: what they do can be read off the
    run in which nothing goes wrong. *)
Definition hush {St} (w : Env St) : Env St := mkEnv (state w) [] (clock w) (draws w).
Class Atomic {St A} (m : IO St A) : Prop := atomic : ∀ w, until_death (fates w) →
  (∃ w', m w = (Halt Crash, w') ∧ state w' = state w ∧ draws w' = draws w) ∨
  ∃ w', m w = ((m (hush w)).1, w') ∧ until_death (fates w') ∧
    state w' = state (m (hush w)).2 ∧ draws w' = draws (m (hush w)).2.

Section Atomic.
Context {St : Type}.
#[export] Instance external_atomic {A} err (f : St → (Error + A) * St) :
  Atomic (external err (λ _ s, s) f).
Proof.
  intros w Hf. unfold external, hush. destruct w as [st [|[|k n|n] fs] ck dr]; simpl in *.
  - right. destruct (f st) as [[e|a] s']; eexists; by split_and!.
  - right. destruct (f st) as [[e|a] s']; eexists; by split_and!.
  - done.
  - left. by eexists.
Qed.
#[export] Instance map_err_atomic {A} g (m : IO St A) : Atomic m → Atomic (map_err g m).
Proof.
  intros Hm w Hf. unfold map_err. destruct (Hm w Hf) as [(w' & -> & E)|(w' & -> & Hf' & E)];
    [left; eauto|right]. destruct (m (hush w)) as [[a|e|z] w1]; simpl in *; eauto.
Qed.
#[export] Instance now_atomic {A} (k : N → IO St A) : (∀ t, Atomic (k t)) → Atomic (now ≫= k).
Proof. intros Hk w Hf. unfold now, mbind, IO_mbind, bind. apply (Hk (clock w) w Hf). Qed.

Lemma atomic_dies {A} (m : IO St A) `{!Atomic m} w C F Q1 (Q : A → Env St → Prop) :
  until_death (fates w) → ends (hush w) F Q1 (m (hush w)) → C (draws w) (state w) →
  (∀ a w0 w', Q1 a w0 → state w' = state w0 → Q a w') → dies w C Q (m w).
Proof.
  intros Hf He HC HQ. apply ends_calm in He as (a & w0 & E & HQ1 & Hn); [|constructor].
  destruct (atomic w Hf) as [(w' & -> & Es & Ed)|(w' & -> & Hf' & Es & Ed)]; [by constructor; rewrite Es, Ed|].
  rewrite E in *; simpl in *. constructor; [by eapply HQ|done|]. rewrite Ed. apply (next_draws _ _ Hn).
Qed.
End Atomic.

(** A call that only looks. *)
Lemma read_dies {St A} (m : IO St A) `{!Atomic m, !Preserves (λ s, s) m} w (C : nat → St → Prop) F Q1 (Q : A → Env St → Prop) :
  until_death (fates w) → ends (hush w) F Q1 (m (hush w)) → C (draws w) (state w) →
  (∀ a w0 w', Q1 a w0 → state w' = state w → Q a w') → dies w C Q (m w).
Proof.
  intros Hf He HC HQ. pose proof (preserves (f := λ s, s) (m := m) (hush w)) as Hp.
  assert (He' : ends (hush w) F (λ a w0, Q1 a w0 ∧ state w0 = state w) (m (hush w)))
    by (destruct He; constructor; auto).
  eapply (atomic_dies m); [done|exact He'|done|].
  intros a w0 w' [HQ1 E] E'. apply (HQ a w0); congruence.
Qed.

(** The statements are atomic. *)
Section Statements.
Context `{P : Platform}.
#[export] Instance query_atomic {A} ctx (f : Db → A) : Atomic (query ctx f).
Proof. apply external_atomic. Qed.
#[export] Instance execute_atomic ctx f : Atomic (execute ctx f).
Proof. apply external_atomic. Qed.
#[export] Instance with_dao_atomic {A} (m : IO Store A) : Atomic m → Atomic (with_dao m).
Proof. apply map_err_atomic. Qed.
#[export] Instance with_dao_frame {X A} (f : Store → X) (m : IO Store A) : Preserves f m → Preserves f (with_dao m).
Proof. apply map_err_preserves. Qed.
#[export] Instance insert_source_atomic i h c z n : Atomic (insert_source_with_count i h c z n).
Proof. unfold insert_source_with_count. apply _. Qed.
#[export] Instance update_source_atomic i h c z n : Atomic (update_source i h c z n).
Proof. unfold update_source. apply _. Qed.
#[export] Instance update_link_atomic i s : Atomic (update_link_source_id i s).
Proof. apply execute_atomic. Qed.
#[export] Instance links_named_atomic n : Atomic (get_links_by_name n false).
Proof. apply query_atomic. Qed.
#[export] Instance links_named_frame {X} (f : Store → X) n : Preserves f (get_links_by_name n false).
Proof. by apply query_frame. Qed.
End Statements.

(** ** The directory of the sources

    Where the files of sources are, while no operation runs and across a crash:
    below directories that exist, under identifiers the code has made. *)
Section Shelf.
Context `{P : Platform} `{PL : !PlatformLaws P} `{C : Codec} `{CL : !CodecLaws C}.
Variable root : path.
Implicit Types (w : Env Store) (s : Store) (t : Tables) (m : gmap string bytes).

Definition tomb (id : string) : path := dir_path root id ++ [id +:+ ".deleting"].
Definition stored (p : path) s : Prop := is_Some (files (fs s) !! p).

Record Shelf s : Prop := {
  sh_leaf : ∀ id x, dir_path root id ++ [x] ∉ dirs (fs s);
  sh_housed : ∀ id, dotless id → stored (file_path root id) s ∨ stored (tomb id) s →
    sliceable id ∧ printable (str_bytes id) ∧ list_to_set (prefixes (dir_path root id)) ⊆ dirs (fs s)
}.

(** No tombstone: the files are those of the tables. *)
Record Live s t : Prop := {
  live_rel : Rel root s t;
  live_tombs : ∀ id, dotless id → files (fs s) !! tomb id = None;
  live_shelf : Shelf s
}.

(** What the next start makes of the files of source [id]: a source without a
    row loses its file, one with a row gets back what its tombstone holds. *)
Definition settled s (id : string) : option bytes :=
  match source (db s) !! id with
  | None => None
  | Some _ => match files (fs s) !! tomb id with Some b => Some b | None => files (fs s) !! file_path root id end
  end.
Record Crashed s t : Prop := {
  cr_links : link_core <$> link (db s) = t_links t;
  cr_sources : core_row <$> source (db s) = t_sources t;
  cr_payloads : ∀ id, dotless id → settled s id = t_payloads t !! id;
  cr_shelf : Shelf s
}.

(** The tables without the files of no source. *)
Definition kept t : Tables :=
  mkTables (t_links t) (t_sources t) (filter (λ kv, is_Some (t_sources t !! kv.1)) (t_payloads t)).

Lemma kept_content t id : content (kept t) id = content t id.
Proof.
  unfold content; simpl. destruct (t_sources t !! id) as [c|] eqn:Hc; [|done]. simpl.
  destruct (t_payloads t !! id) as [b|] eqn:Hb.
  - by rewrite (map_lookup_filter_Some_2 _ _ _ _ Hb) by (simpl; eauto).
  - by rewrite map_lookup_filter_None_2 by auto.
Qed.
Lemma kept_represents t m : represents (kept t) m ↔ represents t m.
Proof. unfold represents. simpl. by setoid_rewrite kept_content. Qed.
Lemma kept_sound t : Sound t → Sound (kept t).
Proof.
  intros [Hu Hl Hc Hi]; split; simpl; [done|done| |done].
  intros s c. rewrite kept_content. apply Hc.
Qed.

Lemma live_crashed s t : Live s t → Crashed s (kept t).
Proof.
  intros [[Hl Hs Hp] Ht Hsh]. split; simpl; [done..| |done]. intros id Hd. unfold settled.
  rewrite Ht, Hp by done. destruct (source (db s) !! id) as [r|] eqn:Er.
  - assert (is_Some (t_sources t !! id)) by (rewrite <- Hs, lookup_fmap, Er; eauto).
    destruct (t_payloads t !! id) as [b|] eqn:Hb; [by rewrite (map_lookup_filter_Some_2 _ _ _ _ Hb)|].
    by rewrite map_lookup_filter_None_2 by auto.
  - assert (t_sources t !! id = None) by (rewrite <- Hs, lookup_fmap, Er; done).
    rewrite map_lookup_filter_None_2; [done|]. right. intros x _. simpl. rewrite H. by intros [? [=]].
Qed.

(** *** Changes that do not show *)

Record agree s s' : Prop := {
  ag_db : db s' = db s;
  ag_file : ∀ id, dotless id → files (fs s') !! file_path root id = files (fs s) !! file_path root id;
  ag_tomb : ∀ id, dotless id → files (fs s') !! tomb id = files (fs s) !! tomb id;
  ag_dirs : dirs (fs s) ⊆ dirs (fs s');
  ag_leaf : ∀ id x, dir_path root id ++ [x] ∉ dirs (fs s')
}.
Lemma agree_shelf s s' : agree s s' → Shelf s → Shelf s'.
Proof.
  intros [Hdb Hf Ht Hd Hl] [_ Hh]. split; [done|]. unfold stored in *.
  intros id Hid. rewrite Hf, Ht by done. intros (? & ? & ?)%Hh; [|done].
  split_and!; [done..|]. by trans (dirs (fs s)).
Qed.
Lemma agree_live s s' t : agree s s' → Live s t → Live s' t.
Proof.
  intros Ha [[Hl Hs Hp] Ht Hsh]. pose proof Ha as [Edb Ef Et _ _]. split.
  - split; [by rewrite Edb..|]. intros id Hid. by rewrite Ef, Hp.
  - intros id Hid. by rewrite Et, Ht.
  - by eapply agree_shelf.
Qed.
Lemma agree_crashed s s' t : agree s s' → Crashed s t → Crashed s' t.
Proof.
  intros Ha [Hl Hs Hp Hsh]. pose proof Ha as [Edb Ef Et _ _]. split.
  - by rewrite Edb.
  - by rewrite Edb.
  - intros id Hid. rewrite <- Hp by done. unfold settled. by rewrite Edb, Ef, Et.
  - by eapply agree_shelf.
Qed.

Lemma dotless_split a b x y :
  dotless a → dotless b → a +:+ String DOT x = b +:+ String DOT y → a = b ∧ x = y.
Proof.
  revert b. induction a as [|c a IH]; intros [|c' b] Ha Hb E; cbn in E.
  - by injection E as ->.
  - injection E as E1 _. subst c'. exfalso. revert Hb. by apply dotted; exists EmptyString, b.
  - injection E as E1 _. subst c. exfalso. revert Ha. by apply dotted; exists EmptyString, a.
  - injection E as <- E2. apply (dotless_app (String c EmptyString) a) in Ha as [_ Ha].
    apply (dotless_app (String c EmptyString) b) in Hb as [_ Hb].
    destruct (IH b Ha Hb E2) as [-> ->]. done.
Qed.

Definition junk (id u : string) : path := dir_path root id ++ [id +:+ ".tmp-" +:+ u].
Lemma junk_file id u id' : dotless id' → junk id u ≠ file_path root id'.
Proof. intros Hid. apply sibling_ne; [done|]. apply dotted. by exists "", ("tmp-" +:+ u). Qed.
Lemma junk_tomb id u id' : dotless id → dotless id' → junk id u ≠ tomb id'.
Proof.
  intros H H' E%(f_equal last). unfold junk, tomb in E. rewrite !last_snoc in E.
  injection E as E. by apply dotless_split in E as [_ E].
Qed.
Lemma tomb_file id id' : dotless id' → tomb id ≠ file_path root id'.
Proof. intros Hid. apply sibling_ne; [done|]. apply dotted. by exists "", "deleting". Qed.
Lemma tomb_inj id id' : dotless id → dotless id' → tomb id = tomb id' → id = id'.
Proof.
  intros H H' E%(f_equal last). unfold tomb in E. rewrite !last_snoc in E.
  injection E as E. by apply dotless_split in E as [E _].
Qed.

Lemma agree_refl s : Shelf s → agree s s.
Proof. intros []. by split. Qed.
Lemma agree_junk s id u b : dotless id → Shelf s → agree s (set_files <[junk id u := b]> s).
Proof.
  intros Hid Hsh. split; simpl; [done| | |done|apply sh_leaf, Hsh]; intros id' Hid'.
  - apply lookup_insert_ne. by apply junk_file.
  - apply lookup_insert_ne. by apply junk_tomb.
Qed.
Lemma agree_unjunk s id u : dotless id → Shelf s → agree s (set_files (delete (junk id u)) s).
Proof.
  intros Hid Hsh. split; simpl; [done| | |done|apply sh_leaf, Hsh]; intros id' Hid'.
  - apply lookup_delete_ne. by apply junk_file.
  - apply lookup_delete_ne. by apply junk_tomb.
Qed.

Lemma agree_dirs s id : Shelf s → agree s (add_dirs (list_to_set (prefixes (dir_path root id))) s).
Proof.
  intros Hsh. split; simpl; [done..|set_solver|]. intros id' x.
  rewrite elem_of_union, elem_of_list_to_set. intros [H%prefixes_length|H].
  - unfold dir_path in H. rewrite !length_app in H. simpl in H. lia.
  - by apply (sh_leaf _ Hsh id' x).
Qed.

(** *** Steps *)

Lemma live_db s s' t t' : Live s t → Rel root s' t' → fs s' = fs s → Live s' t'.
Proof.
  intros [_ Ht [Hl Hh]] HR E. split; [done|by rewrite E|].
  split; [intros id x|intros id; unfold stored]; rewrite E; [apply Hl|apply Hh].
Qed.
Lemma live_payload s t id b :
  Live s t → dotless id → sliceable id → printable (str_bytes id) →
  list_to_set (prefixes (dir_path root id)) ⊆ dirs (fs s) →
  Live (set_files <[file_path root id := b]> s) (set_t_payloads <[id := b]> t).
Proof.
  intros [HR Ht [Hl Hh]] Hid H6 Hpr Hd. split.
  - by apply rel_payload_insert.
  - intros id' Hid'. simpl. rewrite lookup_insert_ne; [by apply Ht|].
    intros E. by apply (tomb_file id' id Hid).
  - split; [done|]. unfold stored in *; simpl. intros id' Hid' Hst.
    destruct (decide (id = id')) as [->|Hne]; [done|]. apply Hh; [done|].
    rewrite !lookup_insert_ne in Hst; [done| |].
    + intros E. by apply (tomb_file id' id Hid).
    + by intros ?%file_path_inj.
Qed.

(** A statement that takes the tables from [t] to [t']. *)
Lemma statement_dies {A} (m : IO Store A) `{!Atomic m} w J t t' F :
  Live (state w) t → until_death (fates w) → J (draws w) (state w) →
  ends (hush w) F (λ _ w', Rel root (state w') t' ∧ fs (state w') = fs (state w)) (m (hush w)) →
  dies w J (λ _ w', Live (state w') t') (m w).
Proof.
  intros HL Hf HC He. eapply (atomic_dies m); [done|exact He|done|].
  intros a w0 w' [HR Efs] E. rewrite E. by eapply live_db.
Qed.
(** A query. *)
Lemma look_dies {A} (m : IO Store A) `{!Atomic m, !Preserves (λ s, s) m} w (J : nat → Store → Prop) t (Q : A → Prop) :
  Live (state w) t → until_death (fates w) → J (draws w) (state w) →
  step_to root (hush w) t t Q (m (hush w)) →
  dies w J (λ a w', Q a ∧ Live (state w') t) (m w).
Proof.
  intros HL Hf HC He. eapply (read_dies m); [done|exact He|done|].
  by intros a w0 w' [HQ _] ->.
Qed.

Lemma source_dir_dies {B} (k : path → IO Store B) w J (Q : B → Env Store → Prop) id :
  sliceable id → dies w J Q (k (dir_path root id) w) → dies w J Q ((source_dir root id ≫= k) w).
Proof. intros Hl Hk. unfold mbind, IO_mbind, bind. by rewrite source_dir_ok. Qed.
Lemma source_path_dies {B} (k : path → IO Store B) w J (Q : B → Env Store → Prop) id :
  sliceable id → dies w J Q (k (file_path root id) w) → dies w J Q ((source_path root id ≫= k) w).
Proof. intros Hl Hk. unfold mbind, IO_mbind, bind. by rewrite source_path_ok. Qed.

Lemma persist_dies w (J : nat → Store → Prop) t id b :
  Live (state w) t → until_death (fates w) → dotless id → sliceable id →
  printable (str_bytes id) → (∀ d s, draws w ≤ d → Live s t → J d s) →
  dies w J (λ _ w', Live (state w') (set_t_payloads <[id := b]> t)) (persist_source_bytes root id b w).
Proof.
  intros HL Hf Hid H6 Hpr HC. unfold persist_source_bytes. apply source_dir_dies; [done|].
  set (home := list_to_set (prefixes (dir_path root id)) : gset path).
  eapply bind_dies with (Q1 := λ _ w1, Live (state w1) t ∧ home ⊆ dirs (fs (state w1))).
  { eapply external_dies; [done|done|by intros _; apply HC|]. intros w1 ->. split; [|simpl; set_solver].
    eapply agree_live; [|exact HL]. apply agree_dirs, HL. }
  intros _ w1 [HL1 Hh1] Hf1 Hd1. unfold new_uuid. 
  eapply bind_dies with (Q1 := λ _ w2, Live (state w2) t ∧ home ⊆ dirs (fs (state w2))).
  { constructor; [done|done|simpl; lia]. }
  intros u w2 [HL2 Hh2] Hf2 Hd2. change (dir_path root id ++ [id +:+ ".tmp-" +:+ u]) with (junk id u).
  assert (Hj : ∀ s b, Live s t → Live (set_files <[junk id u := b]> s) t).
  { intros s b' HLs. eapply agree_live; [|exact HLs]. apply agree_junk, HLs. done. }
  eapply bind_dies with (Q1 := λ _ w3, Live (state w3) t ∧ home ⊆ dirs (fs (state w3))).
  { eapply external_dies with (s' := set_files <[junk id u := []]> (state w2)); [done| |intros ?; apply HC; [lia|auto]|].
    - unfold junk. rewrite parent_of_snoc, bool_decide_eq_true_2; [done|]. apply Hh2, elem_of_list_to_set, prefixes_self.
    - intros w3 ->. auto. }
  intros _ w3 [HL3 Hh3] Hf3 Hd3.
  eapply bind_dies with (Q1 := λ _ w4, (Live (state w4) t ∧ home ⊆ dirs (fs (state w4))) ∧
                                 files (fs (state w4)) !! junk id u = Some b).
  { eapply external_dies; [done|done|intros ?; apply HC; [lia|auto]|]. intros w4 ->. simpl. rewrite lookup_insert_eq. auto. }
  intros _ w4 [HL4 Hb4] Hf4 Hd4.
  eapply bind_dies with (Q1 := λ _ w5, state w5 = state w4).
  { eapply external_dies; [done|done|intros _; apply HC; [lia|apply HL4]|done]. }
  intros _ w5 E5 Hf5 Hd5. rewrite <- E5 in HL4, Hb4. destruct HL4 as [HL5 Hh5].
  eapply attempt_dies with (Q1 := λ _ w6, Live (state w6) (set_t_payloads <[id := b]> t)).
  - eapply external_dies; [done|by rewrite Hb4|by intros _; apply HC; [lia|]|]. intros w6 ->.
    change (Live (set_files <[file_path root id := b]> (set_files (delete (junk id u)) (state w5)))
              (set_t_payloads <[id := b]> t)).
    apply live_payload; try done. eapply agree_live; [|exact HL5]. apply agree_unjunk; [done|apply HL5].
  - intros [] w6 HL6 Hf6 _. by apply ret_dies.
Qed.

(** *** Giving up a source *)

(** The source of [id] moves to its tombstone. *)
Definition bury (id : string) (b : bytes) s : Store :=
  set_files (λ fl, <[tomb id := b]> (delete (file_path root id) fl)) s.

Lemma bury_tomb id b s id' : dotless id → dotless id' → id' ≠ id →
  files (fs (bury id b s)) !! tomb id' = files (fs s) !! tomb id'.
Proof.
  intros Hid Hid' Hne. simpl. rewrite lookup_insert_ne; [rewrite lookup_delete_ne; [done|]|].
  - intros E. by apply (tomb_file id' id Hid).
  - intros E. by apply Hne, tomb_inj.
Qed.
Lemma bury_file id b s id' : dotless id' → id' ≠ id →
  files (fs (bury id b s)) !! file_path root id' = files (fs s) !! file_path root id'.
Proof.
  intros Hid' Hne. simpl. rewrite lookup_insert_ne by by apply tomb_file.
  rewrite lookup_delete_ne; [done|]. by intros ?%file_path_inj.
Qed.

Lemma bury_shelf id b s : dotless id → stored (file_path root id) s → Shelf s → Shelf (bury id b s).
Proof.
  intros Hid Hst [Hl Hh]. split; [done|]. intros id' Hid' H.
  destruct (decide (id' = id)) as [->|Hne]; [apply Hh; auto|].
  apply Hh; [done|]. unfold stored in *. by rewrite bury_file, bury_tomb in H.
Qed.

Lemma bury_crashed id b s t :
  Live s t → dotless id → t_payloads t !! id = Some b → is_Some (t_sources t !! id) →
  Crashed (bury id b s) (kept t).
Proof.
  intros HL Hid Hb [c Hc]. pose proof HL as [HR Ht Hsh].
  pose proof (live_crashed _ _ HL) as [Hl Hs Hp _]. split; [done|done| |].
  - intros id' Hid'. rewrite <- Hp by done. unfold settled.
    destruct (decide (id' = id)) as [->|Hne]; [|by rewrite bury_file, bury_tomb by done].
    change (db (bury id b s)) with (db s). destruct (source (db s) !! id); [|done].
    rewrite (Ht id Hid). destruct HR as [_ _ ->]; [|done]. rewrite Hb. simpl. by rewrite lookup_insert_eq.
  - apply bury_shelf; [done| |done]. unfold stored. destruct HR as [_ _ ->]; [|done]. by rewrite Hb.
Qed.

(** Without its row, what is left of a buried source is for the next start to
    remove. *)
Definition unsource (id : string) t : Tables := set_t_sources (delete id) (set_t_payloads (delete id) t).
Lemma kept_unsource id t id' : id' ≠ id → t_payloads (kept (unsource id t)) !! id' = t_payloads (kept t) !! id'.
Proof.
  intros Hne. simpl. apply option_eq. intros x. rewrite !map_lookup_filter_Some. simpl.
  by rewrite !lookup_delete_ne by done.
Qed.
Lemma unsource_crashed s s' id t :
  Crashed s (kept t) → Rel root s' (unsource id t) → fs s' = fs s → Crashed s' (kept (unsource id t)).
Proof.
  intros [Hl Hs Hp Hsh] [Hl' Hs' _] E. split; [done|done| |].
  2: { destruct Hsh as [H1 H2]. split; [intros i x|intros i; unfold stored]; rewrite E; [apply H1|apply H2]. }
  intros id' Hid'. unfold settled. rewrite E.
  assert (Hr : ∀ i, is_Some (source (db s') !! i) ↔ i ≠ id ∧ is_Some (source (db s) !! i)).
  { intros i. rewrite <- (fmap_is_Some core_row), <- lookup_fmap, Hs'.
    rewrite <- (fmap_is_Some core_row (source (db s) !! i)), <- lookup_fmap, Hs. simpl.
    rewrite lookup_delete_is_Some. naive_solver. }
  specialize (Hr id'). destruct (decide (id' = id)) as [->|Hne].
  - destruct (source (db s') !! id) eqn:E1; [by destruct (proj1 Hr ltac:(eauto))|].
    symmetry. simpl. apply map_lookup_filter_None_2. left. apply lookup_delete_eq.
  - rewrite kept_unsource, <- Hp by done. unfold settled.
    destruct (source (db s') !! id') eqn:E1, (source (db s) !! id') eqn:E2; try done.
    + by destruct (proj1 Hr ltac:(eauto)) as [_ [? ?]].
    + by destruct (proj2 Hr ltac:(eauto)) as [? ?].
Qed.

Section Release.
Context (t : Tables) (l : Link) (i name sid : string) (src : Source) (c : SrcCore) (raw : bytes).
Context (Hl : link_says l i name sid) (Hsrc : source_says src sid c)
  (Hc : t_sources t !! sid = Some c) (Hraw : t_payloads t !! sid = Some raw)
  (Hsize : in_i64 (size_of c)) (Hdl : dotless sid) (Hlong : sliceable sid)
  (Hcount : (Z.of_nat (S (nrefs (t_links t) sid)) ≤ count_of c)%Z)
  (Hroom : (count_of c < 2 ^ 63)%Z).

Lemma bury_dies w (J : nat → Store → Prop) :
  Live (state w) t → until_death (fates w) → nrefs (t_links t) sid = 0 →
  (∀ d s, draws w ≤ d → Crashed s (kept t) → J d s) →
  (∀ d s, draws w ≤ d → Crashed s (kept (unsource sid t)) → J d s) →
  dies w J (λ _ w', Live (state w') (unsource sid t)) (release_source root l src 0 w).
Proof.
  intros HL Hf Hn HJ HJ'. unfold release_source. destruct Hl as (_ & _ & ->). destruct Hsrc as (Eid & _). rewrite Eid.
  simpl (0 <? 0)%N. cbv iota. apply source_path_dies; [done|]. apply source_dir_dies; [done|].
  change (dir_path root sid ++ [sid +:+ ".deleting"]) with (tomb sid).
  pose proof (bury_crashed sid raw _ _ HL Hdl Hraw ltac:(eauto)) as HC1. pose proof HL as [HR Ht Hsh].
  eapply bind_dies with (Q1 := λ _ w1, state w1 = bury sid raw (state w)).
  { eapply external_dies; [done| |by intros _; apply HJ, live_crashed|done].
    destruct HR as [_ _ Hp]. by rewrite Hp, Hraw by done. }
  intros _ w1 E1 Hf1 Hd1. rewrite <- E1 in HC1.
  eapply attempt_dies with (Q1 := λ _ w2, Rel root (state w2) (unsource sid t) ∧ fs (state w2) = fs (state w1)).
  { eapply (atomic_dies (delete_source_by_id sid)) with (Q1 := λ _ w0, Rel root (state w0) (unsource sid t) ∧
      fs (state w0) = fs (state w1)); [done| |by apply HJ; [lia|]|intros _ w0 w2 HQ E; by rewrite E].
    change (state w1) with (state (hush w1)).
    apply (delete_source_step root (hush w1) (set_t_payloads (delete sid) t)); [|done|].
    - simpl. rewrite E1. by apply rel_bury.
    - intros j n. by apply nrefs_zero. }
  intros [] w2 [HR2 E2] Hf2 Hd2. pose proof (unsource_crashed _ _ _ _ HC1 HR2 E2) as HC2.
  assert (Ht2 : ∀ id, dotless id → id ≠ sid → files (fs (state w2)) !! tomb id = None).
  { intros id Hid Hne. rewrite E2, E1, bury_tomb by done. by apply Ht. }
  eapply attempt_dies with (Q1 := λ _ w3, Live (state w3) (unsource sid t)).
  - eapply external_dies with (s' := set_files (delete (tomb sid)) (state w2));
      [done| |intros _; apply HJ'; [lia|done]|].
    + by rewrite E2, E1; simpl; rewrite lookup_insert_eq.
    + intros w3 ->. split.
      * apply rel_sibling_delete; [done|]. apply dotted. by exists "", "deleting".
      * intros id Hid. simpl. destruct (decide (id = sid)) as [->|Hne]; [apply lookup_delete_eq|].
        rewrite lookup_delete_ne; [by apply Ht2|]. intros ?%tomb_inj; congruence.
      * destruct (cr_shelf _ _ HC2) as [H1 H2]. split; [done|]. intros id Hid Hst. apply H2; [done|].
        unfold stored in *; simpl in *. destruct Hst as [[? [_ ?]%lookup_delete_Some]|[? [_ ?]%lookup_delete_Some]]; eauto.
  - intros [] w3 HL3 Hf3 _. by apply ret_dies.
Qed.

Lemma release_dies w (J : nat → Store → Prop) :
  Live (state w) t → until_death (fates w) →
  (∀ d s, draws w ≤ d → Crashed s (kept t) → J d s) →
  (∀ d s, draws w ≤ d → Crashed s (kept (unref sid t)) → J d s) →
  dies w J (λ _ w', Live (state w') (unref sid t)) (release_source root l src (s_count src - 1) w).
Proof.
  intros HL Hf HJ HJ'. unfold unref in *. rewrite Hc in *.
  assert (s_count src = Z.to_N (count_of c)) as ->.
  { destruct Hsrc as (_ & _ & _ & _ & ->). unfold u64_of_i64. by rewrite Z.mod_small by lia. }
  destruct (Z.eqb_spec (count_of c) 1) as [E|E].
  - replace (Z.to_N (count_of c) - 1)%N with 0%N by lia. apply bury_dies; try done. lia.
  - set (n := (Z.to_N (count_of c) - 1)%N). assert (Hn : (0 < n < 2 ^ 63)%N) by lia.
    replace (count_of c - 1)%Z with (Z.of_N n) by lia. destruct HL as [HR Ht Hsh].
    pose proof (release_shared_step root (hush w) t l i name sid src c n HR I Hc Hsrc Hl Hsize Hn) as Hst.
    revert Hst. unfold release_source. rewrite (proj2 (N.ltb_lt 0 n)) by lia. intros Hst.
    eapply (statement_dies (with_dao _)); [done|done|by apply HJ, live_crashed|exact Hst].
Qed.
End Release.

(** *** Intermediate tables *)

Lemma orphan_file t m id b :
  t_sources t !! id = None → Sound t → represents t m →
  Sound (with_file id b t) ∧ represents (with_file id b t) m.
Proof.
  intros Hid HS Hm.
  assert (Hc : ∀ i, content (with_file id b t) i = content t i).
  { intros i. destruct (decide (id = i)) as [<-|Hne]; [unfold content; simpl; by rewrite Hid|].
    apply content_ne; simpl; [done|by rewrite lookup_insert_ne]. }
  split.
  - destruct HS as [Hu Hl Hct Hi]. split; [done|done| |done]. intros i c. rewrite Hc. apply Hct.
  - intros n d. simpl. setoid_rewrite Hc. apply Hm.
Qed.

Lemma orphan_source t m id b c d :
  t_sources t !! id = None → decoded c b = Some d → get_hash256_from_binary d = hash_of c →
  dotless id ∧ sliceable id ∧ printable (str_bytes id) → Sound t → represents t m →
  Sound (with_source id b c t) ∧ represents (with_source id b c t) m.
Proof.
  intros Hid Hdec Hh Hsh HS Hm. pose proof HS as [Hu Hl Hct Hi].
  assert (Hc : ∀ i, i ≠ id → content (with_source id b c t) i = content t i).
  { intros i Hne. apply content_ne; simpl; by rewrite lookup_insert_ne. }
  split.
  - split; [done| | |].
    + intros i n s' (c' & Hc')%Hl. simpl. rewrite lookup_insert_ne by congruence. eauto.
    + intros i c'. simpl. intros [[<- <-]|[Hne Hc']]%lookup_insert_Some; [|rewrite Hc by done; by apply Hct].
      exists d. split; [|done]. unfold content; simpl. by rewrite !lookup_insert_eq.
    + intros i c'. simpl. intros [[<- <-]|[Hne Hc']]%lookup_insert_Some; [done|by eapply Hi].
  - intros n x. rewrite (Hm n x). simpl. split; intros (i & s' & Hi' & Hx); exists i, s';
      (split; [done|]); destruct (Hl _ _ _ Hi') as [c' Hc']; rewrite Hc in *; congruence.
Qed.

Lemma unlinked_tables t m i n sid :
  t_links t !! i = Some (n, sid) → Sound t → represents t m →
  let t1 := set_t_links (delete i) t in
  Sound t1 ∧ represents t1 (delete n m) ∧ unlinked t1 n ∧ t_links t1 !! i = None.
Proof.
  intros Hi [Hu Hl Hc Hs] Hm t1. split_and!.
  - split; [|intros j k s'; simpl; rewrite lookup_delete_Some; intros [_ Hj]; by eapply Hl|done|done].
    intros j j' k s1 s2. simpl. rewrite !lookup_delete_Some. intros [_ ?] [_ ?]. by eapply Hu.
  - intros n' d. rewrite lookup_delete_Some, (Hm n' d). simpl. setoid_rewrite lookup_delete_Some. split.
    + intros (Hn & j & s' & Hj & Hd). exists j, s'. split_and!; [|done|done]. intros <-. naive_solver.
    + intros (j & s' & [Hij Hj] & Hd). split; [|eauto]. intros <-. apply Hij. by eapply Hu.
  - intros j s'. simpl. rewrite lookup_delete_Some. intros [Hij Hj]. apply Hij. by eapply Hu.
  - apply lookup_delete_eq.
Qed.

(** A link is added, or moved, to a source that is there. *)
Lemma linked_tables t m i n (s : string) c d :
  t_links t !! i = None → unlinked t n → t_sources t !! s = Some c → content t s = Some d →
  Sound t → represents t m →
  let t1 := set_t_links <[i := (n, s)]> t in Sound t1 ∧ represents t1 (<[n := d]> m).
Proof.
  intros Hi Hn Hc Hd [Hu Hl Hct Hs] Hm t1. split.
  - split; [by apply names_unique_insert| |done|done].
    intros j k s'. simpl. intros [[_ [= _ <-]]|[_ Hj]]%lookup_insert_Some; [eauto|by eapply Hl].
  - by apply (insert_represents t t1 m i n s d).
Qed.
Lemma relinked_tables t m i n sid (s : string) c d :
  t_links t !! i = Some (n, sid) → t_sources t !! s = Some c → content t s = Some d →
  Sound t → represents t m →
  let t1 := set_t_links <[i := (n, s)]> t in Sound t1 ∧ represents t1 (<[n := d]> m).
Proof.
  intros Hi Hc Hd HS Hm t1. destruct (unlinked_tables _ _ _ _ _ Hi HS Hm) as (HS' & Hm' & Hu & Hf).
  destruct (linked_tables _ _ i n s c d Hf Hu Hc Hd HS' Hm') as [H1 H2].
  assert (E : t1 = set_t_links <[i := (n, s)]> (set_t_links (delete i) t)).
  { unfold t1, set_t_links; simpl. by rewrite insert_delete_eq. }
  rewrite E. split; [exact H1|]. by rewrite insert_delete_eq in H2.
Qed.

(** *** The operations *)

(** Tables that are well formed up to [slack], with contents in [V] only. *)
Variables (V : bytes → Prop) (slack : nat).
Definition fits t (d k : nat) : Prop := Inv t d k ∧ tables_within V t.

Lemma fits_weaken t d d' k k' : d ≤ d' → k ≤ k' → fits t d k → fits t d' k'.
Proof. intros Hd Hk [HI HV]. split; [|done]. by eapply inv_weaken, inv_slack. Qed.
Lemma fits_kept t d k : fits t d k → fits (kept t) d k.
Proof.
  intros [HI HV]. split; [|intros s data; rewrite kept_content; apply HV].
  destruct HI; split; simpl; try done.
  - intros s c. rewrite kept_content. by apply inv_content.
  - intros s [b [_ Hs]%map_lookup_filter_Some]. done.
Qed.
(** A file without a row does not count. *)
Lemma kept_file t id b : t_sources t !! id = None → kept (with_file id b t) = kept t.
Proof.
  intros Hid. unfold kept; simpl. f_equal. apply map_eq. intros i. apply option_eq. intros x.
  rewrite !map_lookup_filter_Some. simpl. split; intros [Hx Hs]; (split; [|done]).
  - apply lookup_insert_Some in Hx as [[<- _]|[_ Hx]]; [rewrite Hid in Hs; by destruct Hs|done].
  - rewrite lookup_insert_ne; [done|]. intros <-. rewrite Hid in Hs. by destruct Hs.
Qed.

(** Between operations: the tables and files of a run at rest. *)
Definition Rests (w : Env Store) m : Prop :=
  ∃ t, Live (state w) t ∧ fits t (draws w) slack ∧ represents t m.

(** A state some run may have died in: the next start makes it stand for [m].  In
    the cases that are [clean] it is well formed up to one reference more. *)
Definition Stands (clean : Prop) m (d : nat) s : Prop :=
  ∃ t, Crashed s t ∧ Sound t ∧ represents t m ∧ (clean → fits t d (S slack)).
(** Half-way from [m] to [m'], when the operation is one that [mends]. *)
Definition Midway (mends clean : Prop) m m' (d : nat) s : Prop :=
  mends → Stands clean m d s ∨ Stands clean m' d s.

Lemma stands_kept clean m d s t :
  Crashed s (kept t) → Sound t → represents t m → (clean → fits t d (S slack)) → Stands clean m d s.
Proof.
  intros HC HS Hm Hf. exists (kept t). split_and!; [done|by apply kept_sound|by apply kept_represents|].
  intros Hc. by apply fits_kept, Hf.
Qed.
Lemma stands_fits clean m d s t :
  Crashed s (kept t) → fits t d (S slack) → represents t m → Stands clean m d s.
Proof. intros HC HF Hm. eapply stands_kept; [done|by eapply inv_sound, HF|done..]. Qed.

Lemma gen_dies {A} (k : string → IO Store A) w (J : nat → Store → Prop) (Q : A → Env Store → Prop) :
  (∀ tm w1, state w1 = state w → fates w1 = fates w → draws w1 = S (draws w) →
     dies w1 J Q (k (fmt_compact tm +:+ nanoid8 (draws w)) w1)) →
  dies w J Q ((file_name_gen ≫= k) w).
Proof.
  intros Hk. apply (drawn_dies w (mkEnv (state w) (fates w) (clock w) (S (draws w)))); [simpl; lia|].
  by apply (Hk (clock w)).
Qed.
Lemma uuid_dies {A} (k : string → IO Store A) w (J : nat → Store → Prop) (Q : A → Env Store → Prop) :
  (∀ w1, state w1 = state w → fates w1 = fates w → draws w1 = S (draws w) →
     dies w1 J Q (k (uuid_v4 (draws w)) w1)) →
  dies w J Q ((new_uuid ≫= k) w).
Proof.
  intros Hk. apply (drawn_dies w (mkEnv (state w) (fates w) (clock w) (S (draws w)))); [simpl; lia|].
  by apply Hk.
Qed.
End Shelf.
