(* ===== verification/Manager.v ===== *)
(** * The store manager's theorems

    [holds root w m]: the tables and files of the run [w] are well formed and
    stand for the map [m] from names to contents.  The theorems state every
    operation of [StoreManager] against that map. *)
From S2P Require Import Prelude Io Runs Strs World Dao Disk Block Store Frames Layers Catalog Contract.
From S2P Require Import ObjectStore.

Definition holds `{P : Platform} `{C : Codec} (root : path) (w : Env Store)
    (m : gmap string bytes) : Prop :=
  ∃ t, Rel root (state w) t ∧ Inv t (draws w) 0 ∧ represents t m.

(** No stored file has the BLAKE3 hash of [data] without being [data]. *)
Definition no_collision `{C : Codec} (m : gmap string bytes) (data : bytes) : Prop :=
  ∀ n d, m !! n = Some d →
    get_hash256_from_binary d = get_hash256_from_binary data → d = data.

(** The reference counts have room for one more. *)
Definition roomy (m : gmap string bytes) : Prop := (Z.of_nat (size m) < 2 ^ 63 - 1)%Z.

(** The outcome of an operation that should take the map from [m] to [m']: it
    does, or it fails, says so, and the map is still [m]. *)
Definition refines `{P : Platform} `{C : Codec} {A} (root : path) (w : Env Store)
    (m m' : gmap string bytes) (r : Res A * Env Store) : Prop :=
  match r with
  | (Ok _, w') => holds root w' m'
  | (Err _, w') => holds root w' m ∧ ¬ calm (fates w)
  | (Halt _, _) => False
  end.

Section Manager.
Context `{P : Platform} `{PL : !PlatformLaws P} `{C : Codec} `{CL : !CodecLaws C}.
Variable root : path.
Variable bm : BlockManager.
Implicit Types (w : Env Store) (t : Tables) (m : gmap string bytes).

(** Names and links correspond one to one. *)
Lemma size_links {slack} t m d : Inv t d slack → represents t m → size (t_links t) = size m.
Proof.
  intros HI HR. set (names := (λ kv : string * (string * string), kv.2.1) <$> map_to_list (t_links t)).
  assert (Hnd : NoDup names).
  { apply NoDup_fmap_2_strong; [|apply NoDup_map_to_list].
    intros [i [n s]] [j [n' s']]. rewrite !elem_of_map_to_list. simpl. intros Hi Hj <-.
    assert (i = j) as <- by by eapply (inv_names _ _ _ HI). congruence. }
  assert (Hdom : dom m = list_to_set names).
  { apply set_eq. intros n. rewrite elem_of_dom, elem_of_list_to_set. unfold names.
    rewrite list_elem_of_fmap. split.
    - intros [data (i & s & Hi & _)%HR]. exists (i, (n, s)). split; [done|].
      by apply elem_of_map_to_list.
    - intros ([i [n' s]] & -> & Hi%elem_of_map_to_list). simpl.
      destruct (inv_links _ _ _ HI _ _ _ Hi) as [c Hc].
      destruct (inv_content _ _ _ HI _ _ Hc) as (data & Hd & _). exists data. apply HR. eauto. }
  rewrite <- (size_dom m), Hdom, size_list_to_set by done. unfold names.
  by rewrite length_fmap, length_map_to_list.
Qed.

Lemma room_links {slack} t m d :
  Inv t d slack → represents t m → (Z.of_nat (size m + slack) < 2 ^ 63 - 1)%Z → has_room slack t.
Proof. intros HI Hm. unfold has_room. by rewrite (size_links _ _ _ HI Hm). Qed.
Lemma roomy_links t m d : Inv t d 0 → represents t m → roomy m → has_room 0 t.
Proof. intros HI Hm Hr. eapply room_links; [done..|]. unfold roomy in Hr. lia. Qed.

(** Every source has a name. *)
Lemma source_linked t d s c :
  Inv t d 0 → t_sources t !! s = Some c → ∃ i n, t_links t !! i = Some (n, s).
Proof.
  intros HI Hc. destruct (inv_count _ _ _ HI _ _ Hc) as [Hn Hpos].
  destruct (decide (filter (λ kv, kv.2.2 = s) (t_links t) = ∅)) as [E|[i [[n s'] Hi]]%map_choose].
  { unfold nrefs in Hn. rewrite E, map_size_empty in Hn. lia. }
  apply map_lookup_filter_Some in Hi as [Hi Hs]. simpl in Hs. subst s'. eauto.
Qed.
Lemma content_named t m d s data :
  Inv t d 0 → represents t m → content t s = Some data → ∃ n, m !! n = Some data.
Proof.
  intros HI HR Hd. unfold content in Hd. destruct (t_sources t !! s) as [c|] eqn:Hc; [|done].
  destruct (source_linked _ _ _ _ HI Hc) as (i & n & Hi).
  exists n. apply HR. exists i, s. split; [done|]. unfold content. by rewrite Hc.
Qed.

Lemma changes_refines {A} w t m m' (r : Res A * Env Store) :
  represents t m → changes root 0 w t (λ t', represents t' m') r → refines root w m m' r.
Proof.
  intros HR [a w' (t' & ? & ? & ?) _|e w' [? ?] []]; simpl; [by exists t'|].
  split; [by exists t|done].
Qed.

Lemma encoded_decodes cmp data hash n z :
  (0 < chunk_size bm < 2 ^ 16)%N →
  (if (cmp : bool) then compress_all bm data else Ok data) = Ok z →
  decoded (mkCore hash cmp n 1) z = Some data.
Proof.
  intros Hbm Hz. unfold decoded; simpl. destruct cmp; [|congruence].
  by rewrite (compress_all_decodes bm data 0 z).
Qed.

Lemma put_binary_data_changes w t m name data cover cmp :
  (0 < chunk_size bm < 2 ^ 16)%N → is_empty name = false →
  Rel root (state w) t → one_failure (fates w) → Inv t (draws w) 0 → represents t m →
  roomy m → no_collision m data →
  changes root 0 w t (λ t', represents t' (<[name := data]> m))
    (put_binary_data root bm name data cover cmp w).
Proof.
  intros Hbm Hname HR Hf HI Hm Hroom Hcol. unfold put_binary_data. rewrite Hname.
  assert (Hz : ∃ z, (if cmp then compress_all bm data else Ok data) = Ok z).
  { destruct cmp; [|eauto]. by apply compress_all_total. }
  destruct Hz as [z Hz]. rewrite Hz.
  eapply read_changes with (Q := λ a, a = z); [done| |].
  - apply ret_ends; [done|]. by split.
  - intros _ w1 -> HR1 HI1 Hf1. eapply put_locked_changes; try done.
    + by eapply encoded_decodes.
    + by eapply roomy_links.
    + intros sid d0 Hd Hh. destruct (content_named _ _ _ _ _ HI Hm Hd) as [n Hn]. by eapply Hcol.
Qed.

(** *** Deleting one link *)

Definition present t (l : Link) : Prop := t_links t !! l_id l = Some (l_name l, l_source_id l).

Lemma delete_one_changes w t m l :
  Rel root (state w) t → one_failure (fates w) → Inv t (draws w) 0 → represents t m → roomy m →
  present t l →
  changes root 0 w t (λ t', t' = drop_link (l_id l) (l_source_id l) t) (delete_one root l w).
Proof.
  intros HR Hf HI Hm Hroom Hl. unfold delete_one.
  destruct (inv_links _ _ _ HI _ _ _ Hl) as [c Hc].
  eapply read_changes; [done|by eapply source_by_id_step|].
  intros o w1 (src & -> & Hsrc) HR1 HI1 Hf1. cbn [of_option]. rewrite ret_bind.
  assert (HL : linked 0 (l_name l) t (draws w1) l (l_id l) (l_source_id l) src c).
  { split; try done. by eapply roomy_links. }
  destruct (linked_facts _ _ _ _ _ _ _ _ _ HL) as ((raw0 & Hraw0) & Hsz & Hshape & Hcount & Hlt).
  set (t1 := set_t_links (delete (l_id l)) t).
  assert (Hn : checked_sub (s_count src) 1 = Some (s_count src - 1)%N).
  { by eapply (count_checked t1). }
  rewrite Hn. cbn [of_option]. rewrite ret_bind.
  eapply (step_changes _ _ _ _ (drop_link (l_id l) (l_source_id l) t) (λ _, True));
    [done| |intros; eapply inv_weaken; [done|by eapply drop_inv]|done].
  eapply bind_ends; [eapply db_step_to, delete_link_step; done|]. intros _ w3 [_ HR3] Hn3.
  eapply attempt_ends; [eapply (release_step root t1 l (l_id l) (l_name l)) with (c := c)| |];
    eauto with lina; [done|intros [] w4 [_ HR4] Hn4; apply ret_ends; eauto with lina|].
  intros e w4 HR4 Hn4. eapply ignore_reports; [eauto with lina| |].
  - eapply insert_link_step; [exact HR4|eauto with lina|apply lookup_delete_eq|simpl; eauto].
  - intros _ w5 [HR5 _] Hn5. apply fail_reports; [eauto with lina|].
    unfold t1, set_t_links in HR5; simpl in HR5. rewrite insert_delete_id in HR5 by done.
    by destruct t.
Qed.

(** *** Deleting the links of a query *)

Definition without (ns : list string) m : gmap string bytes := filter (λ kv, kv.1 ∉ ns) m.

Lemma without_nil m : without [] m = m.
Proof. apply map_filter_id. intros. simpl. set_solver. Qed.
Lemma without_cons n ns m : without (n :: ns) m = without ns (delete n m).
Proof.
  unfold without. apply map_eq. intros j. apply option_eq. intros x.
  rewrite !map_lookup_filter_Some, lookup_delete_Some. simpl. set_solver.
Qed.

Lemma roomy_delete m n : roomy m → roomy (delete n m).
Proof.
  unfold roomy. pose proof (map_subseteq_size _ _ (delete_subseteq m n)). lia.
Qed.

Lemma delete_loop ls : ∀ w t m,
  Rel root (state w) t → one_failure (fates w) → Inv t (draws w) 0 → represents t m → roomy m →
  Forall (present t) ls → NoDup (l_id <$> ls) →
  ends w (λ w', ∃ k, k < length ls ∧ holds root w' (without (take k (l_name <$> ls)) m))
    (λ _ w', holds root w' (without (l_name <$> ls) m)) (for_each ls (delete_one root) w).
Proof.
  induction ls as [|l ls IH]; intros w t m HR Hf HI Hm Hroom Hp Hnd.
  - simpl. apply ret_ends; [done|]. rewrite without_nil. by exists t.
  - apply Forall_cons in Hp as [Hl Hp]. simpl in Hnd. apply NoDup_cons in Hnd as [Hni Hnd].
    simpl for_each. unfold bind.
    destruct (delete_one_changes w t m l HR Hf HI Hm Hroom Hl)
      as [[] w1 (t1 & -> & HR1 & HI1) Hn|e w1 [HR1 HI1] Hn].
    + edestruct (IH w1) as [[] w2 HQ Hn2|e w2 (k & Hk & HQ) Hn2]; [done|eauto with lina|done|
        by eapply drop_represents|by apply roomy_delete| |done| |].
      * apply Forall_forall. intros l' Hl'. unfold present.
        rewrite (drop_links _ _ _ _ _ HI Hl), lookup_delete_ne.
        -- by eapply (proj1 (Forall_forall _ _) Hp).
        -- intros E. apply Hni. rewrite E. by apply list_elem_of_fmap_2.
      * simpl. rewrite <- without_cons in HQ. constructor; eauto with lina.
      * constructor; [|eauto with lina]. exists (S k). simpl. rewrite without_cons.
        split; [lia|done].
    + constructor; [|done]. exists 0. rewrite take_0, without_nil. simpl. split; [lia|by exists t].
Qed.

(** *** The links a pattern selects *)

(** What [list_locked] looks for, as a predicate on names ([isext] off). *)
Definition selects (pattern : string) (use_regex : bool) (n : string) : bool :=
  if (is_empty pattern || String.eqb pattern "*") && use_regex then true
  else if contains "*" pattern && use_regex then sql_like n (replace_char "*" "%" pattern)
  else String.eqb n pattern.

(** [ls] holds exactly the links whose name satisfies [p]. *)
Definition exactly t (p : string → bool) (ls : list Link) : Prop :=
  Forall (present t) ls ∧ NoDup (l_id <$> ls) ∧
  ∀ n, n ∈ l_name <$> ls ↔ p n = true ∧ ∃ i s, t_links t !! i = Some (n, s).

Lemma select_links_exactly s t (q : LinkRow → Prop) `{∀ r, Decision (q r)} (p : string → bool) :
  Rel root s t → (∀ r, q r ↔ p (lr_name r) = true) → exactly t p (select_links q (db s)).
Proof.
  intros [Hl _ _] Hq. split_and!.
  - apply Forall_forall. intros l (id & r & Hr & _ & ->)%elem_select_links.
    unfold present. rewrite <- Hl, lookup_fmap. simpl. by rewrite Hr.
  - unfold select_links. rewrite <- list_fmap_compose.
    change (NoDup ((map_to_list (filter (λ kv, q kv.2) (link (db s)))).*1)).
    apply NoDup_fst_map_to_list.
  - intros n. rewrite list_elem_of_fmap. split.
    + intros (l & -> & (id & r & Hr & Hp & ->)%elem_select_links). simpl.
      split; [by apply Hq|]. exists id, (lr_source_id r). by rewrite <- Hl, lookup_fmap, Hr.
    + intros (Hp & i & sid & Hi). rewrite <- Hl, lookup_fmap in Hi.
      apply fmap_Some in Hi as (r & Hr & [= En Es]). exists (link_of_row i r).
      split; [by subst|]. apply elem_select_links. exists i, r.
      split; [done|]. split; [|done]. apply Hq. by rewrite <- En.
Qed.

Lemma list_locked_step w t pattern use_regex :
  Rel root (state w) t → one_failure (fates w) →
  step_to root w t t (exactly t (selects pattern use_regex))
    (list_locked pattern 0 false use_regex w).
Proof.
  intros HR Hf. unfold list_locked, selects.
  destruct ((is_empty pattern || String.eqb pattern "*") && use_regex);
    [|destruct (contains "*" pattern && use_regex)];
    apply map_err_ends, query_step; try done; by apply select_links_exactly;
    [done|intros; rewrite ?String.eqb_eq].
Qed.

Lemma exactly_without t m d p ls :
  Inv t d 0 → represents t m → exactly t p ls →
  without (l_name <$> ls) m = filter (λ kv, p kv.1 = false) m.
Proof.
  intros HI Hm (_ & _ & Hn). apply map_eq. intros n. apply option_eq. intros x.
  unfold without. rewrite !map_lookup_filter_Some. simpl. rewrite Hn. split.
  - intros [Hx Hni]. split; [done|]. destruct (p n) eqn:E; [|done]. exfalso. apply Hni.
    split; [done|]. apply Hm in Hx as (i & s & ? & _). eauto.
  - intros [Hx Hp]. split; [done|]. intros [E _]. congruence.
Qed.

(** An exact name selects at most one link. *)
Lemma exactly_one {slack} t d name ls : Inv t d slack → exactly t (selects name false) ls →
  (ls = [] ∧ unlinked t name) ∨ ∃ l, ls = [l] ∧ l_name l = name ∧ present t l.
Proof.
  intros HI (Hp & Hnd & Hn).
  assert (Hsel : ∀ n, selects name false n = String.eqb n name) by (intros n; unfold selects; by rewrite !andb_false_r).
  assert (Hname : ∀ l, l ∈ ls → l_name l = name).
  { intros l Hl. apply String.eqb_eq. rewrite <- Hsel. apply Hn, list_elem_of_fmap. eauto. }
  destruct ls as [|l1 [|l2 ls]].
  - left. split; [done|]. intros j s Hj. apply (not_elem_of_nil name), (Hn name).
    rewrite Hsel, String.eqb_refl. eauto.
  - right. exists l1. apply Forall_cons in Hp as [? _]. split_and!; [done| |done]. apply Hname. by left.
  - exfalso. apply Forall_cons in Hp as [H1 Hp]. apply Forall_cons in Hp as [H2 _]. unfold present in *.
    rewrite (Hname l1) in H1 by left. rewrite (Hname l2) in H2 by (right; left).
    apply NoDup_cons in Hnd as [Hni _]. apply Hni. rewrite (inv_names _ _ _ HI _ _ _ _ _ H1 H2). by left.
Qed.

Lemma without_between ns ns' m :
  (∀ n, n ∈ ns → n ∈ ns') → without ns m ⊆ m ∧ without ns' m ⊆ without ns m.
Proof.
  intros Hin. unfold without. split; [apply map_filter_subseteq|].
  apply map_subseteq_spec. intros n x. rewrite !map_lookup_filter_Some. simpl. naive_solver.
Qed.

Lemma delete_ends w t m pattern use_regex :
  is_empty pattern = false →
  Rel root (state w) t → one_failure (fates w) → Inv t (draws w) 0 → represents t m → roomy m →
  ends w (λ w', ∃ ls, exactly t (selects pattern use_regex) ls ∧
            (holds root w' m ∨
             ∃ k, k < length ls ∧ holds root w' (without (take k (l_name <$> ls)) m)))
    (λ _ w', holds root w' (filter (λ kv, selects pattern use_regex kv.1 = false) m))
    (delete_ root pattern use_regex w).
Proof.
  intros Hp HR Hf HI Hm Hroom. unfold delete_. rewrite Hp. unfold mbind, IO_mbind, bind.
  pose proof (list_locked_step w t pattern use_regex HR Hf) as Hls.
  assert (∃ ls, exactly t (selects pattern use_regex) ls) as [ls0 Hls0].
  { destruct HR as [Hl Hs Hpl]. exists (select_links (λ r, selects pattern use_regex (lr_name r) = true) (db (state w))).
    by apply select_links_exactly. }
  destruct Hls as [ls w1 [Hex HR1] Hn|e w1 HR1 Hn].
  - destruct (delete_loop ls w1 t m) as [[] w2 HQ Hn2|e w2 HQ Hn2]; try done; eauto with lina.
    + eapply inv_weaken; [apply (next_draws _ _ Hn)|done].
    + apply Hex.
    + apply Hex.
    + constructor; [|eauto with lina]. by rewrite (exactly_without _ _ _ _ _ HI Hm Hex) in HQ.
    + constructor; [|eauto with lina]. exists ls. auto.
  - constructor; [|done]. exists ls0. split; [done|]. left. exists t. split; [done|].
    split; [|done]. eapply inv_weaken; [apply (failed_draws _ _ Hn)|done].
Qed.

(** *** Reading a name *)

Lemma get_ends w t m name data :
  is_empty name = false → m !! name = Some data →
  Rel root (state w) t → one_failure (fates w) → Sound t → represents t m →
  step_to root w t t (λ d, d = data) (get_binary_data root name w).
Proof.
  intros Hne Hd HR Hf HI Hm. unfold get_binary_data. rewrite Hne.
  apply Hm in Hd as (i & sid & Hi & Hct). destruct (so_links _ HI _ _ _ Hi) as [c Hc].
  eapply bind_ends; [eapply links_named_step; eauto; by eapply so_names|].
  intros ls w1 [(l & -> & (Hli & Hln & Hls)) HR1] Hn1. cbn [lookup list_lookup of_option].
  rewrite ret_bind, Hls.
  eapply bind_ends; [eapply source_by_id_step; eauto with lina|].
  intros o w2 [(src & -> & (Hid & Hh & Hcm & Hsz & _)) HR2] Hn2. cbn [of_option].
  rewrite ret_bind, Hid.
  destruct (so_ids _ HI _ _ Hc) as (Hdl & Hlong & _).
  destruct (so_content _ HI _ _ Hc) as (d0 & Hd0 & Hd0h).
  assert (d0 = data) as -> by congruence.
  unfold content in Hct. rewrite Hc in Hct. simpl in Hct.
  destruct (t_payloads t !! sid) as [raw|] eqn:Hraw; [|done]. simpl in Hct.
  eapply bind_ends with (Q1 := λ p w', p = file_path root sid ∧ w' = w2).
  { rewrite source_path_ok by done. constructor; [done|eauto with lina]. }
  intros p w0 [-> ->] _.
  eapply bind_ends with (Q1 := λ b w', b = raw ∧ Rel root (state w') t).
  { eapply ends_mono; [eapply read_payload_step; eauto with lina|by intros ? ->|by intros ?? [-> ->]]. }
  intros _ w3 [-> HR3] Hn3.
  eapply bind_ends with (Q1 := λ d w', d = data ∧ w' = w3).
  { rewrite Hcm. unfold decoded in Hct. destruct (compressed_of c).
    - change (decompress_all raw (s_size src)) with (decompress_all raw 0).
      destruct (decompress_all raw 0); simplify_eq. apply ret_ends; eauto with lina.
    - simplify_eq. apply ret_ends; eauto with lina. }
  intros _ w4 [-> ->] _. rewrite Hh, Hd0h, String.eqb_refl. apply ret_ends; eauto with lina.
Qed.

Lemma holds_failed w w' t m :
  Rel root (state w') t → Inv t (draws w) 0 → represents t m → failed w w' → holds root w' m.
Proof.
  intros HR HI Hm Hn. exists t. split; [done|]. split; [|done].
  eapply inv_weaken; [apply (failed_draws _ _ Hn)|done].
Qed.
Lemma holds_next w w' t m :
  Rel root (state w') t → Inv t (draws w) 0 → represents t m → next w w' → holds root w' m.
Proof.
  intros HR HI Hm Hn. exists t. split; [done|]. split; [|done].
  eapply inv_weaken; [apply (next_draws _ _ Hn)|done].
Qed.

Lemma delete_refines_aux w t m name :
  is_empty name = false →
  Rel root (state w) t → one_failure (fates w) → Inv t (draws w) 0 → represents t m → roomy m →
  ends w (λ w', holds root w' m) (λ _ w', holds root w' (delete name m)) (delete_ root name false w).
Proof.
  intros Hn HR Hf HI Hm Hroom.
  assert (Hsel : ∀ n, selects name false n = String.eqb n name).
  { intros n. unfold selects. by rewrite !andb_false_r. }
  destruct (delete_ends w t m name false) as [[] w' HQ Hn'|e w' (ls & Hex & HQ) Hn']; try done;
    constructor; try done.
  - replace (delete name m) with (filter (λ kv, selects name false kv.1 = false) m); [done|].
    apply map_eq. intros n. apply option_eq. intros x.
    rewrite map_lookup_filter_Some, lookup_delete_Some. simpl. rewrite Hsel, String.eqb_neq. naive_solver.
  - destruct HQ as [HQ|(k & Hk & HQ)]; [done|].
    assert (Hlen : length ls ≤ 1) by (destruct (exactly_one _ _ _ _ HI Hex) as [[-> _]|(l & -> & _)]; simpl; lia).
    replace k with 0 in HQ by lia. by rewrite take_0, without_nil in HQ.
Qed.

Lemma get_absent w t m name :
  is_empty name = false → m !! name = None →
  Rel root (state w) t → one_failure (fates w) → Sound t → represents t m →
  ∃ e w', get_binary_data root name w = (Err e, w') ∧ Rel root (state w') t ∧
    (failed w w' ∨ next w w' ∧ e = IoError NotFound "File not found").
Proof.
  intros Hn Hd HR Hf HI Hm. pose proof (proj1 (unlinked_represents _ _ _ HI Hm) Hd) as Hu.
  unfold get_binary_data. rewrite Hn. unfold mbind, IO_mbind, bind.
  destruct (links_unnamed_step root w t name HR Hf Hu) as [ls w' [-> HR'] Hn'|e w' HR' Hn']; simpl; eauto 10.
Qed.

(** ** The manager is an object store *)

Definition manager_store : ObjectStore Store := {|
  obj_put := put_binary_data root bm;
  obj_get := get_binary_data root;
  obj_delete := λ n, delete_ root n false;
  stands_for := holds root;
  admissible := λ m d, roomy m ∧ no_collision m d;
  removable := roomy
|}.

Lemma manager_store_laws :
  (0 < chunk_size bm < 2 ^ 16)%N → ObjectStoreLaws Store (OS := manager_store).
Proof.
  intros Hbm. split; simpl.
  - intros w w' m (t & HR & HI & Hm) Es Hd. exists t. rewrite Es. split; [done|].
    split; [by eapply inv_weaken|done].
  - intros w m n d cover cmp (t & HR & HI & Hm) Hf Hn [Hroom Hcol].
    eapply ends_mono; [eapply put_binary_data_changes; done| |].
    + intros w' [? ?]. by exists t.
    + intros _ w' (t' & ? & ? & ?). by exists t'.
  - intros w m n (t & HR & HI & Hm) Hf Hn Hroom. by eapply delete_refines_aux.
  - intros w m n d (t & HR & HI & Hm) Hf Hn Hd.
    pose proof (inv_sound _ _ HI) as HSo.
    destruct (get_ends w t m n d) as [a w' [-> HR'] Hn'|e w' HR' Hn']; try done; constructor; try done.
    + split; [done|]. by eapply holds_next.
    + by eapply holds_failed.
  - intros w m n (t & HR & HI & Hm) Hf Hn Hd.
    pose proof (inv_sound _ _ HI) as HSo.
    destruct (get_absent w t m n) as (e & w' & -> & HR' & [Hn'|[Hn' _]]); try done;
      exists e, w'; (split; [done|]); split; eauto using holds_failed, holds_next.
  - apply _.
  - apply _.
  - apply _.
Qed.

(** ** Properties *)

(** C1 (refinement): storing is insertion into the map.  Whichever one SQL
    statement or file operation fails inside [put_binary_data], in each of
    its branches (new name with new or known contents, existing name covered
    in place or moved to a source of its own), the call either succeeds and
    the name has exactly the new contents, or reports an error, and then every
    name, contents and reference count is what it was. *)
Theorem put_refines w m name data cover cmp :
  holds root w m → one_failure (fates w) →
  is_empty name = false → (0 < chunk_size bm < 2 ^ 16)%N → roomy m → no_collision m data →
  refines root w m (<[name := data]> m) (put_binary_data root bm name data cover cmp w).
Proof.
  intros (t & HR & HI & Hm) Hf Hn Hbm Hroom Hcol.
  eapply changes_refines; [done|]. by eapply put_binary_data_changes.
Qed.

(** C13 (refinement): deleting an exact name is deletion from the map, with
    the same all-or-nothing guarantee under one failure. *)
Theorem delete_refines w m name :
  holds root w m → one_failure (fates w) → is_empty name = false → roomy m →
  refines root w m (delete name m) (delete_ root name false w).
Proof.
  intros (t & HR & HI & Hm) Hf Hn Hroom.
  destruct (delete_refines_aux w t m name) as [[] w' HQ Hn'|e w' HQ []]; done.
Qed.

(** C29 (refinement): deleting by pattern removes exactly the names the
    pattern selects; stopped by a failure half-way, it has removed only
    selected names, each of them entirely. *)
Theorem delete_matching w m pattern use_regex :
  holds root w m → one_failure (fates w) → is_empty pattern = false → roomy m →
  match delete_ root pattern use_regex w with
  | (Ok _, w') => holds root w' (filter (λ kv, selects pattern use_regex kv.1 = false) m)
  | (Err _, w') => ¬ calm (fates w) ∧ ∃ m', holds root w' m' ∧ m' ⊆ m ∧
                     filter (λ kv, selects pattern use_regex kv.1 = false) m ⊆ m'
  | (Halt _, _) => False
  end.
Proof.
  intros (t & HR & HI & Hm) Hf Hp Hroom.
  destruct (delete_ends w t m pattern use_regex) as [[] w' HQ Hn|e w' (ls & Hex & HQ) Hn]; try done.
  split; [by destruct Hn|]. rewrite <- (exactly_without _ _ _ _ _ HI Hm Hex).
  destruct HQ as [HQ|(k & _ & HQ)].
  - exists m. split; [done|]. split; [done|]. apply map_filter_subseteq.
  - eexists. split; [exact HQ|]. apply without_between. intros n Hin. by apply subseteq_take in Hin.
Qed.

(** Reading is lookup in the map.  A stored name is read
    back exactly, unless a failure is met and reported; a name that is not
    stored is an error; reading changes nothing. *)
Theorem get_returns_stored w m name :
  holds root w m → one_failure (fates w) → is_empty name = false →
  match get_binary_data root name w with
  | (Ok d, w') => m !! name = Some d ∧ holds root w' m
  | (Err e, w') => holds root w' m ∧ (¬ calm (fates w) ∨ m !! name = None ∧ e = IoError NotFound "File not found")
  | (Halt _, _) => False
  end.
Proof.
  intros (t & HR & HI & Hm) Hf Hn. destruct (m !! name) as [data|] eqn:Hd.
  - pose proof (inv_sound _ _ HI) as HSo.
    destruct (get_ends w t m name data) as [d w' [-> HR'] Hn'|e w' HR' Hn']; try done.
    + split; [done|]. by eapply holds_next.
    + split; [by eapply holds_failed|]. left. by destruct Hn'.
  - pose proof (inv_sound _ _ HI) as HSo.
    destruct (get_absent w t m name) as (e & w' & -> & HR' & [Hn'|[Hn' ->]]); try done.
    + split; [by eapply holds_failed|]. left. by destruct Hn'.
    + split; [by eapply holds_next|]. by right.
Qed.

(** *** Reads under any failures, from any state *)

Lemma query_ok {A} ctx (f : Db → A) w a w' :
  query ctx f w = (Ok a, w') → a = f (db (state w)) ∧ state w' = state w.
Proof.
  unfold query, external. destruct (fates w) as [|[]]; intros H; by inv H.
Qed.
Lemma with_dao_ok {A} (m : IO Store A) w a w' : with_dao m w = (Ok a, w') → m w = (Ok a, w').
Proof. unfold with_dao, map_err. destruct (m w) as [[] ?]; intros H; by inv H. Qed.
(** C28 (safety): whatever state a crash, a failing disk or a bug elsewhere
    has left, and whatever fails during the call, [get_binary_data] never
    returns bytes other than those whose hash the metadata records for a link
    of that name: it returns them or an error. *)
Theorem get_verified w name d w' :
  get_binary_data root name w = (Ok d, w') →
  ∃ i r src, link (db (state w)) !! i = Some r ∧ lr_name r = name ∧
    source (db (state w)) !! lr_source_id r = Some src ∧
    sr_hash256 src = get_hash256_from_binary d.
Proof.
  unfold get_binary_data. destruct (is_empty name); [done|].
  intros (ls & w1 & [-> E1]%with_dao_ok%query_ok & H)%bind_ok.
  apply bind_ok in H as (l & w2 & [Hl ->]%of_option_ok & H).
  apply list_elem_of_lookup_2, elem_select_links in Hl as (i & r & Hr & Hname & ->).
  apply bind_ok in H as (o & w2 & [-> E2]%with_dao_ok%query_ok & H).
  apply bind_ok in H as (src & w3 & [Hsrc ->]%of_option_ok & H).
  apply fmap_Some in Hsrc as (row & Hrow & ->). rewrite E1 in Hrow. simpl in Hrow.
  apply bind_ok in H as (p & w3 & _ & H). apply bind_ok in H as (fb & w4 & _ & H).
  apply bind_ok in H as (dec & w5 & _ & H).
  match type of H with (if ?b then _ else _) _ = _ => destruct b eqn:E end; [|done].
  apply String.eqb_eq in E. inv H. exists i, r, row. auto.
Qed.

(** *** Sequences of operations *)

Inductive Cmd := CmdPut (name : string) (data : bytes) (cover compressed : bool)
              | CmdDelete (name : string) | CmdGet (name : string).
(** What the caller sees: an error, the bytes read, or just success. *)
Definition report {A} (f : A → option bytes) (r : Error + A) : Error + option bytes :=
  match r with inl e => inl e | inr a => inr (f a) end.
Definition run_op (op : Cmd) : IO Store (Error + option bytes) :=
  match op with
  | CmdPut n d cover cmp => r ← attempt (put_binary_data root bm n d cover cmp); ret (report (λ _, None) r)
  | CmdDelete n => r ← attempt (delete_ root n false); ret (report (λ _, None) r)
  | CmdGet n => r ← attempt (get_binary_data root n); ret (report Some r)
  end.
Fixpoint run_ops (ops : list Cmd) : IO Store (list (Error + option bytes)) :=
  match ops with
  | [] => ret []
  | op :: ops' => r ← run_op op; rs ← run_ops ops'; ret (r :: rs)
  end.

(** What an operation does to the map, given what the caller saw. *)
Definition explained (op : Cmd) (r : Error + option bytes) (m m' : gmap string bytes) : Prop :=
  match op, r with
  | CmdPut n d _ _, inr _ => m' = <[n := d]> m
  | CmdDelete n, inr _ => m' = delete n m
  | CmdGet n, inr (Some d) => m !! n = Some d ∧ m' = m
  | CmdGet n, inr None => False
  | _, inl _ => m' = m
  end.
(** The errors a caller sees when nothing fails: reads of absent names. *)
Definition innocent (op : Cmd) (r : Error + option bytes) (m : gmap string bytes) : Prop :=
  match r with inl _ => ∃ n, op = CmdGet n ∧ m !! n = None | inr _ => True end.

(** The answers [rs] are those of [ops] run on [m], which becomes [m']; when
    [quiet], the only errors are innocent. *)
Fixpoint history (quiet : Prop) (ops : list Cmd) (rs : list (Error + option bytes))
    (m m' : gmap string bytes) : Prop :=
  match ops, rs with
  | [], [] => m' = m
  | op :: ops', r :: rs' =>
      ∃ m1, explained op r m m1 ∧ (quiet → innocent op r m) ∧ history quiet ops' rs' m1 m'
  | _, _ => False
  end.
Lemma history_mono (q q' : Prop) ops : ∀ rs m m',
  (q' → q) → history q ops rs m m' → history q' ops rs m m'.
Proof.
  induction ops as [|op ops IH]; intros [|r rs] m m' Hq; simpl; try done.
  intros (m1 & ? & ? & ?). exists m1. split_and!; eauto.
Qed.

Definition op_name (op : Cmd) : string :=
  match op with CmdPut n _ _ _ | CmdDelete n | CmdGet n => n end.
Definition op_data (op : Cmd) : list bytes := match op with CmdPut _ d _ _ => [d] | _ => [] end.

Lemma run_op_explained w m op :
  holds root w m → one_failure (fates w) → is_empty (op_name op) = false →
  (0 < chunk_size bm < 2 ^ 16)%N → roomy m → Forall (no_collision m) (op_data op) →
  ∃ r w' m', run_op op w = (Ok r, w') ∧ holds root w' m' ∧ explained op r m m' ∧
    one_failure (fates w') ∧ (calm (fates w) → calm (fates w') ∧ innocent op r m).
Proof.
  intros (t & HR & HI & Hm) Hf Hn Hbm Hroom Hcol.
  destruct op as [n d cover cmp|n|n]; simpl in *; unfold mbind, IO_mbind, bind, attempt.
  - apply Forall_cons in Hcol as [Hcol _].
    destruct (put_binary_data_changes w t m n d cover cmp)
      as [[] w' (t' & Hm' & HR' & HI') Hn'|e w' [HR' HI'] Hn']; try done.
    + eexists _, w', _. split_and!; [done|by exists t'|done|eauto with lina|].
      intros Hc. split; [by apply (next_calm _ _ Hn')|done].
    + eexists _, w', m. split_and!; [done|by exists t|done|eauto with lina|]. by destruct Hn'.
  - destruct (delete_refines_aux w t m n) as [[] w' HQ Hn'|e w' HQ Hn']; try done.
    + eexists _, w', _. split_and!; [done|exact HQ|done|eauto with lina|].
      intros Hc. split; [by apply (next_calm _ _ Hn')|done].
    + eexists _, w', m. split_and!; [done|exact HQ|done|eauto with lina|]. by destruct Hn'.
  - destruct (m !! n) as [data|] eqn:Hd.
    + pose proof (inv_sound _ _ HI) as HSo.
      destruct (get_ends w t m n data) as [d w' [-> HR'] Hn'|e w' HR' Hn']; try done.
      * eexists _, w', m. split_and!; [done|by eapply holds_next|done|eauto with lina|].
        intros Hc. split; [by apply (next_calm _ _ Hn')|done].
      * eexists _, w', m. split_and!; [done|by eapply holds_failed|done|eauto with lina|].
        by destruct Hn'.
    + pose proof (inv_sound _ _ HI) as HSo.
      destruct (get_absent w t m n) as (e & w' & -> & HR' & [Hn'|[Hn' _]]); try done.
      * eexists _, w', m. split_and!; [done|by eapply holds_failed|done|eauto with lina|].
        by destruct Hn'.
      * eexists _, w', m. split_and!; [done|by eapply holds_next|done|eauto with lina|].
        intros Hc. split; [by apply (next_calm _ _ Hn')|]. by exists n.
Qed.

(** Every value the sequence puts, and every value stored. *)
Definition values (m : gmap string bytes) (ops : list Cmd) (d : bytes) : Prop :=
  (∃ n, m !! n = Some d) ∨ d ∈ ops ≫= op_data.
Definition hash_injective (V : bytes → Prop) : Prop := ∀ d d', V d → V d' →
  get_hash256_from_binary d = get_hash256_from_binary d' → d = d'.

Lemma explained_values op r m m1 ops d :
  explained op r m m1 → values m1 ops d → values m (op :: ops) d.
Proof.
  unfold values. intros He [[n Hn]|Hd]; [|right; simpl; set_solver].
  destruct op as [n' d' cv cmp|n'|n'], r as [e|[x|]]; simpl in *; try done; subst; eauto.
  - apply lookup_insert_Some in Hn as [[_ <-]|[_ Hn]]; [right; set_solver|eauto].
  - apply lookup_insert_Some in Hn as [[_ <-]|[_ Hn]]; [right; set_solver|eauto].
  - apply lookup_delete_Some in Hn as [_ Hn]. eauto.
  - apply lookup_delete_Some in Hn as [_ Hn]. eauto.
  - destruct He as [_ ->]. eauto.
Qed.

Lemma explained_size op r m m1 : explained op r m m1 → size m1 ≤ S (size m).
Proof.
  assert (Hd : ∀ n, size (delete n m) ≤ S (size m)).
  { intros n. pose proof (map_subseteq_size _ _ (delete_subseteq m n)). lia. }
  assert (Hi : ∀ n d, size (<[n := d]> m) ≤ S (size m)).
  { intros n d. rewrite map_size_insert. destruct (m !! n); simpl; lia. }
  destruct op, r as [e|[x|]]; simpl; try done; try (intros ->; by auto).
  intros [_ ->]. lia.
Qed.

(** C12 (refinement): any sequence of puts, deletes and reads, with one
    statement or file operation failing anywhere in it, has the effect and
    gives the answers of the same sequence on a map, an operation reported as
    failed having no effect; and when nothing fails, no operation other than
    the read of a name absent at that point reports an error. *)
Theorem operations_refine_map ops : ∀ w m,
  holds root w m → one_failure (fates w) → (0 < chunk_size bm < 2 ^ 16)%N →
  Forall (λ op, is_empty (op_name op) = false) ops →
  (Z.of_nat (size m + length ops) < 2 ^ 63)%Z →
  hash_injective (values m ops) →
  ∃ rs w' m', run_ops ops w = (Ok rs, w') ∧ holds root w' m' ∧
    history (calm (fates w)) ops rs m m'.
Proof.
  induction ops as [|op ops IH]; intros w m Hh Hf Hbm Hne Hroom Hcol; [by exists [], w, m|].
  apply Forall_cons in Hne as [Hn Hne]. rewrite length_cons in Hroom.
  destruct (run_op_explained w m op) as (r & w1 & m1 & Hr & Hh1 & He & Hf1 & Hc); try done.
  { unfold roomy. lia. }
  { apply Forall_forall. intros d Hd n d0 Hd0 E. apply Hcol; [left; eauto|right; set_solver|done]. }
  destruct (IH w1 m1) as (rs & w2 & m2 & Hrs & Hh2 & Hist); try done.
  { pose proof (explained_size _ _ _ _ He). lia. }
  { intros d d' Hd Hd'. apply Hcol; by eapply explained_values. }
  exists (r :: rs), w2, m2. simpl. unfold mbind, IO_mbind, bind. rewrite Hr, Hrs.
  split; [done|]. split; [done|]. exists m1. split; [done|]. split; [tauto|].
  eapply history_mono; [|exact Hist]. tauto.
Qed.
End Manager.

(** ** Witnesses: a store below [/srv] that holds one file *)

Definition demo_root : path := ["srv"%string].
Definition demo_hello : bytes := str_bytes "hello hello".
Definition demo_map : gmap string bytes := {["greeting.txt" := demo_hello]}.
(** The run that stored it, then a run with the given oracle. *)
Definition demo_run : Res unit * Env Store :=
  put_binary_data demo_root demo_bm "greeting.txt" demo_hello false true (mkEnv empty_store [] 0 0).
Definition demo_env (fs : list Fate) : Env Store :=
  mkEnv (state demo_run.2) fs 0 (draws demo_run.2).

Lemma holds_empty `{Platform} `{Codec} root fs : holds root (mkEnv empty_store fs 0 0) ∅.
Proof.
  exists (mkTables ∅ ∅ ∅). split; [|split].
  - split; simpl; [apply fmap_empty..|done].
  - split; try done. intros x []; done.
  - intros n data. rewrite lookup_empty. split; [done|]. intros (i & s & Hi & _). simpl in Hi. by rewrite lookup_empty in Hi.
Qed.

Lemma demo_no_collision m d : no_collision m d.
Proof.
  intros n d0 _. rewrite !get_hash256_is_blake3. unfold blake3_hex; simpl.
  intros E. by rewrite <- (str_bytes_str d0), E, str_bytes_str.
Qed.

Lemma demo_holds fs : holds demo_root (demo_env fs) demo_map.
Proof.
  destruct (holds_empty demo_root []) as (t & HR & HI & Hm).
  assert (Hc : changes demo_root 0 (mkEnv empty_store [] 0 0) t (λ t', represents t' demo_map) demo_run).
  { by eapply (put_binary_data_changes demo_root demo_bm _ t ∅); try done; apply demo_no_collision. }
  apply ends_calm in Hc as ([] & w' & E & (t' & Hm' & HR' & HI') & _); [|by constructor].
  unfold demo_env. rewrite E. exists t'. exact (conj HR' (conj HI' Hm')).
Qed.

(** The contents are replaced; the disk fails in the middle, and they are not. *)
Lemma put_refines_witness :
  refines demo_root (demo_env []) demo_map (<["greeting.txt" := demo_input]> demo_map)
    (put_binary_data demo_root demo_bm "greeting.txt" demo_input true true (demo_env [])) ∧
  let w := demo_env [Pass; Pass; Pass; Pass; Pass; FailWith Other 2] in
  let r := put_binary_data demo_root demo_bm "greeting.txt" demo_input true true w in
  refines demo_root w demo_map (<["greeting.txt" := demo_input]> demo_map) r ∧
  r.1 = Err (IoError Other "os error").
Proof.
  split; [|split].
  - apply put_refines; [apply demo_holds|vm_compute; by repeat constructor|reflexivity|by vm_compute..|
      apply demo_no_collision].
  - apply put_refines; [apply demo_holds|vm_compute; by repeat constructor|reflexivity|by vm_compute..|
      apply demo_no_collision].
  - by vm_compute.
Defined.

Lemma delete_refines_witness :
  refines demo_root (demo_env []) demo_map (delete "greeting.txt" demo_map)
    (delete_ demo_root "greeting.txt" false (demo_env [])).
Proof. apply delete_refines; [apply demo_holds|exact I|reflexivity|by vm_compute]. Defined.

Lemma delete_matching_witness :
  ∃ w', delete_ demo_root "gr*.txt" true (demo_env []) = (Ok tt, w') ∧
    holds demo_root w' (filter (λ kv, selects "gr*.txt" true kv.1 = false) demo_map) ∧
    selects "gr*.txt" true "greeting.txt" = true.
Proof.
  pose proof (delete_matching demo_root (demo_env []) demo_map "gr*.txt" true
                (demo_holds []) I eq_refl ltac:(by vm_compute)) as H.
  destruct (delete_ demo_root "gr*.txt" true (demo_env [])) as [[[]|e|z] w'].
  - exists w'. split; [reflexivity|]. split; [exact H|by vm_compute].
  - exfalso. apply H. constructor.
  - destruct H.
Defined.

Lemma get_returns_stored_witness :
  ∃ d w', get_binary_data demo_root "greeting.txt" (demo_env []) = (Ok d, w') ∧
        demo_map !! "greeting.txt"%string = Some d ∧ holds demo_root w' demo_map.
Proof.
  pose proof (get_returns_stored demo_root (demo_env []) demo_map "greeting.txt"
                (demo_holds []) I eq_refl) as H.
  destruct (get_binary_data demo_root "greeting.txt" (demo_env [])) as [[d|e|z] w'].
  - exists d, w'. split; [reflexivity|exact H].
  - exfalso. destruct H as [_ [H|[H _]]]; [apply H; constructor|discriminate H].
  - destruct H.
Defined.

Lemma get_verified_witness :
  ∃ i r src, link (db (state (demo_env []))) !! i = Some r ∧ lr_name r = "greeting.txt" ∧
    source (db (state (demo_env []))) !! lr_source_id r = Some src ∧
    sr_hash256 src = get_hash256_from_binary demo_hello.
Proof.
  eapply (get_verified demo_root (demo_env []) "greeting.txt" demo_hello).
  vm_compute. reflexivity.
Defined.

Definition demo_ops : list Cmd :=
  [CmdPut "b" demo_hello false false; CmdGet "b"; CmdDelete "greeting.txt"; CmdGet "greeting.txt"].
Lemma operations_refine_map_witness :
  ∃ rs w' m', run_ops demo_root demo_bm demo_ops (demo_env []) = (Ok rs, w') ∧
    holds demo_root w' m' ∧ history (calm []) demo_ops rs demo_map m'.
Proof.
  apply operations_refine_map.
  - apply demo_holds.
  - exact I.
  - by vm_compute.
  - by repeat constructor.
  - by vm_compute.
  - intros d d' _ _. rewrite !get_hash256_is_blake3. unfold blake3_hex; simpl.
    intros E. by rewrite <- (str_bytes_str d), E, str_bytes_str.
Defined.
