(* ===== verification/Dying.v ===== *)
(** * The process dies inside a put or a delete

    Each way [put_binary_data] and [delete] can go, statement by statement and
    file operation by file operation: wherever the process dies, what is on
    disk stands for the map before the operation or for the map after it
    ([Midway]), and is a state to go on from with one reference too many.  Two
    deaths are left out, for the reasons given in Limits.v: inside a put that
    covers in place ([mends]), and, if it is to go on, inside a put that adds a
    link to a source that has one ([clean]).  Operations that come to their end
    are not restricted. *)
From S2P Require Import Prelude Io Runs Strs World Dao Disk Block Store Frames Layers Catalog Contract Crash Manager.

Section Dying.
Context `{P : Platform} `{PL : !PlatformLaws P} `{C : Codec} `{CL : !CodecLaws C}.
Variable root : path.
Variable bm : BlockManager.
Implicit Types (w : Env Store) (s : Store) (t : Tables) (m : gmap string bytes).

Abbreviation Live := (Live root).
Abbreviation Crashed := (Crashed root).

(** The contents that are stored or will be, the references too many so far, and
    what is known of the operation that may die. *)
Variables (V : bytes → Prop) (slack : nat) (mends clean : Prop).
Abbreviation fits := (fits V).
Abbreviation Rests := (Rests root V slack).
Abbreviation Midway := (Midway root V slack mends clean).

(** The run ends at rest with the new map, or dies half-way to it. *)
Definition dies_between {A} (w : Env Store) m m' : Res A * Env Store → Prop :=
  dies w (Midway m m') (λ _ w', Rests w' m').

(** The last step: the tables of the new map are live. *)
Lemma to_rest {A} w m m' t' (r : Res A * Env Store) :
  dies w (Midway m m') (λ _ w', Live (state w') t') r →
  fits t' (draws w) slack → represents t' m' → dies_between w m m' r.
Proof.
  intros [a w' HL Hf Hd|w' HJ] HI Hm; constructor; try done.
  exists t'. split_and!; [done| |done]. by eapply fits_weaken.
Qed.

Lemma midway_old t m m' d d' k s :
  d ≤ d' → k ≤ S slack → fits t d k → represents t m → Crashed s (kept t) → Midway m m' d' s.
Proof. intros ??? Hm HC _. left. eapply stands_fits; [exact HC|by eapply fits_weaken|done]. Qed.
Lemma midway_new t m m' d d' k s :
  d ≤ d' → k ≤ S slack → fits t d k → represents t m' → Crashed s (kept t) → Midway m m' d' s.
Proof. intros ??? Hm HC _. right. eapply stands_fits; [exact HC|by eapply fits_weaken|done]. Qed.
Lemma live_midway t m m' d d' s :
  d ≤ d' → fits t d slack → represents t m → Live s t → Midway m m' d' s.
Proof. intros Hd HF Hm HL. eapply midway_old; [exact Hd| |exact HF|done|by apply live_crashed]. lia. Qed.

Section Put.
Context (name hash : string) (cmp : bool) (data raw : bytes).
Context (Hhash : get_hash256_from_binary data = hash)
  (Hdec : decoded (mkCore hash cmp (i64_of_u64 (len data)) 1) raw = Some data).
Abbreviation core := (mkCore hash cmp (i64_of_u64 (len data)) 1).

(** A file, then its row, under an identifier just drawn. *)
Section Fresh.
Context (t : Tables) m m' (new : string) (w0 : Env Store).
Context (HF : fits t (draws w0) slack) (Hm : represents t m) (Hns : t_sources t !! new = None)
  (Hnew : source_id_at (draws w0) new) (HV : V data).

Lemma file_midway d s : draws w0 ≤ d → Live s (with_file new raw t) → Midway m m' d s.
Proof.
  intros Hd HL. eapply midway_old; [exact Hd| |exact HF|done|]; [lia|].
  rewrite <- (kept_file t new raw Hns). by apply live_crashed.
Qed.
Lemma source_fits k : slack ≤ k → 0 < k → fits (with_source new raw core t) (draws w0) k.
Proof.
  destruct HF as [HI HW]. intros Hk H0. split; [|by apply (within_source V t (t_links t) new core raw data)].
  eapply (orphan_inv t); try done; [by apply (inv_slack _ _ _ Hk)|apply in_i64_cast].
Qed.
Lemma source_represents : represents (with_source new raw core t) m.
Proof.
  destruct (source_id_shape _ _ Hnew). eapply orphan_source; try done; [|by eapply inv_sound, HF].
  eauto using source_id_printable.
Qed.
Lemma source_midway d s : draws w0 ≤ d → Live s (with_source new raw core t) → Midway m m' d s.
Proof.
  intros Hd HL. eapply midway_old; [exact Hd| |apply (source_fits (S slack)); lia|
    apply source_represents|by apply live_crashed]. lia.
Qed.

Lemma fresh_dies {B} (k1 : Error + unit → IO Store B) w (Q : B → Env Store → Prop) :
  Live (state w) t → until_death (fates w) → draws w0 ≤ draws w →
  (∀ w1, Live (state w1) (with_source new raw core t) → until_death (fates w1) → draws w ≤ draws w1 →
     dies w1 (Midway m m') Q (k1 (inr tt) w1)) →
  dies w (Midway m m') Q
    ((persist_source_bytes root new raw;;
      r ← attempt (insert_source new hash cmp (len data)); k1 r) w).
Proof.
  intros HL Hf Hd0 Hk. destruct (source_id_shape _ _ Hnew) as [Hdl Hlong].
  pose proof (source_id_printable _ _ Hnew) as Hpr.
  eapply bind_dies; [apply (persist_dies root w (Midway m m') t new raw); try done|].
  { intros d s Hd HLs. eapply live_midway; [|exact HF|done..]. lia. }
  intros [] w1 HL1 Hf1 Hd1. eapply attempt_dies with (Q1 := λ _ w2, Live (state w2) (with_source new raw core t)).
  - eapply (statement_dies root (insert_source new hash cmp (len data)));
      [exact HL1|done|apply file_midway; [lia|done]|].
    destruct HL1 as [HR1 _ _]. exact (insert_source_step root (hush w1) (with_file new raw t) new hash cmp (len data) 1 HR1 I Hns).
  - intros [] w2 HL2 Hf2 Hd2. apply Hk; [done|done|lia].
Qed.
End Fresh.

Lemma create_dies w t m ext :
  Live (state w) t → until_death (fates w) → fits t (draws w) slack → represents t m → unlinked t name →
  V data → dies_between w m (<[name := data]> m) (create_source root name ext cmp hash (len data) raw w).
Proof.
  intros HL Hf HF Hm Hu HVd. pose proof HF as [HI HW]. unfold create_source. apply gen_dies. intros tm w1 E1 Ef1 Ed1.
  set (new := fmt_compact tm +:+ nanoid8 (draws w)).
  apply uuid_dies. intros w2 E2 Ef2 Ed2. set (lid := uuid_v4 (draws w1)). unfold create_with.
  assert (Hid : source_id_at (draws w2) new) by (exists tm, (draws w); split; [lia|done]).
  pose proof (fresh_source _ _ tm HI : t_sources t !! new = None) as Hns.
  pose proof (fresh_link t _ (draws w1) HI ltac:(lia) : t_links t !! lid = None) as Hfree.
  rewrite <- E1, <- E2 in HL. rewrite <- Ef1, <- Ef2 in Hf. clear E1 E2 Ef1 Ef2.
  apply (fits_weaken V _ _ (draws w2) slack slack) in HF; [|lia..]. apply (inv_weaken _ _ (draws w2)) in HI; [|lia].
  apply (to_rest _ _ _ (new_source lid name new core raw t)).
  2: { split; [|by apply (within_source V t _ new core raw data)].
       eapply new_inv; try done; [|apply in_i64_cast]. exists (draws w1). split; [lia|done]. }
  2: { by eapply new_represents. }
  eapply (fresh_dies t m _ new w2); [done..|]. intros w3 HL3 Hf3 Hd3.
  eapply attempt_dies with (Q1 := λ _ w4, Live (state w4) (new_source lid name new core raw t));
    [|intros [] w4 HL4 Hf4 _; by apply ret_dies].
  eapply (statement_dies root (insert_link_with_id lid name ext new 420)); [exact HL3|done|by eapply (source_midway t m _ new w2)|].
  destruct HL3 as [HR3 _ _]. apply (insert_link_step root (hush w3) (with_source new raw core t)); [done|done|done|].
  simpl. rewrite lookup_insert_eq. eauto.
Qed.

(** The link is in, the count is not raised: that may stay so only if the source
    had a reference too many, or no link at all. *)
Lemma share_dies w t m ext sid src c :
  Live (state w) t → until_death (fates w) → fits t (draws w) slack → has_room slack t → represents t m →
  unlinked t name → t_sources t !! sid = Some c → source_says src sid c → content t sid = Some data →
  (clean → ∀ n, m !! n ≠ Some data) →
  dies_between w m (<[name := data]> m) (share_source name ext src w).
Proof.
  intros HL Hf HF Hroom Hm Hu Hc (Hid & Hh & Hcm & Hsz & Hct) Hd Hcl. pose proof HF as [HI HW]. unfold share_source.
  apply uuid_dies. intros w1 E1 Ef1 Ed1. set (lid := uuid_v4 (draws w)).
  pose proof (fresh_link t (draws w) (draws w) HI (le_n _) : t_links t !! lid = None) as Hfree.
  assert (Hli : link_id_at (draws w1) lid) by (exists (draws w); split; [lia|done]).
  rewrite <- E1 in HL. rewrite <- Ef1 in Hf. apply (fits_weaken V _ _ (draws w1) slack slack) in HF; [|lia..].
  apply (inv_weaken _ _ (draws w1)) in HI; [|lia]. pose proof (inv_size _ _ _ HI _ _ Hc).
  destruct (inv_count _ _ _ HI _ _ Hc) as [Hn Hpos].
  pose proof (nrefs_le (t_links t) sid). unfold has_room in Hroom.
  destruct (linked_tables _ _ _ _ _ _ _ Hfree Hu Hc Hd (inv_sound _ _ HI) Hm) as [HS1 Hm1].
  apply (to_rest _ _ _ (share_link lid name sid c t)).
  2: { split; [by apply share_inv|by apply within_share]. }
  2: { by apply share_represents. }
  eapply bind_dies with (Q1 := λ _ w2, Live (state w2) (set_t_links <[lid := (name, sid)]> t)).
  { eapply (statement_dies root (with_dao _)); [exact HL|done|by apply (live_midway t _ _ (draws w1))|].
    destruct HL as [HR _ _]. rewrite Hid. apply map_err_ends, (insert_link_step root (hush w1) t); [exact HR|exact I|exact Hfree|eauto]. }
  intros _ w2 HL2 Hf2 Hd2.
  eapply attempt_dies with (Q1 := λ _ w3, Live (state w3) (share_link lid name sid c t));
    [|intros [] w3 HL3 Hf3 _; by apply ret_dies].
  eapply (statement_dies root (update_source _ _ _ _ _)); [exact HL2|done| |].
  - intros _. right. eapply stands_kept; [by apply live_crashed|exact HS1|exact Hm1|]. intros Hc0.
    split; [|by apply within_links]. apply (inv_slack (slack := slack)); [lia|].
    eapply link_added_inv; try done; [by eapply inv_weaken| |by eapply link_id_weaken].
    rewrite (unnamed_unlinked _ _ _ _ Hm Hd (Hcl Hc0)). lia.
  - destruct HL2 as [HR2 _ _].
    pose proof (update_source_step root (hush w2) _ sid (hash_of c) (compressed_of c) (u64_of_i64 (size_of c))
      (as_u64 (u64_of_i64 (count_of c) + 1)) HR2 I ltac:(eauto)) as H2.
    rewrite i64_u64_i64 in H2 by done.
    replace (i64_of_u64 (as_u64 (u64_of_i64 (count_of c) + 1))) with (count_of c + 1)%Z in H2.
    { by rewrite Hid, Hh, Hcm, Hsz, Hct. }
    unfold u64_of_i64. rewrite Z.mod_small by lia. rewrite wrap_small, i64_of_u64_small by lia. lia.
Qed.

(** The name has moved to its new source; the old one keeps its count. *)
Lemma moved_tables w t m i sid new c :
  Inv t (draws w) slack → tables_within V t → V data → represents t m → t_links t !! i = Some (name, sid) →
  t_sources t !! sid = Some c → t_sources t !! new = None → source_id_at (draws w) new →
  let t2 := moved name hash cmp data raw t i new in
  fits t2 (draws w) (S slack) ∧ represents t2 (<[name := data]> m).
Proof.
  intros HI HW HVd Hm Hi Hc Hns Hid t2. pose proof (inv_sound _ _ HI) as HS.
  set (t1 := with_source new raw core t).
  assert (Hn1 : t_sources t1 !! new = Some core) by apply lookup_insert_eq.
  assert (Hd1 : content t1 new = Some data) by (unfold content; simpl; by rewrite !lookup_insert_eq).
  pose proof (source_fits t new w (conj HI HW) Hns Hid HVd (S slack) ltac:(lia) ltac:(lia)) as [HI1 HW1].
  pose proof (source_represents t m new w (conj HI HW) Hm Hns Hid) as Hm1. split.
  - split; [|done]. assert (E : t2 = set_t_links <[i := (name, new)]> (with_source new raw core (set_t_links (delete i) t))).
    { unfold t2, moved, set_t_links; simpl. by rewrite insert_delete_eq. }
    rewrite E. eapply link_added_inv with (c := core).
    + eapply (orphan_inv (set_t_links (delete i) t)); try done; [by eapply link_gone_inv|lia|apply in_i64_cast].
    + apply lookup_delete_eq.
    + intros j s Hj. simpl in Hj. apply lookup_delete_Some in Hj as [Hij Hj]. apply Hij. by eapply (inv_names _ _ _ HI).
    + apply lookup_insert_eq.
    + simpl. rewrite nrefs_unused; [lia|]. intros j n [_ Hj]%lookup_delete_Some.
      destruct (inv_links _ _ _ HI _ _ _ Hj). congruence.
    + by eapply inv_link_ids.
  - by eapply (relinked_tables t1 m i name sid new core data Hi Hn1 Hd1 (inv_sound _ _ HI1) Hm1).
Qed.

Lemma replace_dies w t m l i sid src c :
  Live (state w) t → until_death (fates w) → tables_within V t → V data →
  linked slack name t (draws w) l i sid src c → represents t m →
  dies_between w m (<[name := data]> m) (replace_source root l src cmp hash (len data) raw w).
Proof.
  intros HL Hf HW HVd HLi Hm. unfold replace_source.
  destruct (linked_facts _ _ _ _ _ _ _ _ _ HLi) as ((raw0 & Hraw0) & Hsz & Hshape & Hcount & Hlt).
  destruct HLi as [HI Hroom Hl Hsrc Hi Hc].
  apply gen_dies. intros tm w1 E1 Ef1 Ed1. set (new := fmt_compact tm +:+ nanoid8 (draws w)).
  assert (Hid : source_id_at (draws w1) new) by (exists tm, (draws w); split; [lia|done]).
  pose proof (fresh_source _ _ tm HI : t_sources t !! new = None) as Hns.
  pose proof (fresh_payload _ _ tm HI : t_payloads t !! new = None) as Hnp.
  assert (Hne : new ≠ sid) by congruence.
  assert (Hnd : t_sources (drop_link i sid t) !! new = None).
  { apply eq_None_not_Some. intros [c' Hc'].
    destruct (drop_sources _ _ _ _ _ _ _ HI Hi Hc') as ((? & ? & _) & _). congruence. }
  rewrite <- E1 in HL. rewrite <- Ef1 in Hf. apply (inv_weaken _ _ (draws w1)) in HI; [|lia].
  destruct (moved_tables w1 t m i sid new c HI HW HVd Hm Hi Hc Hns Hid) as [HF2 Hm2].
  destruct (replaced slack name hash cmp data raw Hhash Hdec _ _ _ _ _ HI Hi Hnd Hid) as [HI' Hputs].
  set (t2 := moved name hash cmp data raw t i new) in *.
  assert (Eu : unref sid t2 = new_source i name new core raw (drop_link i sid t)) by (eapply unref_moved; done).
  assert (HF3 : fits (unref sid t2) (draws w1) slack).
  { rewrite Eu. split; [done|]. apply (within_source V (drop_link i sid t) _ new core raw data); [done..|].
    by eapply within_drop. }
  apply (to_rest _ _ _ (unref sid t2)); [|done|rewrite Eu; by apply Hputs].
  unfold replace_with. eapply (fresh_dies t m _ new w1); [done..|]. intros w3 HL3 Hf3 Hd3.
  eapply attempt_dies with (Q1 := λ _ w4, Live (state w4) t2).
  { eapply (statement_dies root (update_link_source_id _ _)); [exact HL3|done|by eapply (source_midway t m _ new w1)|].
    destruct HL3 as [HR3 _ _]. destruct Hl as (-> & _ & _).
    apply (update_link_step root (hush w3) (with_source new raw core t) i name sid new HR3 I Hi). simpl.
    rewrite lookup_insert_eq. eauto. }
  intros [] w4 HL4 Hf4 Hd4.
  assert (Hr2 : nrefs (t_links t2) sid = nrefs (delete i (t_links t)) sid) by (eapply moved_nrefs; done).
  assert (Hc2 : t_sources t2 !! sid = Some c) by (simpl; by rewrite lookup_insert_ne).
  rewrite (count_checked t2 sid src c Hsrc) by (rewrite ?Hr2; done).
  cbn [of_option]. rewrite ret_bind.
  eapply attempt_dies with (Q1 := λ _ w5, Live (state w5) (unref sid t2));
    [|intros [] w5 HL5 Hf5 _; by apply ret_dies].
  apply (release_dies root t2 l i name sid src c raw0); try done; try apply Hshape.
  - simpl. by rewrite lookup_insert_ne.
  - by rewrite Hr2.
  - intros d s' Hd. apply (midway_new t2 _ _ (draws w1) _ (S slack)); [lia..|done|done].
  - intros d s' Hd. apply (midway_new (unref sid t2) _ _ (draws w1) _ slack); [lia..|done|].
    rewrite Eu. by apply Hputs.
Qed.

(** Covering in place: the run may end well, but nothing is said of a death. *)
Lemma fs_read_dies w (J : nat → Store → Prop) t id b (Q : bytes → Env Store → Prop) :
  Live (state w) t → until_death (fates w) → J (draws w) (state w) → dotless id → t_payloads t !! id = Some b →
  (∀ w', state w' = state w → Q b w') → dies w J Q (fs_read (file_path root id) w).
Proof.
  intros [[_ _ Hp] _ _] Hf HJ Hid Hb HQ. rewrite <- Hp in Hb by done.
  eapply external_dies; [done|by rewrite Hb|done|done].
Qed.

Lemma overwrite_dies w t m l i sid src c :
  Live (state w) t → until_death (fates w) → tables_within V t → V data →
  linked slack name t (draws w) l i sid src c → represents t m → count_of c = 1%Z → ¬ mends →
  dies_between w m (<[name := data]> m) (overwrite_source root l src cmp hash (len data) raw w).
Proof.
  intros HL Hf HW HVd HLi Hm H1 Hno.
  destruct (linked_facts _ _ _ _ _ _ _ _ _ HLi) as ((raw0 & Hraw0) & Hsz & [Hdl Hlong] & Hcount & Hlt).
  destruct HLi as [HI Hroom Hl Hsrc Hi Hc].
  assert (HJ : ∀ d s, Midway m (<[name := data]> m) d s) by by intros d s ?%Hno.
  assert (Hd : drop_link i sid t = mkTables (delete i (t_links t)) (delete sid (t_sources t)) (delete sid (t_payloads t))).
  { unfold drop_link, unref; simpl. by rewrite Hc, H1. }
  pose proof (inv_source_ids _ _ _ HI _ _ Hc) as Hid.
  destruct (replaced slack name hash cmp data raw Hhash Hdec t (draws w) i sid sid HI Hi) as [HI' Hputs];
    [rewrite Hd; apply lookup_delete_eq|done|].
  apply (to_rest _ _ _ (new_source i name sid core raw (drop_link i sid t)));
    [|split; [done|apply (within_source V (drop_link i sid t) _ sid core raw data); [done..|by eapply within_drop]]|by apply Hputs].
  unfold overwrite_source. destruct Hl as (_ & _ & ->). apply source_path_dies; [done|].
  eapply bind_dies; [eapply (fs_read_dies w _ t) with (Q := λ b w1, state w1 = state w); [done..|exact Hraw0|done]|].
  intros b w1 E1 Hf1 _. rewrite <- E1 in HL.
  eapply bind_dies; [eapply (persist_dies root w1 _ t sid raw); try done|]; [by eapply source_id_printable|].
  intros [] w2 HL2 Hf2 _.
  eapply attempt_dies with (Q1 := λ _ w3, Live (state w3) (new_source i name sid core raw (drop_link i sid t)));
    [|intros [] w3 HL3 Hf3 _; by apply ret_dies].
  eapply (statement_dies root (update_source _ _ _ _ _)); [exact HL2|done|apply HJ|].
  pose proof (update_source_step root (hush w2) (set_t_payloads <[sid := raw]> t) sid hash cmp (len data)
    (s_count src) ltac:(apply HL2) I ltac:(eauto)) as Hu.
  rewrite Hd. unfold new_source; simpl. rewrite !insert_delete_eq, (insert_id (t_links t)) by done.
  destruct Hsrc as (_ & _ & _ & _ & Hct). rewrite Hct, H1 in *. exact Hu.
Qed.

Lemma put_locked_dies w t m cover ext :
  Live (state w) t → until_death (fates w) → fits t (draws w) slack → has_room slack t → represents t m →
  V data → (∀ sid d0, content t sid = Some d0 → get_hash256_from_binary d0 = hash → d0 = data) →
  (mends → cover = true → m !! name = None) → (clean → m !! name = None → ∀ n, m !! n ≠ Some data) →
  dies_between w m (<[name := data]> m)
    (put_binary_data_locked root name cover cmp hash (len data) raw ext w).
Proof.
  intros HL Hf HF Hroom Hm HVd Hcol Hcov Hcl. pose proof HF as [HI HW].
  unfold put_binary_data_locked. pose proof (inv_sound _ _ HI) as HS.
  assert (HJ : ∀ d s, draws w ≤ d → Live s t → Midway m (<[name := data]> m) d s)
    by (intros d s ?; by apply (live_midway t _ _ (draws w))).
  pose proof HL as [HR _ _]. destruct (m !! name) as [old|] eqn:Hold.
  - pose proof Hold as (i & sid & Hi & Hct)%Hm. destruct (inv_links _ _ _ HI _ _ _ Hi) as [c Hc].
    eapply bind_dies; [eapply (look_dies root (with_dao _)); [exact HL|done|by apply HJ|];
      eapply links_named_step; [exact HR|done|by eapply inv_names|exact Hi]|].
    intros ls w1 [(l & -> & Hl) HL1] Hf1 Hd1. simpl. pose proof Hl as (_ & _ & Hls). rewrite Hls.
    eapply bind_dies; [eapply (look_dies root (with_dao _)); [exact HL1|done|by apply HJ|];
      apply (source_by_id_step root (hush w1) t sid c); [apply HL1|done|done]|].
    intros o w2 [(src & -> & Hsrc) HL2] Hf2 Hd2. cbn [of_option]. rewrite ret_bind.
    assert (HLi : linked slack name t (draws w2) l i sid src c).
    { split; try done. eapply inv_weaken; [|exact HI]. lia. }
    destruct cover; [destruct (N.ltb_spec 1 (s_count src))|destruct (_ && _) eqn:Esame].
    + by eapply replace_dies.
    + eapply overwrite_dies; try done; [|by intros ?%Hcov].
      destruct (linked_facts _ _ _ _ _ _ _ _ _ HLi) as (_ & _ & _ & Hcount & Hlt).
      destruct Hsrc as (_ & _ & _ & _ & Hn). rewrite Hn in H. unfold u64_of_i64 in H.
      rewrite Z.mod_small in H by lia. lia.
    + apply andb_true_iff in Esame as [Eh%String.eqb_eq _]. apply ret_dies; [done|].
      rewrite insert_id; [exists t; split_and!; [done|eapply fits_weaken; [| |exact HF]; lia|done]|].
      destruct Hsrc as (_ & Hh & _). destruct (inv_content _ _ _ HI _ _ Hc) as (d0 & Hd0 & Hd0h).
      rewrite Hold. f_equal. assert (old = d0) as -> by congruence. apply (Hcol sid); congruence.
    + by eapply replace_dies.
  - pose proof (proj1 (unlinked_represents _ _ _ HS Hm) Hold) as Hu.
    eapply bind_dies; [eapply (look_dies root (with_dao _)); [exact HL|done|by apply HJ|];
      by apply links_unnamed_step|].
    intros ls w1 [-> HL1] Hf1 Hd1. simpl.
    eapply bind_dies; [eapply (look_dies root (with_dao _)); [exact HL1|done|by apply HJ|];
      apply source_by_hash_step; [apply HL1|done]|].
    intros o w2 [Ho HL2] Hf2 Hd2. apply (fits_weaken V _ _ (draws w2) slack slack) in HF; [|lia..].
    destruct o as [src|]; [|by eapply create_dies].
    destruct Ho as (sid & c & Hc & Hsrc & Hh). destruct (inv_content _ _ _ HI _ _ Hc) as (d0 & Hd0 & Hd0h).
    eapply share_dies; try done; [|by intros ? n; apply Hcl]. rewrite Hd0. f_equal. apply (Hcol sid); congruence.
Qed.
End Put.

Lemma put_dies w t m name data cover cmp :
  (0 < chunk_size bm < 2 ^ 16)%N → is_empty name = false →
  Live (state w) t → until_death (fates w) → fits t (draws w) slack → represents t m →
  has_room slack t → V data → hash_injective V →
  (mends → cover = true → m !! name = None) → (clean → m !! name = None → ∀ n, m !! n ≠ Some data) →
  dies_between w m (<[name := data]> m) (put_binary_data root bm name data cover cmp w).
Proof.
  intros Hbm Hname HL Hf HF Hm Hroom HVd Hinj Hcov Hcl. unfold put_binary_data. rewrite Hname.
  assert (Hz : ∃ z, (if cmp then compress_all bm data else Ok data) = Ok z).
  { destruct cmp; [|eauto]. by apply compress_all_total. }
  destruct Hz as [z Hz]. rewrite Hz. cbn [spawn_blocking]. rewrite ret_bind.
  eapply put_locked_dies; try done; [by eapply encoded_decodes|].
  intros sid d0 Hd Hh. apply Hinj; [|done|done]. by eapply HF.
Qed.

Lemma delete_one_dies w t m l :
  Live (state w) t → until_death (fates w) → fits t (draws w) slack → represents t m → has_room slack t →
  present t l → dies_between w m (delete (l_name l) m) (delete_one root l w).
Proof.
  intros HL Hf HF Hm Hroom Hl. pose proof HF as [HI HW]. unfold delete_one. pose proof (inv_sound _ _ HI) as HS.
  destruct (inv_links _ _ _ HI _ _ _ Hl) as [c Hc].
  eapply bind_dies; [eapply (look_dies root (with_dao _));
    [exact HL|done|by apply (live_midway t _ _ (draws w))|apply (source_by_id_step root (hush w) t _ c); [apply HL|done|done]]|].
  intros o w1 [(src & -> & Hsrc) HL1] Hf1 Hd1. cbn [of_option]. rewrite ret_bind.
  apply (fits_weaken V _ _ (draws w1) slack slack) in HF; [|lia..]. destruct HF as [HI1 _].
  assert (HLi : linked slack (l_name l) t (draws w1) l (l_id l) (l_source_id l) src c) by done.
  destruct (linked_facts _ _ _ _ _ _ _ _ _ HLi) as ((raw0 & Hraw0) & Hsz & [Hdl Hlong] & Hcount & Hlt).
  set (t1 := set_t_links (delete (l_id l)) t).
  destruct (unlinked_tables _ _ _ _ _ Hl HS Hm) as (_ & Hm1 & _). fold t1 in Hm1.
  assert (HF1 : fits t1 (draws w1) (S slack)) by (split; [by eapply link_gone_inv|done]).
  assert (HF2 : fits (unref (l_source_id l) t1) (draws w1) slack) by (split; [by eapply drop_inv|by eapply within_drop]).
  assert (Hm2 : represents (unref (l_source_id l) t1) (delete (l_name l) m)) by by eapply drop_represents.
  rewrite (count_checked t1 (l_source_id l) src c Hsrc) by done. cbn [of_option]. rewrite ret_bind.
  apply (to_rest _ _ _ (unref (l_source_id l) t1)); [|done..].
  eapply bind_dies with (Q1 := λ _ w2, Live (state w2) t1).
  { eapply (statement_dies root (delete_link_by_id _)); [exact HL1|done|by apply (live_midway t _ _ (draws w1))|].
    apply (delete_link_step root (hush w1) t); [apply HL1|done]. }
  intros _ w2 HL2 Hf2 Hd2.
  eapply attempt_dies with (Q1 := λ _ w3, Live (state w3) (unref (l_source_id l) t1));
    [|intros [] w3 HL3 Hf3 _; by apply ret_dies].
  apply (release_dies root t1 l (l_id l) (l_name l) _ src c raw0); try done.
  - intros d s' Hd. apply (midway_new t1 _ _ (draws w1) _ (S slack)); [lia..|done|done].
  - intros d s' Hd. apply (midway_new (unref (l_source_id l) t1) _ _ (draws w1) _ slack); [lia..|done|done].
Qed.

#[export] Instance list_locked_atomic n : Atomic (list_locked n 0 false false).
Proof. unfold list_locked. rewrite !andb_false_r. apply _. Qed.
#[export] Instance list_locked_frame n : Preserves (λ s : Store, s) (list_locked n 0 false false).
Proof. unfold list_locked. rewrite !andb_false_r. apply _. Qed.

Lemma delete_dies w t m name :
  is_empty name = false →
  Live (state w) t → until_death (fates w) → fits t (draws w) slack → represents t m → has_room slack t →
  dies_between w m (delete name m) (delete_ root name false w).
Proof.
  intros Hn HL Hf HF Hm Hroom. pose proof HF as [HI _]. unfold delete_. rewrite Hn. pose proof (inv_sound _ _ HI) as HS.
  eapply bind_dies; [eapply (look_dies root (list_locked name 0 false false));
    [exact HL|done|by apply (live_midway t _ _ (draws w))|apply list_locked_step; [apply HL|done]]|].
  intros ls w1 [Hex HL1] Hf1 Hd1. apply (fits_weaken V _ _ (draws w1) slack slack) in HF; [|lia..].
  destruct (exactly_one _ _ _ _ HI Hex) as [[-> Hu]|(l & -> & <- & Hl)].
  - apply ret_dies; [done|]. rewrite delete_id; [by exists t|]. by eapply (unlinked_represents t).
  - simpl for_each. eapply bind_dies; [by eapply (delete_one_dies w1 t m l)|].
    intros [] w2 HR Hf2 _. by apply ret_dies.
Qed.

(** *** Any operation *)

Definition effect (op : Cmd) m : gmap string bytes :=
  match op with CmdPut n d _ _ => <[n := d]> m | CmdDelete n => delete n m | CmdGet _ => m end.
Definition in_place (op : Cmd) m : Prop :=
  match op with CmdPut n _ true _ => is_Some (m !! n) | _ => False end.

Lemma effect_explained op m : ∃ r, explained op r m (effect op m).
Proof.
  destruct op as [n d cover cmp|n|n]; [by exists (inr None)|by exists (inr None)|].
  by exists (inl (AnyhowError "")).
Qed.

(** A read: nothing moves, whether the name is there or not. *)
Lemma get_dies w t m name :
  is_empty name = false → Live (state w) t → until_death (fates w) → fits t (draws w) slack → represents t m →
  dies w (Midway m m) (λ _ w', state w' = state w) (attempt (get_binary_data root name) w).
Proof.
  intros Hn HL Hf HF Hm. assert (HJ : ∀ d, draws w ≤ d → Midway m m d (state w)) by (intros d ?; by apply (live_midway t _ _ (draws w))).
  pose proof (inv_sound _ _ (proj1 HF)) as HS.
  pose proof HL as [HR _ _]. unfold get_binary_data. rewrite Hn.
  destruct (m !! name) as [d|] eqn:Hd.
  - match goal with |- dies _ _ _ (attempt ?g w) => assert (dies w (Midway m m) (λ _ w', state w' = state w) (g w)) as H end.
    2: { unfold attempt. by destruct H; constructor. }
    apply Hm in Hd as (i & sid & Hi & Hct). destruct (so_links _ HS _ _ _ Hi) as [c Hc].
    eapply bind_dies; [eapply (read_dies (with_dao _)) with (Q := λ ls w', (∃ l, ls = [l] ∧ link_says l i name sid) ∧ state w' = state w);
      [done|eapply (links_named_step root (hush w)); [exact HR|exact I|by apply so_names|exact Hi]|by apply HJ|by intros a w0 w' [? _]]|].
    intros ls w1 [(l & -> & (_ & _ & Hls)) E1] Hf1 Hd1. cbn [lookup list_lookup of_option]. rewrite ret_bind, Hls.
    eapply bind_dies; [eapply (read_dies (with_dao _)) with (Q := λ o w', (∃ src, o = Some src ∧ source_says src sid c) ∧ state w' = state w);
      [done|apply (source_by_id_step root (hush w1) t sid c); [by rewrite <- E1 in HR|done|done]|rewrite E1; apply HJ; lia|]|].
    { intros a w0 w' [? _] E'. split; congruence. }
    intros o w2 [(src & -> & (Hid & Hh & Hcm & Hsz & _)) E2] Hf2 Hd2. cbn [of_option]. rewrite ret_bind, Hid.
    destruct (so_ids _ HS _ _ Hc) as (Hdl & Hlong & _). destruct (so_content _ HS _ _ Hc) as (d0 & Hd0 & Hd0h).
    assert (d0 = d) as -> by congruence. unfold content in Hct. rewrite Hc in Hct. simpl in Hct.
    destruct (t_payloads t !! sid) as [raw|] eqn:Hraw; [|done]. simpl in Hct. apply source_path_dies; [done|].
    eapply bind_dies with (Q1 := λ b w3, b = raw ∧ state w3 = state w).
    { eapply (fs_read_dies w2 _ t); [by rewrite E2|done|rewrite E2; apply HJ; lia|done|exact Hraw|]. intros w3 ->. by split. }
    intros _ w3 [-> E3] Hf3 _. eapply bind_dies with (Q1 := λ b w4, b = d ∧ state w4 = state w).
    { rewrite Hcm. unfold decoded in Hct. destruct (compressed_of c); [|simplify_eq; by apply ret_dies].
      change (decompress_all raw (s_size src)) with (decompress_all raw 0).
      destruct (decompress_all raw 0); simplify_eq. by apply ret_dies. }
    intros _ w4 [-> E4] Hf4 _. rewrite Hh, Hd0h, String.eqb_refl. by apply ret_dies.
  - pose proof (proj1 (unlinked_represents _ _ _ HS Hm) Hd) as Hu. unfold attempt, mbind, IO_mbind, bind.
    assert (dies w (Midway m m) (λ ls w', ls = [] ∧ state w' = state w)
      (with_dao (get_links_by_name name false) w)) as [ls w1 [-> E] Hf1 Hd1|w1 HJ1]; [|by constructor..].
    eapply (read_dies (with_dao _)); [done|by apply (links_unnamed_step root (hush w))|by apply HJ|].
    by intros a w0 w' [-> _].
Qed.

(** What a death may interrupt: not a put that covers a name in place; and, for
    the store to be in order afterwards, not one that gives known contents a new
    name. *)
Definition unshared (op : Cmd) m : Prop :=
  match op with CmdPut n d _ _ => m !! n = None → ∀ n', m !! n' ≠ Some d | _ => True end.

Lemma run_op_dies w m op :
  Rests w m → until_death (fates w) → is_empty (op_name op) = false →
  (0 < chunk_size bm < 2 ^ 16)%N → (Z.of_nat (size m + slack) < 2 ^ 63 - 1)%Z →
  Forall V (op_data op) → hash_injective V → (mends → ¬ in_place op m) → (clean → unshared op m) →
  dies_between w m (effect op m) (run_op root bm op w).
Proof.
  intros (t & HL & HF & Hm) Hf Hn Hbm Hroom HVd Hinj Hin Hun.
  apply (room_links _ _ _ (proj1 HF) Hm) in Hroom. destruct op as [n d cover cmp|n|n]; simpl in *.
  - apply Forall_cons in HVd as [HVd _]. eapply attempt_dies; [eapply (put_dies w t m n d cover cmp); try done|].
    + intros Hme ->. apply eq_None_not_Some. by apply Hin.
    + intros [] w1 HR Hf1 _. by apply ret_dies.
  - eapply attempt_dies; [by eapply (delete_dies w t m n)|]. intros [] w1 HR Hf1 _. by apply ret_dies.
  - unfold dies_between. eapply bind_dies; [by eapply (get_dies w t m n)|].
    intros r w1 E Hf1 Hd1. apply ret_dies; [done|]. exists t. rewrite E. split_and!; [done| |done].
    by eapply fits_weaken.
Qed.
End Dying.

(** *** Any session *)

Section Sessions.
Context `{P : Platform} `{PL : !PlatformLaws P} `{C : Codec} `{CL : !CodecLaws C}.
Variable root : path.
Variable bm : BlockManager.
Implicit Types (w : Env Store) (m : gmap string bytes).

Fixpoint effects (ops : list Cmd) m : gmap string bytes :=
  match ops with [] => m | op :: ops' => effects ops' (effect op m) end.
(** The operations of [ops] that returned to their caller. *)
Fixpoint acknowledged (ops : list Cmd) w : nat :=
  match ops with
  | [] => 0
  | op :: ops' => match run_op root bm op w with (Ok _, w') => S (acknowledged ops' w') | _ => 0 end
  end.

(** Of the operation a session was in when it died, if it died. *)
Definition interrupted (Q : Cmd → gmap string bytes → Prop) (ops : list Cmd) w m : Prop :=
  match ops !! acknowledged ops w with
  | Some op => Q op (effects (take (acknowledged ops w) ops) m)
  | None => True
  end.
Lemma interrupted_later Q op ops w a w1 m :
  run_op root bm op w = (Ok a, w1) → interrupted Q (op :: ops) w m → interrupted Q ops w1 (effect op m).
Proof. intros E. unfold interrupted. simpl. by rewrite E. Qed.

Lemma effects_size ops m : size (effects ops m) ≤ size m + length ops.
Proof.
  revert m. induction ops as [|op ops IH]; intros m; simpl; [lia|].
  destruct (effect_explained op m) as [r He]. pose proof (explained_size _ _ _ _ He).
  specialize (IH (effect op m)). lia.
Qed.

(** [V] holds all contents that are put, [slack] is for the sessions before. *)
Lemma run_ops_stands V slack ops : ∀ w m,
  Rests root V slack w m → until_death (fates w) → (0 < chunk_size bm < 2 ^ 16)%N →
  Forall (λ op, is_empty (op_name op) = false) ops →
  (Z.of_nat (size m + length ops + slack) < 2 ^ 63)%Z →
  Forall (λ op, Forall V (op_data op)) ops → hash_injective V →
  interrupted (λ op m, ¬ in_place op m) ops w m →
  let k := acknowledged ops w in let r := run_ops root bm ops w in
  let stands m' := Stands root V slack (interrupted unshared ops w m) m' (draws r.2) (state r.2) in
  stands (effects (take k ops) m) ∨ k < length ops ∧ stands (effects (take (S k) ops) m).
Proof.
  induction ops as [|op ops IH]; intros w m HR Hf Hbm Hne Hroom HV Hinj Hin; cbn zeta.
  { left. simpl. destruct HR as (t & HL & HF & Hm). eapply stands_fits; [by apply live_crashed| |done].
    eapply fits_weaken; [| |exact HF]; lia. }
  apply Forall_cons in Hne as [Hn Hne]. rewrite length_cons in Hroom. apply Forall_cons in HV as [HVd HV].
  set (clean := interrupted unshared (op :: ops) w m).
  destruct (run_op root bm op w) as [res w1] eqn:Ero.
  set (mends := match res with Ok _ => False | _ => True end).
  assert (Hop : dies_between root V slack mends (mends ∧ clean) w m (effect op m) (res, w1)).
  { assert (mends → ¬ in_place op m)
      by (intros Hme; unfold interrupted in Hin; simpl in Hin; rewrite Ero in Hin; by destruct res).
    assert (mends ∧ clean → unshared op m)
      by (intros [Hme Hcl]; unfold clean, interrupted in Hcl; simpl in Hcl; rewrite Ero in Hcl; by destruct res).
    rewrite <- Ero. apply run_op_dies; try done. lia. }
  destruct (effect_explained op m) as [r He]. pose proof (explained_size _ _ _ _ He).
  assert (Hk : acknowledged (op :: ops) w = match res with Ok _ => S (acknowledged ops w1) | _ => 0 end)
    by (simpl; by rewrite Ero).
  cbn [run_ops]. unfold mbind, IO_mbind, bind. rewrite Ero. unfold dies_between in Hop.
  inversion Hop as [a w1' HR1 Hf1 _ E1|w1' HS E1]; subst res w1'.
  - destruct (IH w1 (effect op m)) as [H'|[Hk' H']]; try done; [lia|by eapply interrupted_later|..].
    + left. rewrite Hk. simpl. unfold clean, interrupted. simpl. rewrite Ero. simpl.
      destruct (run_ops root bm ops w1) as [[] ?]; exact H'.
    + right. rewrite Hk. split; [simpl; lia|]. unfold clean, interrupted. simpl. rewrite Ero. simpl.
      destruct (run_ops root bm ops w1) as [[] ?]; exact H'.
  - rewrite Hk. assert (Hwk : ∀ m', Stands root V slack (mends ∧ clean) m' (draws w1) (state w1) →
      Stands root V slack clean m' (draws w1) (state w1)).
    { intros m' (t & ? & ? & ? & HF). exists t. split_and!; [done..|]. intros Hc. by apply HF. }
    destruct (HS I) as [HS'%Hwk|HS'%Hwk]; [by left|right; split; [simpl; lia|done]].
Qed.
End Sessions.
