(* ===== verification/Recovery.v ===== *)
(** * Starting again after a crash

    [StoreManager::new] puts the source directory in order before anything else
    runs: it removes the temporary files and the files of no source, and gives a
    source back the file its tombstone holds.  Here: interrupted or failing
    starts do no harm, a start that gets through leaves exactly the files the
    tables speak of, and so a store that died anywhere inside an operation
    reads, once started again, as if the operation had either not begun or been
    completed. *)
From S2P Require Import Prelude Io Runs Strs World Dao Disk Block Store Frames Layers Catalog Contract Crash Manager Dying.

(** Calls that may only not happen: the state changes as intended or not at all. *)
Lemma external_tries {St A} err (f : St → (Error + A) * St) (w : Env St) r w' :
  external err (λ _ s, s) f w = (r, w') →
  (state w' = state w ∧ ¬ calm (fates w) ∧ ∀ a, r ≠ Ok a) ∨
  (r = match (f (state w)).1 with inl e => Err e | inr a => Ok a end ∧
   state w' = (f (state w)).2 ∧ (calm (fates w) → calm (fates w'))).
Proof.
  unfold external. destruct w as [st [|[|k n|n] fs] ck dr]; simpl.
  - destruct (f st) as [[e|a] s']; intros [= <- <-]; by right.
  - destruct (f st) as [[e|a] s']; intros [= <- <-]; right; (split_and!; [done..|]); by intros [_ ?]%Forall_cons.
  - intros [= <- <-]. left. split_and!; [done| |done]. by intros [? _]%Forall_cons.
  - intros [= <- <-]. left. split_and!; [done| |done]. by intros [? _]%Forall_cons.
Qed.

Section Recovery.
Context `{P : Platform} `{PL : !PlatformLaws P} `{C : Codec} `{CL : !CodecLaws C}.
Variable root : path.
Implicit Types (w : Env Store) (s : Store) (t : Tables).

Abbreviation Live := (Live root).
Abbreviation Crashed := (Crashed root).
Abbreviation Shelf := (Shelf root).
Abbreviation tomb := (tomb root).

(** ** One file *)

(** All that a start needs of the tables: they may well be out of order. *)
Definition dotless_ids t : Prop := ∀ id, is_Some (t_sources t !! id) → dotless id.
Lemma sound_dotless t : Sound t → dotless_ids t.
Proof. intros HS id [c Hc]. by apply (so_ids _ HS id c). Qed.

Section Tables.
Context (t : Tables) (HS : dotless_ids t).
Definition known : gset string := dom (t_sources t).

(** What a start that meets no trouble does about the entry [name] of [mid]. *)
Definition swept (mid : path) (name : string) s : Store :=
  let p := mid ++ [name] in
  if bool_decide (p ∈ dirs (fs s)) then s
  else if bool_decide (is_Some (files (fs s) !! p)) then
    if negb (valid_utf8 (str_bytes name)) then s
    else if contains ".tmp-" name then set_files (delete p) s
    else match strip_suffix ".deleting" name with
         | Some stem =>
             if bool_decide (stem ∈ known)
             then match files (fs s) !! p with
                  | Some b => set_files (λ fl, <[mid ++ [stem] := b]> (delete p fl)) s
                  | None => s
                  end
             else set_files (delete p) s
         | None => if bool_decide (name ∈ known) then s else set_files (delete p) s
         end
  else s.

Lemma ignore_tries (m : IO Store unit) err f w r w' :
  m = external err (λ _ s, s) f → ignore m w = (r, w') →
  state w' = state w ∧ ¬ calm (fates w) ∨
  r = Ok tt ∧ state w' = (f (state w)).2 ∧ (calm (fates w) → calm (fates w')).
Proof.
  intros ->. unfold ignore, attempt, bind, ret. destruct (external _ _ _ w) as [r0 w0] eqn:E.
  destruct (external_tries _ _ _ _ _ E) as [(? & ? & Hr)|(-> & ? & ?)].
  - intros E'. left. by destruct r0; inv E'.
  - right. destruct (f (state w)).1; by inv H1.
Qed.

Lemma leaf_tries mid e w :
  ∃ r w', reconcile_leaf known mid e w = (r, w') ∧
    (state w' = state w ∧ ¬ calm (fates w) ∨
     r = Ok tt ∧ state w' = swept mid (entry_name e) (state w) ∧ (calm (fates w) → calm (fates w'))).
Proof.
  unfold reconcile_leaf, next_entry, mbind, IO_mbind, bind.
  destruct (external _ _ _ w) as [r1 w1] eqn:E1.
  destruct (external_tries _ _ _ _ _ E1) as [(Es1 & Hc1 & Hr1)|(-> & Es1 & Hc1)].
  { destruct r1 as [a| |]; [by destruct (Hr1 a)|eauto 10..]. }
  simpl in Es1 |- *. rewrite <- Es1. unfold attempt, entry_is_dir.
  destruct (external _ _ _ w1) as [r2 w2] eqn:E2.
  destruct (external_tries _ _ _ _ _ E2) as [(Es2 & Hc2 & Hr2)|(-> & Es2 & Hc2)].
  { destruct r2 as [a| |]; [by destruct (Hr2 a)|..]; eexists _, _; (split; [done|]); left; (split; [done|tauto]). }
  unfold swept. cbn zeta in Es2 |- *.
  case_bool_decide as Hd; [eexists _, _; split; [done|]; right; split_and!; [done|done|tauto]|].
  case_bool_decide as Hst; [|eexists _, _; split; [done|]; right; split_and!; [done|done|tauto]].
  simpl in Es2. cbv beta iota zeta.
  set (p := mid ++ [entry_name e]) in *.
  assert (Hret : ∀ s' : Store, s' = state w2 → ∃ r w', ret (St:=Store) tt w2 = (r, w') ∧
    (state w' = state w1 ∧ ¬ calm (fates w) ∨ r = Ok tt ∧ state w' = s' ∧ (calm (fates w) → calm (fates w')))).
  { intros s' ->. eexists _, _. split; [done|]. right. split_and!; [done|done|tauto]. }
  assert (Hact : ∀ (m : IO Store unit) err f s', m = external err (λ _ s, s) f → s' = (f (state w2)).2 →
    ∃ r w', ignore m w2 = (r, w') ∧
    (state w' = state w1 ∧ ¬ calm (fates w) ∨ r = Ok tt ∧ state w' = s' ∧ (calm (fates w) → calm (fates w')))).
  { intros m err f s' Hm ->. destruct (ignore m w2) as [r w'] eqn:E. exists r, w'. split; [done|].
    destruct (ignore_tries _ _ _ _ _ _ Hm E) as [[? ?]|(? & ? & ?)].
    - left. split; [congruence|tauto].
    - right. split_and!; [done|done|tauto]. }
  destruct (negb _); [by apply Hret|]. destruct (contains _ _).
  { eapply Hact; [done|]. rewrite Es2. by destruct Hst as [b ->]. }
  destruct (strip_suffix _ _) as [stem|]; case_bool_decide.
  - eapply Hact; [done|]. rewrite Es2. by destruct Hst as [b ->].
  - eapply Hact; [done|]. rewrite Es2. by destruct Hst as [b ->].
  - by apply Hret.
  - eapply Hact; [done|]. rewrite Es2. by destruct Hst as [b ->].
Qed.

(** *** It makes no difference to what the next start finds *)

Lemma known_source s id : Crashed s t → id ∈ known ↔ is_Some (source (db s) !! id).
Proof.
  intros [_ Hs _ _]. unfold known. rewrite elem_of_dom, <- Hs, lookup_fmap. apply fmap_is_Some.
Qed.
Lemma known_dotless id : id ∈ known → dotless id.
Proof. unfold known. intros Hid%elem_of_dom. by apply HS. Qed.

Lemma leaf_is_file mid name id : mid ++ [name] = file_path root id ↔ mid = dir_path root id ∧ name = id.
Proof. unfold file_path. split; [intros E; by simplify_list_eq|by intros [-> ->]]. Qed.
Lemma leaf_is_tomb mid name id : mid ++ [name] = tomb id ↔ mid = dir_path root id ∧ name = id +:+ ".deleting".
Proof. unfold tomb. split; [intros E; by simplify_list_eq|by intros [-> ->]]. Qed.

Lemma crashed_delete p s :
  (∀ id, id ∈ known → p ≠ file_path root id ∧ p ≠ tomb id) →
  Crashed s t → Crashed (set_files (delete p) s) t.
Proof.
  intros Hp HC. pose proof HC as [Hl Hs Hpl [H1 H2]]. split; [done|done| |].
  - intros id Hid. rewrite <- Hpl by done. unfold settled. simpl.
    destruct (source (db s) !! id) as [r|] eqn:Er; [|done].
    destruct (Hp id) as [Hf Ht]; [by apply (known_source s id HC); rewrite Er|]. by rewrite !lookup_delete_ne.
  - split; [done|]. unfold stored in *. simpl. intros id Hid Hst. apply H2; [done|].
    rewrite !lookup_delete_is_Some in Hst. naive_solver.
Qed.

Lemma crashed_unbury mid stem b s :
  stem ∈ known → files (fs s) !! (mid ++ [stem +:+ ".deleting"]) = Some b → Crashed s t →
  Crashed (set_files (λ fl, <[mid ++ [stem] := b]> (delete (mid ++ [stem +:+ ".deleting"]) fl)) s) t.
Proof.
  intros Hk Hb HC. pose proof HC as [Hl Hs Hpl [H1 H2]]. pose proof (known_dotless _ Hk) as Hdl.
  assert (Hft : ∀ id, dotless id → tomb id ≠ mid ++ [stem]).
  { intros id Hid E. symmetry in E. apply leaf_is_tomb in E as [_ E]. rewrite E in Hdl.
    apply dotless_app in Hdl as [_ Hd]. by vm_compute in Hd. }
  assert (Hff : ∀ id, dotless id → file_path root id ≠ mid ++ [stem +:+ ".deleting"]).
  { intros id Hid E. symmetry in E. apply leaf_is_file in E as [_ E]. rewrite <- E in Hid.
    apply dotless_app in Hid as [_ Hd]. by vm_compute in Hd. }
  assert (Htt : ∀ id, dotless id → tomb id = mid ++ [stem +:+ ".deleting"] → id = stem ∧ mid = dir_path root stem).
  { intros id Hid E. symmetry in E. apply leaf_is_tomb in E as [E1 E2].
    apply dotless_split in E2 as [<- _]; done. }
  split; [done|done| |].
  - intros id Hid. rewrite <- Hpl by done. unfold settled. simpl.
    destruct (source (db s) !! id) as [r|] eqn:Er; [|done]. rewrite lookup_insert_ne by (symmetry; auto).
    destruct (decide (tomb id = mid ++ [stem +:+ ".deleting"])) as [E|Hne].
    + destruct (Htt id Hid E) as [-> ->]. rewrite E, lookup_delete_eq, Hb. apply lookup_insert_eq.
    + rewrite lookup_delete_ne by done. destruct (files (fs s) !! tomb id); [done|].
      rewrite lookup_insert_ne, lookup_delete_ne; [done|by apply not_eq_sym, Hff|].
      intros E. apply leaf_is_file in E as [-> ->]. done.
  - split; [done|]. unfold stored in *. simpl. intros id Hid Hst. apply H2; [done|].
    rewrite (lookup_insert_ne _ (mid ++ [stem]) (tomb id)) in Hst by (symmetry; auto).
    rewrite lookup_insert_is_Some, !lookup_delete_is_Some in Hst. destruct Hst as [[E|[_ [_ ?]]]|[_ ?]]; [|auto..].
    apply leaf_is_file in E as [-> ->]. right. exists b. exact Hb.
Qed.

Lemma swept_crashed mid name s : Crashed s t → Crashed (swept mid name s) t.
Proof.
  intros HC. unfold swept. case_bool_decide; [done|]. case_bool_decide as Hst; [|done].
  destruct (negb _); [done|]. destruct (contains ".tmp-" name) eqn:Etmp.
  - apply crashed_delete; [|done]. intros id Hk%known_dotless. split; intros E.
    + apply leaf_is_file in E as [_ ->]. pose proof (contains_after DOT "tmp-" id "" Hk) as Hc.
      rewrite str_app_nil_r in Hc. unfold DOT in Hc. by rewrite Hc in Etmp.
    + apply leaf_is_tomb in E as [_ ->]. pose proof (contains_after DOT "tmp-" id ".deleting" Hk) as Hc.
      unfold DOT in Hc. by rewrite Hc in Etmp.
  - destruct (strip_suffix ".deleting" name) as [stem|] eqn:Es.
    + apply strip_suffix_Some in Es as ->. case_bool_decide as Hk.
      * destruct Hst as [b Hb]. rewrite Hb. by apply crashed_unbury.
      * apply crashed_delete; [|done]. intros id Hk'. split; intros E.
        -- apply leaf_is_file in E as [_ E]. apply known_dotless in Hk'. rewrite <- E in Hk'.
           apply dotless_app in Hk' as [_ Hd]. by vm_compute in Hd.
        -- apply leaf_is_tomb in E as [_ E]. apply str_app_inj_r in E as ->. done.
    + case_bool_decide as Hk; [done|]. apply crashed_delete; [|done]. intros id Hk'. split; intros E.
      * apply leaf_is_file in E as [_ ->]. done.
      * apply leaf_is_tomb in E as [_ ->]. by rewrite (proj2 (strip_suffix_Some _ _ id) eq_refl) in Es.
Qed.

#[export] Instance leaf_keeps mid e : Keeps (λ s, Crashed s t) (reconcile_leaf known mid e).
Proof.
  intros w HC. destruct (leaf_tries mid e w) as (r & w' & -> & [[E _]|(_ & E & _)]); simpl; rewrite E;
    [done|by apply swept_crashed].
Qed.

(** *** It is gone afterwards *)

(** Files a start removes: tombstones, and files without a row. *)
Definition bad s (q : path) : Prop := stored q s ∧ ∃ id, dotless id ∧
  (q = tomb id ∨ q = file_path root id ∧ id ∉ known).

Lemma bad_shape s q : Crashed s t → bad s q →
  ∃ id x, q = dir_path root id ++ [x] ∧ sliceable id ∧ printable (str_bytes id) ∧
    printable (str_bytes x) ∧ list_to_set (prefixes (dir_path root id)) ⊆ dirs (fs s) ∧ q ∉ dirs (fs s).
Proof.
  intros [_ _ _ [Hl Hh]] (Hst & id & Hid & [-> |[-> _]]);
    destruct (Hh id Hid) as (H6 & Hpr & Hd); [by right| |by left| ].
  - exists id, (id +:+ ".deleting"). split_and!; try done; [|apply Hl]. rewrite str_bytes_app.
    apply Forall_app_2; [done|]. by repeat constructor.
  - exists id, id. split_and!; try done. apply Hl.
Qed.

Lemma bad_same s q : ∀ s', (∀ p, stored p s' → stored p s) → bad s' q → bad s q.
Proof. intros s' Hst [H1 H2]. split; [by apply Hst|done]. Qed.

Lemma bad_known mid name : contains ".tmp-" name = false → strip_suffix ".deleting" name = None →
  name ∈ known → ∀ s, ¬ bad s (mid ++ [name]).
Proof.
  intros _ Hs Hk s (_ & id & Hid & [E|[E Hn]]).
  - apply leaf_is_tomb in E as [_ ->]. by rewrite (proj2 (strip_suffix_Some _ _ id) eq_refl) in Hs.
  - by apply leaf_is_file in E as [_ ->].
Qed.

Lemma swept_dirs mid name s : dirs (fs (swept mid name s)) = dirs (fs s).
Proof. unfold swept. repeat case_match; done. Qed.

Lemma swept_bad mid name s q : Crashed s t → bad (swept mid name s) q → bad s q ∧ q ≠ mid ++ [name].
Proof.
  intros HC. unfold swept. assert (Hdel : ∀ p, bad (set_files (delete p) s) q → bad s q ∧ q ≠ p).
  { intros p Hb. split; [eapply bad_same; [|exact Hb]|].
    - intros p' [b Hb']. simpl in Hb'. apply lookup_delete_Some in Hb' as [_ Hb']. by exists b.
    - destruct Hb as [[b Hb'] _]. simpl in Hb'. apply lookup_delete_Some in Hb' as [Hne _]. congruence. }
  assert (Hsame : ¬ bad s (mid ++ [name]) → bad s q → bad s q ∧ q ≠ mid ++ [name]) by (intros ? ?; split; congruence).
  case_bool_decide as Hd.
  { apply Hsame. intros Hb. by destruct (bad_shape _ _ HC Hb) as (? & ? & _ & _ & _ & _ & _ & ?). }
  case_bool_decide as Hst; [|by apply Hsame; intros [? _]].
  destruct (valid_utf8 (str_bytes name)) eqn:Eu; simpl.
  2: { apply Hsame. intros Hb. destruct (bad_shape _ _ HC Hb) as (id & x & E & _ & _ & Hx & _).
       apply app_inj_tail in E as [_ ->]. by rewrite (printable_valid _ Hx) in Eu. }
  destruct (contains ".tmp-" name) eqn:Etmp; [by apply Hdel|].
  destruct (strip_suffix ".deleting" name) as [stem|] eqn:Es; case_bool_decide as Hk; [|by apply Hdel|..|by apply Hdel].
  - destruct Hst as [b Hb]. rewrite Hb. intros [Hs' (id & Hid & Hq)]. unfold stored in Hs'. simpl in Hs'.
    assert (q ≠ mid ++ [stem]).
    { intros ->. destruct Hq as [E|[E Hn]].
      - apply leaf_is_tomb in E as [_ ->]. apply known_dotless, dotless_app in Hk as [_ Hk]. by vm_compute in Hk.
      - by apply leaf_is_file in E as [_ ->]. }
    rewrite lookup_insert_ne, lookup_delete_is_Some in Hs' by done. destruct Hs' as [Hne Hs'].
    split; [|done]. split; [done|]. by exists id.
  - apply Hsame. by apply bad_known.
Qed.

(** ** The walk *)

Abbreviation linadata_root := (root ++ ["linadata"%string]).

Section Walk.
Variable D : gset path.
Definition walking s : Prop := Crashed s t ∧ dirs (fs s) = D.

(** With no trouble ahead [m] gets through, and removes the bad files of [X]. *)
Definition sweeps (X : path → Prop) (m : IO Store unit) : Prop := ∀ w,
  calm (fates w) → walking (state w) →
  ∃ w', m w = (Ok tt, w') ∧ calm (fates w') ∧ walking (state w') ∧
    ∀ q, bad (state w') q → bad (state w) q ∧ ¬ X q.

Lemma leaf_sweeps mid e : sweeps (λ q, q = mid ++ [entry_name e]) (reconcile_leaf known mid e).
Proof.
  intros w Hc [HC HD]. destruct (leaf_tries mid e w) as (r & w' & -> & [[_ Hn]|(-> & E & Hc')]); [done|].
  exists w'. split; [done|]. split; [auto|]. rewrite E. split.
  - split; [by apply swept_crashed|by rewrite swept_dirs].
  - intros q. by apply swept_bad.
Qed.

Lemma skip_sweeps X : (∀ s q, walking s → bad s q → ¬ X q) → sweeps X (ret tt).
Proof. intros HX w Hc HJ. exists w. split_and!; [done..|]. eauto. Qed.

Lemma for_each_sweeps {A} (l : list A) (X : A → path → Prop) body :
  (∀ e, sweeps (X e) (body e)) → sweeps (λ q, ∃ e, e ∈ l ∧ X e q) (for_each l body).
Proof.
  intros Hb. induction l as [|e l IH]; intros w Hc HJ; cbn [for_each].
  - exists w. split_and!; [done..|]. intros q Hq. split; [done|]. by intros (e & ?%elem_of_nil & _).
  - destruct (Hb e w Hc HJ) as (w1 & E1 & Hc1 & HJ1 & H1). unfold bind. rewrite E1.
    destruct (IH w1 Hc1 HJ1) as (w2 & E2 & Hc2 & HJ2 & H2). exists w2. split_and!; [done..|].
    intros q (Hq1 & Hn)%H2. apply H1 in Hq1 as [Hq Hn1]. split; [done|].
    intros (e' & [->|He']%elem_of_cons & Hx); [done|]. eauto.
Qed.

Lemma read_dir_sweeps d visit (X : Entry → path → Prop) (Y : path → Prop) :
  (∀ e, sweeps (X e) (visit e)) →
  (∀ s q, walking s → bad s q → Y q → d ∈ D ∧ ∃ e, e ∈ entries d s ∧ X e q) →
  sweeps Y (read_dir_or_skip d visit).
Proof.
  intros Hv HY w Hc HJ. unfold read_dir_or_skip, fs_read_dir, attempt, mbind, IO_mbind, bind.
  destruct (external _ _ _ w) as [r w1] eqn:E.
  destruct (external_tries _ _ _ _ _ E) as [(_ & Hn & _)|(-> & Es & Hc1)]; [done|].
  case_bool_decide as Hd; simpl in Es |- *; rewrite <- Es in *.
  - destruct (for_each_sweeps (entries d (state w1)) X visit Hv w1 (Hc1 Hc) HJ) as (w2 & -> & Hc2 & HJ2 & H2).
    exists w2. split_and!; [done..|]. intros q (Hq & Hn)%H2. split; [done|]. intros Hy.
    destruct (HY _ _ HJ Hq Hy) as [_ He]. done.
  - exists w1. split_and!; [done|auto|done|]. intros q Hq. split; [done|]. intros Hy.
    destruct (HY _ _ HJ Hq Hy) as [HdD _]. by destruct HJ as [_ <-].
Qed.

Lemma level_sweeps width d visit e (X Y : path → Prop) :
  sweeps X (visit (d ++ [entry_name e])) →
  (∀ s q, walking s → bad s q → Y q → d ++ [entry_name e] ∈ D ∧
     valid_utf8 (str_bytes (entry_name e)) = true ∧ String.length (entry_name e) = width ∧ X q) →
  sweeps Y (reconcile_level width d visit e).
Proof.
  intros Hv HY w Hc HJ. unfold reconcile_level, next_entry, mbind, IO_mbind, bind.
  destruct (external _ _ _ w) as [r w1] eqn:E.
  destruct (external_tries _ _ _ _ _ E) as [(_ & Hn & _)|(-> & Es & Hc1)]; [done|].
  simpl in Es |- *. rewrite <- Es in *. unfold attempt, entry_is_dir. clear E Es.
  destruct (external _ _ _ w1) as [r w2] eqn:E.
  destruct (external_tries _ _ _ _ _ E) as [(_ & Hn & _)|(-> & Es & Hc2)]; [by destruct Hn; auto|]. cbn zeta in *.
  assert (Hskip : (∀ q, bad (state w1) q → ¬ Y q) → state w2 = state w1 → ∃ w', ret (St:=Store) tt w2 = (Ok tt, w') ∧
    calm (fates w') ∧ walking (state w') ∧ ∀ q, bad (state w') q → bad (state w1) q ∧ ¬ Y q).
  { intros Hq E2. exists w2. rewrite E2. split_and!; [done|auto|done|]. intros q Hb. auto. }
  case_bool_decide as Hd; [|case_bool_decide]; simpl in Es |- *.
  - destruct (valid_utf8 _) eqn:Eu; simpl; [destruct (Nat.eqb_spec (String.length (entry_name e)) width) as [El|El]; simpl|].
    + rewrite <- Es in *. destruct (Hv w2) as (w3 & -> & Hc3 & HJ3 & H3); [auto|done|].
      exists w3. split_and!; [done..|]. intros q (Hq & Hn)%H3. split; [done|]. intros Hy.
      by destruct (HY _ _ HJ Hq Hy) as (_ & _ & _ & ?).
    + apply Hskip; [|done]. intros q Hq Hy. by destruct (HY _ _ HJ Hq Hy) as (_ & _ & ? & _).
    + apply Hskip; [|done]. intros q Hq Hy. by destruct (HY _ _ HJ Hq Hy) as (_ & ? & _).
  - apply Hskip; [|done]. intros q Hq Hy. destruct (HY _ _ HJ Hq Hy) as (? & _). by destruct HJ as [_ <-].
  - apply Hskip; [|done]. intros q Hq Hy. destruct (HY _ _ HJ Hq Hy) as (? & _). by destruct HJ as [_ <-].
Qed.

Lemma entries_dir d n s : d ++ [n] ∈ dirs (fs s) → EDir n ∈ entries d s.
Proof.
  intros Hd. apply elem_of_app. left. apply list_elem_of_omap. exists (d ++ [n]).
  split; [by apply elem_of_elements|]. unfold child_of.
  by rewrite parent_of_snoc, bool_decide_eq_true_2, last_snoc by done.
Qed.
Lemma entries_file d n s : stored (d ++ [n]) s → EFile n ∈ entries d s.
Proof.
  intros [b Hb]. apply elem_of_app. right. apply list_elem_of_omap. exists (d ++ [n], b).
  split; [by apply elem_of_map_to_list|]. unfold child_of, fst.
  by rewrite parent_of_snoc, bool_decide_eq_true_2, last_snoc by done.
Qed.
Lemma prefixes_app p r : p ∈ prefixes (p ++ r).
Proof.
  induction p as [|c p IH]; [destruct r; by left|]. simpl. right. by apply list_elem_of_fmap_2.
Qed.

(** Where a bad file is: three directories down, in directories that are there. *)
Lemma bad_place s q : walking s → bad s q → ∃ a b x,
  q = ((root ++ ["linadata"%string]) ++ [a]) ++ [b] ++ [x] ∧ stored q s ∧
  root ++ ["linadata"%string] ∈ D ∧ (root ++ ["linadata"%string]) ++ [a] ∈ D ∧
  ((root ++ ["linadata"%string]) ++ [a]) ++ [b] ∈ D ∧
  valid_utf8 (str_bytes a) = true ∧ String.length a = 4 ∧
  valid_utf8 (str_bytes b) = true ∧ String.length b = 2.
Proof.
  intros [HC HD] Hb. destruct (bad_shape _ _ HC Hb) as (id & x & -> & H6%sliceable_long & Hpr & _ & Hd & _).
  assert (Hsub : ∀ n m, valid_utf8 (str_bytes (String.substring n m id)) = true).
  { intros n m. rewrite str_bytes_substring. apply printable_valid. by apply Forall_take, Forall_drop. }
  assert (Hlen : ∀ n m, n + m ≤ 6 → String.length (String.substring n m id) = m).
  { intros n m Hnm. rewrite <- length_str_bytes, str_bytes_substring, length_take, length_drop, length_str_bytes. lia. }
  assert (Hin : ∀ p r, dir_path root id = p ++ r → p ∈ D).
  { intros p r E. rewrite <- HD. apply Hd, elem_of_list_to_set. rewrite E. apply prefixes_app. }
  exists (String.substring 0 4 id), (String.substring 4 2 id), x.
  assert (Ed : dir_path root id = ((root ++ ["linadata"%string]) ++ [String.substring 0 4 id]) ++ [String.substring 4 2 id])
    by (unfold dir_path; by rewrite <- !app_assoc).
  split_and!; auto with lia.
  - by rewrite Ed, <- app_assoc.
  - apply Hb.
  - apply (Hin _ [String.substring 0 4 id; String.substring 4 2 id]). by rewrite Ed, <- !app_assoc.
  - apply (Hin _ [String.substring 4 2 id]). done.
  - apply (Hin _ []). by rewrite app_nil_r.
Qed.

Definition visit_mid (mid_path : path) : IO Store unit :=
  read_dir_or_skip mid_path (reconcile_leaf known mid_path).
Definition visit_top (top_path : path) : IO Store unit :=
  read_dir_or_skip top_path (reconcile_level 2 top_path visit_mid).

Lemma mid_sweeps mid : sweeps (λ q, parent_of q = mid) (visit_mid mid).
Proof.
  eapply read_dir_sweeps; [intros e; apply leaf_sweeps|]. intros s q HJ Hq <-.
  destruct (bad_place _ _ HJ Hq) as (a & b & x & -> & Hst & _ & _ & Hd & _). rewrite app_assoc in *.
  rewrite parent_of_snoc. split; [done|]. exists (EFile x). split; [by apply entries_file|done].
Qed.

Lemma top_sweeps top : sweeps (λ q, parent_of (parent_of q) = top) (visit_top top).
Proof.
  eapply read_dir_sweeps with (X := λ e q, parent_of q = top ++ [entry_name e]).
  - intros e. eapply level_sweeps; [apply mid_sweeps|]. intros s q HJ Hq Ep.
    destruct (bad_place _ _ HJ Hq) as (a & b & x & -> & _ & _ & _ & Hd & _ & _ & Ub & Lb).
    rewrite app_assoc, parent_of_snoc in *. rewrite <- Ep. apply app_inj_tail in Ep as [_ <-]. by split_and!.
  - intros s q HJ Hq <-. destruct (bad_place _ _ HJ Hq) as (a & b & x & -> & _ & _ & Ha & Hd & _).
    rewrite app_assoc, !parent_of_snoc. split; [done|]. exists (EDir b). split; [|done].
    apply entries_dir. by destruct HJ as [_ ->].
Qed.

Lemma walk_sweeps : sweeps (λ _, True) (read_dir_or_skip linadata_root (reconcile_level 4 linadata_root visit_top)).
Proof.
  eapply read_dir_sweeps with (X := λ e q, parent_of (parent_of q) = linadata_root ++ [entry_name e]).
  - intros e. eapply level_sweeps; [apply top_sweeps|]. intros s q HJ Hq Ep.
    destruct (bad_place _ _ HJ Hq) as (a & b & x & -> & _ & _ & Ha & _ & Ua & La & _).
    rewrite app_assoc, !parent_of_snoc in *. rewrite <- Ep. apply app_inj_tail in Ep as [_ <-]. by split_and!.
  - intros s q HJ Hq _. destruct (bad_place _ _ HJ Hq) as (a & b & x & -> & _ & Hl & Ha & _).
    split; [done|]. exists (EDir a). split; [|by rewrite app_assoc, !parent_of_snoc].
    apply entries_dir. by destruct HJ as [_ ->].
Qed.

Lemma known_ids s : Crashed s t → list_to_set ((map_to_list (source (db s))).*1) = known.
Proof.
  intros HC. apply set_eq. intros id. rewrite elem_of_list_to_set, (known_source s id HC), list_elem_of_fmap.
  split; [intros ([i r] & -> & Hin%elem_of_map_to_list); eauto|intros [r Hr]].
  exists (id, r). split; [done|]. by apply elem_of_map_to_list.
Qed.

Lemma reconcile_ok w : calm (fates w) → walking (state w) →
  ∃ w', reconcile_orphans root w = (Ok tt, w') ∧ calm (fates w') ∧ walking (state w') ∧
    ∀ q, ¬ bad (state w') q.
Proof.
  intros Hc HJ. unfold reconcile_orphans, with_dao, list_source_ids, query, map_err, mbind, IO_mbind, bind.
  destruct (external _ _ _ w) as [r w1] eqn:E.
  destruct (external_tries _ _ _ _ _ E) as [(_ & Hn & _)|(-> & Es & Hc1)]; [done|]. simpl in Es |- *. clear E.
  rewrite <- Es in *. destruct HJ as [HC HD]. rewrite (known_ids _ HC).
  destruct (walk_sweeps w1 (Hc1 Hc) (conj HC HD)) as (w2 & Hrun & Hc2 & HJ2 & Hb).
  exists w2. split; [|split_and!; [done..|intros q [_ Hn]%Hb; by apply Hn]].
  revert Hrun. unfold read_dir_or_skip, fs_read_dir, attempt, mbind, IO_mbind, bind.
  destruct (external _ _ _ w1) as [r w3] eqn:E.
  destruct (external_tries _ _ _ _ _ E) as [(_ & Hn & _)|(-> & _)]; [by destruct Hn; auto|].
  by case_bool_decide.
Qed.

End Walk.

Lemma clean_live s : Crashed s t → (∀ q, ¬ bad s q) → Live s t.
Proof.
  intros HC Hb. pose proof HC as [Hl Hs Hp Hsh].
  assert (Ht : ∀ id, dotless id → files (fs s) !! tomb id = None).
  { intros id Hid. apply eq_None_not_Some. intros Hst. apply (Hb (tomb id)). split; [done|]. eauto. }
  split; [|done..]. split; [done..|]. intros id Hid. rewrite <- Hp by done. unfold settled.
  destruct (source (db s) !! id) as [r|] eqn:Er; [by rewrite Ht|].
  apply eq_None_not_Some. intros Hst. apply (Hb (file_path root id)). split; [done|].
  exists id. split; [done|]. right. split; [done|]. rewrite (known_source s id HC), Er. by intros [? [=]].
Qed.

(** ** The start *)

(** What only concerns the table of directories leaves the rest as it is. *)
Definition apart_from_dirs (J : Store → Prop) : Prop := ∀ s s',
  link (db s') = link (db s) → source (db s') = source (db s) → fs s' = fs s → J s → J s'.

Lemma crashed_apart : apart_from_dirs (λ s, Crashed s t).
Proof.
  intros s s' El Es Ef [Hl Hs Hp [H1 H2]]. split; [by rewrite El|by rewrite Es| |].
  - intros id Hid. rewrite <- Hp by done. unfold settled. by rewrite Es, Ef.
  - split; [intros i x|intros i; unfold stored]; rewrite Ef; [apply H1|apply H2].
Qed.
Lemma live_apart : apart_from_dirs (λ s, Live s t).
Proof.
  intros s s' El Es Ef HL. pose proof HL as [[Hl Hs Hp] _ _]. eapply live_db; [exact HL| |done].
  split; [by rewrite El|by rewrite Es|by rewrite Ef].
Qed.

Section Apart.
Context (J : Store → Prop) (HJ : apart_from_dirs J).
Lemma query_keeps {A} ctx (f : Db → A) : Keeps J (query ctx f).
Proof. by apply external_keeps. Qed.
Lemma execute_keeps ctx f : (∀ d d', f d = Some d' → link d' = link d ∧ source d' = source d) → Keeps J (execute ctx f).
Proof.
  intros Hf. apply external_keeps; [done|]. intros s Hs. destruct (f (db s)) as [d|] eqn:E; [|done].
  destruct (Hf _ _ E) as [? ?]. by apply (HJ s).
Qed.
Lemma insert_dir_keeps p q : Keeps J (insert_dir p q).
Proof. apply execute_keeps. intros d d'. case_bool_decide; intros [= <-]. done. Qed.
Lemma init_keeps : Keeps J Dao_new.
Proof.
  assert (He : ∀ ctx, Keeps J (execute ctx Some)) by (intros; apply execute_keeps; by intros d d' [= <-]).
  apply bind_keeps; [apply query_keeps|intros _]. apply bind_keeps; [apply query_keeps|intros _].
  apply bind_keeps; [apply He|intros _]. apply bind_keeps; [apply ignore_keeps, He|intros _].
  apply ignore_keeps, He.
Qed.
Lemma ancestors_keeps parts : ∀ acc prev, Keeps J (insert_ancestors parts acc prev).
Proof.
  induction parts as [|part parts IH]; intros acc prev; cbn [insert_ancestors]; [apply ret_keeps|].
  apply bind_keeps; [apply ignore_keeps, insert_dir_keeps|intros _; apply IH].
Qed.
Lemma sync_keeps : Keeps J sync_dirs_from_links.
Proof.
  apply bind_keeps; [apply map_err_keeps, query_keeps|]. intros ls. apply for_each_keeps. intros l.
  case_match; [apply ancestors_keeps|apply ret_keeps].
Qed.
End Apart.

Lemma create_root_keeps : Keeps (λ s, Crashed s t) (fs_create_dir_all linadata_root).
Proof.
  apply external_keeps; [done|]. intros s HC. eapply agree_crashed; [|exact HC].
  destruct (cr_shelf _ _ _ HC) as [Hl _]. split; simpl; [done..|set_solver|]. intros id x.
  rewrite elem_of_union, elem_of_list_to_set. intros [H%prefixes_length|H]; [|by apply (Hl id x)].
  unfold dir_path in H. rewrite !length_app in H. simpl in H. lia.
Qed.

Lemma entry_keeps (J : Store → Prop) e : Keeps J (next_entry e).
Proof. by apply external_keeps. Qed.
Lemma is_dir_keeps (J : Store → Prop) d e : Keeps J (entry_is_dir d e).
Proof. apply external_keeps; [done|]. intros s Hs. cbn zeta. by repeat case_bool_decide. Qed.
Lemma read_dir_keeps (J : Store → Prop) d : Keeps J (fs_read_dir d).
Proof. apply external_keeps; [done|]. intros s Hs. by case_bool_decide. Qed.
Lemma level_keeps (J : Store → Prop) width d visit e :
  (∀ p, Keeps J (visit p)) → Keeps J (reconcile_level width d visit e).
Proof.
  intros Hv. apply bind_keeps; [apply entry_keeps|]. intros e'.
  apply bind_keeps; [apply attempt_keeps, is_dir_keeps|]. intros [|[]]; try apply ret_keeps.
  cbn beta iota zeta. case_match; [apply ret_keeps|apply Hv].
Qed.
Lemma skip_keeps (J : Store → Prop) d visit : (∀ e, Keeps J (visit e)) → Keeps J (read_dir_or_skip d visit).
Proof.
  intros Hv. apply bind_keeps; [apply attempt_keeps, read_dir_keeps|].
  intros [|es]; [apply ret_keeps|by apply for_each_keeps].
Qed.

(** However a start ends, it keeps what its steps keep: [K] is what is known of
    the identifiers of the sources. *)
Section Starting.
Context (J : Store → Prop) (K : gset string → Prop) (HJ : apart_from_dirs J).
Context (Hroot : Keeps J (fs_create_dir_all linadata_root)).
Context (HK : ∀ s, J s → K (list_to_set ((map_to_list (source (db s))).*1))).
Context (Hleaf : ∀ ids mid e, K ids → Keeps J (reconcile_leaf ids mid e)).

Lemma reconcile_keeps : Keeps J (reconcile_orphans root).
Proof.
  apply bind_keeps_val with (R := λ ids, K (list_to_set ids)).
  - apply map_err_keeps, query_keeps.
  - intros w ids w' Hw [E _]%with_dao_ok%query_ok. rewrite E. by apply HK.
  - intros ids Hids. apply bind_keeps; [apply attempt_keeps, read_dir_keeps|].
    intros [[k z|z]|es]; [destruct k; apply _..|apply _|].
    apply for_each_keeps. intros e. apply level_keeps. intros p. apply skip_keeps. intros e'.
    apply level_keeps. intros p'. apply skip_keeps. intros e''. by apply Hleaf.
Qed.
Lemma start_keeps : Keeps J (StoreManager_new root).
Proof.
  apply bind_keeps; [apply Hroot|intros _].
  apply bind_keeps; [by apply map_err_keeps, init_keeps|intros _].
  apply bind_keeps; [apply attempt_keeps, reconcile_keeps|intros [|_]; [apply fail_keeps|]].
  apply bind_keeps; [by apply attempt_keeps, sync_keeps|intros [|_]; [apply fail_keeps|apply ret_keeps]].
Qed.
End Starting.

(** It does no harm. *)
Lemma start_crashed : Keeps (λ s, Crashed s t) (StoreManager_new root).
Proof.
  apply (start_keeps _ (λ ids, ids = known)); [apply crashed_apart|apply create_root_keeps|by apply known_ids|].
  intros ids mid e ->. apply leaf_keeps.
Qed.

(** Without trouble it gets through. *)
Definition quiet {A} (m : IO Store A) : Prop := ∀ w, calm (fates w) →
  ∃ a w', m w = (Ok a, w') ∧ calm (fates w').
Lemma quiet_bind {A B} (m : IO Store A) (k : A → IO Store B) :
  quiet m → (∀ a, quiet (k a)) → quiet (m ≫= k).
Proof.
  intros Hm Hk w Hc. unfold mbind, IO_mbind, bind. destruct (Hm w Hc) as (a & w1 & -> & Hc1). by apply Hk.
Qed.
Lemma quiet_ret {A} (a : A) : quiet (ret a).
Proof. intros w Hc. by exists a, w. Qed.
Lemma quiet_attempt {A} err (f : Store → (Error + A) * Store) :
  quiet (attempt (external err (λ _ s, s) f)).
Proof.
  intros w Hc. unfold attempt. destruct (external _ _ _ w) as [r w1] eqn:E.
  destruct (external_tries _ _ _ _ _ E) as [(_ & Hn & _)|(-> & _ & Hc1)]; [done|].
  destruct (f (state w)).1; eauto.
Qed.
Lemma quiet_external {A} err (f : Store → (Error + A) * Store) :
  (∀ s, ∃ a, (f s).1 = inr a) → quiet (external err (λ _ s, s) f).
Proof.
  intros Hf w Hc. destruct (external _ _ _ w) as [r w1] eqn:E.
  destruct (external_tries _ _ _ _ _ E) as [(_ & Hn & _)|(-> & _ & Hc1)]; [done|].
  destruct (Hf (state w)) as [a ->]. eauto.
Qed.
Lemma quiet_map_err {A} g (m : IO Store A) : quiet m → quiet (map_err g m).
Proof. intros Hm w Hc. unfold map_err. destruct (Hm w Hc) as (a & w1 & -> & ?). eauto. Qed.
Lemma quiet_for_each {A} (l : list A) body : (∀ x, quiet (body x)) → quiet (for_each l body).
Proof. intros Hb. induction l as [|x l IH]; [apply quiet_ret|]. by apply quiet_bind. Qed.

Lemma quiet_dao_new : quiet (with_dao Dao_new).
Proof.
  assert (He : ∀ ctx, quiet (execute ctx Some)) by (intros; apply quiet_external; simpl; eauto).
  assert (Hi : ∀ ctx, quiet (ignore (execute ctx Some))).
  { intros ctx. apply quiet_bind; [apply quiet_attempt|intros; apply quiet_ret]. }
  apply quiet_map_err. do 2 (apply quiet_bind; [apply quiet_external; simpl; eauto|intros _]).
  apply quiet_bind; [apply He|intros _]. apply quiet_bind; [apply Hi|intros _]. apply Hi.
Qed.
Lemma quiet_sync : quiet sync_dirs_from_links.
Proof.
  apply quiet_bind; [apply quiet_map_err, quiet_external; simpl; eauto|]. intros ls.
  apply quiet_for_each. intros l. case_match; [|apply quiet_ret].
  set (parts := split_on _ _). clearbody parts. generalize EmptyString at 1 as acc. generalize EmptyString as prev.
  induction parts as [|part parts IH]; intros acc prev; cbn [insert_ancestors]; [apply quiet_ret|].
  apply quiet_bind; [|intros _; apply IH]. apply quiet_bind; [apply quiet_attempt|intros; apply quiet_ret].
Qed.

Lemma start_ok w : calm (fates w) → Crashed (state w) t →
  ∃ w', StoreManager_new root w = (Ok tt, w') ∧ calm (fates w') ∧ Live (state w') t.
Proof.
  intros Hc HC. unfold StoreManager_new, mbind, IO_mbind, bind.
  assert (Hq : quiet (fs_create_dir_all linadata_root)) by (apply quiet_external; simpl; eauto).
  destruct (Hq w Hc) as ([] & w1 & E1 & Hc1). pose proof (create_root_keeps w HC) as HC1. rewrite E1 in *.
  destruct (quiet_dao_new w1 Hc1) as ([] & w2 & E2 & Hc2).
  pose proof (map_err_keeps _ dao_to_io_error _ (init_keeps _ crashed_apart) w1 HC1) as HC2.
  unfold with_dao in E2 |- *. rewrite E2 in *. unfold attempt.
  destruct (reconcile_ok (dirs (fs (state w2))) w2 Hc2 (conj HC2 eq_refl)) as (w3 & -> & Hc3 & [HC3 _] & Hb).
  pose proof (clean_live _ HC3 Hb) as HL3. destruct (quiet_sync w3 Hc3) as ([] & w4 & E4 & Hc4).
  pose proof (sync_keeps _ live_apart w3 HL3) as HL4. rewrite E4 in *. by exists w4.
Qed.
End Tables.

(** ** Reading after a start *)

(** Every name reads as [m] says, and names [m] has not are reported missing. *)
Definition reads w (m : gmap string bytes) : Prop := ∀ n, is_empty n = false →
  (get_binary_data root n w).1 = match m !! n with
                                 | Some d => Ok d
                                 | None => Err (IoError NotFound "File not found")
                                 end.

Lemma live_reads w t m : calm (fates w) → Live (state w) t → Sound t → represents t m → reads w m.
Proof.
  intros Hc HL HS Hm n Hn. pose proof (calm_one_failure _ Hc) as Hf. pose proof HL as [HR _ _].
  destruct (m !! n) as [d|] eqn:Hd.
  - by destruct (get_ends root w t m n d Hn Hd HR Hf HS Hm) as [a w' [-> _] _|e w' _ []].
  - destruct (get_absent root w t m n Hn Hd HR Hf HS Hm) as (e & w' & -> & _ & [[]|[_ ->]]); done.
Qed.

(** Any number of starts, interrupted or failing anywhere, and then one that is
    left alone. *)
Fixpoint restarts (fss : list (list Fate)) w : Env Store :=
  match fss with
  | [] => hush w
  | fs :: fss' => restarts fss' (StoreManager_new root (mkEnv (state w) fs (clock w) (draws w))).2
  end.

Lemma restarts_calm fss : ∀ w, calm (fates (restarts fss w)).
Proof. induction fss as [|fs fss IH]; intros w; [constructor|apply IH]. Qed.

(** A start draws no identifier. *)
Lemma start_undrawn : Undrawn (StoreManager_new root).
Proof.
  assert (Hl : ∀ known mid e, Undrawn (reconcile_leaf known mid e)).
  { intros. apply bind_undrawn; [apply _|]. intros e'. apply bind_undrawn; [apply _|]. intros [|[]]; try apply _.
    cbn zeta. repeat case_match; apply _. }
  assert (Hv : ∀ n d visit e, (∀ p, Undrawn (visit p)) → Undrawn (reconcile_level n d visit e)).
  { intros n d visit e Hv. apply bind_undrawn; [apply _|]. intros e'. apply bind_undrawn; [apply _|].
    intros [|[]]; try apply _. cbn zeta. case_match; [apply _|apply Hv]. }
  assert (Hd : ∀ d visit, (∀ e, Undrawn (visit e)) → Undrawn (read_dir_or_skip d visit)).
  { intros d visit He. apply bind_undrawn; [apply _|]. intros [|]; apply _. }
  assert (Ha : ∀ parts acc prev, Undrawn (insert_ancestors parts acc prev)).
  { induction parts; intros; simpl; apply _. }
  assert (Hr : Undrawn (reconcile_orphans root)).
  { apply bind_undrawn; [apply _|]. intros ids. cbn zeta. apply bind_undrawn; [apply _|].
    intros [[[]|]|es]; apply _. }
  assert (Hs : Undrawn sync_dirs_from_links).
  { apply bind_undrawn; [apply _|]. intros ls. apply for_each_undrawn. intros l. case_match; apply _. }
  apply bind_undrawn; [apply _|intros _]. apply bind_undrawn; [unfold with_dao, Dao_new; apply _|intros _].
  apply bind_undrawn; [apply _|intros [|_]; [apply _|]]. apply bind_undrawn; [apply _|intros [|_]; apply _].
Qed.

Lemma restarts_crashed t fss : dotless_ids t → ∀ w, Crashed (state w) t →
  calm (fates (restarts fss w)) ∧ Crashed (state (restarts fss w)) t ∧ draws (restarts fss w) = draws w.
Proof.
  intros HS. induction fss as [|fs fss IH]; intros w HC; [by split; [constructor|]|].
  destruct (IH (StoreManager_new root (mkEnv (state w) fs (clock w) (draws w))).2) as (? & ? & E).
  - by apply (start_crashed t HS (mkEnv (state w) fs (clock w) (draws w))).
  - split_and!; [done|done|]. simpl. rewrite E. apply (start_undrawn (mkEnv (state w) fs (clock w) (draws w))).
Qed.

Lemma recovers V slack clean m fss w : Stands root V slack clean m (draws w) (state w) →
  ∃ w', StoreManager_new root (restarts fss w) = (Ok tt, w') ∧ reads (hush w') m ∧
    (clean → Rests root V (S slack) w' m).
Proof.
  intros (t & HC & HS & Hm & HF). pose proof (sound_dotless _ HS) as Hdl.
  destruct (restarts_crashed t fss Hdl w HC) as (Hc & HC' & Ed).
  destruct (start_ok t Hdl _ Hc HC') as (w' & E & Hc' & HL). exists w'. split; [done|]. split.
  - eapply live_reads; [constructor|done..].
  - intros Hcl. exists t. split_and!; [done| |done]. pose proof (start_undrawn (restarts fss w)) as Ed'.
    rewrite E, Ed in Ed'. simpl in Ed'. rewrite Ed'. by apply HF.
Qed.

End Recovery.
