(* ===== verification/Sessions.v ===== *)
(** * Sessions: operations, deaths and starts, one after the other

    A process runs operations until it dies; it is started again, perhaps several
    times, and goes on.  Dying.v says what one death leaves and Recovery.v that a
    start mends it; each interrupted operation may leave a source with a
    reference too many, which is the slack that grows with the sessions.  Here
    they are put together into a life of any length. *)
From S2P Require Import Prelude Io Runs Strs World Dao Disk Block Store Frames Layers Catalog Contract Crash Manager Dying Recovery.

Section Sessions.
Context `{P : Platform} `{PL : !PlatformLaws P} `{C : Codec} `{CL : !CodecLaws C}.
Variable root : path.
Variable bm : BlockManager.
Implicit Types (w : Env Store) (m : gmap string bytes).
Abbreviation reads := (reads root).
Abbreviation restarts := (restarts root).

(** ** A life in sessions *)

(** Some operations under an oracle, until the process dies or has done them;
    then starts, until one is left alone. *)
Record Uptime := mkUptime { up_ops : list Cmd; up_fates : list Fate; up_starts : list (list Fate) }.
Definition begun (s : Uptime) w : Env Store := mkEnv (state w) (up_fates s) (clock w) (draws w).
Definition uptime (s : Uptime) w : Res unit * Env Store :=
  StoreManager_new root (restarts (up_starts s) (run_ops root bm (up_ops s) (begun s w)).2).
Fixpoint life (ss : list Uptime) w : Res unit * Env Store :=
  match ss with
  | [] => (Ok tt, w)
  | s :: ss' => match uptime s w with (Ok _, w1) => life ss' w1 | r => r end
  end.

(** What a session may make of [m]: all that was acknowledged, and either all or
    nothing of the operation that was not. *)
Definition outcome (s : Uptime) w m m1 : Prop :=
  let k := acknowledged root bm (up_ops s) (begun s w) in
  m1 = effects (take k (up_ops s)) m ∨ k < length (up_ops s) ∧ m1 = effects (take (S k) (up_ops s)) m.
Fixpoint story (ss : list Uptime) w m m' : Prop :=
  match ss with
  | [] => m' = m
  | s :: ss' => ∃ m1, outcome s w m m1 ∧ story ss' (uptime s w).2 m1 m'
  end.

(** The two windows: no death inside a put that covers a name in place, and, if
    more is to be done, none inside a put of contents that have another name. *)
Fixpoint careful (ss : list Uptime) w m : Prop :=
  match ss with
  | [] => True
  | s :: ss' =>
      interrupted root bm (λ op m, ¬ in_place op m) (up_ops s) (begun s w) m ∧
      (ss' ≠ [] → interrupted root bm unshared (up_ops s) (begun s w) m) ∧
      ∀ m1, outcome s w m m1 → careful ss' (uptime s w).2 m1
  end.

(** Only the process dies; names are not empty; contents are among [V]. *)
Definition regular (V : bytes → Prop) (s : Uptime) : Prop :=
  until_death (up_fates s) ∧
  Forall (λ op, is_empty (op_name op) = false ∧ Forall V (op_data op)) (up_ops s).
Fixpoint op_count (ss : list Uptime) : nat :=
  match ss with [] => 0 | s :: ss' => length (up_ops s) + op_count ss' end.

Lemma uptime_stands V slack s w m :
  Rests root V slack w m → regular V s → (0 < chunk_size bm < 2 ^ 16)%N →
  (Z.of_nat (size m + length (up_ops s) + slack) < 2 ^ 63)%Z → hash_injective V →
  interrupted root bm (λ op m, ¬ in_place op m) (up_ops s) (begun s w) m →
  ∃ m1 w', outcome s w m m1 ∧ uptime s w = (Ok tt, w') ∧ reads (hush w') m1 ∧
    (interrupted root bm unshared (up_ops s) (begun s w) m → Rests root V (S slack) w' m1).
Proof.
  intros HR [Hf Hops] Hbm Hroom Hinj Hin. apply Forall_and in Hops as [Hne HV].
  destruct (run_ops_stands root bm V slack (up_ops s) (begun s w) m HR Hf Hbm Hne Hroom HV Hinj Hin) as [H|[Hk H]];
    destruct (recovers root _ _ _ _ (up_starts s) _ H) as (w' & Hs & Hr & HR'); eexists _, w'; split_and!;
    [by left|exact Hs|exact Hr|exact HR'|by right|exact Hs|exact Hr|exact HR'].
Qed.

Lemma outcome_size s w m m1 : outcome s w m m1 → size m1 ≤ size m + length (up_ops s).
Proof.
  assert (H : ∀ k, size (effects (take k (up_ops s)) m) ≤ size m + length (up_ops s)).
  { intros k. pose proof (effects_size (take k (up_ops s)) m). rewrite length_take in *. lia. }
  intros [->|[_ ->]]; apply H.
Qed.

Lemma lives V ss : ∀ slack w m,
  Rests root V slack w m → Forall (regular V) ss → (0 < chunk_size bm < 2 ^ 16)%N →
  (Z.of_nat (size m + op_count ss + length ss + slack) < 2 ^ 63)%Z → hash_injective V → careful ss w m →
  ∃ m' w', story ss w m m' ∧ life ss w = (Ok tt, w') ∧ reads (hush w') m'.
Proof.
  induction ss as [|s ss IH]; intros slack w m HR Hreg Hbm Hroom Hinj Hca; cbn [story life].
  - exists m, w. split_and!; [done..|]. destruct HR as (t & HL & [HI _] & Hm).
    eapply live_reads; [constructor|done|by eapply inv_sound|done].
  - apply Forall_cons in Hreg as [Hs Hreg]. destruct Hca as (Hin & Hun & Hca).
    cbn [op_count length] in Hroom.
    destruct (uptime_stands V slack s w m HR Hs Hbm ltac:(lia) Hinj Hin) as (m1 & w1 & Ho & E & Hr & HR1).
    pose proof (outcome_size _ _ _ _ Ho). rewrite E. destruct (decide (ss = [])) as [->|Hss].
    + exists m1, w1. split_and!; [by exists m1|done|done].
    + specialize (Hca _ Ho). rewrite E in Hca.
      destruct (IH (S slack) w1 m1 (HR1 (Hun Hss)) Hreg Hbm ltac:(lia) Hinj Hca) as (m' & w' & Hst & El & Hr').
      exists m', w'. split_and!; [|done|done]. by exists m1.
Qed.

(** ** A store at rest *)

Lemma rests_holds V w m : Rests root V 0 w m → holds root w m.
Proof. intros (t & HL & [HI _] & Hm). exists t. split_and!; [apply HL|done..]. Qed.
Lemma rests_reads V slack w m : Rests root V slack w m → reads (hush w) m.
Proof.
  intros (t & HL & [HI _] & Hm). eapply live_reads; [constructor|done|by eapply inv_sound|done].
Qed.
Lemma rests_within V slack w m n d : Rests root V slack w m → m !! n = Some d → V d.
Proof. intros (t & _ & [_ HV] & Hm) (i & sid & _ & Hc)%Hm. by eapply HV. Qed.
(** An operation that returns while nothing fails leaves the store at rest. *)
Lemma op_rests V slack w m op r w' :
  Rests root V slack w m → calm (fates w) → is_empty (op_name op) = false → (0 < chunk_size bm < 2 ^ 16)%N →
  (Z.of_nat (size m + slack) < 2 ^ 63 - 1)%Z → Forall V (op_data op) → hash_injective V →
  run_op root bm op w = (Ok r, w') → Rests root V slack w' (effect op m).
Proof.
  intros HR Hc Hn Hbm Hroom HV Hinj E.
  assert (Hf : until_death (fates w)) by (clear -Hc; induction Hc as [|f fs -> _ IH]; done).
  pose proof (run_op_dies root bm V slack False False w m op HR Hf Hn Hbm Hroom HV Hinj ltac:(done) ltac:(done)) as Hd.
  rewrite E in Hd. by inversion Hd.
Qed.
(** Starting again, however often and however badly, changes nothing. *)
Lemma rests_restarts V slack w m fss : Rests root V slack w m →
  ∃ w', StoreManager_new root (restarts fss w) = (Ok tt, w') ∧ calm (fates w') ∧ Rests root V slack w' m.
Proof.
  intros (t & HL & HF & Hm). pose proof (kept_sound t (inv_sound _ _ (proj1 HF))) as HS.
  destruct (restarts_crashed root (kept t) fss (sound_dotless _ HS) w (live_crashed _ _ _ HL)) as (Hc & HC & Ed).
  destruct (start_ok root (kept t) (sound_dotless _ HS) _ Hc HC) as (w' & E & Hc' & HL'). exists w'. split_and!; [done..|].
  exists (kept t). split_and!; [done| |by apply kept_represents].
  pose proof (start_undrawn root (restarts fss w)) as Ed'. rewrite E, Ed in Ed'. simpl in Ed'. rewrite Ed'.
  by apply fits_kept.
Qed.

(** ** Properties *)

(** C5 (safety): crashes lose nothing that was acknowledged and leave nothing
    half-done, however many there are, as long as they keep out of two windows.  In
    each of any number of sessions, operations run until the process dies at some
    SQL statement or file operation, not inside a put that covers a name in place
    and, unless the session is the last, not inside a put of contents some other
    name already has ([careful]: the theorem is false without it, as
    [cover_crash_corrupts] and [share_crash_entangles] in Limits.v show);
    then the server is started again, any number of these starts dying or failing
    in their turn.  The first start of each session that is left alone succeeds,
    and in the end every name reads as the story of the sessions says: in each,
    the operations that had returned to their caller, and either all or nothing of
    the one that was under way. *)
Theorem crash_recovery V ss w m :
  Rests root V 0 w m → Forall (regular V) ss → (0 < chunk_size bm < 2 ^ 16)%N →
  (Z.of_nat (size m + op_count ss + length ss) < 2 ^ 63)%Z → hash_injective V → careful ss w m →
  ∃ m' w', story ss w m m' ∧ life ss w = (Ok tt, w') ∧ reads (hush w') m'.
Proof. intros. eapply lives; try done. lia. Qed.
End Sessions.

(** ** Witness *)

Definition any_bytes (d : bytes) : Prop := True.
Lemma rests_empty : Rests demo_root any_bytes 0 (mkEnv empty_store [] 0 0) ∅.
Proof.
  destruct (holds_empty demo_root []) as (t & HR & HI & Hm). exists t. split_and!; [|by split|done].
  split; [done|done|]. split; [intros id x; simpl; set_solver|]. intros id Hid. unfold stored; simpl.
  rewrite !lookup_empty. intros [[? [=]]|[? [=]]].
Qed.
Lemma demo_hash_all V : hash_injective V.
Proof.
  intros d d' _ _. rewrite !get_hash256_is_blake3. unfold blake3_hex; simpl.
  intros E. by rewrite <- (str_bytes_str d), E, str_bytes_str.
Qed.

(** Two sessions.  The first dies deleting [a.txt]: the link is gone, the file is
    under its tombstone, the row is still there; and the first start dies as well.
    The second finds the contents without a name, gives them one, and dies while
    it gives them another: the link of [d.txt] is in and the count is not. *)
Definition demo_first : Uptime :=
  mkUptime [CmdPut "a.txt" demo_hello false true; CmdPut "b.txt" demo_input false false; CmdDelete "a.txt"]
    (repeat Pass 22 ++ [Die 0]) [[Pass; Pass; Die 0]].
Definition demo_second : Uptime :=
  mkUptime [CmdPut "c.txt" demo_hello false true; CmdDelete "b.txt"; CmdPut "d.txt" demo_hello false true]
    (repeat Pass 13 ++ [Die 0]) [].
Definition demo_sessions : list Uptime := [demo_first; demo_second].
Definition demo_born : Env Store := mkEnv empty_store [] 0 0.

(** Deaths inside anything but puts are harmless. *)
Lemma interrupted_delete Q ops w m name :
  ops !! acknowledged demo_root demo_bm ops w = Some (CmdDelete name) →
  (∀ m, Q (CmdDelete name) m) → interrupted demo_root demo_bm Q ops w m.
Proof. unfold interrupted. intros -> HQ. apply HQ. Qed.
Lemma interrupted_put Q ops w m name d :
  ops !! acknowledged demo_root demo_bm ops w = Some (CmdPut name d false true) →
  (∀ m, Q (CmdPut name d false true) m) → interrupted demo_root demo_bm Q ops w m.
Proof. unfold interrupted. intros -> HQ. apply HQ. Qed.

Lemma demo_careful : careful demo_root demo_bm demo_sessions demo_born ∅.
Proof.
  split; [|split].
  - apply (interrupted_delete _ _ _ _ "a.txt"); [vm_compute; reflexivity|]. intros m [].
  - intros _. apply (interrupted_delete _ _ _ _ "a.txt"); [vm_compute; reflexivity|]. intros m. exact I.
  - intros m1 _. split; [|split; [intros []; reflexivity|intros m2 _; exact I]].
    apply (interrupted_put _ _ _ _ "d.txt" demo_hello); [vm_compute; reflexivity|]. intros m [].
Qed.

Lemma crash_recovery_witness :
  acknowledged demo_root demo_bm (up_ops (demo_first)) (begun (demo_first) demo_born) = 2 ∧
  ∃ m' w', story demo_root demo_bm demo_sessions demo_born ∅ m' ∧
    life demo_root demo_bm demo_sessions demo_born = (Ok tt, w') ∧ reads demo_root (hush w') m'.
Proof.
  split; [vm_compute; reflexivity|].
  apply (crash_recovery demo_root demo_bm any_bytes demo_sessions demo_born ∅).
  - apply rests_empty.
  - repeat constructor.
  - split; vm_compute; reflexivity.
  - vm_compute. reflexivity.
  - apply demo_hash_all.
  - apply demo_careful.
Defined.

(** What the two sessions come to: the interrupted delete has happened, and so has
    the interrupted put. *)
Example demo_sessions_end :
  let w := (life demo_root demo_bm demo_sessions demo_born).2 in
  (λ n, (get_binary_data demo_root n w).1) <$> ["a.txt"; "b.txt"; "c.txt"; "d.txt"]%string =
  [Err (IoError NotFound "File not found"); Err (IoError NotFound "File not found");
   Ok demo_hello; Ok demo_hello].
Proof. vm_compute. reflexivity. Qed.
