(* ===== verification/Isolation.v ===== *)
(** * What an operation leaves alone

    The other theorems of the store bound what may go wrong: at most one failing
    call, or the death of the process.  Here nothing is bounded.  Steps may fail,
    the steps that undo them may fail too, and the process may die in the middle
    of it: an operation on one name still does nothing to any other
    ([others_unharmed]).  [Apart] says what the contents of another name rest on;
    every statement and file operation of [StoreManager] is shown to keep away
    from it.  For the name itself the undoing is no guarantee
    ([failed_undo_locks_name], in Limits.v). *)
From S2P Require Import Prelude Io Runs Strs World Dao Disk Block Store Frames Layers Catalog Contract Crash Manager Dying Recovery Sessions.

Section Apart.
Context `{P : Platform} `{PL : !PlatformLaws P} `{C : Codec} `{CL : !CodecLaws C}.
Variable root : path.
Variable bm : BlockManager.
Implicit Types (w : Env Store) (s : Store) (t : Tables) (m : gmap string bytes).

(** The operation is on [name].  [by_stands] says whether there is another name,
    [other], reached by link [i], source [sid], whose row has hash [h] and flag [c]
    and whose file holds [raw].  The sources in [own] may be those of [name], and
    their hashes are then in [hs]. *)
Context (name : string) (by_stands : Prop) (other i sid h : string) (c : bool) (raw : bytes).
Context (own hs : string → Prop) (d0 : nat).
Context (Hother : by_stands → other ≠ name) (Hsid : by_stands → source_id_at d0 sid) (Hi : by_stands → link_id_at d0 i).
Context (Hown : ∀ tm d, d0 ≤ d → own (fmt_compact tm +:+ nanoid8 d)).

Record Apart (d : nat) s : Prop := {
  ap_link : by_stands → ∃ r, link (db s) !! i = Some r ∧ lr_name r = other ∧ lr_source_id r = sid;
  ap_only : by_stands → ∀ j r, link (db s) !! j = Some r → lr_name r = other → j = i;
  ap_row : by_stands → ∃ r, source (db s) !! sid = Some r ∧ sr_hash256 r = h ∧ sr_compressed r = c;
  ap_file : by_stands → files (fs s) !! file_path root sid = Some raw;
  ap_tomb : by_stands → files (fs s) !! tomb root sid = None;
  ap_ids : ∀ x, is_Some (source (db s) !! x) → dotless x;
  ap_own : ∀ j r, link (db s) !! j = Some r → lr_name r = name → own (lr_source_id r);
  ap_rows : ∀ x r, source (db s) !! x = Some r → own x → hs (sr_hash256 r);
  ap_drawn : d0 ≤ d
}.

Abbreviation spares := (yields (λ _, True) Apart Apart).

Lemma name_other : by_stands → name ≠ other.
Proof. intros B E. by apply (Hother B). Qed.
Lemma sid_shape : by_stands → dotless sid ∧ sliceable sid.
Proof. intros B. by eapply source_id_shape, Hsid. Qed.

(** *** Statements *)

Lemma execute_spares ctx f :
  (∀ d s x, Apart d s → f (db s) = Some x → Apart d (mkStore x (fs s))) → spares anything (execute ctx f).
Proof.
  intros Hf. apply yields_external; [done|done|]. intros d s HA.
  destruct (f (db s)) as [x|] eqn:E; [|done]. split; [by apply Hf|done].
Qed.
Lemma query_spares {A} (R : A → Prop) ctx (f : Db → A) :
  (∀ d s, Apart d s → R (f (db s))) → spares R (query ctx f).
Proof. intros HR. apply yields_external; [done|done|]. intros d s HA. split; [done|]. by eapply HR. Qed.

(** What a row says that a query has returned. *)
Definition recorded (src : Source) : Prop := dotless (s_id src) ∧
  (own (s_id src) → hs (s_hash256 src)) ∧ (by_stands → s_id src = sid → s_hash256 src = h ∧ s_compressed src = c).
Lemma apart_recorded d s x r : Apart d s → source (db s) !! x = Some r → recorded (source_of_row x r).
Proof.
  intros HA Hr. split_and!; simpl; [by apply (ap_ids _ _ HA); eauto|by apply (ap_rows _ _ HA)|].
  intros B ->. destruct (ap_row _ _ HA B) as (r' & Hr' & Eh & Ec). by simplify_eq.
Qed.

Lemma insert_source_spares x h' cmp z n : dotless x → (own x → hs h') → spares anything (insert_source_with_count x h' cmp z n).
Proof.
  intros Hx Hh. apply yields_now. intros t. apply execute_spares. intros d s y HA. case_bool_decide as Hn; [done|].
  intros [= <-]. assert (by_stands → x ≠ sid) by (intros B ->; apply Hn; destruct (ap_row _ _ HA B) as (r & Hr & _); eauto).
  destruct HA; split; simpl; try done.
  - intros B. rewrite lookup_insert_ne; auto.
  - intros x' [<-|[_ Hx']]%lookup_insert_is_Some; auto.
  - intros x' r [[<- <-]|[_ Hr]]%lookup_insert_Some; [done|eauto].
Qed.
Lemma insert_new_spares x h' cmp z : dotless x → (own x → hs h') → spares anything (insert_source x h' cmp z).
Proof. apply insert_source_spares. Qed.
Lemma update_source_spares x h' cmp z n : (own x → hs h') → (by_stands → x = sid → h' = h ∧ cmp = c) →
  spares anything (update_source x h' cmp z n).
Proof.
  intros Hh Hx. apply yields_now. intros t. apply execute_spares. intros d s y HA [= <-].
  destruct HA as [Hl Ho Hrow Hf Ht Hid Hn Hrs Hd]; split; simpl; try done.
  - intros B. destruct (Hrow B) as (r & Hr & Eh & Ec). destruct (decide (x = sid)) as [->|Hne]; [rewrite lookup_alter_eq, Hr|rewrite lookup_alter_ne by done; eauto].
    destruct (Hx B eq_refl) as [-> ->]. simpl. by eexists.
  - intros x' Hx'. apply Hid. by rewrite lookup_alter_is_Some in Hx'.
  - intros x' r'. destruct (decide (x = x')) as [<-|Hne]; [rewrite lookup_alter_eq|rewrite lookup_alter_ne by done; eauto].
    intros (r0 & _ & ->)%fmap_Some. exact Hh.
Qed.
(** The foreign key guards the source of the other name. *)
Lemma delete_source_spares x : spares anything (delete_source_by_id x).
Proof.
  apply execute_spares. intros d s y HA. unfold referenced. case_bool_decide as Hr; [done|]. intros [= <-].
  assert (by_stands → x ≠ sid).
  { intros B ->. destruct (ap_link _ _ HA B) as (r & Hl & _ & Es).
    assert (Hin : filter (λ kv, lr_source_id kv.2 = sid) (link (db s)) !! i = Some r)
      by by apply map_lookup_filter_Some.
    by rewrite Hr, lookup_empty in Hin. }
  destruct HA; split; simpl; try done.
  - intros B. rewrite lookup_delete_ne; auto.
  - intros x' [_ Hx']%lookup_delete_is_Some. auto.
  - intros x' r' [_ Hr']%lookup_delete_Some. eauto.
Qed.
Lemma insert_link_spares j n e x md : (by_stands → n ≠ other) → (n = name → own x) → spares anything (insert_link_with_id j n e x md).
Proof.
  intros Hn Hx. apply execute_spares. intros d s y HA. case_bool_decide as Hj; [done|]. case_bool_decide; [done|].
  intros [= <-]. assert (by_stands → j ≠ i).
  { intros B ->. destruct (ap_link _ _ HA B) as (r & Hl & _). apply Hj; eauto. }
  destruct HA; split; simpl; try done.
  - intros B. rewrite lookup_insert_ne; auto.
  - intros B j' r' [[<- <-]|[_ Hr']]%lookup_insert_Some; [by intros ?%Hn|eauto].
  - intros j' r' [[<- <-]|[_ Hr']]%lookup_insert_Some; [done|eauto].
Qed.
Lemma update_link_spares j x : (by_stands → j ≠ i) → own x → spares anything (update_link_source_id j x).
Proof.
  intros Hj Hx. apply execute_spares. intros d s y HA. destruct (link (db s) !! j) as [r0|] eqn:E0.
  2: { intros [= <-]. by destruct s. }
  case_bool_decide; [done|]. intros [= <-]. destruct HA; split; simpl; try done.
  - intros B. rewrite lookup_insert_ne; auto.
  - intros B j' r' [[<- <-]|[_ Hr']]%lookup_insert_Some; [by eauto|eauto].
  - intros j' r' [[<- <-]|[_ Hr']]%lookup_insert_Some; [done|eauto].
Qed.
Lemma delete_link_spares j : (by_stands → j ≠ i) → spares anything (delete_link_by_id j).
Proof.
  intros Hj. apply execute_spares. intros d s y HA [= <-]. destruct HA; split; simpl; try done.
  - intros B. rewrite lookup_delete_ne; auto.
  - intros B j' r' [_ Hr']%lookup_delete_Some. eauto.
  - intros j' r' [_ Hr']%lookup_delete_Some. eauto.
Qed.

(** *** Files *)

Definition clear (p : path) : Prop := by_stands → p ≠ file_path root sid ∧ p ≠ tomb root sid.
(** Another source, whose files are elsewhere. *)
Definition foreign (x : string) : Prop := dotless x ∧ (by_stands → x ≠ sid).

Lemma clear_file p : clear p → by_stands → p ≠ file_path root sid.
Proof. intros Hp B. by destruct (Hp B). Qed.
Lemma foreign_file x : foreign x → clear (file_path root x).
Proof.
  intros [Hd Hx] B. split; [by intros ?%file_path_inj; apply (Hx B)|]. intros E. symmetry in E. by apply tomb_file in E.
Qed.
Lemma foreign_tomb x : foreign x → clear (tomb root x).
Proof.
  intros [Hd Hx] B. destruct (sid_shape B) as [Hs _]. split; [by apply tomb_file|]. by intros ?%tomb_inj; [apply (Hx B)|..].
Qed.
Lemma junk_clear x u : dotless x → clear (junk root x u).
Proof. intros Hd B. destruct (sid_shape B) as [Hs _]. split; [by apply junk_file|by apply junk_tomb]. Qed.

Lemma apart_files d s f : Apart d s →
  (by_stands → f (files (fs s)) !! file_path root sid = Some raw ∧ f (files (fs s)) !! tomb root sid = None) → Apart d (set_files f s).
Proof. intros [] Hf. split; try done; intros B; by apply Hf. Qed.
Lemma apart_insert d s p b : Apart d s → clear p → Apart d (set_files <[p := b]> s).
Proof.
  intros HA Hp. apply apart_files; [done|]. intros B. destruct (Hp B) as [Hf Ht].
  rewrite !lookup_insert_ne by done. split; by apply HA.
Qed.
Lemma apart_delete d s p : Apart d s → (by_stands → p ≠ file_path root sid) → Apart d (set_files (delete p) s).
Proof.
  intros HA Hf. apply apart_files; [done|]. intros B. rewrite lookup_delete_ne by auto. split; [by apply HA|].
  apply lookup_delete_None. right. by apply HA.
Qed.

Lemma mkdir_spares p : spares anything (fs_create_dir_all p).
Proof. apply yields_external; [done|done|]. intros d s []. by split. Qed.
Lemma read_spares p : spares anything (fs_read p).
Proof. apply yields_external; [done|done|]. intros d s HA. by case_match. Qed.
Lemma create_spares p : clear p → spares anything (file_create p).
Proof.
  intros Hp. apply yields_external; [done|done|]. intros d s HA.
  case_bool_decide; (split; [|done]); [by apply apart_insert|done].
Qed.
Lemma write_spares p b : clear p → spares anything (file_write_all p b).
Proof. intros Hp. apply yields_external; [done|..]; intros; [|split; [|done]]; by apply apart_insert. Qed.
Lemma sync_spares p : spares anything (file_sync_all p).
Proof. by apply yields_external. Qed.
Lemma remove_spares p : (by_stands → p ≠ file_path root sid) → spares anything (fs_remove_file p).
Proof.
  intros Hp. apply yields_external; [done|done|]. intros d s HA. case_match; (split; [|done]); [|done].
  by apply apart_delete.
Qed.
Lemma rename_spares p q : clear p → clear q → spares anything (fs_rename p q).
Proof.
  intros Hp Hq. apply yields_external; [done|done|]. intros d s HA. case_match; (split; [|done]); [|done].
  apply apart_files; [done|]. intros B. destruct (Hp B), (Hq B). rewrite !lookup_insert_ne, !lookup_delete_ne by done.
  split; by apply HA.
Qed.

(** *** Identifiers *)

Lemma uuid_spares : spares (λ j, by_stands → j ≠ i) new_uuid.
Proof.
  intros w HA. unfold new_uuid, draw, mbind, IO_mbind, bind. simpl. split.
  - destruct HA; split; eauto with lia.
  - intros B. destruct (Hi B) as (k & Hk & ->). pose proof (ap_drawn _ _ HA). intros ?%uuid_unique. lia.
Qed.
Lemma gen_spares : spares (λ x, foreign x ∧ own x) file_name_gen.
Proof.
  apply yields_now. intros t w HA. unfold draw, mbind, IO_mbind, bind. simpl. pose proof (ap_drawn _ _ HA). split.
  - destruct HA; split; eauto with lia.
  - split; [split; [apply gen_dotless|]|by apply Hown]. intros B. destruct (Hsid B) as (tm & k & Hk & ->). intros ?%gen_unique. lia.
Qed.
Lemma source_dir_spares x : spares (λ p, p = dir_path root x) (source_dir root x).
Proof. intros w HA. unfold source_dir. by case_match. Qed.
Lemma source_path_spares x : spares (λ p, p = file_path root x) (source_path root x).
Proof. eapply yields_bind; [apply source_dir_spares|]. intros p ->. by apply yields_ret. Qed.

(** ** The steps of an operation *)

Local Ltac step := eapply yields_bind; [|intros ? _].
Local Hint Resolve remove_spares rename_spares insert_source_spares insert_new_spares delete_source_spares update_link_spares
  insert_link_spares delete_link_spares update_source_spares yields_attempt clear_file name_other : spares.
(** A step whose failure undoes the steps before it. *)
Local Ltac undo := repeat (step; [solve [eapply yields_ignore; eauto with spares]|]); apply yields_fail.
Local Ltac try_step := eapply yields_bind; [solve [eauto with spares]|intros [e'|[]] _; [undo|try by apply yields_ret]].

Lemma persist_spares x b : foreign x → spares anything (persist_source_bytes root x b).
Proof.
  intros Hx. eapply yields_bind; [apply source_dir_spares|]. intros p ->. step; [apply mkdir_spares|]. cbn zeta.
  eapply yields_bind; [apply uuid_spares|]. intros u _.
  pose proof (junk_clear x u (proj1 Hx)) as Hj. unfold junk in Hj. pose proof (foreign_file x Hx) as Hf.
  step; [by apply create_spares|]. step; [by apply write_spares|]. step; [by apply sync_spares|].
  try_step.
Qed.
Lemma remove_file_spares x : foreign x → spares anything (remove_source_file_if_exists root x).
Proof.
  intros Hx. eapply yields_bind; [apply source_path_spares|]. intros p ->.
  eapply yields_bind; [eapply yields_attempt, remove_spares, (foreign_file x Hx)|].
  intros [[[] z|z]|[]] _; by (apply yields_ret || apply yields_fail).
Qed.

Local Hint Resolve persist_spares remove_file_spares : spares.

Lemma release_spares l src n : recorded src → (n = 0%N → foreign (l_source_id l)) → spares anything (release_source root l src n).
Proof.
  intros (Hd & Hh & Hs) Hn. unfold release_source. destruct (0 <? n)%N eqn:En.
  { apply yields_map_err. by apply update_source_spares. }
  assert (Hf : foreign (l_source_id l)) by (apply Hn; apply N.ltb_ge in En; lia).
  pose proof (foreign_file _ Hf) as Hcf. pose proof (foreign_tomb _ Hf) as Hct. unfold tomb in Hct.
  eapply yields_bind; [apply source_path_spares|]. intros p ->.
  eapply yields_bind; [apply source_dir_spares|]. intros p ->. cbn zeta.
  step; [by apply rename_spares|]. try_step. try_step.
Qed.

Local Hint Resolve release_spares : spares.

Lemma replace_with_spares new l src cmp h' z b : foreign new → own new → hs h' →
  (by_stands → l_id l ≠ i) → recorded src → own (s_id src) → ((s_count src - 1 = 0)%N → foreign (l_source_id l)) →
  spares anything (replace_with root new l src cmp h' z b).
Proof.
  intros Hf Ho Hh Hl Hsrc Hos Hn. pose proof Hf as [Hd Hne]. unfold replace_with. step; [by apply persist_spares|]. try_step. try_step.
  eapply yields_bind; [apply (yields_of_option (λ n, n = (s_count src - 1)%N))|].
  { intros n. unfold checked_sub. by case_match; intros [= <-]. }
  intros n ->. try_step.
Qed.
Lemma replace_spares l src cmp h' z b : hs h' → (by_stands → l_id l ≠ i) → recorded src → own (s_id src) →
  ((s_count src - 1 = 0)%N → foreign (l_source_id l)) → spares anything (replace_source root l src cmp h' z b).
Proof.
  intros Hh Hl Hsrc Ho Hn. eapply yields_bind; [apply gen_spares|]. intros new [Hf Hnew]. by apply replace_with_spares.
Qed.
Lemma overwrite_spares l src cmp h' z b : hs h' → foreign (l_source_id l) → spares anything (overwrite_source root l src cmp h' z b).
Proof.
  intros Hh Hf. assert (Hne : by_stands → l_source_id l = sid → h' = h ∧ cmp = c) by (intros B E; by destruct Hf as [_ []]).
  eapply yields_bind; [apply source_path_spares|]. intros p ->.
  eapply yields_bind; [apply read_spares|]. intros old _. step; [by apply persist_spares|]. try_step.
Qed.
Lemma share_spares e src : recorded src → own (s_id src) → spares anything (share_source name e src).
Proof.
  intros (Hd & Hh & Hs) Ho. eapply yields_bind; [apply uuid_spares|]. intros j Hj.
  step; [apply yields_map_err; eauto with spares|]. try_step.
Qed.
Lemma create_source_spares e cmp h' z b : hs h' → spares anything (create_source root name e cmp h' z b).
Proof.
  intros Hh. eapply yields_bind; [apply gen_spares|]. intros new [Hf Ho]. pose proof Hf as [Hd _].
  eapply yields_bind; [apply uuid_spares|]. intros j Hj. unfold create_with. step; [by apply persist_spares|]. try_step. try_step.
Qed.

(** ** Reading and starting *)

Lemma get_spares n : spares anything (get_binary_data root n).
Proof.
  unfold get_binary_data. case_match; [apply yields_fail|]. step; [by apply yields_map_err, (query_spares anything)|].
  step; [by apply (yields_of_option anything)|]. step; [by apply yields_map_err, (query_spares anything)|].
  step; [by apply (yields_of_option anything)|]. step; [apply source_path_spares|].
  step; [apply read_spares|].
  step; [case_match; [destruct (decompress_all _ _)|]; by (apply (yields_ret anything) || apply (yields_fail anything))|].
  case_match; [by apply yields_ret|apply yields_fail].
Qed.

(** A start removes no file whose name is the identifier of a row, and there is no
    tombstone it could put in its place. *)
Lemma leaf_apart d ids mid e : ((by_stands → sid ∈ ids) ∧ ∀ x, x ∈ ids → dotless x) →
  Keeps (Apart d) (reconcile_leaf ids mid e).
Proof.
  intros [Hs Hids]. pose proof sid_shape as Hd. unfold reconcile_leaf.
  assert (Hrm : ∀ p, (by_stands → p ≠ file_path root sid) → Keeps (Apart d) (ignore (fs_remove_file p))).
  { intros p Hp. apply ignore_keeps, external_keeps; [done|]. intros s HA. case_match; [|done]. by apply apart_delete. }
  apply bind_keeps; [apply entry_keeps|]. intros e'. apply bind_keeps; [apply attempt_keeps, is_dir_keeps|].
  intros [|[]]; try apply ret_keeps. cbn beta iota zeta. destruct (negb _); [apply ret_keeps|].
  destruct (contains ".tmp-" (entry_name e')) eqn:Etmp.
  { apply Hrm. intros B [_ E]%leaf_is_file. rewrite E in Etmp. pose proof (contains_after DOT "tmp-" sid "" (proj1 (Hd B))) as Hc.
    rewrite str_app_nil_r in Hc. unfold DOT in Hc. by rewrite Hc in Etmp. }
  destruct (strip_suffix _ _) as [stem|] eqn:Es.
  - apply strip_suffix_Some in Es.
    assert (Hn : by_stands → mid ++ [entry_name e'] ≠ file_path root sid).
    { intros B [_ E]%leaf_is_file. rewrite Es in E. specialize (Hd B) as [Hd _]. rewrite <- E in Hd. apply dotless_app in Hd as [_ Hd]. by vm_compute in Hd. }
    case_bool_decide as Hst; [|by apply Hrm].
    apply ignore_keeps, external_keeps; [done|]. intros s HA. destruct (files (fs s) !! _) as [b|] eqn:Eb; [|done].
    assert (by_stands → mid ++ [stem] ≠ file_path root sid).
    { intros B [Em Esid]%leaf_is_file. rewrite Em, Es, Esid in Eb. pose proof (ap_tomb _ _ HA B) as Ht. unfold tomb in Ht. congruence. }
    assert (mid ++ [stem] ≠ tomb root sid).
    { intros [_ E]%leaf_is_tomb. apply Hids in Hst. rewrite E in Hst. apply dotless_app in Hst as [_ Hst]. by vm_compute in Hst. }
    simpl. apply apart_files; [done|]. intros B. rewrite !lookup_insert_ne, lookup_delete_ne by auto. split; [by apply HA|].
    apply lookup_delete_None. right. by apply HA.
  - case_bool_decide as Hin; [apply ret_keeps|]. apply Hrm. intros B [_ E]%leaf_is_file. rewrite E in Hin. by apply Hin, Hs.
Qed.
Lemma start_apart d : Keeps (Apart d) (StoreManager_new root).
Proof.
  apply (start_keeps root _ (λ ids, (by_stands → sid ∈ ids) ∧ ∀ x, x ∈ ids → dotless x)).
  - intros s s' El Es Ef []. split; rewrite ?El, ?Es, ?Ef; done.
  - apply external_keeps; [done|]. intros s []. by split.
  - intros s HA. assert (Hin : ∀ x, x ∈@{gset string} list_to_set ((map_to_list (source (db s))).*1) ↔ is_Some (source (db s) !! x)).
    { intros x. rewrite elem_of_list_to_set, list_elem_of_fmap. split.
      - intros ([y r] & -> & Hr%elem_of_map_to_list). eauto.
      - intros [r Hr]. exists (x, r). split; [done|]. by apply elem_of_map_to_list. }
    split; [|intros x; rewrite Hin; apply HA]. rewrite Hin. intros B. destruct (ap_row _ _ HA B) as (r & Hr & _). eauto.
  - intros ids mid e. apply leaf_apart.
Qed.
Lemma restarts_apart d fss : ∀ w, Apart d (state w) → Apart d (state (restarts root fss w)).
Proof.
  induction fss as [|fs fss IH]; intros w HA; [done|]. apply IH.
  by apply (start_apart d (mkEnv (state w) fs (clock w) (draws w))).
Qed.

(** The other name still reads as it did. *)
Lemma query_calm {A} ctx (f : Db → A) w : calm (fates w) →
  ∃ w', with_dao (query ctx f) w = (Ok (f (db (state w))), w') ∧ state w' = state w ∧ calm (fates w').
Proof.
  intros Hc. unfold with_dao, map_err, query. destruct (external_calm (λ _ : ErrorKind, AnyhowError ctx) (λ _ s, s)
    (λ s, (inr (f (db s)), s)) w Hc) as (fs & Hfs & E). simpl in E. rewrite E. eexists; split; [done|]. done.
Qed.
Lemma apart_reads d w data :
  by_stands → Apart d (state w) → is_empty other = false → calm (fates w) →
  decoded (mkCore h c 0 0) raw = Some data → get_hash256_from_binary data = h →
  (get_binary_data root other w).1 = Ok data.
Proof.
  intros B HA Hn Hf Hdec Hh. unfold get_binary_data. rewrite Hn.
  destruct (ap_link _ _ HA B) as (r & Hr & Er & Es). destruct (ap_row _ _ HA B) as (src & Hsrc & Eh & Ec).
  destruct (query_calm "Failed to query links by name" (select_links (λ r, lr_name r = other)) w Hf) as (w1 & E1 & S1 & Hf1).
  change (with_dao (get_links_by_name other false)) with (with_dao (query "Failed to query links by name" (select_links (λ r, lr_name r = other)))).
  rewrite (bind_step _ _ _ _ _ E1), (select_links_one _ _ i r) by (try done; apply (ap_only _ _ HA B)). cbn [lookup list_lookup of_option].
  rewrite ret_bind. unfold get_source_by_id. destruct (query_calm "Failed to query source by id"
    (λ d, source_of_row (l_source_id (link_of_row i r)) <$> source d !! l_source_id (link_of_row i r)) w1 Hf1) as (w2 & E2 & S2 & Hf2).
  rewrite (bind_step _ _ _ _ _ E2). simpl l_source_id. rewrite S1, Es, Hsrc. cbn [fmap option_fmap option_map of_option].
  rewrite ret_bind, (bind_step _ _ _ _ _ (source_path_ok root sid w2 (proj2 (sid_shape B)))).
  destruct (external_calm os_error (λ _ s, s) (λ s, match files (fs s) !! file_path root sid with
    | Some b => (inr b, s) | None => (inl (os_error NotFound), s) end) w2 Hf2) as (fs & Hfs & E3).
  rewrite S2, S1, (ap_file _ _ HA B) in E3. simpl in E3.
  rewrite (bind_step (fs_read (file_path root sid)) _ _ _ _ E3). unfold decoded in Hdec. simpl in Hdec |- *. rewrite Ec.
  assert (Hgo : String.eqb (get_hash256_from_binary data) (sr_hash256 src) = true) by (apply String.eqb_eq; congruence).
  change (decompress_all raw (u64_of_i64 (sr_size src))) with (decompress_all raw 0).
  destruct c; [destruct (decompress_all raw 0); try done|]; injection Hdec as ->; simpl; by rewrite ret_bind, Hgo.
Qed.
End Apart.

(** ** From a store at rest *)

(** A query the whole operation starts with: nothing has happened yet. *)
Definition from {St} (s0 : St) (J : nat → St → Prop) (d : nat) (s : St) : Prop := s = s0 ∧ J d s.
Lemma look_query `{P : Platform} {A B} Z ctx (f : Db → A) s0 J (R : B → Prop) k : Z Crash →
  yields Z (from s0 J) J R (k (f (db s0))) → yields Z (from s0 J) J R (with_dao (query ctx f) ≫= k).
Proof.
  intros HZ Hk w [E HJ]. unfold with_dao, map_err, query, external, mbind, IO_mbind, bind.
  destruct (fates w) as [|[|kd n|n] fs]; rewrite E; simpl in *;
    [apply (Hk (mkEnv s0 [] (clock w) (draws w)))|apply (Hk (mkEnv s0 fs (clock w) (draws w)))|..]; try done; by rewrite E in HJ.
Qed.
Lemma yields_from {St A} Z (s0 : St) J (R : A → Prop) m : yields Z J J R m → yields Z (from s0 J) J R m.
Proof. intros Hm. by apply yields_pre; [|intros d s []]. Qed.

Section Whole.
Context `{P : Platform} `{PL : !PlatformLaws P} `{C : Codec} `{CL : !CodecLaws C}.
Variable root : path.
Variable bm : BlockManager.
Variables (V : bytes → Prop) (slack : nat).
Implicit Types (w : Env Store) (s : Store) (m : gmap string bytes).

Section Operation.
Context (w : Env Store) (t : Tables) (m : gmap string bytes).
Context (HL : Live root (state w) t) (HI : Inv t (draws w) slack) (Hm : represents t m) (Hroom : has_room slack t).
Context (name : string) (by_stands : Prop) (other i sid : string) (c : SrcCore) (raw : bytes) (news : list bytes).
Context (Hother : by_stands → other ≠ name) (Hby : by_stands →
  t_links t !! i = Some (other, sid) ∧ t_sources t !! sid = Some c ∧ t_payloads t !! sid = Some raw).

(** The hashes [name] may come to have; the sources it may come to refer to. *)
Definition hs (x : string) : Prop :=
  ∃ d, (m !! name = Some d ∨ d ∈ news) ∧ x = get_hash256_from_binary d.
Definition own (x : string) : Prop := ∀ c, t_sources t !! x = Some c → hs (hash_of c).

Abbreviation apart := (Apart root name by_stands other i sid (hash_of c) (compressed_of c) raw own hs (draws w)).
Abbreviation spares_here := (yields (λ _, True) apart apart anything).
Abbreviation begins := (yields (λ _, True) (from (state w) apart) apart anything).

Lemma sid_at : by_stands → source_id_at (draws w) sid.
Proof. intros (_ & Hc & _)%Hby. by eapply inv_source_ids. Qed.
Lemma i_at : by_stands → link_id_at (draws w) i.
Proof. intros (Hl & _)%Hby. by eapply inv_link_ids. Qed.
Lemma own_new tm d : draws w ≤ d → own (fmt_compact tm +:+ nanoid8 d).
Proof.
  intros Hd c' Hc'. destruct (inv_source_ids _ _ _ HI _ _ Hc') as (tm' & k & Hk & E%gen_unique). lia.
Qed.
Lemma named_own j x : t_links t !! j = Some (name, x) → own x.
Proof.
  intros Hj c' Hc'. destruct (inv_content _ _ _ HI _ _ Hc') as (d & Hd & Hh). exists d. split; [|done].
  left. apply Hm. eauto.
Qed.

Lemma row_at x r : source (db (state w)) !! x = Some r → t_sources t !! x = Some (core_row r).
Proof. intros Hr. rewrite <- (rel_sources _ _ _ (live_rel _ _ _ HL)), lookup_fmap, Hr. done. Qed.
Lemma link_at j r : link (db (state w)) !! j = Some r → t_links t !! j = Some (lr_name r, lr_source_id r).
Proof. intros Hr. rewrite <- (rel_links _ _ _ (live_rel _ _ _ HL)), lookup_fmap, Hr. done. Qed.

Lemma rests_apart : apart (draws w) (state w).
Proof.
  pose proof HL as [HR Ht _]. split.
  - intros (Hl & _)%Hby. destruct (rel_link_Some _ _ _ _ _ HR Hl) as (r & Hr & [= En Es]). by exists r.
  - intros (Hl & _)%Hby j r' Hj%link_at En'. rewrite En' in Hj. by eapply (inv_names _ _ _ HI).
  - intros (_ & Hc & _)%Hby. destruct (rel_source_Some _ _ _ _ _ HR Hc) as (src & Hsrc & <-). by exists src.
  - intros B. pose proof (Hby B) as (_ & _ & Hraw). rewrite (rel_payloads _ _ _ HR); [done|].
    by eapply source_id_shape, sid_at.
  - intros B. apply Ht. by eapply source_id_shape, sid_at.
  - intros x [r' Hx%row_at]. by eapply source_id_shape, inv_source_ids.
  - intros j r' Hj%link_at En'. rewrite En' in Hj. by eapply named_own.
  - intros x r' Hx%row_at Ho. by apply (Ho _ Hx).
  - done.
Qed.

(** A link of the name, when its source has one reference, is not to the source of
    the other name. *)
Lemma single_foreign l x r : present t l → l_name l = name → l_source_id l = x →
  source (db (state w)) !! x = Some r → (s_count (source_of_row x r) ≤ 1)%N → foreign by_stands sid x.
Proof.
  intros Hp Hn <- Hr%row_at Hcnt. split; [by eapply source_id_shape, inv_source_ids|]. intros B E.
  destruct (Hby B) as (Hl & _). pose proof (Hother B).
  unfold present in Hp. rewrite Hn, E in Hp. rewrite E in Hr.
  assert (Hli : linked slack name t (draws w) l (l_id l) sid (source_of_row sid r) (core_row r)) by (split; done).
  destruct (linked_facts _ _ _ _ _ _ _ _ _ Hli) as (_ & _ & _ & Hcount & Hlt).
  assert (Hne : l_id l ≠ i) by (intros El; rewrite El in Hp; simplify_eq).
  assert (nrefs (delete (l_id l) (t_links t)) sid ≠ 0).
  { intros H0. apply (nrefs_zero _ _ i other) in H0. by rewrite lookup_delete_ne in H0. }
  simpl in *. unfold u64_of_i64 in Hcnt. rewrite Z.mod_small in Hcnt by lia. lia.
Qed.

(** The links of the name: none or one, which is not that of the other name. *)
Lemma own_links ls : ls = select_links (λ r, lr_name r = name) (db (state w)) →
  ls = [] ∨ ∃ l, ls = [l] ∧ present t l ∧ l_name l = name ∧ (by_stands → l_id l ≠ i) ∧ own (l_source_id l).
Proof.
  intros ->. destruct (exactly_one t (draws w) name (select_links (λ r, lr_name r = name) (db (state w))) HI)
    as [[E _]|(l & E & Hn & Hp)]; [|by left|right].
  - eapply select_links_exactly; [apply HL|]. intros r. unfold selects. by rewrite !andb_false_r, String.eqb_eq.
  - exists l. unfold present in Hp. rewrite Hn in Hp. split_and!; [done|by unfold present; rewrite Hn|done| |by eapply named_own].
    intros B El. destruct (Hby B) as (Hl & _). pose proof (Hother B). rewrite El in Hp. simplify_eq.
Qed.

Local Ltac look := apply look_query; [done|].

Lemma row_recorded x r : source (db (state w)) !! x = Some r →
  recorded by_stands sid (hash_of c) (compressed_of c) own hs (source_of_row x r).
Proof. eapply apart_recorded, rests_apart. Qed.
Local Hint Resolve Hother sid_at i_at own_new row_recorded : whole.
Local Ltac settle := eauto with whole.

(** The row of a link of the name, if there is one. *)
Lemma own_row l e (k : Source → IO Store unit) :
  (∀ r, source (db (state w)) !! l_source_id l = Some r → begins (k (source_of_row (l_source_id l) r))) →
  begins (src ← with_dao (get_source_by_id (l_source_id l)); source ← of_option e src; k source).
Proof.
  intros Hk. look. destruct (source (db (state w)) !! l_source_id l) as [r|] eqn:Er; simpl.
  - by apply Hk.
  - by apply yields_from, (yields_fail (λ _, True)).
Qed.
Lemma put_locked_begins cover cmp h' z b e : hs h' → begins (put_binary_data_locked root name cover cmp h' z b e).
Proof.
  intros Hh. unfold put_binary_data_locked. look.
  destruct (own_links _ eq_refl) as [-> |(l & -> & Hp & Hn & Hli & Ho)]; cbn [lookup list_lookup].
  - look. destruct (head _) as [src|] eqn:Es; apply yields_from; [|apply create_source_spares; settle].
    apply head_Some_elem_of, list_elem_of_fmap in Es as ([x r] & -> & Hin).
    apply elem_of_map_to_list, map_lookup_filter_Some in Hin as [Hr Eh]. simpl in Eh. subst h'.
    apply share_spares; settle. intros c' Hc'. simpl in Hc'. rewrite (row_at _ _ Hr) in Hc'. by injection Hc' as <-.
  - apply own_row. intros r Hr. apply yields_from. pose proof (single_foreign l _ r Hp Hn eq_refl Hr) as Hf.
    assert (Hrep : spares_here (replace_source root l (source_of_row (l_source_id l) r) cmp h' z b)).
    { apply replace_spares; settle. intros H1. apply Hf. lia. }
    destruct cover; [|by case_match; [apply yields_ret|]].
    destruct (1 <? _)%N eqn:E1; [done|]. apply overwrite_spares; settle. apply Hf. by apply N.ltb_ge in E1.
Qed.
Lemma put_begins d cover cmp : d ∈ news → begins (put_binary_data root bm name d cover cmp).
Proof.
  intros Hd. unfold put_binary_data. case_match; [apply yields_from, (yields_fail (λ _, True))|]. cbn zeta.
  assert (Hh : hs (get_hash256_from_binary d)) by (exists d; auto).
  destruct (if cmp then _ else _); cbn [spawn_blocking]; [by apply put_locked_begins|..];
    apply yields_from, (yields_fail (λ _, True)).
Qed.

Lemma delete_one_begins l : present t l → l_name l = name → (by_stands → l_id l ≠ i) → own (l_source_id l) → begins (delete_one root l).
Proof.
  intros Hp Hn Hli Ho. apply own_row. intros r Hr. apply yields_from.
  pose proof (single_foreign l _ r Hp Hn eq_refl Hr) as Hf.
  eapply yields_bind; [apply (yields_of_option (λ n, n = (s_count (source_of_row (l_source_id l) r) - 1)%N))|].
  { intros n. unfold checked_sub. by case_match; intros [= <-]. }
  intros n ->. eapply yields_bind; [apply delete_link_spares; settle|intros _ _].
  eapply yields_bind; [eapply yields_attempt, release_spares; settle|].
  { intros H1. apply Hf. lia. }
  intros [e|[]] _; [|by apply yields_ret]. cbn zeta.
  eapply yields_bind; [eapply yields_ignore, insert_link_spares; settle|intros _ _; apply yields_fail].
  rewrite Hn. intros B E. by apply (Hother B).
Qed.
Lemma delete_begins : begins (delete_ root name false).
Proof.
  unfold delete_. case_match; [apply yields_from, (yields_fail (λ _, True))|]. unfold list_locked. rewrite !andb_false_r.
  look. destruct (own_links _ eq_refl) as [-> |(l & -> & Hp & Hn & Hli & Ho)]; cbn [for_each].
  - by apply yields_from, yields_ret.
  - eapply yields_bind; [by apply delete_one_begins|]. intros _ _. by apply yields_ret.
Qed.

Lemma run_op_begins op : op_name op = name → op_data op ⊆ news → yields (λ _, True) (from (state w) apart) apart anything (run_op root bm op).
Proof.
  destruct op as [n d cover cmp|n|n]; simpl; intros -> Hd; (eapply yields_bind; [eapply yields_attempt|intros; by apply yields_ret]).
  - apply put_begins. set_solver.
  - apply delete_begins.
  - by apply yields_from, get_spares.
Qed.
End Operation.

(** ** Properties *)

(** C6 (safety): an operation on one name does nothing to the others.  Whichever
    of its calls fail, the calls that were to undo the others included, however
    many they are, and wherever the process dies; and however many starts follow,
    failing and dying in their turn: every other name still reads exactly what it
    did.  And if the name itself reads at all, in whatever run, what it reads has
    the hash of its old contents or of those the operation was to store. *)
Theorem others_unharmed w m op fss :
  Rests root V slack w m → (Z.of_nat (size m + slack) < 2 ^ 63 - 1)%Z →
  let w1 := restarts root fss (run_op root bm op w).2 in
  (∀ other d, other ≠ op_name op → is_empty other = false → m !! other = Some d →
     (get_binary_data root other w1).1 = Ok d) ∧
  (∀ w2 d w3, state w2 = state w1 → get_binary_data root (op_name op) w2 = (Ok d, w3) →
     ∃ d', (m !! op_name op = Some d' ∨ d' ∈ op_data op) ∧
           get_hash256_from_binary d = get_hash256_from_binary d').
Proof.
  intros (t & HL & [HI _] & Hm) Hroom w1. apply (room_links t m (draws w)) in Hroom; [|done..].
  assert (HA : ∀ B other i sid c raw, (B → other ≠ op_name op) → (B →
    t_links t !! i = Some (other, sid) ∧ t_sources t !! sid = Some c ∧ t_payloads t !! sid = Some raw) →
    Apart root (op_name op) B other i sid (hash_of c) (compressed_of c) raw
      (own t m (op_name op) (op_data op)) (hs m (op_name op) (op_data op)) (draws w) (draws (run_op root bm op w).2) (state w1)).
  { intros B other i sid c raw Hne Hby. apply restarts_apart.
    - intros HB. by eapply inv_source_ids, Hby.
    - eapply (run_op_begins w t m HL HI Hm Hroom); [done..|]. split; [done|]. by eapply rests_apart. }
  split.
  - intros other d Hne Hn (i & sid & Hi & Hd)%Hm. unfold content in Hd.
    destruct (t_sources t !! sid) as [c|] eqn:Hc; [|done]. simpl in Hd.
    destruct (t_payloads t !! sid) as [raw|] eqn:Hraw; [|done]. simpl in Hd.
    destruct (inv_content _ _ _ HI _ _ Hc) as (d0 & Hd0 & Hh). unfold content in Hd0. rewrite Hc, Hraw in Hd0. simpl in Hd0.
    eapply (apart_reads root (op_name op) True other i sid (hash_of c) (compressed_of c) raw _ _ (draws w));
      [|done|by apply HA|done| | |]; [intros _; by eapply inv_source_ids|apply restarts_calm|done|congruence].
  - intros w2 d w3 E2 (j & r & src & Hj & En & Hsrc & Eh)%get_verified. rewrite E2 in Hj, Hsrc.
    assert (HA0 := HA False "" "" "" (mkCore "" false 0 0) [] ltac:(done) ltac:(done)).
    destruct (ap_rows _ _ _ _ _ _ _ _ _ _ _ _ _ _ HA0 _ _ Hsrc) as (d' & Hd' & E).
    { by eapply (ap_own _ _ _ _ _ _ _ _ _ _ _ _ _ _ HA0). }
    exists d'. split; [done|congruence].
Qed.
End Whole.

(** ** Witness *)

(** Two names that share their contents. *)
Definition add (n : string) (w : Env Store) : Env Store :=
  (run_op demo_root demo_bm (CmdPut n demo_hello false true) w).2.
Definition demo_twins : Env Store := add "copy.txt" (add "greeting.txt" (mkEnv empty_store [] 0 0)).
Definition twins : gmap string bytes := {[ "copy.txt" := demo_hello; "greeting.txt" := demo_hello ]}%string.

Lemma add_rests n w m : is_empty n = false → fates w = [] → size m < 2 →
  (∀ z, (run_op demo_root demo_bm (CmdPut n demo_hello false true) w).1 ≠ Halt z) →
  Rests demo_root any_bytes 0 w m → Rests demo_root any_bytes 0 (add n w) (<[n := demo_hello]> m).
Proof.
  intros Hn Hf Hs Hz HR.
  assert (Hd : dies_between demo_root any_bytes 0 False False w m (<[n := demo_hello]> m)
    (run_op demo_root demo_bm (CmdPut n demo_hello false true) w)).
  { apply (run_op_dies _ _ _ _ _ _ w m (CmdPut n demo_hello false true)); try done; [by rewrite Hf|lia|..].
    - by repeat constructor.
    - apply demo_hash_all. }
  unfold add. destruct Hd as [r w' HQ _ _|w' _]; [exact HQ|by destruct (Hz Crash)].
Qed.
Lemma demo_twins_rest : Rests demo_root any_bytes 0 demo_twins twins.
Proof.
  apply add_rests; [done|done|vm_compute; lia|intros z; vm_compute; discriminate|].
  apply (add_rests "greeting.txt" _ ∅); [done|done|vm_compute; lia|intros z; vm_compute; discriminate|apply rests_empty].
Qed.

(** A put that covers one of the two, meeting two failures (Limits.v says what
    becomes of its own name), then starts that die and fail. *)
Definition demo_troubled : Env Store :=
  mkEnv (state demo_twins) (repeat Pass 9 ++ [FailWith Other 0; FailWith Other 0]) (clock demo_twins) (draws demo_twins).
Definition demo_after : Env Store := restarts demo_root [[Pass; Pass; Die 0]; [Pass; FailWith Other 0]]
  (run_op demo_root demo_bm (CmdPut "copy.txt" demo_input true true) demo_troubled).2.
Lemma rests_env root V slack w fs m : Rests root V slack w m → Rests root V slack (mkEnv (state w) fs (clock w) (draws w)) m.
Proof. done. Qed.
Lemma others_unharmed_witness :
  Rests demo_root any_bytes 0 demo_troubled twins ∧
  (get_binary_data demo_root "greeting.txt" demo_after).1 = Ok demo_hello.
Proof.
  assert (HR : Rests demo_root any_bytes 0 demo_troubled twins) by (apply rests_env; apply demo_twins_rest).
  split; [exact HR|].
  destruct (others_unharmed demo_root demo_bm any_bytes 0 demo_troubled twins (CmdPut "copy.txt" demo_input true true)
    [[Pass; Pass; Die 0]; [Pass; FailWith Other 0]] HR) as [H _].
  - reflexivity.
  - apply (H "greeting.txt" demo_hello).
    + discriminate.
    + reflexivity.
    + reflexivity.
Defined.
