(* ===== verification/Limits.v ===== *)
(** * What the store does not withstand

    Three deaths and double failures that the recovery theorems exclude, and what
    becomes of a store at rest that meets one of them, however the starts that
    follow turn out: a crash inside a put that covers a name in place
    ([cover_crash_corrupts]), a crash inside a put that gives known contents a
    second name ([share_crash_entangles]), and a put whose undoing fails as well
    ([failed_undo_locks_name]).  Where the other files bound what may go wrong,
    here the oracle is given: the run goes through its first calls and meets its
    trouble at the next ([passed]). *)
From S2P Require Import Prelude Io Runs Strs World Dao Disk Block Store Frames Layers Catalog Contract Crash Manager Dying Recovery Sessions Isolation.

(** ** Runs through a number of calls *)

(** The next [k] calls go through. *)
Definition clear (k : nat) (fs : list Fate) : Prop := calm (take k fs).
Lemma clear_S k fs : clear (S k) fs → clear 1 fs ∧ clear k (drop 1 fs).
Proof.
  unfold clear. destruct fs as [|f fs]; cbn [take drop]; [by rewrite take_nil|].
  intros [H1 H2]%Forall_cons. split; [by repeat constructor|done].
Qed.
Lemma clear_app j k fs : clear (j + k) fs → clear j fs ∧ clear k (drop j fs).
Proof.
  revert fs. induction j as [|j IH]; intros fs Hc; [by split; [constructor|]|].
  apply clear_S in Hc as [H1 [H2 H3]%IH]. rewrite drop_drop in H3. split; [|done].
  destruct fs as [|f fs]; [constructor|]. apply Forall_cons in H1 as [H1 _]. by constructor.
Qed.
Lemma clear_nil k : clear k [].
Proof. unfold clear. rewrite take_nil. constructor. Qed.

(** The run comes back, having made [k] calls. *)
Definition passed {St A} (k : nat) (w : Env St) (Q : A → St → Prop) (r : Res A * Env St) : Prop :=
  ∃ a w1, r = (Ok a, w1) ∧ Q a (state w1) ∧ fates w1 = drop k (fates w) ∧ draws w ≤ draws w1.

Section Passing.
Context {St : Type}.
Implicit Types (w : Env St).

Lemma passed_bind {A B} (m : IO St A) (f : A → IO St B) k w Q (P : Res B * Env St → Prop) :
  passed k w Q (m w) →
  (∀ a w1, Q a (state w1) → fates w1 = drop k (fates w) → draws w ≤ draws w1 → P (f a w1)) →
  P ((m ≫= f) w).
Proof. intros (a & w1 & E & HQ & Hf & Hd) HP. unfold mbind, IO_mbind, bind. rewrite E. by apply HP. Qed.
Lemma passed_attempt {A B} (m : IO St A) (f : Error + A → IO St B) k w Q (P : Res B * Env St → Prop) :
  passed k w Q (m w) →
  (∀ a w1, Q a (state w1) → fates w1 = drop k (fates w) → draws w ≤ draws w1 → P (f (inr a) w1)) →
  P ((attempt m ≫= f) w).
Proof.
  intros (a & w1 & E & HQ & Hf & Hd) HP. unfold attempt, mbind, IO_mbind, bind. rewrite E. by apply HP.
Qed.

Lemma external_passed {A} err partial (f : St → (Error + A) * St) w a s' :
  clear 1 (fates w) → f (state w) = (inr a, s') →
  passed 1 w (λ a' s, a' = a ∧ s = s') (external err partial f w).
Proof.
  intros Hc Hf. unfold external, passed. destruct w as [st [|f0 fs] ck dr]; simpl in *; rewrite ?Hf; [by eauto 10|].
  apply Forall_cons in Hc as [-> _]. by eauto 10.
Qed.
(** The call comes back with an error of its own. *)
Lemma external_refused {A} err partial (f : St → (Error + A) * St) w e s' :
  clear 1 (fates w) → f (state w) = (inl e, s') →
  ∃ w1, external err partial f w = (Err e, w1) ∧ state w1 = s' ∧ fates w1 = drop 1 (fates w) ∧ draws w1 = draws w.
Proof.
  intros Hc Hf. unfold external. destruct w as [st [|f0 fs] ck dr]; simpl in *; rewrite ?Hf; [by eauto 10|].
  apply Forall_cons in Hc as [-> _]. by eauto 10.
Qed.

(** One external call and nothing else: what its fate does to it. *)
Class Single {A} (m : IO St A) : Prop := single : ∀ w,
  let '(r, w1) := m (hush w) in
  match fates w with
  | [] => m w = (r, mkEnv (state w1) [] (clock w) (draws w))
  | Pass :: fs => m w = (r, mkEnv (state w1) fs (clock w) (draws w))
  | FailWith _ _ :: fs => ∃ e, m w = (Err e, mkEnv (state w) fs (clock w) (draws w))
  | Die _ :: fs => m w = (Halt Crash, mkEnv (state w) fs (clock w) (draws w))
  end.
#[export] Instance external_single {A} err (f : St → (Error + A) * St) : Single (external err (λ _ s, s) f).
Proof.
  intros w. unfold external, hush. destruct w as [st [|[|k n|n] fs] ck dr]; simpl;
    destruct (f st) as [[e|a] s']; by eauto.
Qed.
#[export] Instance map_err_single {A} g (m : IO St A) : Single m → Single (map_err g m).
Proof.
  intros Hm w. specialize (Hm w). unfold map_err. destruct (m (hush w)) as [r w1].
  destruct (fates w) as [|[|k n|n] fs]; [rewrite Hm; by destruct r..|destruct Hm as [e' ->]; destruct r; by eexists|].
  rewrite Hm. by destruct r.
Qed.
#[export] Instance now_single {A} (k : N → IO St A) : (∀ t, Single (k t)) → Single (now ≫= k).
Proof. intros Hk w. apply (Hk (clock w) w). Qed.

Lemma single_passed {A} (m : IO St A) `{!Single m} w F (Q : A → Env St → Prop) (Q' : A → St → Prop) :
  clear 1 (fates w) → ends (hush w) F Q (m (hush w)) → (∀ a w0, Q a w0 → Q' a (state w0)) →
  passed 1 w Q' (m w).
Proof.
  intros Hc He HQ. apply ends_calm in He as (a & w0 & E & H & _); [|constructor].
  pose proof (single w) as Hs. rewrite E in Hs. unfold passed.
  destruct (fates w) as [|f fs] eqn:Ef; [|apply Forall_cons in Hc as [-> _]];
    rewrite Hs; eexists _, _; (split_and!; [done|exact (HQ _ _ H)|done..]).
Qed.
Lemma single_dies {A} (m : IO St A) `{!Single m} w n fs :
  fates w = Die n :: fs → ∃ w1, m w = (Halt Crash, w1) ∧ state w1 = state w ∧ draws w1 = draws w.
Proof. intros Ef. pose proof (single w) as Hs. rewrite Ef in Hs. destruct (m (hush w)). by rewrite Hs; eauto. Qed.
Lemma single_fails {A} (m : IO St A) `{!Single m} w k n fs : fates w = FailWith k n :: fs →
  ∃ e w1, m w = (Err e, w1) ∧ state w1 = state w ∧ fates w1 = fs ∧ draws w1 = draws w.
Proof.
  intros Ef. pose proof (single w) as Hs. rewrite Ef in Hs. destruct (m (hush w)) as [r w0]. destruct Hs as [e ->]. by eauto 10.
Qed.
End Passing.

(** The statements are single calls. *)
Section Statements.
Context `{P : Platform}.
#[export] Instance query_single {A} ctx (f : Db → A) : Single (query ctx f).
Proof. apply external_single. Qed.
#[export] Instance execute_single ctx f : Single (execute ctx f).
Proof. apply external_single. Qed.
#[export] Instance with_dao_single {A} (m : IO Store A) : Single m → Single (with_dao m).
Proof. apply map_err_single. Qed.
#[export] Instance insert_source_single i h c z n : Single (insert_source_with_count i h c z n).
Proof. unfold insert_source_with_count. apply _. Qed.
#[export] Instance insert_source_one_single i h c z : Single (insert_source i h c z).
Proof. apply insert_source_single. Qed.
#[export] Instance update_source_single i h c z n : Single (update_source i h c z n).
Proof. unfold update_source. apply _. Qed.
#[export] Instance update_link_single i s : Single (update_link_source_id i s).
Proof. apply execute_single. Qed.
#[export] Instance insert_link_single i n e s z : Single (insert_link_with_id i n e s z).
Proof. apply execute_single. Qed.
#[export] Instance delete_link_single i : Single (delete_link_by_id i).
Proof. apply execute_single. Qed.
#[export] Instance links_named_single n : Single (get_links_by_name n false).
Proof. apply query_single. Qed.
#[export] Instance list_locked_single n : Single (list_locked n 0 false false).
Proof. unfold list_locked. rewrite !andb_false_r. apply _. Qed.
End Statements.

(** ** The steps of the store *)

Section Steps.
Context `{P : Platform} `{PL : !PlatformLaws P} `{C : Codec} `{CL : !CodecLaws C}.
Variable root : path.
Implicit Types (w : Env Store) (s : Store) (t : Tables) (m : gmap string bytes).

Abbreviation Live := (Live root).

Lemma statement_passed {A} (m : IO Store A) `{!Single m} w t t' F :
  Live (state w) t → clear 1 (fates w) →
  ends (hush w) F (λ _ w', Rel root (state w') t' ∧ fs (state w') = fs (state w)) (m (hush w)) →
  passed 1 w (λ _ s, Live s t') (m w).
Proof. intros HL Hc He. eapply (single_passed m); [done..|]. intros a w0 [HR E]. by eapply live_db. Qed.
Lemma look_passed {A} (m : IO Store A) `{!Single m, !Preserves (λ s, s) m} w t (Q : A → Prop) :
  Live (state w) t → clear 1 (fates w) → step_to root (hush w) t t Q (m (hush w)) →
  passed 1 w (λ a s, Q a ∧ Live s t) (m w).
Proof.
  intros HL Hc He. pose proof (preserves (f := λ s, s) (m := m) (hush w)) as Hp.
  apply (single_passed m w (λ _, True) (λ a w0, Q a ∧ state w0 = state w)); [done| |by intros a w0 [? ->]].
  destruct He as [a w0 [HQ _] Hn|e w0 _ Hn]; by constructor.
Qed.

Lemma source_dir_bind {B} (k : path → IO Store B) w id (P0 : Res B * Env Store → Prop) :
  sliceable id → P0 (k (dir_path root id) w) → P0 ((source_dir root id ≫= k) w).
Proof. intros Hl Hk. unfold mbind, IO_mbind, bind. by rewrite source_dir_ok. Qed.
Lemma source_path_bind {B} (k : path → IO Store B) w id (P0 : Res B * Env Store → Prop) :
  sliceable id → P0 (k (file_path root id) w) → P0 ((source_path root id ≫= k) w).
Proof. intros Hl Hk. unfold mbind, IO_mbind, bind. by rewrite source_path_ok. Qed.
Lemma uuid_bind {B} (k : string → IO Store B) w (P0 : Res B * Env Store → Prop) :
  (∀ w1, state w1 = state w → fates w1 = fates w → draws w1 = S (draws w) → P0 (k (uuid_v4 (draws w)) w1)) →
  P0 ((new_uuid ≫= k) w).
Proof. intros Hk. by apply (Hk (mkEnv (state w) (fates w) (clock w) (S (draws w)))). Qed.
Lemma gen_bind {B} (k : string → IO Store B) w (P0 : Res B * Env Store → Prop) :
  (∀ tm w1, state w1 = state w → fates w1 = fates w → draws w1 = S (draws w) →
     P0 (k (fmt_compact tm +:+ nanoid8 (draws w)) w1)) →
  P0 ((file_name_gen ≫= k) w).
Proof. intros Hk. by apply (Hk (clock w) (mkEnv (state w) (fates w) (clock w) (S (draws w)))). Qed.

Lemma persist_passed w t id b :
  Live (state w) t → clear 5 (fates w) → dotless id → sliceable id → printable (str_bytes id) →
  passed 5 w (λ _ s, Live s (set_t_payloads <[id := b]> t)) (persist_source_bytes root id b w).
Proof.
  intros HL Hc Hid H6 Hpr. unfold persist_source_bytes. apply source_dir_bind; [done|].
  apply clear_S in Hc as [H1 [H2 [H3 [H4 H5]%clear_S]%clear_S]%clear_S]. rewrite !drop_drop in *.
  set (home := list_to_set (prefixes (dir_path root id)) : gset path).
  eapply passed_bind; [by apply external_passed|]. intros _ w1 [_ E1] F1 D1.
  assert (HL1 : Live (state w1) t) by (rewrite E1; eapply agree_live; [apply agree_dirs, HL|done]).
  assert (Hh1 : home ⊆ dirs (fs (state w1))) by (rewrite E1; simpl; set_solver).
  apply uuid_bind. intros w2 E2 F2 D2. rewrite <- E2 in HL1, Hh1. rewrite <- F2 in F1.
  set (u := uuid_v4 (draws w1)). change (dir_path root id ++ [id +:+ ".tmp-" +:+ u]) with (junk root id u).
  assert (Hj : ∀ s b, Live s t → Live (set_files <[junk root id u := b]> s) t).
  { intros s b' HLs. eapply agree_live; [apply agree_junk|]; [done|apply HLs|done]. }
  eapply passed_bind; [eapply (external_passed (A := unit)); [by rewrite F1|]|].
  { unfold junk. rewrite parent_of_snoc, bool_decide_eq_true_2; [done|]. apply Hh1, elem_of_list_to_set, prefixes_self. }
  intros _ w3 [_ E3] F3 D3. rewrite F1, drop_drop in F3.
  eapply passed_bind; [by eapply external_passed; [rewrite F3|]|]. intros _ w4 [_ E4] F4 D4. rewrite F3, drop_drop in F4.
  eapply passed_bind; [by eapply external_passed; [rewrite F4|]|]. intros _ w5 [_ E5] F5 D5. rewrite F4, drop_drop in F5.
  assert (HL5 : Live (state w5) t) by (rewrite E5, E4, E3; auto).
  assert (Hh5 : home ⊆ dirs (fs (state w5))) by by rewrite E5, E4, E3.
  assert (Hb5 : files (fs (state w5)) !! junk root id u = Some b) by (rewrite E5, E4; simpl; apply lookup_insert_eq).
  eapply passed_attempt; [eapply (external_passed (A := unit)); [by rewrite F5|by rewrite Hb5]|].
  intros _ w6 [_ E6] F6 D6. rewrite F5, drop_drop in F6.
  eexists _, w6. split_and!; [done| |done|lia]. rewrite E6.
  change (Live (set_files <[file_path root id := b]> (set_files (delete (junk root id u)) (state w5)))
            (set_t_payloads <[id := b]> t)).
  apply live_payload; try done. eapply agree_live; [apply agree_unjunk|]; [done|apply HL5|done].
Qed.
(** *** Finding a name, reading it, covering it *)

(** A name and what it stands for in the tables. *)
Record located t (i name sid : string) (c : SrcCore) : Prop := {
  lo_names : names_unique t;
  lo_link : t_links t !! i = Some (name, sid);
  lo_source : t_sources t !! sid = Some c;
  lo_dotless : dotless sid;
  lo_long : sliceable sid;
  lo_print : printable (str_bytes sid)
}.
Lemma located_as t t' i name sid c :
  located t i name sid c → t_links t' = t_links t → t_sources t' = t_sources t → located t' i name sid c.
Proof. intros [Hu Hi Hc ? ? ?] El Es. split; unfold names_unique in *; by rewrite ?El, ?Es. Qed.
Lemma inv_located t d slack i name sid c :
  Inv t d slack → t_links t !! i = Some (name, sid) → t_sources t !! sid = Some c → located t i name sid c.
Proof.
  intros HI Hi Hc. pose proof (inv_source_ids _ _ _ HI _ _ Hc) as Hid. destruct (source_id_shape _ _ Hid).
  split; [by eapply inv_names|done..|by eapply source_id_printable].
Qed.

Section Located.
Context (t : Tables) (i name sid : string) (c : SrcCore) (HLo : located t i name sid c).
Context (Hname : is_empty name = false).

Lemma look_up {B} w (k : list Link → IO Store B) (P0 : Res B * Env Store → Prop) :
  Live (state w) t → clear 1 (fates w) →
  (∀ l w1, link_says l i name sid → Live (state w1) t → fates w1 = drop 1 (fates w) → draws w ≤ draws w1 →
     P0 (k [l] w1)) →
  P0 ((with_dao (get_links_by_name name false) ≫= k) w).
Proof.
  intros HL Hc Hk. eapply passed_bind; [eapply (look_passed (with_dao _)); [exact HL|done|]|].
  - apply (links_named_step root (hush w)); [apply HL|done|apply HLo|apply HLo].
  - intros ls w1 [(l & -> & Hl) HL1] F1 D1. by apply Hk.
Qed.
Lemma look_source {B} w (k : option Source → IO Store B) (P0 : Res B * Env Store → Prop) :
  Live (state w) t → clear 1 (fates w) →
  (∀ src w1, source_says src sid c → Live (state w1) t → fates w1 = drop 1 (fates w) → draws w ≤ draws w1 →
     P0 (k (Some src) w1)) →
  P0 ((with_dao (get_source_by_id sid) ≫= k) w).
Proof.
  intros HL Hc Hk. eapply passed_bind; [eapply (look_passed (with_dao _)); [exact HL|done|]|].
  - apply (source_by_id_step root (hush w) t sid c); [apply HL|done|apply HLo].
  - intros o w1 [(src & -> & Hs) HL1] F1 D1. by apply Hk.
Qed.

Lemma live_file s : Live s t → files (fs s) !! file_path root sid = t_payloads t !! sid.
Proof. intros [[_ _ Hp] _ _]. apply Hp, HLo. Qed.

(** A read of the name comes to its file. *)
Lemma read_front w (P0 : Res bytes * Env Store → Prop) : Live (state w) t → clear 2 (fates w) →
  (∀ src w2, source_says src sid c → Live (state w2) t → fates w2 = drop 2 (fates w) →
     P0 ((file_bytes ← fs_read (file_path root sid);
          decoded ← (if s_compressed src
                     then spawn_blocking "decompress" (decompress_all file_bytes (s_size src))
                     else ret file_bytes);
          if String.eqb (get_hash256_from_binary decoded) (s_hash256 src)
          then ret decoded
          else fail (boxed_io_error InvalidData "data integrity check failed")) w2)) →
  P0 (get_binary_data root name w).
Proof.
  intros HL [H1 H2]%clear_S Hk. unfold get_binary_data. rewrite Hname.
  apply look_up; [done..|]. intros l w1 (_ & _ & Hls) HL1 F1 _. cbn [lookup list_lookup of_option]. rewrite ret_bind, Hls.
  apply look_source; [done|by rewrite F1|]. intros src w2 Hsrc HL2 F2 _. pose proof Hsrc as (Hid & _).
  cbn [of_option]. rewrite ret_bind, Hid. apply source_path_bind; [apply HLo|].
  apply Hk; [done..|]. by rewrite F2, F1, drop_drop.
Qed.

(** The file is missing. *)
Lemma file_missing w : Live (state w) t → t_payloads t !! sid = None → clear 1 (fates w) →
  ∃ w1, fs_read (file_path root sid) w = (Err (os_error NotFound), w1) ∧ state w1 = state w ∧
    fates w1 = drop 1 (fates w) ∧ draws w1 = draws w.
Proof. intros HL Hp Hc. eapply (external_refused (A := bytes)); [done|]. by rewrite (live_file _ HL), Hp. Qed.

Lemma read_missing w : Live (state w) t → clear 3 (fates w) → t_payloads t !! sid = None →
  (get_binary_data root name w).1 = Err (os_error NotFound).
Proof.
  intros HL Hc Hp. apply (read_front w (λ r, r.1 = _)); [done|by apply (clear_app 2 1) in Hc as [? _]|].
  intros src w2 _ HL2 F2. unfold mbind, IO_mbind, bind. destruct (file_missing w2) as (w3 & -> & _); [done|done| |done].
  rewrite F2. by apply (clear_app 2 1) in Hc as [_ ?].
Qed.

(** The file is there, and its contents are or are not those of the row. *)
Lemma read_present w raw d : Live (state w) t → clear 3 (fates w) → t_payloads t !! sid = Some raw →
  decoded c raw = Some d →
  (get_binary_data root name w).1 =
    if String.eqb (get_hash256_from_binary d) (hash_of c) then Ok d
    else Err (IoError InvalidData "data integrity check failed").
Proof.
  intros HL Hc Hp Hd. apply (read_front w (λ r, r.1 = _)); [done|by apply (clear_app 2 1) in Hc as [? _]|].
  intros src w2 (_ & Hh & Hcm & _) HL2 F2.
  eapply passed_bind; [eapply (external_passed (A := bytes)); [|by rewrite (live_file _ HL2), Hp]|].
  { rewrite F2. by apply (clear_app 2 1) in Hc as [_ ?]. }
  intros _ w3 [-> _] _ _. rewrite Hcm, Hh. unfold decoded in Hd. destruct (compressed_of c).
  - change (decompress_all raw (s_size src)) with (decompress_all raw 0).
    destruct (decompress_all raw 0); simplify_eq. cbn [spawn_blocking]. rewrite ret_bind. by case_match.
  - simplify_eq. rewrite ret_bind. by case_match.
Qed.

(** A put that is to cover the name. *)
Variable bm : BlockManager.
Lemma cover_front w data cmp z (P0 : Res unit * Env Store → Prop) :
  (if (cmp : bool) then compress_all bm data else Ok data) = Ok z → Live (state w) t → clear 2 (fates w) →
  (∀ l src w2, link_says l i name sid → source_says src sid c → Live (state w2) t →
     fates w2 = drop 2 (fates w) → draws w ≤ draws w2 →
     P0 ((if (1 <? s_count src)%N then replace_source else overwrite_source) root l src cmp
           (get_hash256_from_binary data) (len data) z w2)) →
  P0 (put_binary_data root bm name data true cmp w).
Proof.
  intros Hz HL [H1 H2]%clear_S Hk. unfold put_binary_data. rewrite Hname, Hz. cbn [spawn_blocking]. rewrite ret_bind.
  unfold put_binary_data_locked. apply look_up; [done..|]. intros l w1 Hl HL1 F1 D1. pose proof Hl as (_ & _ & Hls).
  cbn [lookup list_lookup]. rewrite Hls. apply look_source; [done|by rewrite F1|]. intros src w2 Hsrc HL2 F2 D2.
  cbn [of_option]. rewrite ret_bind. specialize (Hk l src w2 Hl Hsrc HL2). rewrite F2, F1, drop_drop in Hk.
  case_match; apply Hk; [done|lia|done|lia].
Qed.

(** It gets to the row of a source of its own when the new file is in. *)
Lemma cover_in_place w data cmp z raw (P0 : Res unit * Env Store → Prop) :
  (if (cmp : bool) then compress_all bm data else Ok data) = Ok z → Live (state w) t → clear 8 (fates w) →
  count_of c = 1%Z → t_payloads t !! sid = Some raw →
  (∀ k w8, k (inr tt) = ret tt → Live (state w8) (set_t_payloads <[sid := z]> t) →
     fates w8 = drop 8 (fates w) →
     P0 ((attempt (update_source sid (get_hash256_from_binary data) cmp (len data) 1) ≫= k) w8)) →
  P0 (put_binary_data root bm name data true cmp w).
Proof.
  intros Hz HL Hc Hct Hp Hk. apply (clear_app 2 6) in Hc as [Hc2 [H3 Hc]%clear_S]. rewrite drop_drop in Hc.
  eapply cover_front; [done..|]. intros l src w2 (_ & _ & Hls) (_ & _ & _ & _ & Hn) HL2 F2 D2.
  assert (s_count src = 1%N) as En by by rewrite Hn, Hct. rewrite En. change (1 <? 1)%N with false. cbv iota.
  unfold overwrite_source. rewrite Hls, En. apply source_path_bind; [apply HLo|].
  eapply passed_bind; [eapply (external_passed (A := bytes)); [by rewrite F2|by rewrite (live_file _ HL2), Hp]|].
  intros b w3 [_ E3] F3 D3. rewrite F2, drop_drop in F3.
  eapply passed_bind; [eapply (persist_passed w3 t sid z); [by rewrite E3|by rewrite F3|apply HLo..]|].
  intros u w4 HL4 F4 D4. rewrite F3, drop_drop in F4. destruct u. by apply Hk.
Qed.
End Located.

(** *** After the trouble *)

Lemma started t fss w : Live (state w) t → dotless_ids t →
  ∃ w', StoreManager_new root (restarts root fss w) = (Ok tt, w') ∧ Live (state w') (kept t).
Proof.
  intros HL Hdl. assert (Hdk : dotless_ids (kept t)) by done.
  destruct (restarts_crashed root (kept t) fss Hdk w (live_crashed _ _ _ HL)) as (Hc & HC & _).
  destruct (start_ok root (kept t) Hdk _ Hc HC) as (w' & E & _ & HL'). eauto.
Qed.
Lemma inv_dotless t d slack : Inv t d slack → dotless_ids t.
Proof. intros HI id [c Hc]. by eapply source_id_shape, inv_source_ids. Qed.

(** One name, one reference. *)
Lemma sole_count t d m i name sid c data :
  Inv t d 0 → represents t m → t_links t !! i = Some (name, sid) → t_sources t !! sid = Some c →
  content t sid = Some data → (∀ n, n ≠ name → m !! n ≠ Some data) → count_of c = 1%Z ∧
  ∀ j n, t_links t !! j = Some (n, sid) → j = i ∧ n = name.
Proof.
  intros HI Hm Hi Hc Hd Hn.
  assert (Ho : ∀ j n, t_links t !! j = Some (n, sid) → j = i ∧ n = name).
  { intros j n Hj. assert (n = name) as ->.
    { destruct (decide (n = name)) as [|Hne]; [done|]. destruct (Hn n Hne). apply Hm. eauto. }
    split; [by eapply (inv_names _ _ _ HI)|done]. }
  split; [|done]. destruct (inv_count _ _ _ HI _ _ Hc) as [Hle Hpos].
  rewrite (nrefs_delete _ _ _ _ sid Hi), decide_True, (nrefs_unused (delete i _)) in Hle by
    (done || intros j n [Hne Hj]%lookup_delete_Some; by destruct (Ho j n Hj)). lia.
Qed.

(** The name's source is compressed, or not. *)
Definition kept_as (cmp : bool) (name : string) s : Prop := ∀ i r, link (db s) !! i = Some r → lr_name r = name →
  sr_compressed <$> source (db s) !! lr_source_id r = Some cmp.
Lemma kept_as_core s t cmp i name sid c : Rel root s t → kept_as cmp name s →
  t_links t !! i = Some (name, sid) → t_sources t !! sid = Some c → compressed_of c = cmp.
Proof.
  intros HR Hk Hi Hc. destruct (rel_link_Some _ _ _ _ _ HR Hi) as (r & Hr & [= En Es]).
  pose proof (Hk i r Hr En) as Hsr. rewrite Es in Hsr.
  destruct (rel_source_Some _ _ _ _ _ HR Hc) as (sr & Hsr' & <-). rewrite Hsr' in Hsr. by injection Hsr.
Qed.

Variable bm : BlockManager.
Lemma encodes (cmp : bool) data : (0 < chunk_size bm < 2 ^ 16)%N →
  ∃ z, (if cmp then compress_all bm data else Ok data) = Ok z.
Proof. intros Hbm. destruct cmp; [|eauto]. by apply compress_all_total. Qed.

(** C32 (error): why covering in place is excluded from crash recovery.  In any
    store at rest, take a name whose contents no other name has, and a put that
    covers it with contents of another hash, in the form (compressed or not) the
    old ones have.  The file is replaced before the row that records its hash:
    when the process dies between the two, then however many starts follow, dying
    and failing in their turn, and whatever they do, the name reads neither as
    before the put nor as after it, but fails its integrity check. *)
Theorem cover_crash_corrupts V w m name old data cmp n fs fss :
  Rests root V 0 w m → fates w = repeat Pass 8 ++ Die n :: fs →
  is_empty name = false → (0 < chunk_size bm < 2 ^ 16)%N →
  m !! name = Some old → (∀ other, other ≠ name → m !! other ≠ Some old) → kept_as cmp name (state w) →
  get_hash256_from_binary data ≠ get_hash256_from_binary old →
  let '(r, w1) := run_op root bm (CmdPut name data true cmp) w in
  r = Halt Crash ∧ ∃ w', StoreManager_new root (restarts root fss w1) = (Ok tt, w') ∧
    (get_binary_data root name (hush w')).1 = Err (IoError InvalidData "data integrity check failed").
Proof.
  intros (t & HL & [HI _] & Hm) Ef Hname Hbm (i & sid & Hi & Hold)%Hm Hsole Hk Hne.
  destruct (inv_links _ _ _ HI _ _ _ Hi) as [c Hc]. pose proof (inv_located _ _ _ _ _ _ _ HI Hi Hc) as HLo.
  destruct (sole_count _ _ _ _ _ _ _ _ HI Hm Hi Hc Hold Hsole) as [H1 _].
  pose proof (kept_as_core _ _ _ _ _ _ _ (live_rel _ _ _ HL) Hk Hi Hc) as Hcmp.
  destruct (inv_content _ _ _ HI _ _ Hc) as (d0 & Hd0 & Hh). assert (d0 = old) as -> by congruence.
  destruct (t_payloads t !! sid) as [raw|] eqn:Hraw; [|by unfold content in Hold; rewrite Hc, Hraw in Hold].
  destruct (encodes cmp data Hbm) as [z Hz]. set (t1 := set_t_payloads <[sid := z]> t).
  assert (∃ w1, run_op root bm (CmdPut name data true cmp) w = (Halt Crash, w1) ∧ Live (state w1) t1) as (w1 & -> & HL1).
  { unfold run_op, attempt, mbind at 1, IO_mbind, bind.
    pattern (put_binary_data root bm name data true cmp w).
    eapply (cover_in_place t i name sid c HLo Hname bm w data cmp z raw); try done; [by rewrite Ef; repeat constructor|].
    intros k w8 _ HL8 F8. rewrite Ef in F8.
    destruct (single_dies (update_source sid (get_hash256_from_binary data) cmp (len data) 1) w8 n fs F8) as (w9 & E9 & S9 & _).
    unfold attempt, mbind, IO_mbind, bind. rewrite E9. exists w9. by rewrite S9. }
  split; [done|]. destruct (started t1 fss w1 HL1) as (w' & E & HL'); [by apply (inv_dotless t _ _ HI)|].
  exists w'. split; [exact E|].
  rewrite (read_present (kept t1) i name sid c (located_as t (kept t1) _ _ _ _ HLo eq_refl eq_refl) Hname (hush w') z data HL' (clear_nil 3)).
  - destruct (String.eqb_spec (get_hash256_from_binary data) (hash_of c)); [congruence|done].
  - simpl. apply map_lookup_filter_Some. rewrite lookup_insert_eq. split; [done|]. by exists c.
  - replace c with (mkCore (hash_of c) cmp (size_of c) 1%Z) by (destruct c; simpl in *; congruence).
    exact (encoded_decodes bm cmp data (hash_of c) (size_of c) z Hbm Hz).
Qed.

(** Covering in place changes every name of the source. *)
Lemma overwritten_tables t m sid c' z data (named : string → Prop) `{!∀ n, Decision (named n)} (m' : gmap string bytes) :
  is_Some (t_sources t !! sid) → dotless sid ∧ sliceable sid ∧ printable (str_bytes sid) →
  decoded c' z = Some data → get_hash256_from_binary data = hash_of c' →
  (∀ n, named n ↔ ∃ j, t_links t !! j = Some (n, sid)) →
  (∀ n, m' !! n = if decide (named n) then Some data else m !! n) → Sound t → represents t m →
  let t' := set_t_sources <[sid := c']> (set_t_payloads <[sid := z]> t) in Sound t' ∧ represents t' m'.
Proof.
  intros Hs Hsh Hdec Hh Hnamed Hm' [Hu Hl Hct Hi] Hm t'.
  assert (Hd : content t' sid = Some data) by (unfold content; simpl; by rewrite !lookup_insert_eq).
  assert (Hc : ∀ x, x ≠ sid → content t' x = content t x).
  { intros x Hx. apply content_ne; simpl; by rewrite lookup_insert_ne. }
  split.
  - split; [done| | |].
    + intros j n x Hj. simpl. destruct (decide (x = sid)) as [->|Hx]; [rewrite lookup_insert_eq; eauto|].
      rewrite lookup_insert_ne by done. by eapply Hl.
    + intros x c0. simpl. intros [[<- <-]|[Hx Hc0]]%lookup_insert_Some; [by exists data|].
      rewrite Hc by done. by apply Hct.
    + intros x c0. simpl. intros [[<- _]|[_ Hc0]]%lookup_insert_Some; [done|by eapply Hi].
  - intros n d. rewrite Hm'. simpl. destruct (decide (named n)) as [Hn|Hn].
    + apply Hnamed in Hn as [j Hj]. split; [intros [= <-]; eauto|].
      intros (j' & x & Hj' & Hx). rewrite (Hu _ _ _ _ _ Hj Hj') in Hj. congruence.
    + rewrite (Hm n d). split; intros (j & x & Hj & Hx); exists j, x; (split; [done|]);
        (assert (x ≠ sid) as Hne by (intros ->; apply Hn, Hnamed; eauto)); 
        first [by rewrite (Hc x Hne)|by rewrite <- (Hc x Hne)].
Qed.

(** C33 (safety): why the exclusion of covering puts is not enough for good.  In
    any store at rest, take contents that exactly one name has, and a put of them
    under a new name.  The link is added before the reference count of the source
    is raised: when the process dies between the two, then whatever starts follow,
    everything reads as if the put had been completed; but a put that covers
    either of the two names, with whatever contents and with nothing failing,
    changes the other with it, since the count says that the source has one name. *)
Theorem share_crash_entangles V w m name other d cover cmp n fs fss :
  Rests root V 0 w m → fates w = repeat Pass 3 ++ Die n :: fs →
  is_empty name = false → is_empty other = false → (0 < chunk_size bm < 2 ^ 16)%N →
  V d → hash_injective V →
  m !! other = Some d → (∀ n', n' ≠ other → m !! n' ≠ Some d) → m !! name = None →
  let '(r, w1) := run_op root bm (CmdPut name d cover cmp) w in
  r = Halt Crash ∧ ∃ w', StoreManager_new root (restarts root fss w1) = (Ok tt, w') ∧
    reads root (hush w') (<[name := d]> m) ∧
    ∀ target data cmp', target = name ∨ target = other → ∃ w2,
      run_op root bm (CmdPut target data true cmp') (hush w') = (Ok (inr None), w2) ∧
      reads root (hush w2) (<[name := data]> (<[other := data]> m)).
Proof.
  intros (t & HL & [HI HV] & Hm) Ef Hname Hoth Hbm HVd Hinj Ho Hsole Hno. pose proof (inv_sound _ _ HI) as HS.
  pose proof Ho as (i & sid & Hi & Hd)%Hm. destruct (inv_links _ _ _ HI _ _ _ Hi) as [c Hc].
  destruct (sole_count _ _ _ _ _ _ _ _ HI Hm Hi Hc Hd Hsole) as [H1 Hrefs].
  pose proof (proj1 (unlinked_represents _ _ _ HS Hm) Hno) as Hun.
  destruct (encodes cmp d Hbm) as [z Hz].
  assert (∃ lid w1, run_op root bm (CmdPut name d cover cmp) w = (Halt Crash, w1) ∧ t_links t !! lid = None ∧
    Live (state w1) (set_t_links <[lid := (name, sid)]> t)) as (lid & w1 & -> & Hlid & HL1).
  { unfold run_op, attempt, mbind at 1, IO_mbind, bind.
    pattern (put_binary_data root bm name d cover cmp w).
    unfold put_binary_data. rewrite Hname, Hz. cbn [spawn_blocking]. rewrite ret_bind. unfold put_binary_data_locked.
    eapply passed_bind; [eapply (look_passed (with_dao _)); [exact HL|by rewrite Ef; repeat constructor|]|].
    { by apply (links_unnamed_step root (hush w) t name); [apply HL|..]. }
    intros ls w2 [-> HL2] F2 D2. rewrite Ef in F2. cbn [lookup list_lookup].
    eapply passed_bind; [eapply (look_passed (with_dao _)); [exact HL2|by rewrite F2; repeat constructor|]|].
    { by apply (source_by_hash_step root (hush w2) t); [apply HL2|]. }
    intros o w3 [Ho3 HL3] F3 D3. rewrite F2 in F3. destruct (inv_content _ _ _ HI _ _ Hc) as (d0 & Hd0 & Hh).
    assert (d0 = d) as -> by congruence.
    destruct o as [src|]; [|by destruct (Ho3 _ _ Hc)].
    destruct Ho3 as (sid' & c' & Hc' & (Hid & _) & Hh'). destruct (inv_content _ _ _ HI _ _ Hc') as (d1 & Hd1 & Hh1).
    assert (d1 = d) as -> by (apply Hinj; [by eapply HV|done|congruence]).
    assert (sid' = sid) as ->.
    { destruct (source_linked _ _ _ _ HI Hc') as (j & n' & Hj). destruct (decide (n' = other)) as [->|Hne].
      - pose proof (inv_names _ _ _ HI _ _ _ _ _ Hi Hj). congruence.
      - destruct (Hsole n' Hne). apply Hm. eauto. }
    unfold share_source. apply uuid_bind. intros w4 E4 F4 D4. rewrite <- E4 in HL3. rewrite F3 in F4.
    pose proof (fresh_link t (draws w) (draws w3) HI ltac:(lia)) as Hfree. exists (uuid_v4 (draws w3)).
    eapply passed_bind; [eapply (statement_passed (with_dao _)); [exact HL3|by rewrite F4; repeat constructor|]|].
    { rewrite Hid. apply map_err_ends, (insert_link_step root (hush w4) t); [apply HL3|done|done|eauto]. }
    intros u w5 HL5 F5 D5. rewrite F4 in F5. simpl in F5.
    destruct (single_dies (update_source (s_id src) (s_hash256 src) (s_compressed src) (s_size src)
      (as_u64 (s_count src + 1))) w5 n fs F5) as (w6 & E6 & S6 & _).
    unfold attempt, mbind, IO_mbind, bind. rewrite E6. exists w6. by rewrite S6. }
  split; [done|]. set (t1 := set_t_links <[lid := (name, sid)]> t) in *.
  destruct (linked_tables _ _ _ _ _ _ _ Hlid Hun Hc Hd HS Hm) as [HS1 Hm1]. fold t1 in HS1, Hm1.
  destruct (started t1 fss w1 HL1) as (w' & E & HL'); [by apply sound_dotless|].
  apply kept_sound in HS1. apply kept_represents in Hm1. exists w'. split; [exact E|].
  split; [by eapply live_reads; [constructor|..]|].
  intros target data cmp' Htgt. destruct (encodes cmp' data Hbm) as [z' Hz'].
  pose proof (inv_located _ _ _ _ _ _ _ HI Hi Hc) as HLo. destruct HLo as [_ _ _ Hdl H6 Hpr].
  assert (∃ j, located (kept t1) j target sid c ∧ is_empty target = false) as (j & HLo & Htn).
  { destruct Htgt as [-> | ->]; [exists lid|exists i]; (split; [|done]); split; try done.
    - apply HS1.
    - apply lookup_insert_eq.
    - apply HS1.
    - simpl. rewrite lookup_insert_ne; [done|congruence]. }
  destruct (t_payloads t !! sid) as [raw|] eqn:Hraw; [|by unfold content in Hd; rewrite Hc, Hraw in Hd].
  assert (Hrk : t_payloads (kept t1) !! sid = Some raw) by (simpl; apply map_lookup_filter_Some; split; [done|by exists c]).
  set (c' := mkCore (get_hash256_from_binary data) cmp' (i64_of_u64 (len data)) 1).
  set (t2 := set_t_sources <[sid := c']> (set_t_payloads <[sid := z']> (kept t1))).
  assert (∃ w2, run_op root bm (CmdPut target data true cmp') (hush w') = (Ok (inr None), w2) ∧ Live (state w2) t2) as (w2 & E2 & HL2).
  { unfold run_op, attempt, mbind at 1, IO_mbind, bind.
    pattern (put_binary_data root bm target data true cmp' (hush w')).
    eapply (cover_in_place (kept t1) j target sid c HLo Htn bm (hush w') data cmp' z' raw); try done; [apply clear_nil|].
    intros k w8 Hk HL8 F8. eapply passed_attempt; [eapply (statement_passed (update_source _ _ _ _ _)); [exact HL8|by rewrite F8; apply clear_nil|]|].
    { apply (update_source_step root (hush w8)); [apply HL8|done|by exists c]. }
    intros [] w9 HL9 _ _. rewrite Hk. exists w9. by split. }
  exists w2. split; [exact E2|].
  destruct (overwritten_tables (kept t1) (<[name := d]> m) sid c' z' data (λ n, n = name ∨ n = other)
    (<[name := data]> (<[other := data]> m))) as [HS2 Hm2]; try done.
  - apply (encoded_decodes bm cmp' data); done.
  - intros n'. simpl. split.
    + intros [-> | ->]; [exists lid; apply lookup_insert_eq|exists i]. rewrite lookup_insert_ne; [done|congruence].
    + intros (j' & [[_ [= <-]]|[_ Hj]]%lookup_insert_Some); [by left|right]. by apply Hrefs in Hj as [_ ->].
  - intros n'. case_decide as Hn.
    + destruct (decide (n' = name)) as [->|Hne]; [by rewrite lookup_insert_eq|]. destruct Hn as [?| ->]; [done|].
      by rewrite lookup_insert_ne, lookup_insert_eq.
    + rewrite !lookup_insert_ne; naive_solver.
  - eapply live_reads; [constructor|exact HL2|done..].
Qed.

(** *** When the undoing fails *)

Lemma ignore_bind {A B} (m0 : IO Store A) (k : unit → IO Store B) w w1 r (P0 : Res B * Env Store → Prop) :
  m0 w = (r, w1) → (∀ z, r ≠ Halt z) → P0 (k tt w1) → P0 ((ignore m0 ≫= k) w).
Proof. intros E Hr Hk. unfold ignore, attempt, mbind, IO_mbind, bind. rewrite E. destruct r; [done..|by destruct (Hr s)]. Qed.
Lemma execute_returns ctx f w : clear 1 (fates w) →
  ∃ r w1, execute ctx f w = (r, w1) ∧ ∀ z, r ≠ Halt z.
Proof.
  intros Hc. unfold execute, external. destruct (fates w) as [|f0 fs]; [|apply Forall_cons in Hc as [-> _]];
    destruct (f (db (state w))); by eexists _, _.
Qed.
Lemma rename_missing p q w : clear 1 (fates w) → files (fs (state w)) !! p = None →
  ∃ w1, fs_rename p q w = (Err (os_error NotFound), w1) ∧ state w1 = state w ∧
    fates w1 = drop 1 (fates w) ∧ draws w1 = draws w.
Proof. intros Hc Hp. eapply (external_refused (A := unit)); [done|]. by rewrite Hp. Qed.
Lemma live_unfile s t id : dotless id → Live s t →
  Live (set_files (delete (file_path root id)) s) (set_t_payloads (delete id) t).
Proof.
  intros Hid [HR Ht [Hl Hh]]. split; [by apply rel_payload_delete| |].
  - intros id' Hid'. simpl. rewrite lookup_delete_ne; [by apply Ht|]. by apply not_eq_sym, tomb_file.
  - split; [done|]. intros id' Hid' Hst. apply Hh; [done|]. unfold stored in *. simpl in Hst.
    rewrite !lookup_delete_is_Some in Hst. naive_solver.
Qed.

(** A source without its file, under one reference. *)
Section Lost.
Context (t : Tables) (i name sid : string) (c : SrcCore) (HLo : located t i name sid c) (Hname : is_empty name = false).
Context (H1 : count_of c = 1%Z) (Hlost : t_payloads t !! sid = None).

Lemma one_reference src : source_says src sid c → s_count src = 1%N.
Proof. intros (_ & _ & _ & _ & Hn). by rewrite Hn, H1. Qed.

Lemma lost_cover w data cmp : (0 < chunk_size bm < 2 ^ 16)%N → Live (state w) t → fates w = [] →
  (run_op root bm (CmdPut name data true cmp) w).1 = Ok (inl (os_error NotFound)).
Proof.
  intros Hbm HL Ef. destruct (encodes cmp data Hbm) as [z Hz]. unfold run_op, attempt, mbind at 1, IO_mbind, bind.
  pattern (put_binary_data root bm name data true cmp w).
  eapply (cover_front t i name sid c HLo Hname bm); [exact Hz|done|rewrite Ef; apply clear_nil|].
  intros l src w2 (_ & _ & Hls) Hsrc HL2 F2 _. rewrite (one_reference _ Hsrc). change (1 <? 1)%N with false. cbv iota.
  unfold overwrite_source. rewrite Hls. apply source_path_bind; [apply HLo|]. unfold mbind, IO_mbind, bind.
  by destruct (file_missing t i name sid c HLo w2 HL2 Hlost) as (w3 & -> & _); [rewrite F2, Ef; apply clear_nil|].
Qed.

Lemma lost_delete w : Live (state w) t → fates w = [] →
  (run_op root bm (CmdDelete name) w).1 = Ok (inl (os_error NotFound)).
Proof.
  intros HL Ef. unfold run_op, attempt, mbind at 1, IO_mbind, bind. pattern (delete_ root name false w).
  unfold delete_, list_locked. rewrite Hname, !andb_false_r.
  eapply (look_up t i name sid c HLo); [done|rewrite Ef; apply clear_nil|].
  intros l w1 Hl HL1 F1 _. rewrite Ef in F1. cbn [for_each]. unfold bind.
  enough (∃ w9, delete_one root l w1 = (Err (os_error NotFound), w9)) as [w9 ->] by done.
  pattern (delete_one root l w1). unfold delete_one. destruct Hl as (_ & _ & Hls). rewrite Hls.
  eapply (look_source t i name sid c HLo); [done|rewrite F1; apply clear_nil|].
  intros src w2 Hsrc HL2 F2 _. rewrite F1 in F2. cbn [of_option]. rewrite ret_bind, (one_reference _ Hsrc).
  change (checked_sub 1 1) with (Some 0%N). cbn [of_option]. rewrite ret_bind.
  eapply passed_bind; [eapply (statement_passed (delete_link_by_id _)); [exact HL2|rewrite F2; apply clear_nil|]|].
  { apply (delete_link_step root (hush w2) t); [apply HL2|done]. }
  intros u w3 HL3 F3 _. rewrite F2 in F3.
  assert (∃ w4, release_source root l src 0 w3 = (Err (os_error NotFound), w4) ∧ fates w4 = []) as (w4 & E4 & F4).
  { pattern (release_source root l src 0 w3). unfold release_source. rewrite Hls. change (0 <? 0)%N with false. cbv iota.
    apply source_path_bind; [apply HLo|]. apply source_dir_bind; [apply HLo|]. unfold mbind at 1, IO_mbind, bind at 1.
    destruct (rename_missing (file_path root sid) (dir_path root sid ++ [sid +:+ ".deleting"]) w3) as (w4 & -> & _ & F4 & _).
    - rewrite F3. apply clear_nil.
    - rewrite (rel_payloads _ _ _ (live_rel _ _ _ HL3)); [exact Hlost|apply HLo].
    - exists w4. by rewrite F4, F3. }
  unfold attempt, mbind at 1, IO_mbind, bind at 1. rewrite E4.
  destruct (execute_returns "Failed to insert link" (λ d,
    if bool_decide (is_Some (link d !! l_id l)) then None
    else if bool_decide (source d !! sid = None) then None
    else Some (set_link <[l_id l := mkLinkRow (l_name l) (ext_of (l_name l)) sid (Z.of_N (l_mode l))]> d)) w4)
    as (r & w5 & E5 & Hr); [by rewrite F4; apply clear_nil|].
  eapply ignore_bind; [exact E5|exact Hr|]. by eexists.
Qed.
End Lost.

(** Two names of one source. *)
Definition share_a_source (name other : string) s : Prop := ∃ i j r r', link (db s) !! i = Some r ∧
  link (db s) !! j = Some r' ∧ lr_name r = name ∧ lr_name r' = other ∧ lr_source_id r = lr_source_id r'.

(** The file of a new source that the name has been moved to is gone again. *)
Definition orphaned t (i name new : string) (core : SrcCore) : Tables :=
  set_t_links <[i := (name, new)]> (set_t_sources <[new := core]> t).

(** The undoing of a put that has moved its name to a new source, when the link
    cannot be moved back: the new row stays, the new file does not. *)
Lemma undo_orphans t w (lid : string) i name new core raw k n e old :
  Live (state w) (set_t_links <[i := (name, new)]> (with_source new raw core t)) →
  t_payloads t !! new = None → dotless new → sliceable new → fates w = [FailWith k n] →
  ∃ w1, (ignore (update_link_source_id lid old);; ignore (delete_source_by_id new);;
         ignore (remove_source_file_if_exists root new);; fail (A := unit) e) w = (Err e, w1) ∧
    fates w1 = [] ∧ Live (state w1) (orphaned t i name new core).
Proof.
  intros HL Hnp Hdl H6 Ef.
  destruct (single_fails (update_link_source_id lid old) w _ _ _ Ef) as (e1 & w1 & E1 & S1 & F1 & _).
  pattern ((ignore (update_link_source_id lid old);; ignore (delete_source_by_id new);;
            ignore (remove_source_file_if_exists root new);; fail (A := unit) e) w).
  eapply ignore_bind; [exact E1|done|]. rewrite <- S1 in HL.
  assert (∃ e2 w2, delete_source_by_id new w1 = (Err e2, w2) ∧ state w2 = state w1 ∧ fates w2 = []) as (e2 & w2 & E2 & S2 & F2).
  { eexists. edestruct (external_refused (A := unit) (λ _, AnyhowError "Failed to delete source") (λ _ s, s)
      (λ s : Store, match (if referenced new (db s) then None else Some (set_source (delete new) (db s))) with
          | Some d => (inr tt, mkStore d (fs s)) | None => (inl (AnyhowError "Failed to delete source"), s) end) w1)
      as (w2 & E2 & S2 & F2 & _); [rewrite F1; apply clear_nil| |exists w2; split_and!; [exact E2|done|by rewrite F2, F1]].
    assert (referenced new (db (state w1)) = true) as ->; [|done].
    unfold referenced. apply bool_decide_eq_true_2. intros E.
    destruct (rel_link_Some _ _ _ i (name, new) (live_rel _ _ _ HL)) as (r & Hr & [= _ Er]); [apply lookup_insert_eq|].
    assert (Hin : filter (λ kv, lr_source_id kv.2 = new) (link (db (state w1))) !! i = Some r) by by apply map_lookup_filter_Some.
    by rewrite E, lookup_empty in Hin. }
  eapply ignore_bind; [exact E2|done|]. rewrite <- S2 in HL.
  assert (∃ w3, remove_source_file_if_exists root new w2 = (Ok tt, w3) ∧ fates w3 = [] ∧
    Live (state w3) (orphaned t i name new core)) as (w3 & E3 & F3 & HL3).
  { pattern (remove_source_file_if_exists root new w2). apply source_path_bind; [done|].
    eapply passed_attempt; [eapply (external_passed (A := unit)); [rewrite F2; apply clear_nil|]|].
    - rewrite (rel_payloads _ _ _ (live_rel _ _ _ HL)) by done. simpl. by rewrite lookup_insert_eq.
    - intros _ w3 [_ E3] F3 _. exists w3. split_and!; [done|by rewrite F3, F2|]. rewrite E3.
      apply (live_unfile _ _ new Hdl) in HL.
      assert (set_t_payloads (delete new) (set_t_links <[i := (name, new)]> (with_source new raw core t)) =
              orphaned t i name new core) as <-; [|exact HL].
      unfold orphaned, with_source, with_file, set_t_payloads, set_t_links, set_t_sources. simpl. f_equal.
      by rewrite delete_insert_eq, delete_id. }
  eapply ignore_bind; [exact E3|done|]. by exists w3.
Qed.

(** C31 (error): undoing is not enough when it fails itself.  In any store at rest,
    take a put that covers a name whose source another name has, too; the name
    gets a source of its own.  When the statement that takes the reference from the
    old source fails, and so does the one that would move the link back, the rest
    of the undoing goes on: the new row cannot be deleted, as the link refers to
    it, but its file is removed.  The put reports its error; then, whatever starts
    follow, the name reads neither its old contents nor the new ones and can no
    longer be covered, whatever with, nor deleted.  The other names read as before. *)
Theorem failed_undo_locks_name V w m name other data cmp k1 n1 k2 n2 fss :
  Rests root V 0 w m → fates w = repeat Pass 9 ++ [FailWith k1 n1; FailWith k2 n2] →
  is_empty name = false → (0 < chunk_size bm < 2 ^ 16)%N → roomy m →
  name ≠ other → share_a_source name other (state w) →
  let '(r, w1) := run_op root bm (CmdPut name data true cmp) w in
  r = Ok (inl (IoError Other "Failed to update source")) ∧
  ∃ w', StoreManager_new root (restarts root fss w1) = (Ok tt, w') ∧
    (get_binary_data root name (hush w')).1 = Err (os_error NotFound) ∧
    (∀ d cmp', (run_op root bm (CmdPut name d true cmp') (hush w')).1 = Ok (inl (os_error NotFound))) ∧
    (run_op root bm (CmdDelete name) (hush w')).1 = Ok (inl (os_error NotFound)) ∧
    ∀ n d, n ≠ name → is_empty n = false → m !! n = Some d → (get_binary_data root n (hush w')).1 = Ok d.
Proof.
  intros (t & HL & [HI HV] & Hm) Ef Hname Hbm Hroom Hno (i & j & r & r' & Hr & Hr' & En & En' & Esid).
  apply (roomy_links t m (draws w)) in Hroom; [|done..]. pose proof HL as [[Hlinks _ _] _ _].
  assert (Hi : t_links t !! i = Some (name, lr_source_id r)) by (rewrite <- Hlinks, lookup_fmap, Hr; simpl; by rewrite <- En).
  assert (Hj : t_links t !! j = Some (other, lr_source_id r)) by (rewrite <- Hlinks, lookup_fmap, Hr', Esid; simpl; by rewrite <- En').
  set (sid := lr_source_id r) in *. destruct (inv_links _ _ _ HI _ _ _ Hi) as [c Hc].
  pose proof (inv_located _ _ _ _ _ _ _ HI Hi Hc) as HLo. destruct (encodes cmp data Hbm) as [z Hz].
  assert (Hmany : (2 ≤ count_of c < 2 ^ 63)%Z).
  { pose proof (last_ref _ _ _ _ _ _ HI Hi Hc) as Hle.
    assert (nrefs (delete i (t_links t)) sid ≠ 0).
    { intros H0. apply (nrefs_zero _ _ j other) in H0. apply H0. rewrite lookup_delete_ne; congruence. }
    pose proof (nrefs_le (t_links t) sid). destruct (inv_count _ _ _ HI _ _ Hc). unfold has_room in Hroom. lia. }
  assert (∃ new w1, run_op root bm (CmdPut name data true cmp) w =
      (Ok (inl (IoError Other "Failed to update source")), w1) ∧
    t_sources t !! new = None ∧ t_payloads t !! new = None ∧
    (dotless new ∧ sliceable new ∧ printable (str_bytes new)) ∧
    Live (state w1) (orphaned t i name new (mkCore (get_hash256_from_binary data) cmp (i64_of_u64 (len data)) 1)))
    as (new & w1 & -> & Hns & Hnp & (Hdl & H6 & Hpr) & HL1).
  { unfold run_op, attempt, mbind at 1, IO_mbind, bind.
    pattern (put_binary_data root bm name data true cmp w).
    eapply (cover_front t i name sid c HLo Hname bm); [exact Hz|exact HL|rewrite Ef; by repeat constructor|].
    intros l src w2 (Hli & _ & _) Hsrc HL2 F2 D2. rewrite Ef in F2. simpl in F2.
    assert (En2 : s_count src = Z.to_N (count_of c)).
    { destruct Hsrc as (_ & _ & _ & _ & ->). unfold u64_of_i64. by rewrite Z.mod_small by lia. }
    rewrite En2, (proj2 (N.ltb_lt 1 _)) by lia. unfold replace_source. apply gen_bind. intros tm w3 E3 F3 D3.
    rewrite <- E3 in HL2. rewrite F2 in F3. set (new := fmt_compact tm +:+ nanoid8 (draws w2)).
    apply (inv_weaken _ _ (draws w2)) in HI; [|done].
    pose proof (fresh_source _ _ tm HI : t_sources t !! new = None) as Hns.
    pose proof (fresh_payload _ _ tm HI : t_payloads t !! new = None) as Hnp.
    assert (Hid : source_id_at (S (draws w2)) new) by (exists tm, (draws w2); split; [lia|done]).
    destruct (source_id_shape _ _ Hid) as [Hdl H6]. pose proof (source_id_printable _ _ Hid) as Hpr.
    clearbody new. exists new. set (core := mkCore (get_hash256_from_binary data) cmp (i64_of_u64 (len data)) 1).
    unfold replace_with.
    eapply passed_bind; [apply (persist_passed w3 t new z); try done; by rewrite F3; repeat constructor|].
    intros u w4 HL4 F4 D4. rewrite F3 in F4.
    eapply passed_attempt; [eapply (statement_passed (insert_source new _ cmp (len data))); [exact HL4|by rewrite F4; repeat constructor|]|].
    { by apply (insert_source_step root (hush w4)); [apply HL4|..]. }
    intros u' w5 HL5 F5 D5. rewrite F4 in F5. change (i64_of_u64 1) with 1%Z in HL5. fold core in HL5.
    eapply passed_attempt; [eapply (statement_passed (update_link_source_id (l_id l) new)); [exact HL5|by rewrite F5; repeat constructor|]|].
    { rewrite Hli. apply (update_link_step root (hush w5) (with_source new z core t) i name sid new); [apply HL5|done|done|]. simpl. rewrite lookup_insert_eq. eauto. }
    intros u2 w6 HL6 F6 D6. rewrite F5 in F6. simpl in F6.
    unfold checked_sub. rewrite En2, (proj2 (N.leb_le 1 _)) by lia. cbn [of_option]. rewrite ret_bind.
    assert (∃ w7, release_source root l src (Z.to_N (count_of c) - 1) w6 =
      (Err (IoError Other "Failed to update source"), w7) ∧ state w7 = state w6 ∧ fates w7 = [FailWith k2 n2]) as (w7 & E7 & S7 & F7).
    { unfold release_source. rewrite (proj2 (N.ltb_lt 0 _)) by lia.
      unfold with_dao, map_err, update_source, now, mbind, IO_mbind, bind, execute, external. rewrite F6. eauto. }
    unfold attempt, mbind at 1, IO_mbind, bind at 1. rewrite E7. simpl. rewrite <- S7 in HL6.
    destruct (undo_orphans t w7 (l_id l) i name new core z k2 n2 (IoError Other "Failed to update source") (s_id src) HL6 Hnp Hdl H6 F7)
      as (w8 & E8 & F8 & HL8).
    unfold mbind, IO_mbind in E8 |- *. rewrite E8. exists w8. split; [done|]. by split_and!. }
  split; [done|]. set (core := mkCore (get_hash256_from_binary data) cmp (i64_of_u64 (len data)) 1) in *.
  set (t1 := orphaned t i name new core) in *.
  assert (HL1o : located t1 i name new core).
  { split; [|simpl; apply lookup_insert_eq..|done|done|done].
    intros x y n s s'. simpl. rewrite !lookup_insert_Some.
    pose proof (inv_names _ _ _ HI) as Hu. intros [[<- [= <- <-]]|[Hx Hx']] [[<- [= <-]]|[Hy Hy']]; subst; [done|..].
    - by eapply Hu.
    - by eapply Hu.
    - by eapply Hu. }
  destruct (started t1 fss w1 HL1) as (w' & E & HL').
  { intros id. simpl. rewrite lookup_insert_is_Some. intros [<-|[_ Hs]]; [done|]. by apply (inv_dotless t _ _ HI). }
  exists w'. split; [exact E|]. apply (located_as _ (kept t1)) in HL1o; [|done..].
  assert (Hlost : t_payloads (kept t1) !! new = None) by (simpl; apply map_lookup_filter_None_2; by left).
  split_and!.
  - eapply (read_missing (kept t1) i name new core HL1o Hname (hush w')); [exact HL'|apply clear_nil|exact Hlost].
  - intros d cmp'. by apply (lost_cover (kept t1) i name new core HL1o Hname).
  - by apply (lost_delete (kept t1) i name new core HL1o Hname).
  - intros n d Hne Hn (x & s & Hx & Hd)%Hm. destruct (inv_links _ _ _ HI _ _ _ Hx) as [c0 Hc0].
    pose proof (inv_located _ _ _ _ _ _ _ HI Hx Hc0) as [_ _ _ Hdl0 H60 Hpr0].
    assert (Hnew : s ≠ new) by congruence. assert (Hix : i ≠ x) by congruence.
    destruct (inv_content _ _ _ HI _ _ Hc0) as (d0 & Hd0 & Hh). assert (d0 = d) as -> by congruence.
    unfold content in Hd. rewrite Hc0 in Hd. simpl in Hd. destruct (t_payloads t !! s) as [raw|] eqn:Hraw; [|done]. simpl in Hd.
    rewrite (read_present (kept t1) x n s c0) with (raw := raw) (d := d); [by rewrite Hh, String.eqb_refl|..|done|exact HL'|apply clear_nil| |done].
    + split; simpl; [apply HL1o|by rewrite lookup_insert_ne|by rewrite lookup_insert_ne|done..].
    + simpl. apply map_lookup_filter_Some. split; [done|]. simpl. rewrite lookup_insert_ne by done. eauto.
Qed.
End Steps.

(** ** Witnesses *)

(** A store at rest, its trouble ahead. *)
Definition troubled (w : Env Store) (fs : list Fate) : Env Store := mkEnv (state w) fs (clock w) (draws w).
Definition demo_one : Env Store := add "greeting.txt" (mkEnv empty_store [] 0 0).
Lemma demo_one_rest fs : Rests demo_root any_bytes 0 (troubled demo_one fs) demo_map.
Proof.
  apply (rests_env demo_root any_bytes 0 demo_one fs demo_map).
  apply (add_rests "greeting.txt" _ ∅); [done|done|vm_compute; lia|intros z; vm_compute; discriminate|apply rests_empty].
Qed.
Lemma one_sole other : other ≠ "greeting.txt"%string → demo_map !! other ≠ Some demo_hello.
Proof. intros Hne. unfold demo_map. by rewrite lookup_singleton_ne. Qed.
Lemma demo_kept fs : kept_as true "greeting.txt" (state (troubled demo_one fs)).
Proof.
  intros i r Hr En. revert i r Hr En.
  apply (bool_decide_unpack (map_Forall (λ (_ : string) r, lr_name r = "greeting.txt"%string →
    sr_compressed <$> source (db (state demo_one)) !! lr_source_id r = Some true) (link (db (state demo_one))))).
  vm_compute. exact I.
Qed.

Definition demo_starts : list (list Fate) := [[Pass; Pass; Die 0]; [Pass; FailWith Other 0]; []].

Lemma cover_crash_corrupts_witness :
  let '(r, w1) := run_op demo_root demo_bm (CmdPut "greeting.txt" demo_input true true)
    (troubled demo_one (repeat Pass 8 ++ [Die 0])) in
  r = Halt Crash ∧ ∃ w', StoreManager_new demo_root (restarts demo_root demo_starts w1) = (Ok tt, w') ∧
    (get_binary_data demo_root "greeting.txt" (hush w')).1 = Err (IoError InvalidData "data integrity check failed").
Proof.
  apply (cover_crash_corrupts demo_root demo_bm any_bytes (troubled demo_one (repeat Pass 8 ++ [Die 0])) demo_map
    "greeting.txt" demo_hello demo_input true 0 [] demo_starts).
  - apply demo_one_rest.
  - reflexivity.
  - reflexivity.
  - split; reflexivity.
  - reflexivity.
  - intros other. apply one_sole.
  - apply demo_kept.
  - vm_compute. discriminate.
Defined.

Lemma share_crash_entangles_witness :
  let '(r, w1) := run_op demo_root demo_bm (CmdPut "copy.txt" demo_hello false true)
    (troubled demo_one (repeat Pass 3 ++ [Die 0])) in
  r = Halt Crash ∧ ∃ w', StoreManager_new demo_root (restarts demo_root demo_starts w1) = (Ok tt, w') ∧
    reads demo_root (hush w') (<["copy.txt" := demo_hello]> demo_map) ∧
    ∀ target data cmp', target = "copy.txt"%string ∨ target = "greeting.txt"%string → ∃ w2,
      run_op demo_root demo_bm (CmdPut target data true cmp') (hush w') = (Ok (inr None), w2) ∧
      reads demo_root (hush w2) (<["copy.txt" := data]> (<["greeting.txt" := data]> demo_map)).
Proof.
  apply (share_crash_entangles demo_root demo_bm any_bytes (troubled demo_one (repeat Pass 3 ++ [Die 0])) demo_map
    "copy.txt" "greeting.txt" demo_hello false true 0 [] demo_starts).
  - apply demo_one_rest.
  - reflexivity.
  - reflexivity.
  - reflexivity.
  - split; reflexivity.
  - exact I.
  - apply demo_hash_all.
  - reflexivity.
  - intros other. apply one_sole.
  - reflexivity.
Defined.

Lemma failed_undo_locks_name_witness :
  let '(r, w1) := run_op demo_root demo_bm (CmdPut "copy.txt" demo_input true true)
    (troubled demo_twins (repeat Pass 9 ++ [FailWith Other 0; FailWith Other 0])) in
  r = Ok (inl (IoError Other "Failed to update source")) ∧
  ∃ w', StoreManager_new demo_root (restarts demo_root demo_starts w1) = (Ok tt, w') ∧
    (get_binary_data demo_root "copy.txt" (hush w')).1 = Err (os_error NotFound) ∧
    (∀ d cmp', (run_op demo_root demo_bm (CmdPut "copy.txt" d true cmp') (hush w')).1 = Ok (inl (os_error NotFound))) ∧
    (run_op demo_root demo_bm (CmdDelete "copy.txt") (hush w')).1 = Ok (inl (os_error NotFound)) ∧
    ∀ n d, n ≠ "copy.txt"%string → is_empty n = false → twins !! n = Some d →
      (get_binary_data demo_root n (hush w')).1 = Ok d.
Proof.
  apply (failed_undo_locks_name demo_root demo_bm any_bytes
    (troubled demo_twins (repeat Pass 9 ++ [FailWith Other 0; FailWith Other 0])) twins
    "copy.txt" "greeting.txt" demo_input true Other 0 Other 0 demo_starts).
  - apply (rests_env demo_root any_bytes 0 demo_twins _ twins), demo_twins_rest.
  - reflexivity.
  - reflexivity.
  - split; reflexivity.
  - vm_compute. reflexivity.
  - discriminate.
  - eexists "uaaa"%string, "ua"%string, _, _. split; [vm_compute; reflexivity|].
    split; [vm_compute; reflexivity|]. split; [reflexivity|]. split; reflexivity.
Defined.
