(* ===== verification/Wellformed.v ===== *)
(** * Well-formedness of the store

    Two invariants.  [typed]: identifiers are long enough to cut paths from, and
    no link dangles; every operation keeps it and none panics on it, whatever
    fails and wherever the process dies.  [consistent]: names are unique,
    reference counts exact, every source has its file and the file the contents
    the row speaks of, and no file is without a row; sessions in which each
    operation meets at most one failure keep it. *)
From S2P Require Import Prelude Io Runs Strs World Dao Disk Block Store Frames Layers Catalog Contract Manager.

(** ** Types: preservation and progress *)

Record typed (s : Store) : Prop := {
  ty_ids : ∀ id, is_Some (source (db s) !! id) → sliceable id;
  ty_links : ∀ i r, link (db s) !! i = Some r → is_Some (source (db s) !! lr_source_id r)
}.

(** [m] keeps the types, does not panic, and returns only values in [R]. *)
Abbreviation types := (yields (λ z, z = Crash) (λ _, typed) (λ _, typed)).

Section Types.
Implicit Types (w : Env Store) (s : Store).

Lemma types_external {A} (R : A → Prop) err partial (f : Store → (Error + A) * Store) :
  (∀ n s, typed s → typed (partial n s)) →
  (∀ s, typed s → typed (f s).2 ∧ match (f s).1 with inr a => R a | inl _ => True end) →
  types R (external err partial f).
Proof. intros Hp Hf. apply yields_external; auto. Qed.

(** Work on files changes no table. *)
Lemma typed_db s s' : db s' = db s → typed s → typed s'.
Proof. intros E [H1 H2]. split; by rewrite E. Qed.
Lemma types_disk {A} err partial (f : Store → (Error + A) * Store) :
  (∀ n s, db (partial n s) = db s) → (∀ s, db (f s).2 = db s) → types anything (external err partial f).
Proof.
  intros Hp Hf. apply types_external; [intros n s; by apply typed_db|]. intros s Hs.
  split; [by apply (typed_db s)|]. by destruct (f s).1.
Qed.
End Types.

Ltac disk := apply types_disk; [done|intros s; cbn beta zeta; repeat case_match; done].
Lemma mkdir_types p : types anything (fs_create_dir_all p). Proof. disk. Qed.
Lemma read_types p : types anything (fs_read p). Proof. disk. Qed.
Lemma create_types p : types anything (file_create p). Proof. disk. Qed.
Lemma write_types p b : types anything (file_write_all p b). Proof. disk. Qed.
Lemma sync_types p : types anything (file_sync_all p). Proof. disk. Qed.
Lemma rename_types p q : types anything (fs_rename p q). Proof. disk. Qed.
Lemma remove_types p : types anything (fs_remove_file p). Proof. disk. Qed.

Section Operations.
Context `{P : Platform} `{PL : !PlatformLaws P} `{C : Codec}.
Variable root : path.
Variable bm : BlockManager.
Implicit Types (s : Store).

Abbreviation long := sliceable.

(** *** Statements *)

Lemma query_types {A} (R : A → Prop) ctx (f : Db → A) :
  (∀ s, typed s → R (f (db s))) → types R (query ctx f).
Proof. intros HR. apply types_external; [done|]. intros s Hs. split; [done|]. by apply HR. Qed.
Lemma execute_types ctx f :
  (∀ s d, typed s → f (db s) = Some d → typed (mkStore d (fs s))) → types anything (execute ctx f).
Proof.
  intros Hf. apply types_external; [done|]. intros s Hs.
  destruct (f (db s)) as [d|] eqn:E; [|done]. by split; [apply Hf|].
Qed.

Lemma links_types ctx p `{∀ r, Decision (p r)} :
  types (Forall (λ l, long (l_source_id l))) (query ctx (select_links p)).
Proof.
  apply query_types. intros s [H1 H2]. apply Forall_forall.
  intros l (i & r & Hr & _ & ->)%elem_select_links. by apply H1, (H2 i).
Qed.
Lemma source_by_id_types id : types (λ o, ∀ src, o = Some src → long (s_id src)) (get_source_by_id id).
Proof.
  apply query_types. intros s [H1 _] src (r & Hr & ->)%fmap_Some. apply H1. by exists r.
Qed.
Lemma source_by_hash_types h : types (λ o, ∀ src, o = Some src → long (s_id src)) (get_source_by_hash256 h).
Proof.
  apply query_types. intros s [H1 _] src Hsrc. apply head_Some_elem_of, list_elem_of_fmap in Hsrc as ([i r] & -> & Hin).
  apply elem_of_map_to_list, map_lookup_filter_Some in Hin as [Hr _]. apply H1. by exists r.
Qed.

Lemma insert_source_types id h c z n : long id → types anything (insert_source_with_count id h c z n).
Proof.
  intros Hid. eapply yields_bind with (R := anything); [by intros w Hw|]. intros t _. apply execute_types.
  intros s d [H1 H2]. case_bool_decide; [done|]. intros [= <-]. split; simpl.
  - intros i [<-|[_ Hi]]%lookup_insert_is_Some; auto.
  - intros i r Hr. rewrite lookup_insert_is_Some. destruct (decide (id = lr_source_id r)); [auto|].
    right. split; [done|]. by eapply H2.
Qed.
Lemma update_source_types id h c z n : types anything (update_source id h c z n).
Proof.
  eapply yields_bind with (R := anything); [by intros w Hw|]. intros t _. apply execute_types.
  intros s d [H1 H2] [= <-]. split; simpl; setoid_rewrite lookup_alter_is_Some; eauto.
Qed.
Lemma delete_source_types id : types anything (delete_source_by_id id).
Proof.
  apply execute_types. intros s d [H1 H2]. unfold referenced. case_bool_decide as Hr; [done|].
  intros [= <-]. split; simpl.
  - intros i [_ Hi]%lookup_delete_is_Some. by apply H1.
  - intros i r Hi. apply lookup_delete_is_Some. split; [|by eapply H2]. intros ->.
    assert (Hin : filter (λ kv, lr_source_id kv.2 = lr_source_id r) (link (db s)) !! i = Some r)
      by by apply map_lookup_filter_Some.
    by rewrite Hr, lookup_empty in Hin.
Qed.
Lemma insert_link_types i n e sid m : types anything (insert_link_with_id i n e sid m).
Proof.
  apply execute_types. intros s d [H1 H2]. case_bool_decide; [done|]. case_bool_decide as Hs; [done|].
  intros [= <-]. split; simpl; [done|]. intros j r [[_ <-]|[_ Hj]]%lookup_insert_Some; [|by eapply H2].
  by apply not_eq_None_Some.
Qed.
Lemma update_link_types i sid : types anything (update_link_source_id i sid).
Proof.
  apply execute_types. intros s d [H1 H2]. case_match; [|by intros [= <-]]. case_bool_decide as Hs; [done|].
  intros [= <-]. split; simpl; [done|]. intros j r [[_ <-]|[_ Hj]]%lookup_insert_Some; [|by eapply H2].
  by apply not_eq_None_Some.
Qed.
Lemma delete_link_types i : types anything (delete_link_by_id i).
Proof.
  apply execute_types. intros s d [H1 H2] [= <-]. split; simpl; [done|].
  intros j r [_ Hj]%lookup_delete_Some. by eapply H2.
Qed.

(** *** Files *)

Lemma source_dir_types id : long id → types anything (source_dir root id).
Proof. intros Hid w Hw. by rewrite source_dir_ok. Qed.
Lemma source_path_types id : long id → types anything (source_path root id).
Proof. intros Hid w Hw. by rewrite source_path_ok. Qed.
Lemma draw_types {A} (f : nat → A) (R : A → Prop) : (∀ k, R (f k)) → types R (k ← draw; ret (f k)).
Proof. intros HR w Hw. unfold draw, ret, mbind, IO_mbind, bind. simpl. by split. Qed.
Lemma uuid_types : types anything new_uuid.
Proof. by apply draw_types. Qed.
Lemma gen_types : types long file_name_gen.
Proof.
  eapply yields_bind with (R := anything); [by intros w Hw|]. intros t _. apply draw_types. apply gen_sliceable.
Qed.
Lemma spawn_types {A} what (r : Res A) : types anything (spawn_blocking what r).
Proof. destruct r; [by apply yields_ret|apply yields_fail|apply yields_fail]. Qed.

(** One step of a sequence whose value does not matter, and the undoing of steps. *)
Local Ltac step := eapply yields_bind; [|intros ? _].
Local Ltac undo := repeat (eapply yields_bind; [eapply yields_ignore; eauto with types|intros _ _]); apply yields_fail.
Local Hint Resolve remove_types rename_types insert_source_types delete_source_types update_link_types
  insert_link_types delete_link_types update_source_types : types.

Lemma persist_types id b : long id → types anything (persist_source_bytes root id b).
Proof.
  intros Hid. step; [by apply source_dir_types|]. step; [apply mkdir_types|]. cbn zeta.
  step; [apply uuid_types|]. step; [apply create_types|]. step; [apply write_types|]. step; [apply sync_types|].
  eapply yields_bind; [apply yields_attempt, rename_types|]. intros [e|[]] _; [undo|by apply yields_ret].
Qed.
Lemma remove_file_types id : long id → types anything (remove_source_file_if_exists root id).
Proof.
  intros Hid. step; [by apply source_path_types|].
  eapply yields_bind; [apply yields_attempt, remove_types|]. intros [[[] z|z]|[]] _; by (apply yields_ret || apply yields_fail).
Qed.
Local Hint Resolve persist_types remove_file_types : types.

Lemma release_types l src n : long (l_source_id l) → long (s_id src) → types anything (release_source root l src n).
Proof.
  intros Hl Hs. unfold release_source. case_match; [apply yields_map_err, update_source_types|].
  step; [by apply source_path_types|]. step; [by apply source_dir_types|]. cbn zeta.
  step; [apply rename_types|]. eapply yields_bind; [apply yields_attempt, delete_source_types|].
  intros [e|[]] _; [undo|]. eapply yields_bind; [apply yields_attempt, remove_types|].
  intros [e|[]] _; [undo|by apply yields_ret].
Qed.

Lemma replace_with_types new l src cmp h z b : long new → long (l_source_id l) → long (s_id src) →
  types anything (replace_with root new l src cmp h z b).
Proof.
  intros Hn Hl Hs. unfold replace_with. step; [by apply persist_types|].
  eapply yields_bind; [by eapply yields_attempt, insert_source_types|]. intros [e|[]] _; [undo|].
  eapply yields_bind; [apply yields_attempt, update_link_types|]. intros [e|[]] _; [undo|].
  step; [by apply (yields_of_option anything)|]. eapply yields_bind; [by apply yields_attempt, release_types|].
  intros [e|[]] _; [undo|by apply yields_ret].
Qed.
Lemma replace_types l src cmp h z b : long (l_source_id l) → long (s_id src) →
  types anything (replace_source root l src cmp h z b).
Proof. intros Hl Hs. eapply yields_bind; [apply gen_types|]. intros new Hn. by apply replace_with_types. Qed.
Lemma overwrite_types l src cmp h z b : long (l_source_id l) → types anything (overwrite_source root l src cmp h z b).
Proof.
  intros Hl. step; [by apply source_path_types|]. eapply yields_bind; [apply read_types|]. intros old _.
  step; [by apply persist_types|]. eapply yields_bind; [apply yields_attempt, update_source_types|].
  intros [e|[]] _; [undo|by apply yields_ret].
Qed.
Lemma share_types n e src : types anything (share_source n e src).
Proof.
  step; [apply uuid_types|]. step; [apply yields_map_err, insert_link_types|].
  eapply yields_bind; [apply yields_attempt, update_source_types|]. intros [e'|[]] _; [undo|by apply yields_ret].
Qed.
Lemma create_source_types n e cmp h z b : types anything (create_source root n e cmp h z b).
Proof.
  eapply yields_bind; [apply gen_types|]. intros new Hn. step; [apply uuid_types|]. unfold create_with.
  step; [by apply persist_types|]. eapply yields_bind; [by eapply yields_attempt, insert_source_types|].
  intros [e'|[]] _; [undo|]. eapply yields_bind; [apply yields_attempt, insert_link_types|].
  intros [e'|[]] _; [undo|by apply yields_ret].
Qed.

Lemma list_types p n e r : types (Forall (λ l, long (l_source_id l))) (list_locked p n e r).
Proof.
  unfold list_locked, get_n_links, get_links_by_name.
  repeat case_match; apply yields_map_err; try apply links_types.
  apply query_types. intros s [Hi Hl]. cbn beta zeta.
  assert (Hall : Forall (λ l, long (l_source_id l)) (select_links (λ _, True) (db s))).
  { apply Forall_forall. intros l (i & r' & Hr & _ & ->)%elem_select_links. by apply Hi, (Hl i). }
  by apply Forall_take.
Qed.

Lemma put_locked_types n cover cmp h z b e : types anything (put_binary_data_locked root n cover cmp h z b e).
Proof.
  unfold put_binary_data_locked. eapply yields_bind; [apply yields_map_err, links_types|]. intros ls Hls.
  destruct (ls !! 0) as [l|] eqn:El.
  - assert (Hl : long (l_source_id l)) by by eapply (proj1 (Forall_lookup _ _) Hls 0).
    eapply yields_bind; [apply yields_map_err, source_by_id_types|]. intros o Ho.
    eapply yields_bind; [apply yields_of_option, Ho|]. intros src Hs.
    destruct cover; [case_match; [by apply replace_types|by apply overwrite_types]|].
    case_match; [by apply yields_ret|by apply replace_types].
  - eapply yields_bind; [apply yields_map_err, source_by_hash_types|]. intros [src|] Ho;
      [apply share_types|apply create_source_types].
Qed.
Lemma put_types n d cover cmp : types anything (put_binary_data root bm n d cover cmp).
Proof.
  unfold put_binary_data. case_match; [apply yields_fail|]. cbn zeta. step; [apply spawn_types|]. apply put_locked_types.
Qed.
Lemma delete_types p r : types anything (delete_ root p r).
Proof.
  unfold delete_. case_match; [apply yields_fail|]. eapply yields_bind; [apply list_types|]. intros ls Hls.
  eapply yields_for_each; [exact Hls|]. intros l Hl.
  eapply yields_bind; [apply yields_map_err, source_by_id_types|]. intros o Ho.
  eapply yields_bind; [apply yields_of_option, Ho|]. intros src Hs. step; [by apply (yields_of_option anything)|].
  step; [apply delete_link_types|]. eapply yields_bind; [by apply yields_attempt, release_types|].
  intros [e|[]] _; [cbn zeta; undo|by apply yields_ret].
Qed.
Lemma get_types n : types anything (get_binary_data root n).
Proof.
  unfold get_binary_data. case_match; [apply yields_fail|].
  eapply yields_bind; [apply yields_map_err, links_types|]. intros ls Hls.
  step; [by apply (yields_of_option anything)|]. eapply yields_bind; [apply yields_map_err, source_by_id_types|]. intros o Ho.
  eapply yields_bind; [apply yields_of_option, Ho|]. intros src Hs. step; [by apply source_path_types|].
  step; [apply read_types|]. step; [case_match; [apply spawn_types|by apply yields_ret]|].
  case_match; [by apply yields_ret|apply yields_fail].
Qed.

(** *** Starting *)

Lemma insert_dir_types p q : types anything (insert_dir p q).
Proof. apply execute_types. intros s d [H1 H2]. case_bool_decide; intros [= <-]. done. Qed.
Lemma dao_new_types : types anything (with_dao Dao_new).
Proof.
  assert (He : ∀ ctx, types anything (execute ctx Some)).
  { intros ctx. apply execute_types. intros s d Hs [= <-]. by destruct s. }
  apply yields_map_err. step; [by apply (query_types anything)|]. step; [by apply (query_types anything)|].
  step; [apply He|]. step; [eapply yields_ignore, He|]. eapply yields_ignore, He.
Qed.
Lemma sync_dirs_types : types anything sync_dirs_from_links.
Proof.
  eapply yields_bind; [apply list_types|]. intros ls Hls. eapply yields_for_each; [exact Hls|]. intros l _.
  case_match; [|by apply yields_ret]. generalize EmptyString at 1 as acc. generalize EmptyString as prev.
  generalize (split_on SLASH (str_take n (l_name l))) as parts.
  induction parts as [|part parts IH]; intros acc prev; cbn [insert_ancestors]; [by apply yields_ret|]. cbn zeta.
  step; [eapply yields_ignore, insert_dir_types|]. apply IH.
Qed.
Lemma leaf_types ids mid e : types anything (reconcile_leaf ids mid e).
Proof.
  unfold reconcile_leaf. step; [disk|]. eapply yields_bind; [eapply yields_attempt; disk|].
  intros [|[]] _; try by apply yields_ret. cbn zeta.
  repeat case_match; try (by apply yields_ret); eapply yields_ignore; (apply remove_types || apply rename_types).
Qed.
Lemma read_dir_types d visit : (∀ e, types anything (visit e)) → types anything (read_dir_or_skip d visit).
Proof.
  intros Hv. eapply yields_bind; [eapply yields_attempt; disk|]. intros [|es] _; [by apply yields_ret|].
  eapply (yields_for_each anything); [by apply Forall_true|auto].
Qed.
Lemma level_types width d visit e : (∀ p, types anything (visit p)) → types anything (reconcile_level width d visit e).
Proof.
  intros Hv. step; [disk|]. eapply yields_bind; [eapply yields_attempt; disk|].
  intros [|[]] _; try by apply yields_ret. cbn zeta. case_match; [by apply yields_ret|apply Hv].
Qed.
Lemma start_types : types anything (StoreManager_new root).
Proof.
  step; [apply mkdir_types|]. step; [apply dao_new_types|].
  eapply yields_bind; [eapply (yields_attempt anything)|intros [|_] _; [apply yields_fail|]].
  - unfold reconcile_orphans. eapply yields_bind; [apply yields_map_err, (query_types anything); done|].
    intros ids _. cbn zeta. eapply yields_bind; [eapply yields_attempt; disk|].
    intros [[[] z|z]|es] _; try (by apply yields_ret || apply yields_fail).
    eapply (yields_for_each anything); [by apply Forall_true|]. intros e _. apply level_types. intros p.
    apply read_dir_types. intros e'. apply level_types. intros p'. apply read_dir_types. intros e''. apply leaf_types.
  - eapply yields_bind; [apply yields_attempt, sync_dirs_types|]. intros [|_] _; [apply yields_fail|by apply yields_ret].
Qed.
Lemma run_op_types op : types anything (run_op root bm op).
Proof.
  destruct op; (eapply yields_bind; [apply yields_attempt; (apply put_types || apply delete_types || apply get_types)|]);
    intros; by apply yields_ret.
Qed.

(** Whatever operations and starts have run before, whichever of their calls
    failed, and wherever the process died. *)
Inductive reachable : Store → Prop :=
  | reach_fresh : reachable empty_store
  | reach_op w op : reachable (state w) → reachable (state (run_op root bm op w).2)
  | reach_start w : reachable (state w) → reachable (state (StoreManager_new root w).2).

Lemma types_no_panic {A} (R : A → Prop) m w msg : types R m → typed (state w) → (m w).1 ≠ Halt (Panic msg).
Proof. intros Hm Hw E. destruct (Hm w Hw) as [_ H]. by rewrite E in H. Qed.

(** C8 (type): identifiers and references stay well-typed, and typed stores do
    not panic.  After any history of operations and starts, any number of calls
    of which failed and any number of which the process died in, every source
    identifier is long enough to cut its directory names from and every link
    refers to a row; and the next operation or start, whatever fails in it, does
    not end in a panic. *)
Theorem reachable_typed s : reachable s →
  typed s ∧ ∀ w, state w = s → ∀ op msg,
    (run_op root bm op w).1 ≠ Halt (Panic msg) ∧ (StoreManager_new root w).1 ≠ Halt (Panic msg).
Proof.
  intros Hr. assert (Ht : typed s).
  { induction Hr as [|w op _ IH|w _ IH]; [|by apply run_op_types|by apply start_types].
    split; intros i; simpl; rewrite lookup_empty; [by intros [? [=]]|done]. }
  split; [done|]. intros w <- op msg. split; [by eapply types_no_panic; [apply run_op_types|]|].
  by eapply types_no_panic; [apply start_types|].
Qed.
End Operations.

(** ** Consistency of tables and files *)

(** The file of a source holds contents with the hash the row records. *)
Definition file_matches `{Codec} (r : SourceRow) (raw : bytes) : Prop :=
  ∃ d, (if sr_compressed r then decompress_all raw 0 = Ok d else raw = d) ∧
       get_hash256_from_binary d = sr_hash256 r.

Record consistent `{Codec} (root : path) (s : Store) : Prop := {
  cs_names : ∀ i j r r', link (db s) !! i = Some r → link (db s) !! j = Some r' →
    lr_name r = lr_name r' → i = j;
  cs_links : ∀ i r, link (db s) !! i = Some r → is_Some (source (db s) !! lr_source_id r);
  cs_counts : ∀ id r, source (db s) !! id = Some r → (0 < sr_count r)%Z ∧
    sr_count r = Z.of_nat (size (filter (λ kv, lr_source_id kv.2 = id) (link (db s))));
  cs_files : ∀ id r, source (db s) !! id = Some r →
    ∃ raw, files (fs s) !! file_path root id = Some raw ∧ file_matches r raw;
  cs_orphans : ∀ id, dotless id → is_Some (files (fs s) !! file_path root id) →
    is_Some (source (db s) !! id)
}.

Section Consistent.
Context `{P : Platform} `{PL : !PlatformLaws P} `{C : Codec} `{CL : !CodecLaws C}.
Variable root : path.
Variable bm : BlockManager.
Implicit Types (w : Env Store) (m : gmap string bytes).

Lemma nrefs_rows (l : gmap string LinkRow) id :
  nrefs (link_core <$> l) id = size (filter (λ kv, lr_source_id kv.2 = id) l).
Proof. unfold nrefs. rewrite map_filter_fmap, map_size_fmap. done. Qed.

Lemma holds_consistent w m : holds root w m → consistent root (state w).
Proof.
  intros (t & [Hl Hs Hp] & HI & _).
  assert (Hlt : ∀ i r, link (db (state w)) !! i = Some r → t_links t !! i = Some (lr_name r, lr_source_id r)).
  { intros i r Hr. by rewrite <- Hl, lookup_fmap, Hr. }
  assert (Hst : ∀ id r, source (db (state w)) !! id = Some r → t_sources t !! id = Some (core_row r)).
  { intros id r Hr. by rewrite <- Hs, lookup_fmap, Hr. }
  assert (Hts : ∀ id, is_Some (t_sources t !! id) → is_Some (source (db (state w)) !! id)).
  { intros id. rewrite <- Hs, lookup_fmap. apply fmap_is_Some. }
  split.
  - intros i j r r' Hi%Hlt Hj%Hlt E. rewrite E in Hi. by eapply (inv_names _ _ _ HI).
  - intros i r Hi%Hlt. apply Hts. by eapply inv_links.
  - intros id r Hr%Hst. destruct (inv_count _ _ _ HI _ _ Hr) as [Hc Hpos]. split; [done|].
    rewrite <- nrefs_rows, Hl. simpl in *. rewrite Nat.add_0_r in Hc. lia.
  - intros id r Hr. pose proof (Hst _ _ Hr) as Hc. destruct (inv_content _ _ _ HI _ _ Hc) as (d & Hd & Hh).
    destruct (source_id_shape _ _ (inv_source_ids _ _ _ HI _ _ Hc)) as [Hdl _].
    unfold content in Hd. rewrite Hc in Hd. simpl in Hd. rewrite Hp by done.
    destruct (t_payloads t !! id) as [raw|]; [|done]. exists raw. split; [done|]. exists d. split; [|done].
    unfold decoded in Hd. simpl in *. destruct (sr_compressed r); [|congruence].
    destruct (decompress_all raw 0); congruence.
  - intros id Hid. rewrite Hp by done. intros Hf. apply Hts. by eapply inv_payloads.
Qed.

(** Operations one after the other, each at a time and with an oracle of its own. *)
Fixpoint run_session (ops : list (Cmd * (list Fate * N))) w : Env Store :=
  match ops with
  | [] => w
  | (op, (fs, time)) :: ops' => run_session ops' (run_op root bm op (mkEnv (state w) fs time (draws w))).2
  end.

Lemma holds_env w m fs time : holds root w m → holds root (mkEnv (state w) fs time (draws w)) m.
Proof. done. Qed.

Lemma serve_holds ops : ∀ w m,
  holds root w m → (0 < chunk_size bm < 2 ^ 16)%N →
  Forall (λ op, is_empty (op_name op.1) = false ∧ one_failure op.2.1) ops →
  (Z.of_nat (size m + length ops) < 2 ^ 63)%Z → hash_injective (values m ops.*1) →
  ∃ m', holds root (run_session ops w) m'.
Proof.
  induction ops as [|[op [fs time]] ops IH]; intros w m Hh Hbm Hops Hroom Hcol; [by exists m|].
  apply Forall_cons in Hops as [[Hn Hf] Hops]. rewrite length_cons in Hroom. simpl in Hn, Hf, Hcol.
  destruct (run_op_explained root bm (mkEnv (state w) fs time (draws w)) m op) as (r & w1 & m1 & Hr & Hh1 & He & _);
    try done; [unfold roomy; lia| |].
  { apply Forall_forall. intros d Hd n d0 Hd0 E. apply Hcol; [left; eauto|right; set_solver|done]. }
  cbn [run_session]. rewrite Hr. apply (IH w1 m1); try done.
  - pose proof (explained_size _ _ _ _ He). lia.
  - intros d d' Hd Hd'. apply Hcol; by eapply explained_values.
Qed.

(** C7 (invariant): tables and files stay consistent.  From a fresh store, after
    any number of puts, deletes and reads, each of which may meet one failing
    statement or file operation, and however the clock moves: names are unique,
    links refer to rows, every reference count is the number of links to the
    source, every source has its file, whose decoded contents have the recorded
    hash, and no file is left without a row. *)
Theorem sessions_consistent ops fs time :
  (0 < chunk_size bm < 2 ^ 16)%N →
  Forall (λ op, is_empty (op_name op.1) = false ∧ one_failure op.2.1) ops →
  (Z.of_nat (length ops) < 2 ^ 63)%Z → hash_injective (values ∅ ops.*1) →
  consistent root (state (run_session ops (mkEnv empty_store fs time 0))).
Proof.
  intros Hbm Hops Hroom Hcol. destruct (serve_holds ops (mkEnv empty_store fs time 0) ∅) as [m Hm]; try done.
  - exact (holds_empty root fs).
  - by eapply holds_consistent.
Qed.
End Consistent.

(** ** Witnesses *)

(** Two names for one contents, a failing put, a failing delete. *)
Definition demo_serve : list (Cmd * (list Fate * N)) :=
  [(CmdPut "a.txt" demo_hello false true, ([], 5%N)); (CmdPut "b.txt" demo_hello false true, ([], 3%N));
   (CmdPut "a.txt" demo_input true false, ([Pass; Pass; Pass; FailWith Other 1], 4%N));
   (CmdDelete "a.txt", ([Pass; FailWith Other 0], 9%N)); (CmdDelete "b.txt", ([], 9%N))].
Lemma sessions_consistent_witness :
  let s := state (run_session demo_root demo_bm demo_serve (mkEnv empty_store [] 0 0)) in
  consistent demo_root s ∧ size (link (db s)) = 1 ∧ size (source (db s)) = 1.
Proof.
  split; [|split; vm_compute; reflexivity]. apply sessions_consistent.
  - split; vm_compute; reflexivity.
  - repeat constructor.
  - vm_compute. reflexivity.
  - intros d d' _ _. rewrite !get_hash256_is_blake3. unfold blake3_hex; simpl.
    intros E. rewrite <- (str_bytes_str d), E. apply str_bytes_str.
Defined.

(** A store a put has died in. *)
Definition demo_dead : Env Store :=
  (run_op demo_root demo_bm (CmdPut "a.txt" demo_hello false true) (mkEnv empty_store (repeat Pass 7 ++ [Die 0]) 0 0)).2.
Lemma reachable_typed_witness :
  typed (state demo_dead) ∧ ∀ w, state w = state demo_dead → ∀ op msg,
    (run_op demo_root demo_bm op w).1 ≠ Halt (Panic msg) ∧ (StoreManager_new demo_root w).1 ≠ Halt (Panic msg).
Proof. apply reachable_typed. unfold demo_dead. apply reach_op. apply reach_fresh. Defined.
