(* ===== verification/Tidy.v ===== *)
(** * Deduplicating a directory in place ([linabase/src/service.rs],
    [TidyManager]; [linabase/src/utils.rs])

    [tidy] walks a directory of the host, groups its files by content, keeps one
    file of each group, the newest or the oldest, and puts a relative symbolic
    link to it in the place of the others.  The host's tree has regular files,
    directories and symbolic links, to files or to directories. *)
From stdpp Require Import pretty.
From S2P Require Import Prelude Io Runs Strs World Disk Block.

(** ** The tree *)

Inductive Node :=
  | NFile (content : bytes) (birth : N)
  | NLink (target : list Component).
Record Tree := mkTree {
  nodes : gmap path Node;
  folders : gset path;
  here : path                  (* the working directory *)
}.

(** Following a path from a folder, and at most [hops] symbolic links on the
    way: where it ends. *)
Fixpoint follow (t : Tree) (hops : nat) : path → list Component → option path :=
  fix go (d : path) (p : list Component) : option path :=
    match p with
    | [] => Some d
    | Normal s :: p' =>
        let q := d ++ [s] in
        match nodes t !! q with
        | Some (NLink l) => match hops with O => None | S h => follow t h d (l ++ p') end
        | Some (NFile _ _) => if p' then Some q else None
        | None => if bool_decide (q ∈ folders t) then go q p' else None
        end
    | k :: p' => go (enter d k) p'
    end.
(** The limit Linux sets. *)
Definition MAXSYMLINKS : nat := 40.
Definition stat (t : Tree) (p : list Component) : option path := follow t MAXSYMLINKS (here t) p.
Definition file_at (t : Tree) (q : path) : option (bytes * N) :=
  match nodes t !! q with Some (NFile b birth) => Some (b, birth) | _ => None end.

(** ** [TidyManager] *)

(** The manager's cache, [HashMap<String, Vec<(PathBuf, String)>>], next to the
    tree it works on. *)
Record TidyManager := mkTidy {
  tree : Tree;
  map_cache : gmap string (list (list Component * string))
}.
(** [TidyManager::new] *)
Definition TidyManager_new (t : Tree) : TidyManager := mkTidy t ∅.
Definition set_tree (t : Tree) (m : TidyManager) : TidyManager := mkTidy t (map_cache m).

Definition on_tree {A} (f : Tree → (Error + A) * Tree) : IO TidyManager A :=
  external os_error (λ _ m, m) (λ m, let '(r, t) := f (tree m) in (r, set_tree t m)).

(** [path.is_dir()]: a failing look-up counts as no. *)
Definition path_is_dir (p : list Component) : IO TidyManager bool :=
  r ← attempt (on_tree (λ t,
    match stat t p with
    | Some q => (inr (bool_decide (q ∈ folders t)), t)
    | None => (inl (os_error NotFound), t)
    end));
  ret (match r with inr b => b | inl _ => false end).

(** The names in a folder, in no promised order. *)
Definition names_in (t : Tree) (d : path) : list string :=
  omap (child_of d) (elements (folders t)) ++ omap (child_of d) (map_to_list (nodes t)).*1.
Definition read_dir (p : list Component) : IO TidyManager (list string) :=
  on_tree (λ t,
    match stat t p with
    | Some q => if bool_decide (q ∈ folders t) then (inr (names_in t q), t) else (inl (os_error NotFound), t)
    | None => (inl (os_error NotFound), t)
    end).

(** The contents and the creation time of the file a path leads to. *)
Definition open_file (p : list Component) : IO TidyManager bytes :=
  on_tree (λ t, match stat t p ≫= file_at t with
                | Some (b, _) => (inr b, t)
                | None => (inl (os_error NotFound), t)
                end).
Definition created (p : list Component) : IO TidyManager N :=
  on_tree (λ t, match stat t p ≫= file_at t with
                | Some (_, birth) => (inr birth, t)
                | None => (inl (os_error NotFound), t)
                end).

(** The folder an entry is in, and the entry: its last component is not
    followed. *)
Definition entry_of (t : Tree) (p : list Component) : option path :=
  match last p with
  | Some (Normal s) =>
      d ← stat t (take (length p - 1) p);
      if bool_decide (d ∈ folders t) then Some (d ++ [s]) else None
  | _ => None
  end.
Definition set_nodes (f : gmap path Node → gmap path Node) (t : Tree) : Tree :=
  mkTree (f (nodes t)) (folders t) (here t).
(** [fs::remove_file] *)
Definition unlink (p : list Component) : IO TidyManager unit :=
  on_tree (λ t,
    match entry_of t p with
    | Some q => if bool_decide (is_Some (nodes t !! q)) then (inr tt, set_nodes (delete q) t)
                else (inl (os_error NotFound), t)
    | None => (inl (os_error NotFound), t)
    end).
(** [create_symlink] of [utils.rs] on Unix: nothing may be there yet. *)
Definition create_symlink (src dst : list Component) : IO TidyManager unit :=
  on_tree (λ t,
    match entry_of t dst with
    | Some q =>
        if bool_decide (is_Some (nodes t !! q)) || bool_decide (q ∈ folders t)
        then (inl (os_error Other), t)
        else (inr tt, set_nodes <[q := NLink src]> t)
    | None => (inl (os_error NotFound), t)
    end).

Section Tidy.
Context `{C : Codec} `{P : Platform}.

(** [get_hash256_from_file]: the file is read in pieces into one hasher. *)
Definition get_hash256_from_file (p : list Component) : IO TidyManager string :=
  b ← open_file p; ret (blake3_hex (concat (chunks 0x200000 b))).

(** The loop of [path_walk] over a folder's entries. *)
Fixpoint walk_entries (walk : list Component → IO TidyManager (list (list Component))) (p : list Component)
    (names : list string) (result : list (list Component)) : IO TidyManager (list (list Component)) :=
  match names with
  | [] => ret result
  | name :: names' =>
      let current_entry := p ++ [Normal name] in
      sub ← path_is_dir current_entry;
      if sub : bool then
        below ← walk current_entry; walk_entries walk p names' (result ++ below)
      else walk_entries walk p names' (result ++ [current_entry])
  end.
(** [path_walk]; the recursion of the source is bounded by the stack only. *)
Fixpoint path_walk (depth : nat) (p : list Component) : IO TidyManager (list (list Component)) :=
  match depth with
  | O => panic "stack overflow"
  | S depth' =>
      dir ← path_is_dir p;
      if dir : bool then names ← read_dir p; walk_entries (path_walk depth') p names [] else ret []
  end.

Definition file_info_collector (p : list Component) : IO TidyManager unit :=
  hash_code ← map_err (λ e, boxed_io_error Other "Hash of file generate error") (get_hash256_from_file p);
  created_date ← map_err (λ e, boxed_io_error Other "Get file metadata/date error") (created p);
  update (λ m, mkTidy (tree m)
    (<[hash_code := default [] (map_cache m !! hash_code) ++ [(p, fmt_compact created_date)]]> (map_cache m))).

(** The first of the entries that no other beats. *)
Definition find_extreme_file (file_infos : list (list Component * string))
    (compare : string → string → bool) : option (list Component * string) :=
  match file_infos with
  | [] => None   (* the index panics; not reached *)
  | first :: rest => Some (foldl (λ extreme info, if compare info.2 extreme.2 then info else extreme) first rest)
  end.

(** How many components two paths share from the start. *)
Fixpoint common_length (a b : list Component) : nat :=
  match a, b with
  | x :: a', y :: b' => if decide (x = y) then S (common_length a' b') else 0
  | _, _ => 0
  end.
(** [PathBuf::push] of one component. *)
Definition push (r : list Component) (k : Component) : list Component :=
  match k with
  | RootDir => [RootDir]
  | CurDir => if r then [CurDir] else r
  | k => r ++ [k]
  end.
Definition relative_path_with_same_root (from to : list Component) : list Component :=
  let common := common_length from to in
  let ups :=
    if 1 <? length from - common then replicate (length from - common - 1) ParentDir
    else if length from - common =? 1 then [CurDir] else [] in
  foldl push ups (drop common to).

(** The body of the inner loop of [tidy]. *)
Definition tidy_file (target file_info : list Component * string) : IO TidyManager unit :=
  if bool_decide (file_info.2 ≠ target.2) && bool_decide (file_info.1 ≠ target.1) then
    let relative_file_path := relative_path_with_same_root file_info.1 target.1 in
    r ← attempt (unlink file_info.1);
    match r with
    | inr _ => create_symlink relative_file_path file_info.1
    | inl _ => ret tt
    end
  else ret tt.

Definition newer (a b : string) : bool := String.ltb b a.
Definition older (a b : string) : bool := String.ltb a b.

(** The files of one hash. *)
Definition tidy_group (keep_new : bool) (key : string) : IO TidyManager unit :=
  m ← get_state;
  match map_cache m !! key with
  | None | Some [] => ret tt
  | Some file_infos =>
      match find_extreme_file file_infos (if keep_new then newer else older) with
      | None => ret tt
      | Some target_file_info => for_each file_infos (tidy_file target_file_info)
      end
  end.

(** [map_cache.keys()]: every key once, in an order that is not promised. *)
Context (keys : gmap string (list (list Component * string)) → list string).

Definition tidy (target_path : list Component) (keep_new : bool) : IO TidyManager unit :=
  m ← get_state;
  paths ← path_walk (S MAXSYMLINKS * S (size (folders (tree m)))) target_path;
  for_each paths (λ p, ignore (file_info_collector p));;
  m ← get_state;
  for_each (keys (map_cache m)) (tidy_group keep_new).
End Tidy.

(** ** Where a path leads, without a limit on links *)

(** [leads ok t d p q]: from the folder [d] the path [p] leads to [q], through
    files and links of [t] that [ok] allows. *)
Inductive leads (ok : path → Prop) (t : Tree) : path → list Component → path → Prop :=
  | leads_nil d : leads ok t d [] d
  | leads_enter d k p q :
      (∀ s, k ≠ Normal s) → leads ok t (enter d k) p q → leads ok t d (k :: p) q
  | leads_folder d s p q :
      nodes t !! (d ++ [s]) = None → d ++ [s] ∈ folders t →
      leads ok t (d ++ [s]) p q → leads ok t d (Normal s :: p) q
  | leads_file d s b birth :
      nodes t !! (d ++ [s]) = Some (NFile b birth) → ok (d ++ [s]) →
      leads ok t d [Normal s] (d ++ [s])
  | leads_link d s l p q :
      nodes t !! (d ++ [s]) = Some (NLink l) → ok (d ++ [s]) →
      leads ok t d (l ++ p) q → leads ok t d (Normal s :: p) q.
Definition anywhere : path → Prop := λ _, True.

(** A path reads as some contents. *)
Definition reads (ok : path → Prop) (t : Tree) (p : list Component) (c : bytes) : Prop :=
  ∃ q birth, leads ok t (here t) p q ∧ nodes t !! q = Some (NFile c birth).

(** A tree as the file system keeps it: a name is a folder or a node, and its
    parent is a folder. *)
Record wf_tree (t : Tree) : Prop := {
  wf_root : [] ∈ folders t;
  wf_here : here t ∈ folders t;
  wf_parent d : d ∈ folders t → parent_of d ∈ folders t;
  wf_node q : is_Some (nodes t !! q) → q ∉ folders t
}.
(** No symbolic link leads to a folder. *)
Definition no_linked_folders (t : Tree) : Prop := ∀ d s l q,
  nodes t !! (d ++ [s]) = Some (NLink l) → leads anywhere t d l q → q ∉ folders t.

Lemma follow_cons t h d k p :
  follow t h d (k :: p) =
  match k with
  | Normal s =>
      match nodes t !! (d ++ [s]) with
      | Some (NLink l) => match h with O => None | S h => follow t h d (l ++ p) end
      | Some (NFile _ _) => if p then Some (d ++ [s]) else None
      | None => if bool_decide (d ++ [s] ∈ folders t) then follow t h (d ++ [s]) p else None
      end
  | k => follow t h (enter d k) p
  end.
Proof. by destruct h, k. Qed.

Lemma follow_leads t h d p q : follow t h d p = Some q → leads anywhere t d p q.
Proof.
  revert d p q. induction h as [|h IHh]; intros d p q; revert d; induction p as [|k p IHp]; intros d.
  1, 3: intros H; simpl in H; simplify_eq; constructor.
  all: rewrite follow_cons; destruct k as [| | |s]; try (intros H; by apply leads_enter; [|apply IHp]).
  all: destruct (nodes t !! (d ++ [s])) as [[b birth|l]|] eqn:E;
    [destruct p; intros H; simplify_eq; by eapply leads_file| |
     case_bool_decide; [intros Hr; apply leads_folder; auto|done]].
  - done.
  - intros H. eapply leads_link; [done|done|by apply IHh].
Qed.

Lemma leads_mono ok ok' t t' d p q :
  leads ok t d p q → (∀ q, ok q → ok' q) → folders t' = folders t → wf_tree t' →
  (∀ q, ok q → is_Some (nodes t !! q) → nodes t' !! q = nodes t !! q) → leads ok' t' d p q.
Proof.
  intros H Hok Hf Hwf Hn. induction H as [d|d k p q Hk _ IH|d s p q Hq Hd _ IH|d s b birth Hq Hs|d s l p q Hq Hs _ IH].
  - constructor.
  - by apply leads_enter.
  - apply leads_folder; [|by rewrite Hf|done].
    destruct (nodes t' !! (d ++ [s])) eqn:E; [|done]. exfalso. eapply wf_node; [done|by eexists|by rewrite Hf].
  - eapply leads_file; [rewrite Hn; [done|done|by eexists]|auto].
  - eapply leads_link; [rewrite Hn; [done|done|by eexists]|auto|done].
Qed.
Lemma leads_anywhere ok t d p q : wf_tree t → leads ok t d p q → leads anywhere t d p q.
Proof. intros Hwf H. by eapply leads_mono. Qed.

Lemma leads_det ok ok' t d p q q' : leads ok t d p q → leads ok' t d p q' → q = q'.
Proof.
  intros H. revert q'. induction H as [d|d k p q Hk _ IH|d s p q Hq Hd _ IH|d s b birth Hq Hs|d s l p q Hq Hs _ IH];
    intros q' H'; inversion H' as [|? ? ? ? Hk' ?| | |]; subst;
    try (by destruct (Hk _ eq_refl)); try (by destruct (Hk' _ eq_refl)); try congruence; auto.
  match goal with Hl : nodes t !! _ = Some (NLink ?l') |- _ => assert (l' = l) as -> by congruence end. auto.
Qed.

Lemma enter_folder t d k : wf_tree t → d ∈ folders t → (∀ s, k ≠ Normal s) → enter d k ∈ folders t.
Proof.
  intros Hwf Hd Hk. destruct k as [| | |s]; simpl; [apply Hwf|done|by apply Hwf|by destruct (Hk s)].
Qed.

(** What comes before the rest of a path leads to a folder. *)
Lemma leads_split ok t d p1 p2 q :
  wf_tree t → d ∈ folders t → p2 ≠ [] → leads ok t d (p1 ++ p2) q →
  ∃ e, e ∈ folders t ∧ leads ok t d p1 e ∧ leads ok t e p2 q.
Proof.
  intros Hwf Hd Hp2 H. remember (p1 ++ p2) as p eqn:Ep. revert p1 Ep Hd.
  induction H as [d|d k p q Hk Hl IH|d s p q Hq Hqd Hl IH|d s b birth Hq Hs|d s l p q Hq Hs Hl IH]; intros p1 Ep Hd.
  - by destruct p1, p2.
  - destruct p1 as [|k1 p1]; [exists d; split; [done|]; split; [apply leads_nil|]; simpl in Ep; subst;
      by apply leads_enter|].
    injection Ep as <- ->. destruct (IH p1 eq_refl) as (e & ? & ? & ?); [by apply enter_folder|].
    exists e. split; [done|]. split; [by apply leads_enter|done].
  - destruct p1 as [|k1 p1]; [exists d; split; [done|]; split; [apply leads_nil|]; simpl in Ep; subst;
      by apply leads_folder|].
    injection Ep as <- ->. destruct (IH p1 eq_refl Hqd) as (e & ? & ? & ?).
    exists e. split; [done|]. split; [by apply leads_folder|done].
  - destruct p1 as [|k1 p1]; [exists d; split; [done|]; split; [apply leads_nil|]; simpl in Ep; subst;
      by eapply leads_file|]. injection Ep as _ Ep. by destruct p1, p2.
  - destruct p1 as [|k1 p1]; [exists d; split; [done|]; split; [apply leads_nil|]; simpl in Ep; subst;
      by eapply leads_link|].
    injection Ep as <- ->. destruct (IH (l ++ p1)) as (e & ? & ? & ?); [by rewrite app_assoc|done|].
    exists e. split; [done|]. split; [by eapply leads_link|done].
Qed.

Lemma leads_app ok t d p1 e p2 q :
  wf_tree t → e ∈ folders t → leads ok t d p1 e → leads ok t e p2 q → leads ok t d (p1 ++ p2) q.
Proof.
  intros Hwf He H H2. induction H as [d|d k p e Hk _ IH|d s p e Hq Hd _ IH|d s b birth Hq Hs|d s l p e Hq Hs _ IH].
  - done.
  - apply leads_enter; auto.
  - apply leads_folder; auto.
  - exfalso. by apply (wf_node _ Hwf _ ltac:(by eexists)).
  - eapply leads_link; [done|done|]. rewrite app_assoc. auto.
Qed.

Section NoLinkedFolders.
Context (t : Tree) (Hwf : wf_tree t) (Hnlf : no_linked_folders t).

(** A link is the last thing on a way to a file. *)
Lemma link_last ok d s l p q :
  d ∈ folders t → nodes t !! (d ++ [s]) = Some (NLink l) → leads ok t d (l ++ p) q → p = [].
Proof.
  intros Hd Hl H. destruct p as [|k p]; [done|]. exfalso.
  destruct (leads_split ok t d l (k :: p) q) as (e & He & H1 & _); [done..|].
  by apply (Hnlf d s l e Hl (leads_anywhere _ _ _ _ _ Hwf H1)).
Qed.

(** Names that lead to a folder are folders themselves, one below the other. *)
Lemma names_plain ok d names e :
  d ∈ folders t → leads ok t d (Normal <$> names) e → e ∈ folders t → e = d ++ names.
Proof.
  revert d. induction names as [|s names IH]; intros d Hd H He; simpl in H.
  - inversion H; subst. by rewrite app_nil_r.
  - inversion H as [|? ? ? ? Hk|? ? ? ? Hq Hqd H'|? ? b birth Hq|? ? l ? ? Hq Hok H']; subst.
    + by destruct (Hk s).
    + rewrite (IH _ Hqd H' He), <- app_assoc. done.
    + exfalso. by apply (wf_node _ Hwf _ ltac:(by eexists)).
    + pose proof (link_last _ _ _ _ _ _ Hd Hq H') as Enil. rewrite Enil, app_nil_r in H'.
      exfalso. by apply (Hnlf d s l e Hq (leads_anywhere _ _ _ _ _ Hwf H')).
Qed.
End NoLinkedFolders.

(** ** The relative link *)

#[export] Instance Normal_inj : Inj (=) (=) Normal.
Proof. by intros a b [= ->]. Qed.

Lemma common_length_app pre a b : common_length (pre ++ a) (pre ++ b) = length pre + common_length a b.
Proof. induction pre as [|k pre IH]; simpl; [done|]. rewrite decide_True by done. by rewrite IH. Qed.
Lemma common_split a b : ∃ pre a' b', a = pre ++ a' ∧ b = pre ++ b' ∧ common_length a b = length pre.
Proof.
  revert b. induction a as [|x a IH]; intros b; [by exists [], [], b|].
  destruct b as [|y b]; [by exists [], (x :: a), []|]. simpl. destruct (decide (x = y)) as [->|Hne].
  - destruct (IH b) as (pre & a' & b' & -> & -> & E). exists (y :: pre), a', b'. simpl. by rewrite E.
  - by exists [], (x :: a), (y :: b).
Qed.
Lemma push_names r names : foldl push r (Normal <$> names) = r ++ (Normal <$> names).
Proof.
  revert r. induction names as [|s names IH]; intros r; simpl; [by rewrite app_nil_r|].
  by rewrite IH, <- app_assoc.
Qed.

(** As many steps up as there are names lead back. *)
Lemma leads_up ok t e names p q :
  leads ok t e p q → leads ok t (e ++ names) (replicate (length names) ParentDir ++ p) q.
Proof.
  revert p. induction names as [|s names IH] using rev_ind; intros p H; [by rewrite app_nil_r|].
  rewrite length_app, Nat.add_1_r. simpl. apply leads_enter; [done|]. simpl.
  rewrite app_assoc, parent_of_snoc. auto.
Qed.
Lemma leads_here ok t e p q : leads ok t e p q → leads ok t e (CurDir :: p) q.
Proof. intros H. by apply leads_enter. Qed.

(** What the relative path is: up from the one to what both share, down to the
    other. *)
Lemma relative_path_names root na r x nb :
  common_length (Normal <$> na ++ r ++ [x]) (Normal <$> na ++ nb) = length na →
  relative_path_with_same_root (root ++ (Normal <$> na ++ r ++ [x])) (root ++ (Normal <$> na ++ nb)) =
  (if r then [CurDir] else replicate (length r) ParentDir) ++ (Normal <$> nb).
Proof.
  intros Ec. unfold relative_path_with_same_root. rewrite common_length_app, Ec.
  rewrite length_app, length_fmap, !length_app. cbn [length].
  replace (length root + (length na + (length r + 1)) - (length root + length na)) with (S (length r)) by lia.
  rewrite fmap_app, app_assoc, drop_app_length' by (by rewrite length_app, length_fmap).
  rewrite push_names. f_equal. destruct r as [|y r]; [done|]. cbn [length].
  rewrite (proj2 (Nat.ltb_lt 1 _)) by lia. f_equal; lia.
Qed.

(** From the folder of a file the relative path leads where the other path leads,
    both below [root]. *)
Lemma relative_leads ok t root a b s q z :
  wf_tree t → no_linked_folders t →
  let from := root ++ (Normal <$> a ++ [s]) in
  let to := root ++ (Normal <$> b) in
  leads anywhere t (here t) (root ++ (Normal <$> a)) q → q ∈ folders t →
  leads ok t (here t) to z → z ∉ folders t →
  (∀ y, leads anywhere t (here t) from y → y ∉ folders t) → from ≠ to →
  leads ok t q (relative_path_with_same_root from to) z.
Proof.
  intros Hwf Hnlf from to Ha Hq Hb Hz Hfile Hne. pose proof (wf_here _ Hwf) as Hhere.
  destruct (common_split (Normal <$> a ++ [s]) (Normal <$> b)) as (pre & a' & b' & Ea & Eb & Ec).
  apply fmap_app_inv in Ea as (na & na' & -> & -> & Ea).
  apply fmap_app_inv in Eb as (nb & nb' & Epre & -> & ->).
  apply (inj (list_fmap _ _ Normal)) in Epre as <-. rewrite length_fmap in Ec.
  assert (Hto : to = (root ++ (Normal <$> na)) ++ (Normal <$> nb')) by (unfold to; by rewrite fmap_app, app_assoc).
  destruct na' as [|x r _] using rev_ind.
  { (* the file is no folder on the way to the other *)
    exfalso. rewrite app_nil_r in Ea. rewrite Hto in Hb.
    assert (Hfrom : from = root ++ (Normal <$> na)) by (unfold from; by rewrite Ea).
    destruct nb' as [|y nb']; [apply Hne; by rewrite Hfrom, Hto, app_nil_r|].
    destruct (leads_split ok t (here t) (root ++ (Normal <$> na)) (Normal <$> y :: nb') z) as (e & He & H1 & _);
      [done..|]. apply (Hfile e); [|done]. rewrite Hfrom. by eapply leads_anywhere. }
  assert (a = na ++ r ∧ s = x) as [-> ->] by (rewrite app_assoc in Ea; by apply app_inj_tail in Ea).
  (* the folder the shared part leads to *)
  assert (Hshared : ∃ e, e ∈ folders t ∧ leads anywhere t (here t) (root ++ (Normal <$> na)) e ∧ q = e ++ r).
  { rewrite fmap_app, app_assoc in Ha. destruct r as [|y r].
    - exists q. rewrite app_nil_r in Ha. by rewrite app_nil_r.
    - destruct (leads_split anywhere t (here t) (root ++ (Normal <$> na)) (Normal <$> y :: r) q Hwf Hhere)
        as (e & He & H1 & H2); [done..|].
      exists e. split; [done|]. split; [done|]. by apply (names_plain t Hwf Hnlf anywhere e (y :: r)). }
  destruct Hshared as (e & He & H1 & ->).
  assert (Hdown : leads ok t e (Normal <$> nb') z).
  { rewrite Hto in Hb. destruct nb' as [|y nb'].
    - rewrite app_nil_r in Hb. destruct Hz. by rewrite (leads_det _ _ _ _ _ _ _ Hb H1).
    - destruct (leads_split ok t (here t) (root ++ (Normal <$> na)) (Normal <$> y :: nb') z Hwf Hhere)
        as (e' & _ & H2 & H3); [done..|].
      by rewrite (leads_det _ _ _ _ _ _ _ H2 H1) in H3. }
  unfold from, to. rewrite <- app_assoc in Ec |- *. rewrite relative_path_names by done.
  destruct r as [|y r]; [rewrite app_nil_r; by apply leads_here|]. by apply leads_up.
Qed.

(** ** What tidying may do to a tree *)

Section Tidying.
Context `{C : Codec} `{P : Platform}.
Context (t0 : Tree) (Hwf : wf_tree t0) (Hnlf : no_linked_folders t0).
Context (root : list Component) (keep_new : bool).

(** No two files of the tree with different contents have the same hash. *)
Definition hash_injective_on (t : Tree) : Prop := ∀ q q' c c' b b',
  nodes t !! q = Some (NFile c b) → nodes t !! q' = Some (NFile c' b') →
  blake3_hex c = blake3_hex c' → c = c'.
Context (Hhash : hash_injective_on t0).

(** [p] is an entry, at [q], of a folder below [root]. *)
Definition listed (p : list Component) (q : path) : Prop := ∃ names s d,
  p = root ++ (Normal <$> names ++ [s]) ∧ q = d ++ [s] ∧ d ∈ folders t0 ∧
  leads anywhere t0 (here t0) (root ++ (Normal <$> names)) d.

Definition the_file (p : list Component) (z : path) (c : bytes) (birth : N) : Prop :=
  leads anywhere t0 (here t0) p z ∧ nodes t0 !! z = Some (NFile c birth).

Abbreviation cache := (gmap string (list (list Component * string))).
Definition collected (m : cache) : Prop := ∀ key infos p date,
  m !! key = Some infos → (p, date) ∈ infos →
  ∃ q z c birth, listed p q ∧ the_file p z c birth ∧ key = blake3_hex c ∧ date = fmt_compact birth.

Context (m : cache) (Hm : collected m).
Definition extreme (infos : list (list Component * string)) : option (list Component * string) :=
  find_extreme_file infos (if keep_new then newer else older).

(** The entries that give way to a link. *)
Definition doomed (q : path) : Prop := ∃ key infos target p date,
  m !! key = Some infos ∧ extreme infos = Some target ∧ (p, date) ∈ infos ∧
  date ≠ target.2 ∧ listed p q.
Definition spared (q : path) : Prop := ¬ doomed q.

Lemma extreme_in infos target : extreme infos = Some target → target ∈ infos.
Proof.
  unfold extreme, find_extreme_file. destruct infos as [|first rest]; [done|]. intros [= <-].
  generalize (if keep_new then newer else older). intros cmp. revert first.
  induction rest as [|i rest IH]; intros first; simpl; [by left|].
  destruct (cmp i.2 first.2); [right; apply IH|].
  destruct (proj1 (elem_of_cons _ _ _) (IH first)) as [->|]; [by left|]. right. by right.
Qed.

(** The last step to a file. *)
Lemma last_step names s d z c birth :
  leads anywhere t0 (here t0) (root ++ (Normal <$> names)) d → d ∈ folders t0 →
  the_file (root ++ (Normal <$> names ++ [s])) z c birth →
  leads anywhere t0 d [Normal s] z ∧ is_Some (nodes t0 !! (d ++ [s])).
Proof.
  intros Hd Hdf [Hl Hz]. rewrite fmap_app, app_assoc in Hl.
  destruct (leads_split anywhere t0 (here t0) (root ++ (Normal <$> names)) [Normal s] z Hwf (wf_here _ Hwf))
    as (e & _ & H1 & H2); [done..|].
  rewrite (leads_det _ _ _ _ _ _ _ H1 Hd) in H2. split; [done|].
  inversion H2 as [|? ? ? ? Hk|? ? ? ? Hq Hqd H'|? ? b' birth' Hq|? ? l ? ? Hq Hok H']; subst; try (by eexists).
  - by destruct (Hk s).
  - exfalso. inversion H'; subst. by apply (wf_node _ Hwf _ (mk_is_Some _ _ Hz)).
Qed.

Lemma doomed_node q : doomed q → is_Some (nodes t0 !! q).
Proof.
  intros (key & infos & target & p & date & Hk & _ & Hin & _ & names & s & d & -> & -> & Hd & Hl).
  destruct (Hm _ _ _ _ Hk Hin) as (_ & z & c & birth & _ & Hf & _). by eapply last_step.
Qed.

(** A file with the date of its group's kept file is spared, and so are the
    links on the way to it. *)
Lemma kept_spared key infos target d s z c birth :
  m !! key = Some infos → extreme infos = Some target → key = blake3_hex c → target.2 = fmt_compact birth →
  d ∈ folders t0 → leads anywhere t0 d [Normal s] z → nodes t0 !! z = Some (NFile c birth) →
  spared (d ++ [s]).
Proof.
  intros Hk Hx -> Ht Hd Hl Hz (key' & infos' & target' & p & date & Hk' & Hx' & Hin & Hne & names & s' & d' & -> & Eq & Hd' & Hl').
  apply app_inj_tail in Eq as [<- <-].
  destruct (Hm _ _ _ _ Hk' Hin) as (_ & z' & c' & birth' & _ & Hf & -> & ->).
  destruct (last_step _ _ _ _ _ _ Hl' Hd Hf) as [Hlast _].
  rewrite (leads_det _ _ _ _ _ _ _ Hlast Hl) in Hf. destruct Hf as [_ Hf]. by simplify_eq.
Qed.

Lemma kept_avoids key infos target d p z c birth :
  m !! key = Some infos → extreme infos = Some target → key = blake3_hex c → target.2 = fmt_compact birth →
  d ∈ folders t0 → leads anywhere t0 d p z → nodes t0 !! z = Some (NFile c birth) →
  leads spared t0 d p z ∧ spared z.
Proof.
  intros Hk Hx Hc Ht Hd Hl Hz.
  induction Hl as [d|d k p z Hkd _ IH|d s p z Hq Hqd _ IH|d s b birth' Hq Hs|d s l p z Hq Hs Hl IH].
  - exfalso. by apply (wf_node _ Hwf _ (mk_is_Some _ _ Hz)).
  - destruct IH as [? ?]; [by apply enter_folder|done|]. split; [by apply leads_enter|done].
  - destruct IH as [? ?]; [done..|]. split; [by apply leads_folder|done].
  - assert (spared (d ++ [s])) by (eapply (kept_spared key infos target); eauto using leads_file).
    split; [by eapply leads_file|done].
  - pose proof (link_last t0 Hwf Hnlf _ _ _ _ _ _ Hd Hq Hl) as ->.
    assert (spared (d ++ [s])) by (eapply (kept_spared key infos target); eauto using leads_link).
    destruct IH as [? ?]; [done..|]. split; [by eapply leads_link|done].
Qed.

(** A way to a folder uses no file and no link. *)
Lemma folder_way ok d p e :
  d ∈ folders t0 → leads ok t0 d p e → e ∈ folders t0 → leads (λ _, False) t0 d p e.
Proof.
  intros Hd H He. induction H as [d|d k p q Hk _ IH|d s p q Hq Hqd _ IH|d s b birth Hq Hs|d s l p q Hq Hs Hl IH].
  - constructor.
  - apply leads_enter; [done|]. apply IH; [by apply enter_folder|done].
  - apply leads_folder; auto.
  - exfalso. by apply (wf_node _ Hwf _ (mk_is_Some _ _ Hq)).
  - pose proof (link_last t0 Hwf Hnlf _ _ _ _ _ _ Hd Hq Hl) as ->. rewrite app_nil_r in Hl.
    exfalso. by apply (Hnlf d s l q Hq (leads_anywhere _ _ _ _ _ Hwf Hl)).
Qed.

(** A link in the place of an entry: it leads to a spared file with the same
    contents. *)
Definition replaced (q : path) (rel : list Component) : Prop := ∃ d s z z' c b b',
  q = d ++ [s] ∧ d ∈ folders t0 ∧
  leads anywhere t0 d [Normal s] z ∧ nodes t0 !! z = Some (NFile c b) ∧
  leads spared t0 d rel z' ∧ nodes t0 !! z' = Some (NFile c b') ∧ spared z'.

(** A tree on the way: every node is as it was, but for links in the place of
    doomed entries, and at most one of these that is gone. *)
Record tidied (lost : option path) (t : Tree) : Prop := {
  td_folders : folders t = folders t0;
  td_here : here t = here t0;
  td_lost q : lost = Some q → doomed q;
  td_nodes q : nodes t !! q = nodes t0 !! q ∨
    (lost = Some q ∧ nodes t !! q = None) ∨
    (doomed q ∧ ∃ rel, nodes t !! q = Some (NLink rel) ∧ replaced q rel)
}.

Lemma tidied_refl : tidied None t0.
Proof. by split; [..|left]. Qed.

Lemma tidied_wf lost t : tidied lost t → wf_tree t.
Proof.
  intros [Hf Hh _ Hn]. split; rewrite ?Hf, ?Hh; try apply Hwf.
  intros q Hq. apply (wf_node _ Hwf). destruct (Hn q) as [E|[[_ E]|[Hd _]]].
  - by rewrite <- E.
  - rewrite E in Hq. by destruct Hq.
  - by apply doomed_node.
Qed.

Lemma spared_way lost t d p z : tidied lost t → leads spared t0 d p z → leads anywhere t d p z.
Proof.
  intros Ht H. eapply leads_mono; [exact H|done|apply Ht|by eapply tidied_wf|].
  intros q Hs _. destruct (td_nodes _ _ Ht q) as [E|[[El _]|[Hd _]]]; [done| |done].
  by apply (td_lost _ _ Ht) in El.
Qed.
Lemma spared_file lost t z : tidied lost t → spared z → nodes t !! z = nodes t0 !! z.
Proof.
  intros Ht Hs. destruct (td_nodes _ _ Ht z) as [E|[[El _]|[Hd _]]]; [done| |done].
  by apply (td_lost _ _ Ht) in El.
Qed.

(** What led to some contents still does, unless it runs through the entry that
    is gone. *)
Lemma tidied_leads lost t d p z c birth :
  tidied lost t → d ∈ folders t0 → leads (λ q, lost ≠ Some q) t0 d p z → nodes t0 !! z = Some (NFile c birth) →
  ∃ z' birth', leads anywhere t d p z' ∧ nodes t !! z' = Some (NFile c birth').
Proof.
  intros Ht Hd H Hz. pose proof (tidied_wf _ _ Ht) as Hwf'.
  (* a replaced entry leads to a twin *)
  assert (Htwin : ∀ d s l z c birth, d ∈ folders t0 → leads anywhere t0 d [Normal s] z →
      nodes t0 !! z = Some (NFile c birth) → nodes t !! (d ++ [s]) = Some (NLink l) → replaced (d ++ [s]) l →
      ∃ z' birth', leads anywhere t d [Normal s] z' ∧ nodes t !! z' = Some (NFile c birth')).
  { intros d' s l z1 c1 b1 Hd' Hl1 Hz1 Hq (d2 & s2 & z2 & z3 & c2 & b2 & b3 & E & _ & Hl2 & Hz2 & Hl3 & Hz3 & Hs3).
    apply app_inj_tail in E as [<- <-]. rewrite (leads_det _ _ _ _ _ _ _ Hl2 Hl1) in Hz2. simplify_eq.
    exists z3, b3. split; [|by rewrite (spared_file _ _ _ Ht Hs3)].
    eapply leads_link; [done|done|]. rewrite app_nil_r. by eapply spared_way. }
  induction H as [d|d k p z Hk _ IH|d s p z Hq Hqd _ IH|d s b b' Hq Hs|d s l p z Hq Hs Hl IH].
  - exfalso. by apply (wf_node _ Hwf _ (mk_is_Some _ _ Hz)).
  - destruct IH as (z' & b' & ? & ?); [by apply enter_folder|done|]. exists z', b'. split; [by apply leads_enter|done].
  - destruct IH as (z' & b' & ? & ?); [done..|]. exists z', b'. split; [|done]. apply leads_folder; [| |done].
    + destruct (nodes t !! (d ++ [s])) eqn:E; [|done]. exfalso.
      apply (wf_node _ Hwf' _ (mk_is_Some _ _ E)). by rewrite (td_folders _ _ Ht).
    + by rewrite (td_folders _ _ Ht).
  - destruct (td_nodes _ _ Ht (d ++ [s])) as [E|[[El _]|(_ & rel & E & Hr)]]; [|done|].
    + rewrite Hq in E. simplify_eq. eexists _, _. split; [by eapply leads_file|done].
    + eapply (Htwin d s rel (d ++ [s])); [done| |done..]. by eapply leads_file.
  - pose proof (link_last t0 Hwf Hnlf _ _ _ _ _ _ Hd Hq Hl) as ->. rewrite app_nil_r in Hl, IH.
    destruct (td_nodes _ _ Ht (d ++ [s])) as [E|[[El _]|(_ & rel & E & Hr)]]; [|done|].
    + destruct IH as (z' & b' & ? & ?); [done..|]. exists z', b'. split; [|done].
      rewrite Hq in E. eapply leads_link; [done|done|by rewrite app_nil_r].
    + eapply (Htwin d s rel z); [done| |done..]. eapply leads_link; [done|done|].
      rewrite app_nil_r. by eapply leads_anywhere.
Qed.

(** ** The calls *)

Lemma here_leads lost t p e :
  tidied lost t → leads anywhere t0 (here t0) p e → e ∈ folders t0 → leads anywhere t (here t) p e.
Proof.
  intros Ht H He. rewrite (td_here _ _ Ht). eapply leads_mono; [apply (folder_way anywhere); [by apply wf_here|done..]|done| | |done].
  - apply Ht.
  - by eapply tidied_wf.
Qed.

(** A listed path still names the entry it named. *)
Lemma entry_listed lost t p q q' : tidied lost t → listed p q → entry_of t p = Some q' → q' = q.
Proof.
  intros Ht (names & s & d & -> & -> & Hd & Hl). unfold entry_of.
  rewrite fmap_app, app_assoc. cbn [fmap list_fmap]. rewrite last_snoc, length_app. cbn [length].
  rewrite Nat.add_sub, take_app_length.
  destruct (stat t (root ++ (Normal <$> names))) as [e|] eqn:E; [|done]. simpl.
  case_bool_decide; [|done]. intros [= <-]. apply follow_leads in E.
  by rewrite (leads_det _ _ _ _ _ _ _ E (here_leads _ _ _ _ Ht Hl Hd)).
Qed.

Lemma tidied_unlinked t q : tidied None t → doomed q → tidied (Some q) (set_nodes (delete q) t).
Proof.
  intros [Hf Hh _ Hn] Hq. split; [done..|by intros ? [= <-]|]. intros q'. simpl.
  destruct (decide (q' = q)) as [->|Hne].
  - right. left. split; [done|]. by rewrite lookup_delete_eq.
  - rewrite lookup_delete_ne by done. destruct (Hn q') as [E|[[? _]|E]]; [by left|done|by right; right].
Qed.
Lemma tidied_linked t q rel :
  tidied (Some q) t → replaced q rel → tidied None (set_nodes <[q := NLink rel]> t).
Proof.
  intros [Hf Hh Hl Hn] Hr. split; [done..|]. intros q'. simpl.
  destruct (decide (q' = q)) as [->|Hne].
  - right. right. split; [by apply Hl|]. exists rel. by rewrite lookup_insert_eq.
  - rewrite lookup_insert_ne by done. destruct (Hn q') as [E|[[? _]|E]]; [by left|congruence|by right; right].
Qed.

(** The link [tidy_file] puts in the place of a file. *)
Lemma link_replaces key infos target p date q :
  m !! key = Some infos → extreme infos = Some target → (p, date) ∈ infos → date ≠ target.2 → p ≠ target.1 →
  listed p q → replaced q (relative_path_with_same_root p target.1).
Proof.
  intros Hk Hx Hin Hdate Hp (names & s & d & -> & -> & Hd & Hl).
  pose proof (extreme_in _ _ Hx) as Hint. destruct target as [pt dt]. simpl in *.
  destruct (Hm _ _ _ _ Hk Hin) as (_ & z & c & b & _ & Hf & -> & ->).
  destruct (Hm _ _ _ _ Hk Hint) as (_ & zt & ct & bt & (nt & st & dt' & -> & _ & _ & _) & Hft & Ehash & ->).
  destruct (Hft) as [Hlt Hzt]. assert (ct = c) as -> by (by eapply (Hhash zt z); [done|apply Hf|]).
  destruct (kept_avoids _ _ _ _ _ _ _ _ Hk Hx eq_refl eq_refl (wf_here _ Hwf) Hlt Hzt) as [Hls Hs].
  exists d, s, z, zt, c, b, bt. split; [done|]. split; [done|].
  split; [by apply (last_step names s d z c b)|]. split; [apply Hf|]. split; [|done].
  eapply (relative_leads spared t0 root names (nt ++ [st]) s d zt); try done.
  - intros Hz. by apply (wf_node _ Hwf _ (mk_is_Some _ _ Hzt)).
  - intros y Hy Hyf. destruct Hf as [Hfl Hfz]. rewrite (leads_det _ _ _ _ _ _ _ Hy Hfl) in Hyf.
    by apply (wf_node _ Hwf _ (mk_is_Some _ _ Hfz)).
Qed.

(** However a call ends, the tree is tidied, and nothing is missing when it ends
    well. *)
Definition fair {A} (out : Res A * Env TidyManager) : Prop :=
  map_cache (state out.2) = m ∧
  ∃ lost, tidied lost (tree (state out.2)) ∧ (∀ a, out.1 = Ok a → lost = None).
Definition sound (w : Env TidyManager) : Prop := map_cache (state w) = m ∧ tidied None (tree (state w)).

Lemma fair_bind {A B} (f : IO TidyManager A) (k : A → IO TidyManager B) w :
  fair (f w) → (∀ a w', f w = (Ok a, w') → sound w' → fair (k a w')) → fair ((f ≫= k) w).
Proof.
  intros (Hc & lost & Ht & Hok) Hk. unfold mbind, IO_mbind, bind.
  destruct (f w) as [[a|e|z] w1] eqn:E; simpl in *; [|by split; [|exists lost]..].
  apply Hk; [done|]. specialize (Hok a eq_refl). subst lost. done.
Qed.
Lemma fair_ret {A} (a : A) w : sound w → fair (ret a w).
Proof. intros [? ?]. by split; [|exists None]. Qed.
Lemma for_each_fair {A} (l : list A) body w :
  sound w → (∀ x w, x ∈ l → sound w → fair (body x w)) → fair (for_each l body w).
Proof.
  revert w. induction l as [|x l IH]; intros w Hw Hb; [by apply fair_ret|].
  apply (fair_bind (body x) (λ _, for_each l body)); [apply Hb; [by left|done]|].
  intros _ w' _ Hw'. apply IH; [done|]. intros. apply Hb; [by right|done].
Qed.

Lemma on_tree_run {A} (f : Tree → (Error + A) * Tree) w :
  map_cache (state (on_tree f w).2) = map_cache (state w) ∧
  ((∃ a, (on_tree f w).1 = Ok a ∧ f (tree (state w)) = (inr a, tree (state (on_tree f w).2))) ∨
   ((∀ a, (on_tree f w).1 ≠ Ok a) ∧ (tree (state (on_tree f w).2) = tree (state w) ∨
      ∃ e, f (tree (state w)) = (inl e, tree (state (on_tree f w).2))))).
Proof.
  unfold on_tree, external. destruct (fates w) as [|[|k n|n] fs]; simpl; try (split; [done|]; right; by auto).
  all: destruct (f (tree (state w))) as [[e|a] t']; simpl; split; try done; [right; eauto|left; eauto].
Qed.

Lemma unlink_run p q w :
  sound w → listed p q → doomed q →
  map_cache (state (unlink p w).2) = m ∧
  ((∃ a, (unlink p w).1 = Ok a) ∧ tidied (Some q) (tree (state (unlink p w).2)) ∨
   (∀ a, (unlink p w).1 ≠ Ok a) ∧ tidied None (tree (state (unlink p w).2))).
Proof.
  intros [Hc Ht] Hp Hq. unfold unlink. match goal with |- context [on_tree ?f w] => destruct (on_tree_run f w) as [-> H1] end.
  split; [done|]. destruct H1 as [(a & Ha & Hf)|[Hno [->|(e & Hf)]]]; [left; split; [eauto|]|by right; split|].
  - destruct (entry_of _ p) as [q'|] eqn:E; [|done]. apply (entry_listed _ _ _ _ _ Ht Hp) in E as ->.
    case_bool_decide; [|done]. injection Hf as _ <-. by apply tidied_unlinked.
  - right. split; [done|]. destruct (entry_of _ p) as [q'|]; [case_bool_decide|]; try done; by injection Hf as _ <-.
Qed.

Lemma create_symlink_run rel p q w :
  map_cache (state w) = m → tidied (Some q) (tree (state w)) → listed p q → replaced q rel →
  fair (create_symlink rel p w).
Proof.
  intros Hc Ht Hp Hr. unfold fair, create_symlink.
  match goal with |- context [on_tree ?f w] => destruct (on_tree_run f w) as [-> H1] end.
  split; [done|]. destruct H1 as [(a & Ha & Hf)|[Hno [->|(e & Hf)]]]; [exists None|exists (Some q)..].
  - split; [|done]. destruct (entry_of _ p) as [q'|] eqn:E; [|done]. apply (entry_listed _ _ _ _ _ Ht Hp) in E as ->.
    case_match; [done|]. injection Hf as _ <-. by apply tidied_linked.
  - split; [done|]. by intros a ?%Hno.
  - split; [|by intros a ?%Hno]. destruct (entry_of _ p) as [q'|]; [case_match|]; try done; by injection Hf as _ <-.
Qed.

Lemma tidy_file_fair key infos target file w :
  sound w → m !! key = Some infos → extreme infos = Some target → file ∈ infos →
  fair (tidy_file target file w).
Proof.
  intros Hw Hk Hx Hin. destruct file as [p date]. unfold tidy_file. simpl.
  destruct (bool_decide (date ≠ target.2)) eqn:E1, (bool_decide (p ≠ target.1)) eqn:E2; try by apply fair_ret.
  apply bool_decide_eq_true in E1, E2. simpl.
  destruct (Hm _ _ _ _ Hk Hin) as (q & _ & _ & _ & Hp & _).
  assert (Hq : doomed q) by by exists key, infos, target, p, date.
  destruct (unlink_run p q w Hw Hp Hq) as [Hc Hrun]. unfold mbind, IO_mbind, bind, attempt.
  destruct (unlink p w) as [[a|e|z] w1]; simpl in *.
  - destruct Hrun as [[_ Ht]|[Hno _]]; [|by destruct (Hno a)].
    apply (create_symlink_run _ p q); [done..|]. by eapply link_replaces.
  - destruct Hrun as [[[a ?] _]|[_ Ht]]; [done|]. by apply fair_ret.
  - destruct Hrun as [[[a ?] _]|[_ Ht]]; [done|]. split; [done|]. by exists None.
Qed.

Lemma tidy_group_fair key w : sound w → fair (tidy_group keep_new key w).
Proof.
  intros Hw. unfold tidy_group.
  change (fair ((match map_cache (state w) !! key with
    | None | Some [] => ret tt
    | Some file_infos =>
        match extreme file_infos with
        | None => ret tt
        | Some target => for_each file_infos (tidy_file target)
        end
    end) w)).
  rewrite (proj1 Hw). destruct (m !! key) as [[|i infos]|] eqn:Hk; try by apply fair_ret.
  destruct (extreme (i :: infos)) as [target|] eqn:Hx; [|by apply fair_ret].
  apply for_each_fair; [done|]. intros file w' Hin Hw'. by eapply tidy_file_fair.
Qed.

(** ** What can be read of a tidied tree *)

(** Either the way to a file avoids an entry, or the entry is read on it. *)
Lemma avoids_or_through q d p z c birth :
  d ∈ folders t0 → leads anywhere t0 d p z → nodes t0 !! z = Some (NFile c birth) →
  leads (λ q', Some q ≠ Some q') t0 d p z ∨
  ∃ e s, q = e ++ [s] ∧ e ∈ folders t0 ∧ leads anywhere t0 e [Normal s] z.
Proof.
  intros Hd Hl Hz.
  induction Hl as [d|d k p z Hk _ IH|d s p z Hq Hqd _ IH|d s b birth' Hq _|d s l p z Hq _ Hl IH].
  - left. constructor.
  - destruct IH as [?|?]; [by apply enter_folder|done| |by right]. left. by apply leads_enter.
  - destruct IH as [?|?]; [done..| |by right]. left. by apply leads_folder.
  - destruct (decide (q = d ++ [s])) as [->|Hne]; [right; exists d, s; split; [done|]; split; [done|by eapply leads_file]|].
    left. eapply leads_file; [done|congruence].
  - pose proof (link_last t0 Hwf Hnlf _ _ _ _ _ _ Hd Hq Hl) as ->.
    destruct (decide (q = d ++ [s])) as [->|Hne]; [right; exists d, s; split; [done|]; split; [done|by eapply leads_link]|].
    destruct IH as [?|?]; [done..| |by right]. left. eapply leads_link; [done|congruence|done].
Qed.

(** The contents read at a doomed entry are those of the file that is kept. *)
Lemma doomed_kept lost t q e s z c birth :
  tidied lost t → doomed q → q = e ++ [s] → e ∈ folders t0 → leads anywhere t0 e [Normal s] z →
  nodes t0 !! z = Some (NFile c birth) → ∃ p, reads anywhere t p c.
Proof.
  intros Ht (key & infos & [pt dt] & p & date & Hk & Hx & Hin & _ & names & s' & e' & -> & -> & He' & Hl') Eq He Hl Hz.
  apply app_inj_tail in Eq as [<- <-].
  destruct (Hm _ _ _ _ Hk Hin) as (_ & z1 & c1 & b1 & _ & Hf1 & -> & ->).
  destruct (last_step _ _ _ _ _ _ Hl' He' Hf1) as [Hlast _].
  rewrite (leads_det _ _ _ _ _ _ _ Hlast Hl) in Hf1. destruct Hf1 as [_ Hz1]. simplify_eq.
  destruct (Hm _ _ _ _ Hk (extreme_in _ _ Hx)) as (_ & z2 & c2 & b2 & _ & [Hl2 Hz2] & Ehash & Edate).
  assert (c2 = c) as -> by (by eapply (Hhash z2 z)).
  destruct (kept_avoids _ _ _ _ _ _ _ _ Hk Hx eq_refl Edate (wf_here _ Hwf) Hl2 Hz2) as [Hls Hs].
  exists pt, z2, b2. rewrite (spared_file _ _ _ Ht Hs), (td_here _ _ Ht). split; [|done]. by eapply spared_way.
Qed.

Lemma tidied_reads lost t p c : tidied lost t → reads (λ q, lost ≠ Some q) t0 p c → reads anywhere t p c.
Proof.
  intros Ht (z & b & Hl & Hz). destruct (tidied_leads _ _ _ _ _ _ _ Ht (wf_here _ Hwf) Hl Hz) as (z' & b' & ? & ?).
  exists z', b'. by rewrite (td_here _ _ Ht).
Qed.
Lemma tidied_somewhere lost t p c : tidied lost t → reads anywhere t0 p c → ∃ p', reads anywhere t p' c.
Proof.
  intros Ht (z & b & Hl & Hz). destruct lost as [q|].
  - destruct (avoids_or_through q _ _ _ _ _ (wf_here _ Hwf) Hl Hz) as [Hav|(e & s & -> & He & Hle)].
    + exists p. eapply tidied_reads; [done|by exists z, b].
    + eapply doomed_kept; [done|by apply (td_lost _ _ Ht)|done..].
  - exists p. eapply tidied_reads; [done|]. exists z, b. split; [|done]. by eapply leads_mono.
Qed.

End Tidying.

(** ** The walk and the collection *)

Lemma on_tree_reads {A} (f : Tree → (Error + A) * Tree) :
  (∀ t, (f t).2 = t) → Preserves (λ s, s) (on_tree f).
Proof.
  intros Hf. apply external_preserves; [done|]. intros [t c]. simpl. specialize (Hf t).
  destruct (f t) as [r t']. simpl in *. by subst.
Qed.
#[export] Instance path_is_dir_reads p : Preserves (λ s, s) (path_is_dir p).
Proof.
  apply bind_preserves; [apply attempt_preserves, on_tree_reads; intros t; by case_match|].
  intros r. apply ret_preserves.
Qed.
#[export] Instance read_dir_reads p : Preserves (λ s, s) (read_dir p).
Proof. apply on_tree_reads. intros t. by repeat case_match. Qed.
#[export] Instance open_file_reads p : Preserves (λ s, s) (open_file p).
Proof. apply on_tree_reads. intros t. by repeat case_match. Qed.
#[export] Instance created_reads p : Preserves (λ s, s) (created p).
Proof. apply on_tree_reads. intros t. by repeat case_match. Qed.
Lemma reads_state {A} (f : IO TidyManager A) `{!Preserves (λ s, s) f} w r w' :
  f w = (r, w') → state w' = state w.
Proof. intros E. pose proof (preserves (f := λ s : TidyManager, s) (m := f) w) as Hs. by rewrite E in Hs. Qed.

Lemma path_is_dir_true p w w' :
  path_is_dir p w = (Ok true, w') → ∃ d, stat (tree (state w)) p = Some d ∧ d ∈ folders (tree (state w)).
Proof.
  intros (r & w1 & [(b & -> & E)|(e & -> & E)]%attempt_ok & E2)%bind_ok; [|done].
  apply external_ok in E. injection E2 as -> ->. simpl in E.
  destruct (stat _ p) as [d|]; [|done]. exists d. case_bool_decide; [done|by simplify_eq].
Qed.

#[export] Instance walk_entries_reads walk p names result :
  (∀ p, Preserves (λ s, s) (walk p)) → Preserves (λ s, s) (walk_entries walk p names result).
Proof.
  intros Hw. revert result. induction names as [|name names IH]; intros result; [apply ret_preserves|].
  apply bind_preserves; [apply _|]. intros [|]; [|apply IH]. by apply bind_preserves.
Qed.
#[export] Instance path_walk_reads depth p : Preserves (λ s, s) (path_walk depth p).
Proof.
  revert p. induction depth as [|depth IH]; intros p; simpl; [apply panic_preserves|].
  apply bind_preserves; [apply _|]. intros [|]; [|apply ret_preserves].
  apply bind_preserves; apply _.
Qed.

(** Every path the walk returns is an entry below its root. *)
Lemma path_walk_listed root depth names w ps w' :
  path_walk depth (root ++ (Normal <$> names)) w = (Ok ps, w') →
  ∀ p, p ∈ ps → ∃ q, listed (tree (state w)) root p q.
Proof.
  revert names w ps w'. induction depth as [|depth IH]; intros names w ps w' E; [done|]. simpl in E.
  apply bind_ok in E as (dir & w1 & E1 & E). pose proof (reads_state _ _ _ _ E1) as Hs1.
  destruct dir; [|injection E as <- <-; by intros p ?%elem_of_nil].
  apply path_is_dir_true in E1 as (d & Hd & Hdf). apply follow_leads in Hd.
  apply bind_ok in E as (entries & w2 & E2 & E). pose proof (reads_state _ _ _ _ E2) as Hs2. clear E2.
  assert (Hentry : ∀ s, listed (tree (state w)) root ((root ++ (Normal <$> names)) ++ [Normal s]) (d ++ [s])).
  { intros s. exists names, s, d. by rewrite fmap_app, app_assoc. }
  assert (Hst : state w2 = state w) by congruence. clear Hs1 Hs2.
  assert (Hnil : ∀ p, p ∈ @nil (list Component) → ∃ q, listed (tree (state w)) root p q) by by intros p ?%elem_of_nil.
  revert Hnil w2 Hst E. generalize (@nil (list Component)).
  induction entries as [|s entries IHe]; intros result Hres w2 Hst E; [injection E as <- <-; done|].
  simpl in E. apply bind_ok in E as (sub & w3 & E3 & E). apply reads_state in E3; [|apply _]. destruct sub.
  - apply bind_ok in E as (below & w4 & E4 & E). pose proof (reads_state _ _ _ _ E4) as Hs4.
    rewrite <- app_assoc in E4. change [Normal s] with (Normal <$> [s]) in E4. rewrite <- fmap_app in E4.
    assert (Hbelow := IH _ _ _ _ E4). rewrite E3, Hst in Hbelow.
    eapply IHe; [|by rewrite Hs4, E3|exact E]. intros p [?|?]%elem_of_app; auto.
  - eapply IHe; [|by rewrite E3|exact E].
    intros p [Hin|Hin]%elem_of_app; [auto|]. apply list_elem_of_singleton in Hin as ->. eauto.
Qed.

Section Walking.
Context `{C : Codec} `{P : Platform}.

Lemma get_hash256_from_file_whole p w :
  get_hash256_from_file p w = (b ← open_file p; ret (blake3_hex b)) w.
Proof.
  unfold get_hash256_from_file, mbind, IO_mbind, bind. destruct (open_file p w) as [[b|e|z] w1]; [|done..].
  by rewrite concat_chunks.
Qed.

(** A file that is collected goes to the group of its contents. *)
Lemma collector_keeps t0 root p q :
  listed t0 root p q →
  Keeps (λ s, tree s = t0 ∧ collected t0 root (map_cache s)) (file_info_collector p).
Proof.
  intros Hp w [Ht Hc]. unfold file_info_collector, mbind, IO_mbind, bind.
  destruct (map_err _ (get_hash256_from_file p) w) as [[hash|e|z] w1] eqn:E1;
    pose proof (reads_state _ _ _ _ E1) as Hs1; [|by simpl; rewrite Hs1..].
  apply map_err_ok in E1. rewrite get_hash256_from_file_whole in E1. apply bind_ok in E1 as (c & w0 & E0 & Eret). injection Eret as <- <-.
  destruct (map_err _ (created p) w0) as [[birth|e|z] w2] eqn:E2;
    pose proof (reads_state _ _ _ _ E2) as Hs2; [|by simpl; rewrite Hs2, Hs1..].
  apply map_err_ok, external_ok in E2. apply external_ok in E0. simpl in *.
  rewrite Hs2, Hs1, Ht in *.
  destruct (stat t0 p) as [z|] eqn:Ez; [|done]. simpl in *. unfold file_at in *.
  destruct (nodes t0 !! z) as [[c' b'|]|] eqn:En; simplify_eq. split; [done|].
  intros key infos p' date Hk Hin. destruct (decide (key = blake3_hex c)) as [->|Hne].
  - rewrite lookup_insert_eq in Hk. injection Hk as <-. apply elem_of_app in Hin as [Hin|Hin].
    + destruct (map_cache (state w) !! blake3_hex c) eqn:Eo; simpl in Hin; [|by apply elem_of_nil in Hin].
      by eapply Hc.
    + apply list_elem_of_singleton in Hin. simplify_eq. exists q, z, c, birth.
      split; [done|]. split; [|done]. split; [|done]. by apply follow_leads in Ez.
  - rewrite lookup_insert_ne in Hk by done. by eapply Hc.
Qed.

(** What is collected before a group is looked at. *)
Lemma collection_keeps t0 root ps :
  (∀ p, p ∈ ps → ∃ q, listed t0 root p q) →
  Keeps (λ s, tree s = t0 ∧ collected t0 root (map_cache s))
    (for_each ps (λ p, ignore (file_info_collector p))).
Proof.
  induction ps as [|p ps IH]; intros Hps; [apply ret_keeps|].
  apply bind_keeps; [|intros _; apply IH; intros; apply Hps; by right].
  destruct (Hps p) as [q Hp]; [by left|]. apply ignore_keeps. by eapply collector_keeps.
Qed.

(** However [tidy] ends, the tree it leaves is tidied. *)
Lemma tidy_tidied keys root keep_new w :
  let t0 := tree (state w) in
  map_cache (state w) = ∅ → wf_tree t0 → no_linked_folders t0 → hash_injective_on t0 →
  let '(r, w') := tidy keys root keep_new w in
  ∃ m lost, collected t0 root m ∧ tidied t0 root keep_new m lost (tree (state w')) ∧
    (∀ a, r = Ok a → lost = None).
Proof.
  intros t0 Hempty Hwf Hnlf Hhash. unfold tidy.
  assert (Hnone : collected t0 root ∅) by by intros key infos p date ?%lookup_empty_Some.
  unfold mbind, IO_mbind, bind, get_state.
  destruct (path_walk _ root w) as [[ps|e|z] w1] eqn:E1; pose proof (reads_state _ _ _ _ E1) as Hs1;
    [|by exists ∅, None; rewrite Hs1; split; [|split; [apply tidied_refl|]]..].
  rewrite <- (app_nil_r root) in E1. pose proof (path_walk_listed root _ [] w _ _ E1) as Hps.
  pose proof (collection_keeps t0 root ps Hps w1) as Hk. rewrite Hs1, Hempty in Hk.
  specialize (Hk (conj eq_refl Hnone)).
  destruct (for_each ps _ w1) as [[u|e|z] w2]; destruct Hk as [Ht2 Hc2]; simpl in Ht2, Hc2;
    [|by exists ∅, None; rewrite Ht2; split; [|split; [apply tidied_refl|]]..].
  assert (Hw2 : sound t0 root keep_new (map_cache (state w2)) w2) by (split; [done|]; rewrite Ht2; apply tidied_refl).
  pose proof (for_each_fair t0 root keep_new _ (keys (map_cache (state w2))) (tidy_group keep_new) w2 Hw2
    (λ key w' _, tidy_group_fair t0 Hwf Hnlf root keep_new Hhash _ Hc2 key w')) as (_ & lost & Hl & Hok).
  destruct (for_each _ _ w2) as [r w']. by exists (map_cache (state w2)), lost.
Qed.

(** C20 (safety): tidying a tree that has no symbolic link to a folder loses no
    contents; with such a link it may, see [linked_folder_breaks].  When it ends well, every path that
    read as some contents before, through whatever links, reads as the same
    contents afterwards.  When it fails or dies on the way, at most one entry is
    missing, and its contents can still be read elsewhere. *)
Theorem tidy_keeps_contents keys root keep_new w :
  let t0 := tree (state w) in
  map_cache (state w) = ∅ → wf_tree t0 → no_linked_folders t0 → hash_injective_on t0 →
  let '(r, w') := tidy keys root keep_new w in
  let t := tree (state w') in
  (r = Ok tt → ∀ p c, reads anywhere t0 p c → reads anywhere t p c) ∧
  (∃ lost, ∀ p c, reads (λ q, lost ≠ Some q) t0 p c → reads anywhere t p c) ∧
  (∀ p c, reads anywhere t0 p c → ∃ p', reads anywhere t p' c).
Proof.
  intros t0 Hempty Hwf Hnlf Hhash. pose proof (tidy_tidied keys root keep_new w Hempty Hwf Hnlf Hhash) as Ht.
  destruct (tidy keys root keep_new w) as [r w']. destruct Ht as (m & lost & Hc & Ht & Hok). split; [|split].
  - intros ->. rewrite (Hok tt eq_refl) in Ht. intros p c (z & b & Hl & Hz).
    eapply tidied_reads; [done..|]. exists z, b. split; [|done]. by eapply leads_mono.
  - exists lost. intros p c. by eapply tidied_reads.
  - intros p c. by eapply tidied_somewhere.
Qed.
End Walking.

(** ** A directory to look at *)

Definition demo_file_x : path := ["a"; "x"].
Definition demo_file_y : path := ["b"; "y"].
(** [a/x] and [b/y] have the same contents; [l] is a link to the first. *)
Definition demo_tree : Tree := mkTree
  {[demo_file_x := NFile (str_bytes "hi") 101500; demo_file_y := NFile (str_bytes "hi") 202300;
    ["l"] := NLink [Normal "a"; Normal "x"]]}
  {[[]; ["a"]; ["b"]]} [].
Definition demo_keys (m : gmap string (list (list Component * string))) : list string := (map_to_list m).*1.
Definition demo_tidy (fs : list Fate) : Env TidyManager := mkEnv (TidyManager_new demo_tree) fs 0 0.

Lemma demo_nodes q n : nodes demo_tree !! q = Some n →
  q = demo_file_x ∧ n = NFile (str_bytes "hi") 101500 ∨ q = demo_file_y ∧ n = NFile (str_bytes "hi") 202300 ∨
  q = ["l"] ∧ n = NLink [Normal "a"; Normal "x"].
Proof.
  unfold demo_tree. cbn [nodes]. rewrite !lookup_insert_Some, lookup_singleton_Some. naive_solver.
Qed.
Lemma demo_tree_wf : wf_tree demo_tree.
Proof.
  split.
  - by apply (bool_decide_unpack _).
  - by apply (bool_decide_unpack _).
  - intros d. unfold demo_tree. cbn [folders]. rewrite !elem_of_union, !elem_of_singleton.
    intros [[->| ->]| ->]; vm_compute; naive_solver.
  - intros q [n Hn]. apply demo_nodes in Hn as [[-> _]|[[-> _]|[-> _]]]; by apply (bool_decide_unpack (_ ∉ _)).
Qed.
Lemma demo_no_linked_folders : no_linked_folders demo_tree.
Proof.
  intros d s l q Hl Hq. apply demo_nodes in Hl as [[_ ?]|[[_ ?]|[E [= ->]]]]; [done..|].
  apply (app_inj_tail d [] s "l") in E as [-> ->].
  assert (H2 : leads anywhere demo_tree [] [Normal "a"; Normal "x"] demo_file_x).
  { apply leads_folder; [done|by apply (bool_decide_unpack _)|]. by eapply (leads_file _ _ ["a"] "x"). }
  rewrite (leads_det _ _ _ _ _ _ _ Hq H2). by apply (bool_decide_unpack (_ ∉ _)).
Qed.
Lemma demo_hash : hash_injective_on demo_tree.
Proof. intros q q' c c' b b' _ _ E. apply (f_equal str_bytes) in E. by rewrite !str_bytes_str in E. Qed.

(** A clock whose dates differ from second to second. *)
Definition dated_platform : Platform := {|
  fmt_compact := λ t, pretty (t / 1000)%N;
  fmt_datetime := λ t, pretty (t / 1000)%N;
  nanoid8 := nanoid8;
  uuid_v4 := uuid_v4;
  sql_like := sql_like
|}.
Abbreviation tidy_demo := (tidy (P := dated_platform) demo_keys []).

(** The newer of the two stays, the older becomes a link to it; the link that
    was there is replaced too. *)
Example demo_tidied : tree (state (tidy_demo true (demo_tidy [])).2) = set_nodes (λ _,
  {[demo_file_x := NLink [ParentDir; Normal "b"; Normal "y"]; demo_file_y := NFile (str_bytes "hi") 202300;
    ["l"] := NLink [CurDir; Normal "b"; Normal "y"]]}) demo_tree.
Proof. vm_compute. reflexivity. Qed.

(** Files made in the same second are left alone, whatever their contents. *)
Example demo_same_second :
  tree (state (tidy (P := demo_platform) demo_keys [] true (demo_tidy [])).2) = demo_tree.
Proof. vm_compute. reflexivity. Qed.

(** A failure of the first link: its file is gone. *)
Definition demo_fates : list Fate := replicate 18 Pass ++ [FailWith Other 0].
Example demo_lost_name : let '(r, w) := tidy_demo true (demo_tidy demo_fates) in
  r = Err (os_error Other) ∧ nodes (tree (state w)) !! demo_file_x = None.
Proof. vm_compute. done. Qed.

(** Why links to folders are excluded: the link that is made below one leads
    nowhere, and both names of the file are lost. *)
Definition linked_tree : Tree := mkTree
  {[["a"; "s"] := NLink [ParentDir; Normal "o"; Normal "p"]; ["a"; "k"] := NFile (str_bytes "hi") 202300;
    ["o"; "p"; "f"] := NFile (str_bytes "hi") 101500]}
  {[[]; ["a"]; ["o"]; ["o"; "p"]]} [].
Example linked_folder_breaks :
  let '(r, w) := tidy (P := dated_platform) demo_keys [Normal "a"] true (mkEnv (TidyManager_new linked_tree) [] 0 0) in
  r = Ok tt ∧ nodes (tree (state w)) !! ["o"; "p"; "f"] = Some (NLink [ParentDir; Normal "k"]) ∧
  stat (tree (state w)) [Normal "o"; Normal "p"; Normal "f"] = None.
Proof. vm_compute. done. Qed.

Lemma tidy_keeps_contents_witness :
  let w := demo_tidy demo_fates in
  let '(r, w') := tidy_demo true w in
  let t := tree (state w') in
  (r = Ok tt → ∀ p c, reads anywhere demo_tree p c → reads anywhere t p c) ∧
  (∃ lost, ∀ p c, reads (λ q, lost ≠ Some q) demo_tree p c → reads anywhere t p c) ∧
  (∀ p c, reads anywhere demo_tree p c → ∃ p', reads anywhere t p' c).
Proof.
  exact (tidy_keeps_contents (P := dated_platform) demo_keys [] true (demo_tidy demo_fates) eq_refl demo_tree_wf
    demo_no_linked_folders demo_hash).
Defined.
