(* ===== verification/Dedup.v ===== *)
(** * What deduplicating a directory achieves ([linabase/src/service.rs],
    [TidyManager])

    When nothing fails, [tidy] finds every file below the directory, keeps of
    each contents the files of the one date, the latest or the earliest, and
    leaves a symbolic link in the place of every other. *)
From S2P Require Import Prelude Io Runs Strs World Disk Block Tidy.

(** ** The file that is kept *)

Definition beats (keep_new : bool) : string → string → bool := if keep_new then newer else older.

Lemma ltb_leb a b : String.ltb a b = negb (String.leb b a).
Proof. unfold String.ltb, String.leb. rewrite String.compare_antisym. by destruct (b ?= a)%string. Qed.
Lemma ltb_false a b : String.ltb a b = false ↔ String.le b a.
Proof. rewrite ltb_leb, negb_false_iff. unfold String.le. by rewrite Is_true_true. Qed.

(** What one date does not beat, a date that beats the other does not lose to. *)
Lemma beats_trans keep_new x e y :
  beats keep_new x e = false → beats keep_new y e = true → beats keep_new x y = false.
Proof.
  intros Hx Hy. apply not_false_iff_true in Hy.
  destruct keep_new; simpl in *; unfold newer, older in *; rewrite ltb_false in *.
  - destruct (total String.le x y) as [?|H]; [done|]. by destruct Hy; transitivity x.
  - destruct (total String.le y x) as [?|H]; [done|]. by destruct Hy; transitivity x.
Qed.
Lemma beats_irrefl keep_new x : beats keep_new x x = false.
Proof. by destruct keep_new; apply ltb_false. Qed.

Lemma extreme_best keep_new infos target i :
  extreme keep_new infos = Some target → i ∈ infos → beats keep_new i.2 target.2 = false.
Proof.
  unfold extreme, find_extreme_file. fold (beats keep_new). destruct infos as [|first rest]; [done|].
  intros [= <-] Hi. assert (i = first ∨ i ∈ rest ∨ beats keep_new i.2 first.2 = false) as Hor
    by (apply elem_of_cons in Hi as [->|?]; auto). clear Hi.
  revert first Hor. induction rest as [|j rest IH]; intros first Hor; simpl.
  - destruct Hor as [->|[Hi|?]]; [apply beats_irrefl|by apply elem_of_nil in Hi|done].
  - apply IH. destruct (beats keep_new j.2 first.2) eqn:E.
    + destruct Hor as [->|[[->|?]%elem_of_cons|Hb]]; [|by left|by right; left|].
      * right. right. by apply (beats_trans keep_new _ first.2); [apply beats_irrefl|].
      * right. right. by apply (beats_trans keep_new _ first.2).
    + destruct Hor as [->|[[->|?]%elem_of_cons|Hb]]; auto.
Qed.

(** ** Looking things up *)

(** A way without links is followed as far as it goes. *)
Lemma plain_follow_app t h d p e p2 :
  leads (λ _, False) t d p e → follow t h d (p ++ p2) = follow t h e p2.
Proof.
  induction 1 as [d|d k p q Hk _ IH|d s p q Hq Hqd _ IH|d s b birth Hq Hs|d s l p q Hq Hs _ IH]; [done|..|done|done].
  - rewrite <- IH. cbn [app]. rewrite follow_cons. by destruct k as [| | |s]; try destruct (Hk s).
  - rewrite <- IH. cbn [app]. by rewrite follow_cons, Hq, bool_decide_true.
Qed.
Lemma plain_follow t h d p e : leads (λ _, False) t d p e → follow t h d p = Some e.
Proof. intros Hl. rewrite <- (app_nil_r p), (plain_follow_app _ _ _ _ _ _ Hl). by destruct h. Qed.
Lemma stat_folder t p d :
  wf_tree t → no_linked_folders t → leads anywhere t (here t) p d → d ∈ folders t → stat t p = Some d.
Proof. intros Hwf Hnlf Hl Hd. apply plain_follow. by apply (folder_way t Hwf Hnlf anywhere); [apply wf_here|..]. Qed.

Lemma child_snoc d s : child_of d (d ++ [s]) = Some s.
Proof. unfold child_of. by rewrite parent_of_snoc, bool_decide_true, last_snoc. Qed.
Lemma names_in_all t d s : d ++ [s] ∈ folders t ∨ is_Some (nodes t !! (d ++ [s])) → s ∈ names_in t d.
Proof.
  intros H. unfold names_in. apply elem_of_app. destruct H as [H|[n H]]; [left|right].
  - apply list_elem_of_omap. exists (d ++ [s]). split; [by apply elem_of_elements|apply child_snoc].
  - apply list_elem_of_omap. exists (d ++ [s]). split; [|apply child_snoc].
    apply list_elem_of_fmap. exists (d ++ [s], n). split; [done|]. by apply elem_of_map_to_list.
Qed.

(** A folder is no deeper than there are folders. *)
Lemma folder_prefix t d e : wf_tree t → d ++ e ∈ folders t → d ∈ folders t.
Proof.
  intros Hwf. induction e as [|s e IH] using rev_ind; [by rewrite app_nil_r|].
  rewrite app_assoc. intros H%(wf_parent _ Hwf). rewrite parent_of_snoc in H. auto.
Qed.
Lemma folder_depth t e : wf_tree t → e ∈ folders t → length e < size (folders t).
Proof.
  intros Hwf He. assert (Hsub : list_to_set ((λ k, take k e) <$> seq 0 (S (length e))) ⊆ folders t).
  { intros d (k & -> & _)%elem_of_list_to_set%list_elem_of_fmap.
    apply (folder_prefix t _ (drop k e)); [done|]. by rewrite take_drop. }
  apply subseteq_size in Hsub. rewrite size_list_to_set in Hsub.
  - by rewrite length_fmap, length_seq in Hsub.
  - apply NoDup_fmap_2_strong; [|apply NoDup_seq]. intros i j Hi Hj Eij.
    apply elem_of_seq in Hi, Hj. apply (f_equal length) in Eij. rewrite !length_take in Eij. lia.
Qed.

(** ** The walk *)

(** A run that nothing disturbs, and after which nothing is ahead either. *)
Definition does {A} (f : IO TidyManager A) (w : Env TidyManager) (Q : A → TidyManager → Prop) : Prop :=
  ∃ a w', f w = (Ok a, w') ∧ calm (fates w') ∧ Q a (state w').

Lemma does_bind {A B} (f : IO TidyManager A) (k : A → IO TidyManager B) w Q Q' :
  does f w Q → (∀ a w', calm (fates w') → Q a (state w') → does (k a) w' Q') → does (f ≫= k) w Q'.
Proof. intros (a & w1 & E & Hc & HQ) Hk. destruct (Hk a w1 Hc HQ) as (b & w2 & E2 & ?). exists b, w2. by rewrite (bind_step f k w a w1). Qed.
Lemma does_ret {A} (a : A) w (Q : A → TidyManager → Prop) : calm (fates w) → Q a (state w) → does (ret a) w Q.
Proof. intros. by exists a, w. Qed.
Lemma does_mono {A} (f : IO TidyManager A) w (Q Q' : A → TidyManager → Prop) :
  does f w Q → (∀ a s, Q a s → Q' a s) → does f w Q'.
Proof. intros (a & w' & ? & ? & ?) Hm. exists a, w'. auto. Qed.

Lemma on_tree_calm {A} (f : Tree → (Error + A) * Tree) w :
  calm (fates w) → ∃ fs, calm fs ∧
    on_tree f w = (match (f (tree (state w))).1 with inl e => Err e | inr a => Ok a end,
                   mkEnv (set_tree (f (tree (state w))).2 (state w)) fs (clock w) (draws w)).
Proof.
  intros Hc. unfold on_tree. match goal with |- context [external ?e ?p ?g w] => destruct (external_calm e p g w Hc) as (fs & Hfs & ->) end.
  exists fs. split; [done|]. by destruct (f (tree (state w))).
Qed.
Lemma set_tree_id s : set_tree (tree s) s = s.
Proof. by destruct s. Qed.
Lemma on_tree_does {A} (f : Tree → (Error + A) * Tree) w a t' :
  calm (fates w) → f (tree (state w)) = (inr a, t') → does (on_tree f) w (λ b s, b = a ∧ s = set_tree t' (state w)).
Proof. intros Hc E. destruct (on_tree_calm f w Hc) as (fs & Hfs & E2). rewrite E in E2. eexists _, _. split; [exact E2|done]. Qed.

Definition is_folder (t : Tree) (p : list Component) : bool :=
  match stat t p with Some q => bool_decide (q ∈ folders t) | None => false end.
Lemma path_is_dir_does p w :
  calm (fates w) → does (path_is_dir p) w (λ b s, b = is_folder (tree (state w)) p ∧ s = state w).
Proof.
  intros Hc. unfold does, path_is_dir, is_folder, mbind, IO_mbind, bind, attempt.
  match goal with |- context [on_tree ?f w] => destruct (on_tree_calm f w Hc) as (fs & Hfs & ->) end.
  destruct (stat _ p) as [q|]; simpl; rewrite set_tree_id; eexists _, _; split; [reflexivity|done|reflexivity|done].
Qed.
Lemma read_dir_does p w d :
  calm (fates w) → stat (tree (state w)) p = Some d → d ∈ folders (tree (state w)) →
  does (read_dir p) w (λ l s, l = names_in (tree (state w)) d ∧ s = state w).
Proof.
  intros Hc Hs Hd. eapply does_mono; [apply on_tree_does; [done|]|].
  - rewrite Hs, bool_decide_true by done. reflexivity.
  - intros l s [-> ->]. by rewrite set_tree_id.
Qed.

(** The loop over the entries: what each entry contributes is in the result. *)
Lemma walk_entries_does walk p names result w st (G : string → list (list Component) → Prop) :
  calm (fates w) → state w = st →
  (∀ s w, s ∈ names → is_folder (tree st) (p ++ [Normal s]) = true → calm (fates w) → state w = st →
     does (walk (p ++ [Normal s])) w (λ below s', G s below ∧ s' = st)) →
  does (walk_entries walk p names result) w (λ ps s',
    s' = st ∧ result ⊆ ps ∧
    ∀ s, s ∈ names → if is_folder (tree st) (p ++ [Normal s]) then ∃ below, G s below ∧ below ⊆ ps
                     else p ++ [Normal s] ∈ ps).
Proof.
  intros Hc Hst Hw. revert result w Hc Hst. induction names as [|s names IH]; intros result w Hc Hst; simpl.
  - apply does_ret; [done|]. split; [done|]. split; [done|]. by intros s ?%elem_of_nil.
  - eapply does_bind; [by apply path_is_dir_does|]. intros sub w1 Hc1 [-> Hs1]. rewrite Hst in *.
    destruct (is_folder (tree st) (p ++ [Normal s])) eqn:E.
    + eapply does_bind; [apply (Hw s w1); [by left|done..]|]. intros below w2 Hc2 [HG Hs2].
      eapply does_mono; [apply IH; [intros; apply Hw; [by right|done..]|done..]|].
      intros ps s' (-> & Hsub & Hall). split; [done|]. split; [set_solver|].
      intros s1 [->|Hs]%elem_of_cons; [rewrite E; exists below; set_solver|by apply Hall].
    + eapply does_mono; [apply IH; [intros; apply Hw; [by right|done..]|done..]|].
      intros ps s' (-> & Hsub & Hall). split; [done|]. split; [set_solver|].
      intros s1 [->|Hs]%elem_of_cons; [rewrite E; set_solver|by apply Hall].
Qed.

Section Walk.
Context (t : Tree) (Hwf : wf_tree t) (Hnlf : no_linked_folders t) (root : list Component).

(** The walk finds every file below a folder: no folder is deeper than
    [depth] more. *)
Lemma path_walk_finds depth names d w :
  calm (fates w) → tree (state w) = t → d ∈ folders t → leads anywhere t (here t) (root ++ (Normal <$> names)) d →
  (∀ e, e ∈ folders t → length e < length d + depth) →
  does (path_walk depth (root ++ (Normal <$> names))) w (λ ps s', s' = state w ∧
    ∀ below s, d ++ below ∈ folders t → is_Some (nodes t !! (d ++ below ++ [s])) →
      root ++ (Normal <$> names ++ below ++ [s]) ∈ ps).
Proof.
  revert names d w. induction depth as [|depth IH]; intros names d w Hc Ht Hd Hl Hdeep.
  { exfalso. specialize (Hdeep d Hd). lia. }
  assert (Hstat : stat t (root ++ (Normal <$> names)) = Some d) by by apply stat_folder.
  simpl. eapply does_bind; [by apply path_is_dir_does|]. intros dir w1 Hc1 [-> Hs1].
  unfold is_folder. rewrite Ht, Hstat, bool_decide_true by done.
  eapply does_bind; [apply (read_dir_does _ _ d); by rewrite ?Hs1, ?Ht|]. intros l w2 Hc2 [-> Hs2].
  rewrite Hs1 in Hs2. rewrite Hs1, Ht.
  assert (Esnoc : ∀ s, (root ++ (Normal <$> names)) ++ [Normal s] = root ++ (Normal <$> names ++ [s])).
  { intros s. by rewrite fmap_app, app_assoc. }
  assert (Hsub : ∀ s e, is_folder t (root ++ (Normal <$> names ++ [s])) = true →
    stat t (root ++ (Normal <$> names ++ [s])) = Some e → e = d ++ [s] ∧ d ++ [s] ∈ folders t ∧
      leads anywhere t (here t) (root ++ (Normal <$> names ++ [s])) (d ++ [s])).
  { intros s e Hf Hs. unfold is_folder in Hf. rewrite Hs in Hf. apply bool_decide_eq_true in Hf.
    apply follow_leads in Hs. rewrite <- Esnoc in Hs |- *.
    destruct (leads_split anywhere t (here t) (root ++ (Normal <$> names)) [Normal s] e Hwf (wf_here _ Hwf))
      as (d' & _ & H1 & H2); [done..|]. rewrite (leads_det _ _ _ _ _ _ _ H1 Hl) in H2.
    assert (e = d ++ [s]) as -> by exact (names_plain t Hwf Hnlf anywhere d [s] e Hd H2 Hf). done. }
  eapply does_mono.
  - apply (walk_entries_does _ _ _ _ _ (state w) (λ s ps, ∀ below s1, d ++ s :: below ∈ folders t →
      is_Some (nodes t !! (d ++ s :: below ++ [s1])) → root ++ (Normal <$> names ++ s :: below ++ [s1]) ∈ ps)); [done|congruence|].
    intros s w3 _ Hf Hc3 Hs3. rewrite Esnoc in Hf |- *; rewrite Ht in Hf.
    destruct (stat t (root ++ (Normal <$> names ++ [s]))) as [e|] eqn:E; [|by unfold is_folder in Hf; rewrite E in Hf].
    destruct (Hsub s e Hf E) as (-> & Hdf & Hds).
    eapply does_mono; [apply (IH (names ++ [s]) (d ++ [s])); [done|by rewrite Hs3|done|done|]|].
    + intros e' He'. specialize (Hdeep e' He'). rewrite length_app. simpl. lia.
    + intros ps s' [-> Hps]. split; [|done]. intros below s1 Hb Hn. specialize (Hps below s1).
      rewrite <- !app_assoc in Hps. by apply Hps.
  - intros ps s' (-> & _ & Hall). split; [done|]. intros [|s0 below] s1 Hb Hn.
    + specialize (Hall s1 (names_in_all t d s1 (or_intror Hn))). rewrite Esnoc, Ht in Hall.
      destruct (is_folder t _) eqn:E; [|done]. exfalso.
      destruct (stat t (root ++ (Normal <$> names ++ [s1]))) as [e|] eqn:E2; [|by unfold is_folder in E; rewrite E2 in E].
      apply (wf_node _ Hwf _ Hn). by eapply Hsub.
    + assert (Hs0 : d ++ [s0] ∈ folders t).
      { apply (folder_prefix t _ below Hwf). by rewrite <- app_assoc. }
      specialize (Hall s0 (names_in_all t d s0 (or_introl Hs0))). rewrite Esnoc, Ht in Hall.
      assert (Hl0 : leads anywhere t (here t) (root ++ (Normal <$> names ++ [s0])) (d ++ [s0])).
      { rewrite <- Esnoc. apply (leads_app anywhere t _ _ d); [done..|]. apply leads_folder; [|done|constructor].
        apply eq_None_not_Some. intros Hn0. by apply (wf_node _ Hwf _ Hn0). }
      unfold is_folder in Hall. rewrite (stat_folder t _ _ Hwf Hnlf Hl0 Hs0), bool_decide_true in Hall by done.
      destruct Hall as (ps' & HG & Hsubset). apply Hsubset. by apply HG.
Qed.
End Walk.

(** ** The collection *)

Section Collection.
Context `{C : Codec} `{P : Platform}.
Abbreviation cache := (gmap string (list (list Component * string))).

(** What collecting one path adds to the cache. *)
Definition gather (t : Tree) (m : cache) (p : list Component) : cache :=
  match stat t p ≫= file_at t with
  | Some (c, birth) => <[blake3_hex c := default [] (m !! blake3_hex c) ++ [(p, fmt_compact birth)]]> m
  | None => m
  end.
Definition holds (m : cache) (key : string) (i : list Component * string) : Prop :=
  ∃ infos, m !! key = Some infos ∧ i ∈ infos.

Lemma gather_holds t m p c birth :
  stat t p ≫= file_at t = Some (c, birth) → holds (gather t m p) (blake3_hex c) (p, fmt_compact birth).
Proof.
  intros E. unfold gather, holds. rewrite E, lookup_insert_eq. eexists. split; [done|].
  apply elem_of_app. right. by apply list_elem_of_singleton.
Qed.
Lemma gather_mono t m p key i : holds m key i → holds (gather t m p) key i.
Proof.
  intros (infos & Hk & Hi). unfold gather. destruct (_ ≫= _) as [[c birth]|]; [|by exists infos].
  destruct (decide (key = blake3_hex c)) as [->|Hne].
  - rewrite Hk. unfold holds. rewrite lookup_insert_eq. eexists. split; [done|]. apply elem_of_app. by left.
  - exists infos. by rewrite lookup_insert_ne.
Qed.
Lemma gathered t ps m p c birth :
  p ∈ ps → stat t p ≫= file_at t = Some (c, birth) →
  holds (foldl (gather t) m ps) (blake3_hex c) (p, fmt_compact birth).
Proof.
  assert (Hmono : ∀ ps m key i, holds m key i → holds (foldl (gather t) m ps) key i).
  { induction ps0 as [|p0 ps0 IH]; intros; simpl; auto using gather_mono. }
  revert m. induction ps as [|p0 ps IH]; intros m Hp E; [by apply elem_of_nil in Hp|].
  apply elem_of_cons in Hp as [->|Hp]; simpl; [|by apply IH]. by apply Hmono, gather_holds.
Qed.

(** Reading the file, and its creation time, of a path: both go through, or
    neither. *)
Lemma file_calm {A} (g : bytes * N → A) p w :
  calm (fates w) →
  let f := on_tree (λ t, match stat t p ≫= file_at t with
                         | Some x => (inr (g x), t) | None => (inl (os_error NotFound), t) end) in
  match stat (tree (state w)) p ≫= file_at (tree (state w)) with
  | Some x => ∃ fs, calm fs ∧ f w = (Ok (g x), mkEnv (state w) fs (clock w) (draws w))
  | None => ∃ fs, calm fs ∧ f w = (Err (os_error NotFound), mkEnv (state w) fs (clock w) (draws w))
  end.
Proof.
  intros Hc f. unfold f. match goal with |- context [on_tree ?f w] => destruct (on_tree_calm f w Hc) as (fs & Hfs & ->) end.
  destruct (_ ≫= _) as [x|]; exists fs; simpl; by rewrite set_tree_id.
Qed.
Lemma open_file_alt p w : open_file p w = on_tree (λ t, match stat t p ≫= file_at t with
  | Some x => (inr x.1, t) | None => (inl (os_error NotFound), t) end) w.
Proof. unfold open_file, on_tree, external. destruct (_ ≫= _) as [[c b]|]; by repeat case_match. Qed.
Lemma created_alt p w : created p w = on_tree (λ t, match stat t p ≫= file_at t with
  | Some x => (inr x.2, t) | None => (inl (os_error NotFound), t) end) w.
Proof. unfold created, on_tree, external. destruct (_ ≫= _) as [[c b]|]; by repeat case_match. Qed.

Lemma collector_does p w :
  calm (fates w) →
  does (ignore (file_info_collector p)) w
    (λ _ s, s = mkTidy (tree (state w)) (gather (tree (state w)) (map_cache (state w)) p)).
Proof.
  intros Hc. pose proof (file_calm fst p w Hc) as H1. unfold gather.
  unfold ignore, file_info_collector. simpl in H1. rewrite <- open_file_alt in H1.
  destruct (stat _ p ≫= _) as [[c birth]|] eqn:E; destruct H1 as (fs & Hfs & E1).
  - pose proof (file_calm snd p (mkEnv (state w) fs (clock w) (draws w)) Hfs) as H2.
    simpl in H2. rewrite <- created_alt, E in H2. destruct H2 as (fs2 & Hfs2 & E2).
    unfold does, attempt, map_err, mbind at 1, IO_mbind, bind at 1. unfold mbind at 1, IO_mbind, bind at 1.
    rewrite get_hash256_from_file_whole. unfold mbind, IO_mbind, bind. rewrite E1. simpl. rewrite E2.
    eexists _, _. split; [reflexivity|]. done.
  - unfold does, attempt, map_err, mbind at 1, IO_mbind, bind at 1. unfold mbind at 1, IO_mbind, bind at 1.
    rewrite get_hash256_from_file_whole. unfold mbind, IO_mbind, bind. rewrite E1. simpl.
    eexists _, _. split; [reflexivity|]. split; [done|]. by destruct (state w).
Qed.
Lemma collection_does ps w :
  calm (fates w) →
  does (for_each ps (λ p, ignore (file_info_collector p))) w
    (λ _ s, s = mkTidy (tree (state w)) (foldl (gather (tree (state w))) (map_cache (state w)) ps)).
Proof.
  revert w. induction ps as [|p ps IH]; intros w Hc; simpl.
  - apply does_ret; [done|]. by destruct (state w).
  - apply (does_bind _ (λ _, for_each ps _) _ _ _ (collector_does p w Hc)). intros _ w1 Hc1 Hs1.
    eapply does_mono; [by apply IH|]. by intros _ s ->; rewrite Hs1.
Qed.
End Collection.

(** ** The links *)

Section Linking.
Context `{C : Codec} `{P : Platform}.
Context (t0 : Tree) (Hwf : wf_tree t0) (Hnlf : no_linked_folders t0).
Context (root : list Component) (keep_new : bool) (Hhash : hash_injective_on t0).
Context (m : gmap string (list (list Component * string))) (Hm : collected t0 root m).
Abbreviation sound := (sound t0 root keep_new m).
Abbreviation doomed := (doomed t0 root keep_new m).
Abbreviation tidied := (tidied t0 root keep_new m).

Definition linked (t : Tree) (q : path) : Prop := ∃ rel, nodes t !! q = Some (NLink rel).

Lemma entry_found lost t p q : tidied lost t → listed t0 root p q → entry_of t p = Some q.
Proof.
  intros Ht (names & s & d & -> & -> & Hd & Hl). unfold entry_of.
  rewrite fmap_app, app_assoc. cbn [fmap list_fmap]. rewrite last_snoc, length_app. cbn [length].
  rewrite Nat.add_sub, take_app_length.
  assert (stat t (root ++ (Normal <$> names)) = Some d) as ->.
  { apply plain_follow. rewrite (td_here _ _ _ _ _ _ Ht).
    eapply leads_mono; [apply (folder_way t0 Hwf Hnlf anywhere); [by apply wf_here|done..]|done| | |done].
    - apply Ht.
    - by eapply tidied_wf. }
  simpl. by rewrite bool_decide_true by by rewrite (td_folders _ _ _ _ _ _ Ht).
Qed.

(** Two dates of one path are one date. *)
Lemma one_date key key' infos infos' p d d' :
  m !! key = Some infos → m !! key' = Some infos' → (p, d) ∈ infos → (p, d') ∈ infos' → d = d'.
Proof.
  intros Hk Hk' Hi Hi'. destruct (Hm _ _ _ _ Hk Hi) as (q & z & c & b & _ & [Hl Hz] & _ & ->).
  destruct (Hm _ _ _ _ Hk' Hi') as (q' & z' & c' & b' & _ & [Hl' Hz'] & _ & ->).
  rewrite (leads_det _ _ _ _ _ _ _ Hl' Hl) in Hz'. by simplify_eq.
Qed.

(** A doomed entry is replaced by a link, and the links that are there stay. *)
Lemma tidy_file_does key infos target p date w :
  calm (fates w) → sound w → m !! key = Some infos → extreme keep_new infos = Some target → (p, date) ∈ infos →
  does (tidy_file target (p, date)) w (λ _ s, map_cache s = m ∧ tidied None (tree s) ∧
    (∀ q, listed t0 root p q → date ≠ target.2 → linked (tree s) q) ∧
    (∀ q, linked (tree (state w)) q → linked (tree s) q)).
Proof.
  intros Hc [Hcache Ht] Hk Hx Hin. unfold tidy_file. simpl.
  destruct (decide (date = target.2)) as [Ed|Hne].
  { rewrite bool_decide_false by auto. by apply does_ret. }
  assert (Hp : p ≠ target.1).
  { intros ->. apply Hne. eapply one_date; [exact Hk|exact Hk|done|]. destruct target. by apply (extreme_in keep_new). }
  rewrite !bool_decide_true by done. cbn [andb].
  destruct (Hm _ _ _ _ Hk Hin) as (q & z & c & b & Hq & Hf & _).
  assert (Hdoom : doomed q) by by exists key, infos, target, p, date.
  set (rel := relative_path_with_same_root p target.1).
  assert (Hr : replaced t0 root keep_new m q rel) by by eapply link_replaces.
  assert (Hthere : is_Some (nodes (tree (state w)) !! q)).
  { destruct (td_nodes _ _ _ _ _ _ Ht q) as [->|[[? _]|(_ & rel' & -> & _)]]; [|done|by eexists].
    by eapply doomed_node. }
  pose proof (tidied_unlinked t0 root keep_new m _ _ Ht Hdoom) as Ht1.
  assert (Hunlink : does (unlink p) w (λ _ s, s = set_tree (set_nodes (delete q) (tree (state w))) (state w))).
  { eapply does_mono; [apply on_tree_does; [done|]|by intros a s [_ ->]].
    by rewrite (entry_found _ _ _ _ Ht Hq), bool_decide_true. }
  destruct Hunlink as (a & w1 & E1 & Hc1 & Hs1).
  apply (does_bind _ _ _ (λ r s, (∃ a, r = inr a) ∧ s = state w1)); [by exists (inr a), w1; rewrite (attempt_step _ _ _ _ E1); eauto|].
  intros r w2 Hc2 [[a' ->] Hs2]. rewrite Hs1 in Hs2.
  eapply does_mono; [apply on_tree_does; [done|]|].
  - rewrite Hs2. simpl. rewrite (entry_found _ _ _ _ Ht1 Hq). simpl. rewrite lookup_delete_eq.
    rewrite !bool_decide_false; [reflexivity| |by intros [??]].
    rewrite (td_folders _ _ _ _ _ _ Ht). by apply (wf_node _ Hwf), (doomed_node t0 Hwf root keep_new m Hm).
  - intros _ s [_ ->]. rewrite Hs2. simpl. split; [done|].
    split; [by apply (tidied_linked t0 root keep_new m _ q rel)|]. split.
    + intros q' Hq' _. assert (q' = q) as ->.
      { pose proof (entry_found _ _ _ _ Ht Hq) as E2. pose proof (entry_found _ _ _ _ Ht Hq'). congruence. }
      exists rel. simpl. by rewrite lookup_insert_eq.
    + intros q' [rel' Hq']. unfold linked. simpl. destruct (decide (q' = q)) as [->|Hne'].
      * exists rel. by rewrite lookup_insert_eq.
      * exists rel'. by rewrite lookup_insert_ne, lookup_delete_ne.
Qed.

Lemma for_each_does {A} (l : list A) body w (R : A → path → Prop) :
  calm (fates w) → sound w →
  (∀ x w, x ∈ l → calm (fates w) → sound w → does (body x) w (λ _ s, map_cache s = m ∧ tidied None (tree s) ∧
     (∀ q, R x q → linked (tree s) q) ∧ ∀ q, linked (tree (state w)) q → linked (tree s) q)) →
  does (for_each l body) w (λ _ s, map_cache s = m ∧ tidied None (tree s) ∧
     (∀ x q, x ∈ l → R x q → linked (tree s) q) ∧ ∀ q, linked (tree (state w)) q → linked (tree s) q).
Proof.
  revert w. induction l as [|x l IH]; intros w Hc Hw Hb; simpl.
  - apply does_ret; [done|]. destruct Hw. split; [done|]. split; [done|]. split; [|done]. by intros x q ?%elem_of_nil.
  - apply (does_bind _ (λ _, for_each l body) _ _ _ (Hb x w (list_elem_of_here _ _) Hc Hw)).
    intros _ w1 Hc1 (Hm1 & Ht1 & Hx & Hmono). eapply does_mono.
    + apply IH; [done|done|]. intros x' w' Hx'. apply Hb. by right.
    + intros _ s (Hm2 & Ht2 & Hl & Hmono2). split; [done|]. split; [done|]. split; [|auto].
      intros x' q [->|Hin]%elem_of_cons HR; eauto.
Qed.

Lemma tidy_group_does key w :
  calm (fates w) → sound w →
  does (tidy_group keep_new key) w (λ _ s, map_cache s = m ∧ tidied None (tree s) ∧
    (∀ q, (∃ infos target p date, m !! key = Some infos ∧ extreme keep_new infos = Some target ∧
       (p, date) ∈ infos ∧ date ≠ target.2 ∧ listed t0 root p q) → linked (tree s) q) ∧
    ∀ q, linked (tree (state w)) q → linked (tree s) q).
Proof.
  intros Hc Hw. unfold tidy_group.
  eapply (does_bind get_state _ _ (λ s s', s = state w ∧ s' = state w)); [by eexists _, _|].
  intros s w1 Hc1 [-> Hs1]. rewrite <- Hs1. assert (Hw1 : sound w1) by (unfold Tidy.sound; by rewrite Hs1).
  destruct Hw1 as [Hcache Ht]. rewrite Hcache.
  destruct (m !! key) as [[|i infos]|] eqn:Hk.
  - apply does_ret; [done|]. split; [done|]. split; [done|]. split; [|done].
    intros q (infos & target & p & date & [= <-] & _ & ?%elem_of_nil & _). done.
  - fold (extreme keep_new (i :: infos)). destruct (extreme keep_new (i :: infos)) as [target|] eqn:Hx; [|done].
    eapply does_mono; [apply (for_each_does (i :: infos) (tidy_file target) w1
      (λ file q, listed t0 root file.1 q ∧ file.2 ≠ target.2)); [done|done|]|].
    + intros [p date] w' Hin Hc' Hw'. eapply does_mono; [by eapply tidy_file_does|].
      intros _ s (? & ? & Hl & ?). split; [done|]. split; [done|]. split; [|done]. intros q [? ?]. auto.
    + intros _ s (? & ? & Hl & ?). split; [done|]. split; [done|]. split; [|done].
      intros q (infos' & target' & p & date & [= <-] & Hx' & Hin & Hne & Hq).
      assert (target' = target) as -> by congruence. by apply (Hl (p, date)).
  - apply does_ret; [done|]. split; [done|]. split; [done|]. split; [|done].
    intros q (infos & target & p & date & ? & _). done.
Qed.

Lemma groups_does ks w :
  calm (fates w) → sound w → (∀ key, is_Some (m !! key) → key ∈ ks) →
  does (for_each ks (tidy_group keep_new)) w (λ _ s, tidied None (tree s) ∧ ∀ q, doomed q → linked (tree s) q).
Proof.
  intros Hc Hw Hks. eapply does_mono; [apply (for_each_does ks (tidy_group keep_new) w
    (λ key q, ∃ infos target p date, m !! key = Some infos ∧ extreme keep_new infos = Some target ∧
       (p, date) ∈ infos ∧ date ≠ target.2 ∧ listed t0 root p q) Hc Hw)|].
  - intros key w' _ Hc' Hw'. by apply tidy_group_does.
  - intros _ s (_ & Ht & Hl & _). split; [done|]. intros q (key & infos & target & p & date & Hk & Hrest).
    apply (Hl key); [by apply Hks|]. by exists infos, target, p, date.
Qed.
End Linking.

(** ** The whole of it *)

Section Deduplicate.
Context `{C : Codec} `{P : Platform}.

(** [q] is in a folder below [root]. *)
Definition below (t : Tree) (root : list Component) (q : path) : Prop := ∃ d names s,
  d ∈ folders t ∧ leads anywhere t (here t) root d ∧ d ++ names ∈ folders t ∧ q = d ++ names ++ [s].

(** An entry below [root] that leads to a file with these contents and this
    date. *)
Definition found (t : Tree) (root : list Component) (c : bytes) (date : string) : Prop :=
  ∃ p q birth, listed t root p q ∧ stat t p ≫= file_at t = Some (c, birth) ∧ date = fmt_compact birth.

Lemma names_way t d names : wf_tree t → d ++ names ∈ folders t → leads anywhere t d (Normal <$> names) (d ++ names).
Proof.
  intros Hwf. revert d. induction names as [|s names IH]; intros d Hd; simpl; [rewrite app_nil_r; constructor|].
  assert (Hs : d ++ [s] ∈ folders t) by (apply (folder_prefix t _ names Hwf); by rewrite <- app_assoc).
  apply leads_folder; [|done|].
  - apply eq_None_not_Some. intros Hn. by apply (wf_node _ Hwf _ Hn).
  - replace (d ++ s :: names) with ((d ++ [s]) ++ names) in * by by rewrite <- app_assoc. by apply IH.
Qed.

Lemma stat_file t p c birth :
  stat t p ≫= file_at t = Some (c, birth) → ∃ z, the_file t p z c birth.
Proof.
  destruct (stat t p) as [z|] eqn:E; simpl; [|done]. unfold file_at. destruct (nodes t !! z) as [[]|] eqn:En; [|done..].
  intros [= -> ->]. exists z. split; [by apply follow_leads in E|done].
Qed.

(** The walk returns exactly the entries below its root that are files or links
    to files. *)
Lemma walk_all root w :
  let t := tree (state w) in
  calm (fates w) → wf_tree t → no_linked_folders t →
  does (path_walk (S MAXSYMLINKS * S (size (folders t))) root) w (λ ps s, s = state w ∧
    (∀ p, p ∈ ps → ∃ q, listed t root p q) ∧ ∀ p q, listed t root p q → is_Some (nodes t !! q) → p ∈ ps).
Proof.
  intros t Hc Hwf Hnlf. set (depth := S MAXSYMLINKS * S (size (folders t))).
  assert (does (path_walk depth root) w (λ ps s, s = state w ∧
    ∀ p q, listed t root p q → is_Some (nodes t !! q) → p ∈ ps)) as (ps & w1 & E & Hc1 & Hs1 & Hall).
  - destruct (is_folder t root) eqn:Ef.
    + unfold is_folder in Ef. destruct (stat t root) as [d|] eqn:Es; [|done]. apply bool_decide_eq_true in Ef.
      pose proof (follow_leads _ _ _ _ _ Es) as Hl. rewrite <- (app_nil_r root) at 1.
      eapply does_mono; [apply (path_walk_finds t Hwf Hnlf root depth [] d w Hc eq_refl Ef)|].
      * by rewrite app_nil_r.
      * intros e He. pose proof (folder_depth t e Hwf He). unfold depth. lia.
      * intros ps s (-> & Hall). split; [done|]. intros p q (names & s & e & -> & -> & He & Hle) Hn.
        assert (e = d ++ names) as ->.
        { destruct names as [|y names]; [rewrite app_nil_r in Hle |- *; by eapply leads_det|].
          destruct (leads_split anywhere t (here t) root (Normal <$> y :: names) e Hwf (wf_here _ Hwf))
            as (d' & Hd' & H1 & H2); [done..|]. rewrite (leads_det _ _ _ _ _ _ _ H1 Hl) in H2.
          by apply (names_plain t Hwf Hnlf anywhere d (y :: names)). }
        rewrite <- app_assoc in Hn. by apply (Hall names s).
    + unfold depth. simpl. eapply does_bind; [by apply path_is_dir_does|]. intros dir w1 Hc1 [-> Hs1].
      fold t. rewrite Ef. apply does_ret; [done|]. split; [done|].
      intros p q (names & s & e & -> & -> & He & Hle) _. exfalso.
      assert (∃ d, d ∈ folders t ∧ leads anywhere t (here t) root d) as (d & Hd & Hl).
      { destruct names as [|y names]; [exists e; by rewrite app_nil_r in Hle|].
        destruct (leads_split anywhere t (here t) root (Normal <$> y :: names) e Hwf (wf_here _ Hwf))
          as (d & Hd & H1 & _); eauto. }
      unfold is_folder in Ef. by rewrite (stat_folder t _ _ Hwf Hnlf Hl Hd), bool_decide_true in Ef.
  - exists ps, w1. split; [done|]. split; [done|]. split; [done|]. split; [|done].
    rewrite <- (app_nil_r root) in E. by eapply (path_walk_listed root _ []).
Qed.

(** What the cache holds was gathered. *)
Lemma gathered_inv t ps key i :
  holds (foldl (gather t) ∅ ps) key i →
  ∃ p c birth, p ∈ ps ∧ stat t p ≫= file_at t = Some (c, birth) ∧ key = blake3_hex c ∧ i = (p, fmt_compact birth).
Proof.
  induction ps as [|p ps IH] using rev_ind; [by intros (infos & Hk & _)|].
  rewrite foldl_snoc. intros (infos & Hk & Hi). unfold gather at 1 in Hk.
  assert (Hold : holds (foldl (gather t) ∅ ps) key i →
    ∃ p0 c birth, p0 ∈ ps ++ [p] ∧ stat t p0 ≫= file_at t = Some (c, birth) ∧ key = blake3_hex c ∧ i = (p0, fmt_compact birth)).
  { intros (p0 & c & birth & ? & ? & ? & ?)%IH. exists p0, c, birth. set_solver. }
  destruct (stat t p ≫= file_at t) as [[c birth]|] eqn:E; [|apply Hold; by exists infos].
  destruct (decide (key = blake3_hex c)) as [->|Hne].
  - rewrite lookup_insert_eq in Hk. injection Hk as <-. apply elem_of_app in Hi as [Hi|Hi].
    + apply Hold. destruct (foldl _ _ ps !! _) as [infos|] eqn:Eo; [by exists infos|by apply elem_of_nil in Hi].
    + apply list_elem_of_singleton in Hi. exists p, c, birth. split; [set_solver|done].
  - rewrite lookup_insert_ne in Hk by done. apply Hold. by exists infos.
Qed.

(** The run of [tidy] that nothing disturbs. *)
Lemma tidy_does keys root keep_new w :
  let t0 := tree (state w) in
  calm (fates w) → map_cache (state w) = ∅ → wf_tree t0 → no_linked_folders t0 → hash_injective_on t0 →
  (∀ m key, is_Some (m !! key) → key ∈ keys m) →
  ∃ ps w', let m := foldl (gather t0) ∅ ps in
    tidy keys root keep_new w = (Ok tt, w') ∧
    (∀ p, p ∈ ps → ∃ q, listed t0 root p q) ∧ (∀ p q, listed t0 root p q → is_Some (nodes t0 !! q) → p ∈ ps) ∧
    collected t0 root m ∧ tidied t0 root keep_new m None (tree (state w')) ∧
    ∀ q, doomed t0 root keep_new m q → linked (tree (state w')) q.
Proof.
  intros t0 Hc Hempty Hwf Hnlf Hhash Hkeys.
  destruct (walk_all root w Hc Hwf Hnlf) as (ps & w1 & E1 & Hc1 & Hs1 & Hps & Hall).
  destruct (collection_does ps w1 Hc1) as ([] & w2 & E2 & Hc2 & Hs2). rewrite Hs1, Hempty in Hs2.
  set (m := foldl (gather (tree (state w))) ∅ ps) in *.
  assert (Hm : collected t0 root m).
  { intros key infos p date Hk Hi. destruct (gathered_inv t0 ps key (p, date)) as (p' & c & birth & Hin & Hs & -> & [= -> ->]);
      [by exists infos|]. destruct (Hps p' Hin) as [q Hq], (stat_file _ _ _ _ Hs) as [z Hz]. by exists q, z, c, birth. }
  assert (Hw2 : sound t0 root keep_new m w2) by (split; rewrite Hs2; [done|apply tidied_refl]).
  destruct (groups_does t0 Hwf Hnlf root keep_new Hhash m Hm (keys m) w2 Hc2 Hw2 (Hkeys m))
    as ([] & w3 & E3 & _ & Ht & Hlinks).
  exists ps, w3. split; [|done]. unfold tidy. rewrite (bind_step _ _ _ _ w (eq_refl : get_state w = _)).
  rewrite (bind_step _ _ _ _ _ E1), (bind_step _ _ _ _ _ E2), (bind_step _ _ _ _ w2 (eq_refl : get_state w2 = _)).
  by rewrite Hs2.
Qed.

Lemma extreme_some keep_new infos : infos ≠ [] → ∃ target, extreme keep_new infos = Some target.
Proof. destruct infos; [done|]. intros _. by eexists. Qed.

(** A file below [root] is found. *)
Lemma below_found t root q c birth :
  wf_tree t → no_linked_folders t → below t root q → nodes t !! q = Some (NFile c birth) →
  ∃ p, listed t root p q ∧ stat t p ≫= file_at t = Some (c, birth).
Proof.
  intros Hwf Hnlf (d & names & s & Hd & Hl & Hdn & ->) Hq.
  assert (Hway : leads anywhere t (here t) (root ++ (Normal <$> names)) (d ++ names)).
  { eapply leads_app; [done|exact Hd|done|]. by apply names_way. }
  exists (root ++ (Normal <$> names ++ [s])). split.
  - exists names, s, (d ++ names). by rewrite app_assoc.
  - unfold stat. rewrite fmap_app, app_assoc. rewrite app_assoc in Hq.
    rewrite (plain_follow_app _ _ _ _ (d ++ names)); [|apply (folder_way t Hwf Hnlf anywhere); [by apply wf_here|done..]].
    cbn [fmap list_fmap]. rewrite follow_cons, Hq. simpl. unfold file_at. by rewrite Hq.
Qed.

(** C19 (functional): in a tree without symbolic links to folders, and when nothing
    fails, [tidy] keeps of each contents found below the directory the files of one
    date, the latest or the earliest of them, as they are, and puts a symbolic link
    in the place of every other file.  ([path_walk] follows links to folders: with
    one that leads out of the directory the file that is kept may be one found
    there, and [Tidy.linked_folder_breaks] shows the links that are made go wrong.) *)
Theorem tidy_deduplicates keys root keep_new w :
  let t0 := tree (state w) in
  calm (fates w) → map_cache (state w) = ∅ → wf_tree t0 → no_linked_folders t0 → hash_injective_on t0 →
  (∀ m key, is_Some (m !! key) → key ∈ keys m) →
  ∃ w', tidy keys root keep_new w = (Ok tt, w') ∧
  ∀ c, (∃ date, found t0 root c date) → ∃ kept, found t0 root c kept ∧
    (∀ date, found t0 root c date → beats keep_new date kept = false) ∧
    ∀ q birth, below t0 root q → nodes t0 !! q = Some (NFile c birth) →
      nodes (tree (state w')) !! q = Some (NFile c birth) ∧ fmt_compact birth = kept ∨
      (∃ rel, nodes (tree (state w')) !! q = Some (NLink rel)) ∧ fmt_compact birth ≠ kept.
Proof.
  intros t0 Hc Hempty Hwf Hnlf Hhash Hkeys.
  destruct (tidy_does keys root keep_new w Hc Hempty Hwf Hnlf Hhash Hkeys)
    as (ps & w' & E & Hps & Hall & Hm & Ht & Hlinks).
  set (m := foldl (gather (tree (state w))) ∅ ps) in *. exists w'. split; [done|].
  assert (Hheld : ∀ p q c birth, listed t0 root p q → stat t0 p ≫= file_at t0 = Some (c, birth) →
    holds m (blake3_hex c) (p, fmt_compact birth)).
  { intros p q c birth Hp Hs. apply gathered; [|done]. destruct (stat_file _ _ _ _ Hs) as [z Hz].
    destruct Hp as (names & s & d & -> & -> & Hd & Hl). apply (Hall _ (d ++ [s])); [by exists names, s, d|].
    by destruct (last_step t0 Hwf root _ _ _ _ _ _ Hl Hd Hz). }
  intros c (date0 & p0 & q0 & birth0 & Hp0 & Hs0 & _). destruct (Hheld _ _ _ _ Hp0 Hs0) as (infos & Hk & Hi0).
  destruct (extreme_some keep_new infos) as [target Hx]; [by intros ->; apply elem_of_nil in Hi0|].
  exists target.2. split; [|split].
  - destruct (gathered_inv t0 ps (blake3_hex c) target) as (p & c' & birth & Hin & Hs & Ehash & ->);
      [by exists infos; split; [|apply (extreme_in keep_new)]|].
    destruct (Hps p Hin) as [q Hq]. exists p, q, birth. split; [done|]. split; [|done].
    assert (c' = c) as ->; [|done]. destruct (stat_file _ _ _ _ Hs) as (z & _ & Hz), (stat_file _ _ _ _ Hs0) as (z0 & _ & Hz0).
    by eapply (Hhash z z0).
  - intros date (p & q & birth & Hp & Hs & ->). destruct (Hheld _ _ _ _ Hp Hs) as (infos' & Hk' & Hi).
    assert (infos' = infos) as -> by congruence. exact (extreme_best keep_new infos target _ Hx Hi).
  - intros q birth Hb Hq. destruct (below_found t0 root q c birth Hwf Hnlf Hb Hq) as (p & Hp & Hs).
    destruct (Hheld _ _ _ _ Hp Hs) as (infos' & Hk' & Hi). assert (infos' = infos) as -> by congruence.
    destruct (decide (fmt_compact birth = target.2)) as [Ekept|Hne]; [left|right].
    + split; [|done]. rewrite (spared_file t0 root keep_new m _ _ _ Ht); [done|].
      destruct Hp as (names & s & d & -> & -> & Hd & Hl).
      apply (kept_spared t0 Hwf root keep_new m Hm (blake3_hex c) infos target d s (d ++ [s]) c birth); try done.
      by eapply leads_file.
    + split; [|done]. apply Hlinks. by exists (blake3_hex c), infos, target, p, (fmt_compact birth).
Qed.
End Deduplicate.

(** ** A directory to look at *)

Lemma demo_keys_all m key : is_Some (m !! key) → key ∈ demo_keys m.
Proof.
  intros [infos Hk]. unfold demo_keys. apply list_elem_of_fmap. exists (key, infos).
  split; [done|]. by apply elem_of_map_to_list.
Qed.
Lemma tidy_deduplicates_witness : ∃ w',
  tidy (P := dated_platform) demo_keys [] true (demo_tidy []) = (Ok tt, w') ∧
  ∀ c, (∃ date, found (P := dated_platform) demo_tree [] c date) →
  ∃ kept, found (P := dated_platform) demo_tree [] c kept ∧
    (∀ date, found (P := dated_platform) demo_tree [] c date → beats true date kept = false) ∧
    ∀ q birth, below demo_tree [] q → nodes demo_tree !! q = Some (NFile c birth) →
      nodes (tree (state w')) !! q = Some (NFile c birth) ∧ fmt_compact (Platform := dated_platform) birth = kept ∨
      (∃ rel, nodes (tree (state w')) !! q = Some (NLink rel)) ∧ fmt_compact (Platform := dated_platform) birth ≠ kept.
Proof.
  exact (tidy_deduplicates (P := dated_platform) demo_keys [] true (demo_tidy []) (Forall_nil_2 _) eq_refl
    demo_tree_wf demo_no_linked_folders demo_hash demo_keys_all).
Defined.
