(* ===== verification/Conveyer.v ===== *)
(** * The order queue ([linastore-server/src/conveyer.rs])

    [ConveyQueue] carries packages from the front ends to the worker and the
    responses back: a bounded queue of orders that drops its oldest entry when
    full, and a registry of waiters, one one-shot channel per request.  Each
    method holds its locks over its whole effect on that lock's data, so each is
    one atomic function on the state; the lock operations only fail when a
    holder has panicked, which none does. *)
From S2P Require Import Prelude Wire.

Definition ORDER_QUEUE_CAPACITY : nat := 32.
(** Durations and instants in nanoseconds. *)
Definition SECOND : N := 1000000000.
Definition WAITERS_TTL : N := 20 * SECOND.

(** A [tokio::sync::oneshot] channel: nothing sent yet, a value sent, the
    sender dropped without sending, the receiver dropped. *)
Inductive Channel := Pending | Delivered (p : Package) | Closed | Abandoned.

Record WaiterEntry := mkWaiter { sender : nat; w_created_at : N }.

Record ConveyQueue := mkConvey {
  order_queue : list Package;
  waiters : gmap bytes WaiterEntry;
  channels : gmap nat Channel;     (* every channel made so far, by number *)
  next_channel : nat
}.
Definition ConveyQueue_new : ConveyQueue := mkConvey [] ∅ ∅ 0.

(** [sender.send(p)] (the value is lost if the receiver is gone) and dropping a
    sender or a receiver. *)
Definition send (c : nat) (p : Package) (chs : gmap nat Channel) : gmap nat Channel :=
  alter (λ ch, match ch with Pending => Delivered p | _ => ch end) c chs.
Definition drop_sender (c : nat) (chs : gmap nat Channel) : gmap nat Channel :=
  alter (λ ch, match ch with Pending => Closed | _ => ch end) c chs.
Definition drop_receiver (c : nat) (q : ConveyQueue) : ConveyQueue :=
  mkConvey (order_queue q) (waiters q) (<[c := Abandoned]> (channels q)) (next_channel q).

Definition unregister_waiter (id : bytes) (q : ConveyQueue) : ConveyQueue :=
  match waiters q !! id with
  | None => q
  | Some e => mkConvey (order_queue q) (delete id (waiters q))
                (drop_sender (sender e) (channels q)) (next_channel q)
  end.

Definition produce_order (order : Package) (q : ConveyQueue) : ConveyQueue :=
  let q := if ORDER_QUEUE_CAPACITY <=? length (order_queue q)
           then match order_queue q with
                | [] => q
                | dropped :: rest =>
                    unregister_waiter (uni_id dropped)
                      (mkConvey rest (waiters q) (channels q) (next_channel q))
                end
           else q in
  mkConvey (order_queue q ++ [order]) (waiters q) (channels q) (next_channel q).

Definition consume_order (q : ConveyQueue) : option Package * ConveyQueue :=
  match order_queue q with
  | [] => (None, q)
  | p :: rest => (Some p, mkConvey rest (waiters q) (channels q) (next_channel q))
  end.

(** [true] when a waiter was registered for the response. *)
Definition produce_service (order : Package) (q : ConveyQueue) : bool * ConveyQueue :=
  match waiters q !! uni_id order with
  | Some e => (true, mkConvey (order_queue q) (delete (uni_id order) (waiters q))
                       (send (sender e) order (channels q)) (next_channel q))
  | None => (false, q)
  end.

Definition register_waiter (id : bytes) (now : N) (q : ConveyQueue) : option nat * ConveyQueue :=
  let c := next_channel q in
  if bool_decide (is_Some (waiters q !! id)) then (None, q)
  else (Some c, mkConvey (order_queue q) (<[id := mkWaiter c now]> (waiters q))
                  (<[c := Pending]> (channels q)) (S c)).

Definition remove_order (id : bytes) (q : ConveyQueue) : bool * ConveyQueue :=
  let kept := filter (λ p, uni_id p ≠ id) (order_queue q) in
  (negb (length kept =? length (order_queue q)),
   mkConvey kept (waiters q) (channels q) (next_channel q)).

(** The two halves of [cleanup_expired_waiters]: the waiters past their time
    are taken out under the lock, then their orders are removed one by one. *)
Definition is_expired (now : N) (e : WaiterEntry) : bool := (WAITERS_TTL <? now - w_created_at e)%N.
Definition expire_waiters (now : N) (q : ConveyQueue) : list bytes * ConveyQueue :=
  let gone := filter (λ kv, is_expired now kv.2 = true) (waiters q) in
  ((map_to_list gone).*1,
   mkConvey (order_queue q) (filter (λ kv, is_expired now kv.2 = false) (waiters q))
     (foldr (λ kv chs, drop_sender (sender kv.2) chs) (channels q) (map_to_list gone))
     (next_channel q)).
Definition cleanup_expired_waiters (now : N) (q : ConveyQueue) : ConveyQueue :=
  let '(expired, q) := expire_waiters now q in
  foldl (λ q id, (remove_order id q).2) q expired.

(** ** Lemmas: steps that only take away *)

Definition open (chs : gmap nat Channel) (c : nat) : Prop :=
  ∃ ch, chs !! c = Some ch ∧ ch ≠ Abandoned.

(** [q'] holds no order, waiter or delivery that [q] does not, and no receiver
    has gone. *)
Record quieter (q q' : ConveyQueue) : Prop := {
  quiet_queue : order_queue q' `sublist_of` order_queue q;
  quiet_waiters : waiters q' ⊆ waiters q;
  quiet_channels : ∀ c p, channels q' !! c = Some (Delivered p) → channels q !! c = Some (Delivered p);
  quiet_open : ∀ c, open (channels q) c → open (channels q') c;
  quiet_next : next_channel q' = next_channel q
}.

#[export] Instance quieter_preorder : PreOrder quieter.
Proof.
  split.
  - intros q. by split.
  - intros q1 q2 q3 [] []. split; [by etrans|by etrans|auto|auto|congruence].
Qed.

Lemma drop_sender_delivered c c' p chs :
  drop_sender c chs !! c' = Some (Delivered p) → chs !! c' = Some (Delivered p).
Proof.
  unfold drop_sender. destruct (decide (c = c')) as [->|Hne]; [|by rewrite lookup_alter_ne].
  rewrite lookup_alter_eq. destruct (chs !! c') as [[]|]; simpl; congruence.
Qed.

Lemma alter_open f c c' chs :
  (∀ ch, ch ≠ Abandoned → f ch ≠ Abandoned) → open chs c' → open (alter f c chs) c'.
Proof.
  intros Hf (ch & Hch & Ha). unfold open. destruct (decide (c = c')) as [->|Hne].
  - rewrite lookup_alter_eq, Hch. eauto.
  - rewrite lookup_alter_ne by done. eauto.
Qed.
Lemma drop_sender_open c c' chs : open chs c' → open (drop_sender c chs) c'.
Proof. apply alter_open. by intros []. Qed.
Lemma send_open c p c' chs : open chs c' → open (send c p chs) c'.
Proof. apply alter_open. by intros []. Qed.

Lemma unregister_quieter id q : quieter q (unregister_waiter id q).
Proof.
  unfold unregister_waiter. destruct (waiters q !! id); [|done].
  split; simpl; [done|apply delete_subseteq|intros c p; apply drop_sender_delivered|
    intros c; apply drop_sender_open|done].
Qed.
Lemma remove_quieter id q : quieter q (remove_order id q).2.
Proof. split; simpl; [apply sublist_filter|done..]. Qed.
Lemma consume_quieter q p q' : consume_order q = (Some p, q') → quieter q q'.
Proof.
  unfold consume_order. destruct (order_queue q) eqn:E; intros; simplify_eq.
  split; simpl; [rewrite E; by constructor|done..].
Qed.
Lemma expire_quieter now q : quieter q (expire_waiters now q).2.
Proof.
  split; simpl; [done|apply map_filter_subseteq| | |done].
  - intros c p. induction (map_to_list _) as [|kv l IH]; simpl; [done|].
    intros H%drop_sender_delivered. by apply IH.
  - intros c Hc. induction (map_to_list _) as [|kv l IH]; simpl; [done|]. by apply drop_sender_open.
Qed.

(** The state [produce_order] appends to: a full queue has lost its oldest
    order, and the waiter of that order. *)
Definition make_room (q : ConveyQueue) : ConveyQueue :=
  if ORDER_QUEUE_CAPACITY <=? length (order_queue q)
  then match order_queue q with
       | [] => q
       | dropped :: rest =>
           unregister_waiter (uni_id dropped)
             (mkConvey rest (waiters q) (channels q) (next_channel q))
       end
  else q.
Lemma produce_make_room order q :
  produce_order order q =
  mkConvey (order_queue (make_room q) ++ [order]) (waiters (make_room q))
    (channels (make_room q)) (next_channel (make_room q)).
Proof. done. Qed.
Lemma make_room_quieter q : quieter q (make_room q).
Proof.
  unfold make_room. case_match; [|done]. destruct (order_queue q) as [|d rest] eqn:E; [done|].
  etrans; [|apply unregister_quieter]. split; simpl; [rewrite E; by constructor|done..].
Qed.
Lemma unregister_queue id q : order_queue (unregister_waiter id q) = order_queue q.
Proof. unfold unregister_waiter. by case_match. Qed.
Lemma make_room_length q :
  length (order_queue q) ≤ ORDER_QUEUE_CAPACITY →
  length (order_queue (make_room q)) < ORDER_QUEUE_CAPACITY.
Proof.
  intros H. unfold make_room. destruct (Nat.leb_spec ORDER_QUEUE_CAPACITY (length (order_queue q))); [|done].
  destruct (order_queue q) as [|d rest] eqn:E; simpl in *; [by inv H0|].
  rewrite unregister_queue. simpl. lia.
Qed.
