(* ===== verification/Porter.v ===== *)
(** * The worker ([linastore-server/src/porter.rs])

    [process_package] turns one order into one operation of the object store
    and one response; the store is used through its interface only. *)
From S2P Require Import Prelude Io Runs Strs Wire ObjectStore.

Definition flag_set (flags : N) (bit : FlagType) : bool := negb (N.land flags (flag_u8 bit) =? 0)%N.

Definition MAX_PORTER_CONCURRENCY : N := 8.
(** [available_parallelism().unwrap_or(4).clamp(2, MAX_PORTER_CONCURRENCY)] *)
Definition porter_concurrency (parallelism : option N) : N :=
  N.max 2 (N.min (default 4%N parallelism) MAX_PORTER_CONCURRENCY).

(** The file name of an order: the identifier up to its first NUL byte, if it
    is not empty and is valid UTF-8. *)
Definition order_name (pkg : Package) : option string :=
  let b := until_nul (c_identifier (content pkg)) in
  match b with
  | [] => None
  | _ => from_utf8 b
  end.

Section Porter.
Context {St : Type} `{OS : ObjectStore St}.
(** [Uuid::new_v4] and [Utc::now] in [Package::new]. *)
Variable fresh_uuid : nat → bytes.

(** The response before its status is known. *)
Definition new_response (pkg : Package) : IO St Package :=
  k ← draw; t ← now;
  let r := Package_new (fresh_uuid k) (Z.of_N t) in
  ret (mkPackage (p_status r) (uni_id pkg) (behavior r)
         (mkContent (c_flags (content pkg)) (c_identifier (content pkg)) (c_data (content r)))
         (created_at r)).
Definition with_status (s : Status) (r : Package) : Package :=
  mkPackage s (uni_id r) (behavior r) (content r) (created_at r).
Definition with_data (d : bytes) (r : Package) : Package :=
  mkPackage (p_status r) (uni_id r) (behavior r)
    (mkContent (c_flags (content r)) (c_identifier (content r)) d) (created_at r).

(** The response sent for [pkg]. *)
Definition process_package (pkg : Package) : IO St Package :=
  res_pkg ← new_response pkg;
  match order_name pkg with
  | None => ret (with_status FileNameInvalid res_pkg)
  | Some identifier =>
      match behavior pkg with
      | PutFile =>
          let flags := c_flags (content pkg) in
          r ← attempt (obj_put identifier (c_data (content pkg))
                         (flag_set flags FCover) (flag_set flags FCompress));
          match r with
          | inr _ => ret (with_status Success res_pkg)
          | inl _ => ret (with_status StoreFailed res_pkg)
          end
      | GetFile =>
          r ← attempt (obj_get identifier);
          match r with
          | inr d => ret (with_data d (with_status Success res_pkg))
          | inl _ => ret (with_status FileNotFound res_pkg)
          end
      | DeleteFile =>
          r ← attempt (obj_delete identifier);
          match r with
          | inr _ => ret (with_status Success res_pkg)
          | inl _ => ret (with_status FileNotFound res_pkg)
          end
      | BehaviorNone => ret (with_status InternalError res_pkg)
      end
  end.

(** ** What an order does *)

(** [effect pkg quiet m r m']: processing [pkg] on a store that stands for [m]
    may answer [r] and leave a store that stands for [m'].  [quiet] says that
    nothing fails. *)
Definition effect (quiet : Prop) (pkg : Package) (m : gmap string bytes) (r : Package)
    (m' : gmap string bytes) : Prop :=
  uni_id r = uni_id pkg ∧ c_identifier (content r) = c_identifier (content pkg) ∧
  match order_name pkg with
  | None => p_status r = FileNameInvalid ∧ m' = m
  | Some n =>
      match behavior pkg with
      | PutFile =>
          p_status r = Success ∧ m' = <[n := c_data (content pkg)]> m ∨
          p_status r = StoreFailed ∧ m' = m ∧ ¬ quiet
      | GetFile =>
          p_status r = Success ∧ m !! n = Some (c_data (content r)) ∧ m' = m ∨
          p_status r = FileNotFound ∧ c_data (content r) = [] ∧ m' = m ∧ (quiet → m !! n = None)
      | DeleteFile =>
          p_status r = Success ∧ m' = delete n m ∨
          p_status r = FileNotFound ∧ m' = m ∧ ¬ quiet
      | BehaviorNone => p_status r = InternalError ∧ m' = m
      end
  end.

(** The order can be carried out at all: for a put, its data are admissible. *)
Definition feasible (pkg : Package) (m : gmap string bytes) : Prop :=
  match behavior pkg with
  | PutFile => admissible m (c_data (content pkg))
  | DeleteFile => removable m
  | _ => True
  end.

Lemma order_name_nonempty pkg n : order_name pkg = Some n → is_empty n = false.
Proof.
  unfold order_name. destruct (until_nul _) as [|c b]; [done|]. unfold from_utf8.
  destruct (valid_utf8 _); intros; simplify_eq. done.
Qed.

Lemma new_response_ok pkg w : ∃ r, new_response pkg w = (Ok r, mkEnv (state w) (fates w) (clock w) (S (draws w))) ∧
  uni_id r = uni_id pkg ∧ c_identifier (content r) = c_identifier (content pkg) ∧ c_data (content r) = [].
Proof. eexists. by split. Qed.

Lemma process_package_effect `{!ObjectStoreLaws St} w m pkg :
  stands_for w m → one_failure (fates w) → feasible pkg m →
  ∃ r w' m', process_package pkg w = (Ok r, w') ∧ stands_for w' m' ∧
    effect (calm (fates w)) pkg m r m' ∧ (next w w' ∨ failed w w').
Proof.
  intros Hm Hf Hfe. unfold process_package. destruct (new_response_ok pkg w) as (r & Hr & Hid & Hident & Hdata).
  set (w0 := mkEnv (state w) (fates w) (clock w) (S (draws w))) in *.
  assert (Hm0 : stands_for w0 m) by (eapply stands_for_ext; [exact Hm|done|simpl; lia]).
  assert (Hn0 : next w w0) by (split; simpl; [done|done|lia]).
  assert (Hf0 : ∀ w', failed w0 w' → failed w w' ∧ ¬ calm (fates w)).
  { intros w' Hw. pose proof (next_failed _ _ _ Hn0 Hw) as []. by split. }
  unfold mbind, IO_mbind, bind at 1. rewrite Hr. unfold effect, feasible in *.
  destruct (order_name pkg) as [n|] eqn:En.
  2: { eexists _, w0, m. by split_and!; [| | | | | |left]. }
  pose proof (order_name_nonempty _ _ En) as Hne.
  destruct (behavior pkg); unfold attempt, bind.
  - destruct (m !! n) as [d|] eqn:Hd.
    + destruct (get_law w0 m n d Hm0 Hf Hne Hd) as [a w' [-> Hm'] Hn|e w' Hm' Hn];
        eexists _, w', m; (split; [done|]); (split; [done|]); simpl.
      * split; [eauto 10|]. left. eauto with lina.
      * destruct (Hf0 _ Hn). split; [|by right]. split; [done|]. split; [done|]. right. done.
    + destruct (get_absent_law w0 m n Hm0 Hf Hne Hd) as (e & w' & -> & Hm' & Hn).
      eexists _, w', m. split; [done|]. split; [done|]. simpl. split; [eauto 10|].
      destruct Hn as [Hn|Hn]; [right; by apply Hf0|left; eauto with lina].
  - destruct (put_law w0 m n (c_data (content pkg)) (flag_set (c_flags (content pkg)) FCover)
      (flag_set (c_flags (content pkg)) FCompress) Hm0 Hf Hne Hfe) as [a w' Hm' Hn|e w' Hm' Hn].
    + eexists _, w', _. split; [done|]. split; [done|]. simpl. split; [eauto 10|]. left. eauto with lina.
    + destruct (Hf0 _ Hn). eexists _, w', m. split; [done|]. split; [done|]. simpl.
      split; [eauto 10|by right].
  - destruct (delete_law w0 m n Hm0 Hf Hne Hfe) as [a w' Hm' Hn|e w' Hm' Hn].
    + eexists _, w', _. split; [done|]. split; [done|]. simpl. split; [eauto 10|]. left. eauto with lina.
    + destruct (Hf0 _ Hn). eexists _, w', m. split; [done|]. split; [done|]. simpl.
      split; [eauto 10|by right].
  - eexists _, w0, m. by split_and!; [| | | | | |left].
Qed.
End Porter.
