(* ===== verification/Service.v ===== *)
(** * Front ends, queue and worker together

    The running server as a transition system: any number of requests in
    progress at the front ends ([process_through_queue] of
    [front/s3_service.rs] and its copies in the other front ends), the order
    queue, the worker loop [porter] with its bounded set of tasks, the clean-up
    task of the waiter registry, and time.  Each step is one atomic action of
    one task; any interleaving is a run. *)
From S2P Require Import Prelude Io Runs Strs Wire ObjectStore Conveyer Porter Store Block World Manager.

(** [timeout(Duration::from_secs(10), receiver)] *)
Definition REQUEST_TIMEOUT : N := 10 * SECOND.

(** A request: registered, its order queued and the answer awaited, over (with
    the response, or with [Status::InternalError] for [None]). *)
Inductive Phase := Registered | Waiting (since : N) | Answered (res : option Package).
Record Request := mkRequest { r_pkg : Package; r_chan : nat; r_phase : Phase }.
Definition set_phase (p : Phase) (r : Request) : Request := mkRequest (r_pkg r) (r_chan r) p.

Record Sys (St : Type) := mkSys {
  conv : ConveyQueue;
  workers : list Package;            (* tasks of the worker's [JoinSet] *)
  run : Env St;                      (* the store *)
  requests : gmap bytes Request;     (* by [uni_id] *)
  expired : list bytes;              (* clean-up: orders still to remove *)
  now_ns : N;
  log : list (Package * Package);    (* orders processed, with their responses *)
  shutting_down : bool
}.
Arguments mkSys {St}. Arguments conv {St}. Arguments workers {St}. Arguments run {St}.
Arguments requests {St}. Arguments expired {St}. Arguments now_ns {St}. Arguments log {St}. Arguments shutting_down {St}.

Section Service.
Context {St : Type} `{OS : ObjectStore St} `{!ObjectStoreLaws St}.
Variable fresh_uuid : nat → bytes.
Variable concurrency_limit : nat.
Implicit Types (s : Sys St).

Definition with_conv (q : ConveyQueue) s : Sys St :=
  mkSys q (workers s) (run s) (requests s) (expired s) (now_ns s) (log s) (shutting_down s).
Definition with_request (id : bytes) (r : Request) s : Sys St :=
  mkSys (conv s) (workers s) (run s) (<[id := r]> (requests s)) (expired s) (now_ns s) (log s) (shutting_down s).

(** What a front end does when no response will come: [unregister_waiter],
    [remove_order], [Err(Status::InternalError)]. *)
Definition withdraw (id : bytes) (r : Request) s : Sys St :=
  with_request id (set_phase (Answered None) r)
    (with_conv (remove_order id (unregister_waiter id (conv s))).2 s).

Inductive step : Sys St → Sys St → Prop :=
  (** [register_waiter] with a new [Uuid]. *)
  | step_register s pkg c q :
      requests s !! uni_id pkg = None →
      register_waiter (uni_id pkg) (now_ns s) (conv s) = (Some c, q) →
      step s (with_request (uni_id pkg) (mkRequest pkg c Registered) (with_conv q s))
  (** [produce_order] *)
  | step_produce s id r :
      requests s !! id = Some r → r_phase r = Registered →
      step s (with_request id (set_phase (Waiting (now_ns s)) r)
                (with_conv (produce_order (r_pkg r) (conv s)) s))
  (** The worker loop takes an order while it has a free task. *)
  | step_take s pkg q :
      shutting_down s = false → length (workers s) < concurrency_limit →
      consume_order (conv s) = (Some pkg, q) →
      step s (mkSys q (workers s ++ [pkg]) (run s) (requests s) (expired s) (now_ns s) (log s) (shutting_down s))
  (** A task runs [process_package] and sends the response: at most one failure
      on its way, contents without a hash collision. *)
  | step_finish s l1 pkg l2 fs r w' :
      workers s = l1 ++ pkg :: l2 →
      one_failure fs → (∀ m, stands_for (run s) m → feasible pkg m) →
      process_package fresh_uuid pkg (mkEnv (state (run s)) fs (clock (run s)) (draws (run s)))
        = (Ok r, w') →
      step s (mkSys (produce_service r (conv s)).2 (l1 ++ l2) w' (requests s) (expired s)
                (now_ns s) (log s ++ [(pkg, r)]) (shutting_down s))
  (** The awaited channel yields a response, is closed, or time runs out. *)
  | step_receive s id r t p :
      requests s !! id = Some r → r_phase r = Waiting t →
      channels (conv s) !! r_chan r = Some (Delivered p) →
      step s (with_request id (set_phase (Answered (Some p)) r) s)
  | step_closed s id r t :
      requests s !! id = Some r → r_phase r = Waiting t →
      channels (conv s) !! r_chan r = Some Closed →
      step s (withdraw id r s)
  | step_timeout s id r t :
      requests s !! id = Some r → r_phase r = Waiting t →
      channels (conv s) !! r_chan r = Some Pending →
      (t + REQUEST_TIMEOUT <= now_ns s)%N →
      step s (withdraw id r (with_conv (drop_receiver (r_chan r) (conv s)) s))
  (** The clean-up task: expired waiters go, then their orders. *)
  | step_expire s :
      expired s = [] →
      step s (mkSys (expire_waiters (now_ns s) (conv s)).2 (workers s) (run s) (requests s)
                (expire_waiters (now_ns s) (conv s)).1 (now_ns s) (log s) (shutting_down s))
  | step_clean s id ids :
      expired s = id :: ids →
      step s (mkSys (remove_order id (conv s)).2 (workers s) (run s) (requests s) ids
                (now_ns s) (log s) (shutting_down s))
  | step_shutdown s :
      step s (mkSys (conv s) (workers s) (run s) (requests s) (expired s) (now_ns s) (log s) true)
  | step_tick s d :
      step s (mkSys (conv s) (workers s) (run s) (requests s) (expired s) (now_ns s + d) (log s) (shutting_down s)).

Definition start (w : Env St) : Sys St := mkSys ConveyQueue_new [] w ∅ [] 0 [] false.
Definition reachable (w : Env St) s : Prop := rtc step (start w) s.

(** The orders of [l] processed one after the other. *)
Inductive processed : gmap string bytes → list (Package * Package) → gmap string bytes → Prop :=
  | processed_nil m : processed m [] m
  | processed_snoc m l m' pkg r m'' :
      processed m l m' → effect False pkg m' r m'' → processed m (l ++ [(pkg, r)]) m''.

(** ** The invariant *)

(** Every order the server holds or has processed. *)
Definition orders s : list Package := order_queue (conv s) ++ workers s ++ (log s).*1.

Record SInv (m0 : gmap string bytes) s : Prop := {
  si_queue : length (order_queue (conv s)) ≤ ORDER_QUEUE_CAPACITY;
  si_workers : length (workers s) ≤ concurrency_limit;
  si_once : NoDup (uni_id <$> orders s);
  si_submitted : ∀ p, p ∈ orders s →
    ∃ r, requests s !! uni_id p = Some r ∧ r_pkg r = p ∧ r_phase r ≠ Registered;
  si_request : ∀ id r, requests s !! id = Some r →
    uni_id (r_pkg r) = id ∧ r_chan r < next_channel (conv s);
  si_chan : ∀ id id' r r', requests s !! id = Some r → requests s !! id' = Some r' →
    r_chan r = r_chan r' → id = id';
  si_waiter : ∀ id e, waiters (conv s) !! id = Some e →
    ∃ r, requests s !! id = Some r ∧ sender e = r_chan r;
  si_delivered : ∀ id r p, requests s !! id = Some r →
    channels (conv s) !! r_chan r = Some (Delivered p) → (r_pkg r, p) ∈ log s;
  si_open : ∀ id r, requests s !! id = Some r → (∀ res, r_phase r ≠ Answered res) →
    open (channels (conv s)) (r_chan r);
  si_answered : ∀ id r p, requests s !! id = Some r → r_phase r = Answered (Some p) →
    (r_pkg r, p) ∈ log s;
  si_store : ∃ m, stands_for (run s) m ∧ processed m0 (log s) m
}.

Lemma orders_sublist s q :
  order_queue q `sublist_of` order_queue (conv s) → orders (with_conv q s) `sublist_of` orders s.
Proof. intros H. unfold orders; simpl. by apply sublist_app. Qed.

Lemma inv_quieter m0 s q : SInv m0 s → quieter (conv s) q → SInv m0 (with_conv q s).
Proof.
  intros [] [Hqq Hqw Hqc Hqo Hqn]. pose proof (orders_sublist s q Hqq) as Hsub.
  split; simpl; try done.
  - etrans; [by apply sublist_length|done].
  - eapply sublist_NoDup; [done|]. by apply fmap_sublist.
  - intros p Hp. apply si_submitted0. by eapply elem_of_sublist.
  - intros id r. rewrite Hqn. apply si_request0.
  - intros id e He. apply si_waiter0. by eapply lookup_weaken.
  - intros id r p Hr Hp. eapply si_delivered0; eauto.
  - intros id r Hr Hna. apply Hqo. eauto.
Qed.

Lemma inv_phase m0 s id r p :
  SInv m0 s → requests s !! id = Some r → p ≠ Registered → (∀ res, r_phase r ≠ Answered res) →
  (∀ x, p = Answered (Some x) → (r_pkg r, x) ∈ log s) →
  SInv m0 (with_request id (set_phase p r) s).
Proof.
  intros [] Hr Hp Hna Hx. split; simpl; try done.
  - intros p' Hp'. destruct (si_submitted0 p' Hp') as (r' & Hr' & E & Hph).
    destruct (decide (id = uni_id p')) as [->|Hne].
    + rewrite lookup_insert_eq. exists (set_phase p r). simpl. split; [done|]. split; [congruence|done].
    + rewrite lookup_insert_ne by done. eauto.
  - intros id' r' [[<- <-]|[_ ?]]%lookup_insert_Some; simpl; eauto.
  - intros i1 i2 r1 r2 [[<- <-]|[? ?]]%lookup_insert_Some [[<- <-]|[? ?]]%lookup_insert_Some;
      simpl; eauto.
  - intros id' e He. destruct (si_waiter0 id' e He) as (r' & Hr' & E).
    destruct (decide (id = id')) as [->|Hne];
      [rewrite lookup_insert_eq|rewrite lookup_insert_ne by done; eauto].
    exists (set_phase p r). simpl. split; [done|]. congruence.
  - intros id' r' x [[<- <-]|[_ ?]]%lookup_insert_Some; simpl; eauto.
  - intros id' r' [[<- <-]|[_ ?]]%lookup_insert_Some; simpl; eauto.
  - intros id' r' x [[<- <-]|[_ ?]]%lookup_insert_Some; simpl; eauto.
Qed.

Lemma inv_drop_receiver m0 s id r res :
  SInv m0 s → requests s !! id = Some r → r_phase r = Answered res →
  SInv m0 (with_conv (drop_receiver (r_chan r) (conv s)) s).
Proof.
  intros [] Hr Hph. split; simpl; try done.
  - intros id' r' p Hr' [[_ ?]|[_ ?]]%lookup_insert_Some; [done|eauto].
  - intros id' r' Hr' Hna. destruct (si_open0 _ _ Hr' Hna) as (ch & ? & ?). exists ch.
    rewrite lookup_insert_ne; [done|]. intros E.
    assert (id = id') as <- by by eapply si_chan0. apply (Hna res). congruence.
Qed.

Lemma withdraw_inv m0 s id r t :
  SInv m0 s → requests s !! id = Some r → r_phase r = Waiting t →
  SInv m0 (withdraw id r s) ∧
  SInv m0 (withdraw id r (with_conv (drop_receiver (r_chan r) (conv s)) s)).
Proof.
  intros HI Hr Hph.
  pose proof (inv_phase _ _ id r (Answered None) HI Hr ltac:(done) ltac:(by rewrite Hph)
    ltac:(done)) as HI1.
  assert (Hq : ∀ q, quieter q (remove_order id (unregister_waiter id q)).2).
  { intros q. etrans; [apply unregister_quieter|apply remove_quieter]. }
  split.
  - apply (inv_quieter _ (with_request id (set_phase (Answered None) r) s)); [done|apply Hq].
  - pose proof (inv_drop_receiver _ _ id _ None HI1 (lookup_insert_eq _ _ _) eq_refl) as HI2.
    apply (inv_quieter _ (with_conv (drop_receiver (r_chan r) (conv s))
             (with_request id (set_phase (Answered None) r) s))); [exact HI2|apply Hq].
Qed.

(** The orders held may move between queue, tasks and log. *)
Lemma inv_move m0 s q l fin :
  SInv m0 s → quieter (conv s) q → length l ≤ concurrency_limit →
  (order_queue q ++ l ++ (log s).*1) ≡ₚ orders s →
  SInv m0 (mkSys q l (run s) (requests s) fin (now_ns s) (log s) (shutting_down s)).
Proof.
  intros HI Hq Hl Hp. pose proof (inv_quieter _ _ _ HI Hq) as HI'.
  destruct HI as [_ _ Hnd Hsub _ _ _ _ _ _ _], HI'. split; try done.
  - by rewrite Hp.
  - intros p. unfold orders; simpl. rewrite Hp. apply Hsub.
Qed.

Lemma inv_register m0 s pkg c q :
  SInv m0 s → requests s !! uni_id pkg = None →
  register_waiter (uni_id pkg) (now_ns s) (conv s) = (Some c, q) →
  SInv m0 (with_request (uni_id pkg) (mkRequest pkg c Registered) (with_conv q s)).
Proof.
  intros [] Hnew Hreg. unfold register_waiter in Hreg. case_bool_decide; [done|]. simplify_eq.
  assert (Hold : ∀ id r, requests s !! id = Some r → r_chan r ≠ next_channel (conv s)).
  { intros id r Hr. destruct (si_request0 id r Hr). lia. }
  split; simpl; try done.
  - intros p Hp. destruct (si_submitted0 p Hp) as (r & Hr & ?).
    exists r. by rewrite lookup_insert_ne by congruence.
  - intros id r [[<- <-]|[_ Hr]]%lookup_insert_Some; simpl; [split; [done|lia]|].
    destruct (si_request0 id r Hr). split; [done|lia].
  - intros i1 i2 r1 r2 [[<- <-]|[_ H1]]%lookup_insert_Some [[<- <-]|[_ H2]]%lookup_insert_Some;
      simpl; [done|intros E; by destruct (Hold _ _ H2)|intros E; by destruct (Hold _ _ H1)|eauto].
  - intros id e [[<- <-]|[Hne He]]%lookup_insert_Some.
    + eexists. by rewrite lookup_insert_eq.
    + rewrite lookup_insert_ne by done. eauto.
  - intros id r p [[<- <-]|[_ Hr]]%lookup_insert_Some; simpl; [by rewrite lookup_insert_eq|].
    rewrite lookup_insert_ne; [eauto|]. intros E. by destruct (Hold _ _ Hr).
  - intros id r [[<- <-]|[_ Hr]]%lookup_insert_Some; simpl; intros Hna.
    + exists Pending. by rewrite lookup_insert_eq.
    + destruct (si_open0 id r Hr Hna) as (ch & ? & ?). exists ch.
      rewrite lookup_insert_ne; [done|]. intros E. by destruct (Hold _ _ Hr).
  - intros id r p [[<- <-]|[_ Hr]]%lookup_insert_Some; simpl; [done|eauto].
Qed.

Lemma inv_produce m0 s id r :
  SInv m0 s → requests s !! id = Some r → r_phase r = Registered →
  SInv m0 (with_request id (set_phase (Waiting (now_ns s)) r)
             (with_conv (produce_order (r_pkg r) (conv s)) s)).
Proof.
  intros HI Hr Hph. destruct (si_request _ _ HI _ _ Hr) as [Hid _].
  assert (Hfresh : uni_id (r_pkg r) ∉ uni_id <$> orders s).
  { intros (p & Ep & Hp)%list_elem_of_fmap.
    destruct (si_submitted _ _ HI p Hp) as (r' & Hr' & _ & Hne). congruence. }
  pose proof (make_room_length _ (si_queue _ _ HI)) as Hlen.
  pose proof (make_room_quieter (conv s)) as Hq.
  pose proof (inv_quieter _ _ _ HI Hq) as HI1.
  pose proof (inv_phase _ _ id r (Waiting (now_ns s)) HI1 Hr ltac:(done)
    ltac:(by rewrite Hph) ltac:(done)) as HI2.
  rewrite produce_make_room.
  assert (Hp : orders (with_request id (set_phase (Waiting (now_ns s)) r)
                 (with_conv (mkConvey (order_queue (make_room (conv s)) ++ [r_pkg r])
                    (waiters (make_room (conv s))) (channels (make_room (conv s)))
                    (next_channel (make_room (conv s)))) s))
               ≡ₚ r_pkg r :: orders (with_conv (make_room (conv s)) s)).
  { unfold orders; simpl. rewrite <- app_assoc. simpl. by rewrite <- Permutation_middle. }
  destruct HI2. split; simpl in *; try done.
  - rewrite length_app. simpl. lia.
  - rewrite Hp. simpl. constructor; [|done]. intros Hin. apply Hfresh.
    eapply elem_of_sublist; [exact Hin|]. apply fmap_sublist, orders_sublist, Hq.
  - intros p. rewrite Hp. intros [->|Hin]%elem_of_cons; [|by apply si_submitted0].
    rewrite Hid, lookup_insert_eq. by exists (set_phase (Waiting (now_ns s)) r).
Qed.

Lemma send_delivered c c' p p' chs :
  send c p chs !! c' = Some (Delivered p') →
  chs !! c' = Some (Delivered p') ∨ c' = c ∧ p' = p.
Proof.
  unfold send. destruct (decide (c = c')) as [->|Hne].
  - rewrite lookup_alter_eq. destruct (chs !! c') as [[]|]; simpl; intros; simplify_eq; auto.
  - rewrite lookup_alter_ne by done. auto.
Qed.

Lemma inv_finish m0 s l1 pkg l2 fs r w' :
  SInv m0 s → workers s = l1 ++ pkg :: l2 → one_failure fs →
  (∀ m, stands_for (run s) m → feasible pkg m) →
  process_package fresh_uuid pkg (mkEnv (state (run s)) fs (clock (run s)) (draws (run s))) = (Ok r, w') →
  SInv m0 (mkSys (produce_service r (conv s)).2 (l1 ++ l2) w' (requests s) (expired s)
             (now_ns s) (log s ++ [(pkg, r)]) (shutting_down s)).
Proof.
  intros [] Hw Hf Hfe Hrun. destruct si_store0 as (m & Hm & Hproc).
  destruct (process_package_effect fresh_uuid
    (mkEnv (state (run s)) fs (clock (run s)) (draws (run s))) m pkg) as (r' & w1 & m' & E & Hm' & He & _);
    [by eapply stands_for_ext|done|by apply Hfe|].
  rewrite Hrun in E. simplify_eq. pose proof (proj1 He) as Hid.
  assert (He' : effect False pkg m r' m').
  { destruct He as (? & ? & He). split; [done|]. split; [done|].
    repeat case_match; naive_solver. }
  assert (Hp : order_queue (conv s) ++ (l1 ++ l2) ++ (log s ++ [(pkg, r')]).*1 ≡ₚ orders s).
  { unfold orders. rewrite Hw, fmap_app. simpl. rewrite (Permutation_app_comm _ [pkg]), <- !app_assoc.
    do 2 apply Permutation_app_head. simpl. symmetry. apply Permutation_middle. }
  assert (Hq : order_queue (produce_service r' (conv s)).2 = order_queue (conv s)).
  { unfold produce_service. by case_match. }
  assert (Hpkg : pkg ∈ orders s).
  { unfold orders. rewrite Hw. set_solver. }
  destruct (si_submitted0 pkg Hpkg) as (rq & Hrq & Epkg & _).
  split; simpl; try done.
  - by rewrite Hq.
  - rewrite Hw in si_workers0. rewrite length_app in *. simpl in *. lia.
  - unfold orders; simpl. by rewrite Hq, Hp.
  - intros p. unfold orders; simpl. rewrite Hq, Hp. apply si_submitted0.
  - intros id rq' Hrq'. destruct (si_request0 _ _ Hrq').
    unfold produce_service. by case_match.
  - intros id e. unfold produce_service. case_match; simpl; [|apply si_waiter0].
    intros [_ He2]%lookup_delete_Some. by apply si_waiter0.
  - intros id rq' p Hrq'. unfold produce_service.
    destruct (waiters (conv s) !! uni_id r') as [e|] eqn:Hwt; simpl; [|intros Hd; apply elem_of_app; left; eauto].
    intros [Hd|[Ec ->]]%send_delivered; [apply elem_of_app; left; eauto|].
    destruct (si_waiter0 _ _ Hwt) as (rq2 & Hrq2 & Es). rewrite Hid in Hrq2.
    assert (id = uni_id pkg) as -> by (eapply si_chan0; [done|exact Hrq2|congruence]).
    apply elem_of_app. right. assert (rq' = rq) as -> by congruence. rewrite Epkg. by left.
  - intros id rq' Hrq' Hna. unfold produce_service. case_match; simpl; [apply send_open|]; eauto.
  - intros id rq' p Hrq' Hph. apply elem_of_app. left. eauto.
  - exists m'. split; [done|]. by econstructor.
Qed.

Lemma inv_other m0 s fin n d :
  SInv m0 s → SInv m0 (mkSys (conv s) (workers s) (run s) (requests s) fin n (log s) d).
Proof. by intros []. Qed.

Lemma inv_step m0 s s' : SInv m0 s → step s s' → SInv m0 s'.
Proof.
  intros HI Hs. destruct Hs.
  - by apply inv_register.
  - by apply inv_produce.
  - apply inv_move; [done|by eapply consume_quieter|rewrite length_app; simpl; lia|].
    unfold consume_order in H1. unfold orders. destruct (order_queue (conv s)) as [|p0 rest]; [done|].
    simplify_eq. simpl. rewrite <- app_assoc. simpl.
    by rewrite (app_assoc rest), <- Permutation_middle, <- app_assoc.
  - by eapply inv_finish.
  - apply inv_phase; [done..|by rewrite H0|]. intros x [= <-]. by eapply si_delivered.
  - by eapply withdraw_inv.
  - by eapply withdraw_inv.
  - apply (inv_move _ s _ (workers s)); [done|apply expire_quieter|apply HI|done].
  - apply (inv_other _ (with_conv (remove_order id (conv s)).2 s)), inv_quieter, remove_quieter; done.
  - by apply inv_other.
  - by apply inv_other.
Qed.

Lemma reachable_inv w m0 s : stands_for w m0 → reachable w s → SInv m0 s.
Proof.
  intros Hw Hr. unfold reachable in Hr.
  revert s Hr. apply (rtc_ind_r (SInv m0)).
  2: { intros s1 s2 _ H2 H1. by eapply inv_step. }
  - split; simpl; try done; [unfold ORDER_QUEUE_CAPACITY; lia|lia|constructor|set_solver|].
    exists m0. split; [done|constructor].
Qed.

(** ** Nothing is left behind

    The registry, the channels and the queue hold what belongs to requests that
    are still under way, and nothing else. *)

Definition under_way (r : Request) : Prop := ∀ res, r_phase r ≠ Answered res.
Record Neat s : Prop := {
  nt_waiter : ∀ id e, waiters (conv s) !! id = Some e → ∃ r, requests s !! id = Some r ∧ under_way r ∧
    sender e = r_chan r ∧ channels (conv s) !! r_chan r = Some Pending;
  nt_pending : ∀ id r, requests s !! id = Some r → under_way r →
    channels (conv s) !! r_chan r = Some Pending → is_Some (waiters (conv s) !! id);
  nt_queue : ∀ p, p ∈ order_queue (conv s) → ∃ r t, requests s !! uni_id p = Some r ∧ r_phase r = Waiting t
}.

(** The queue only loses orders, and the registry waiters whose channels have had
    their answer. *)
Record settles (q q' : ConveyQueue) : Prop := {
  st_waiters : waiters q' ⊆ waiters q;
  st_queue : ∀ p, p ∈ order_queue q' → p ∈ order_queue q;
  st_each : ∀ id e, waiters q !! id = Some e → channels q !! sender e = Some Pending →
    waiters q' !! id = Some e ∧ channels q' !! sender e = Some Pending ∨
    waiters q' !! id = None ∧ channels q' !! sender e ≠ Some Pending;
  st_pending : ∀ c, channels q' !! c = Some Pending → channels q !! c = Some Pending
}.
Definition senders_apart (q : ConveyQueue) : Prop := ∀ id id' e e',
  waiters q !! id = Some e → waiters q !! id' = Some e' → sender e = sender e' → id = id'.

Lemma settles_refl q : settles q q.
Proof. split; auto. Qed.
Lemma settles_trans q1 q2 q3 : settles q1 q2 → settles q2 q3 → settles q1 q3.
Proof.
  intros [W1 Q1 E1 P1] [W2 Q2 E2 P2]. split; [by etrans|eauto| |eauto]. intros id e He Hp.
  destruct (E1 _ _ He Hp) as [[He2 Hp2]|[Hn2 Hp2]]; [by apply E2|right]. split.
  - destruct (waiters q3 !! id) as [e3|] eqn:E; [|done]. eapply lookup_weaken in E; [|exact W2]. congruence.
  - by intros ?%P2.
Qed.
Lemma neat_settles s q : Neat s → settles (conv s) q → Neat (with_conv q s).
Proof.
  intros [Hw Hp Hq] [W Q E P]. split; simpl.
  - intros id e He. pose proof (lookup_weaken _ _ _ _ He W) as He0. destruct (Hw _ _ He0) as (r & Hr & Hl & Es & Hc).
    exists r. split_and!; try done. rewrite <- Es in Hc |- *. destruct (E _ _ He0 Hc) as [[_ ?]|[? _]]; [done|congruence].
  - intros id r Hr Hl Hc. destruct (Hp _ _ Hr Hl (P _ Hc)) as [e He]. destruct (Hw _ _ He) as (r' & Hr' & _ & Es & Hc').
    assert (r' = r) as -> by congruence. rewrite <- Es in Hc, Hc'. destruct (E _ _ He Hc') as [[? _]|[_ ?]]; [eauto|done].
  - intros p Hin. by apply Hq, Q.
Qed.
Lemma neat_apart m0 s : SInv m0 s → Neat s → senders_apart (conv s).
Proof.
  intros HI HN id id' e e' He He' E. destruct (nt_waiter _ HN _ _ He) as (r & Hr & _ & Es & _).
  destruct (nt_waiter _ HN _ _ He') as (r' & Hr' & _ & Es' & _). eapply (si_chan _ _ HI); [exact Hr|exact Hr'|congruence].
Qed.

Lemma alter_pending f c c' (chs : gmap nat Channel) : (∀ ch, f ch = Pending → ch = Pending) →
  alter f c chs !! c' = Some Pending → chs !! c' = Some Pending.
Proof.
  intros Hf. destruct (decide (c = c')) as [->|Hne]; [|by rewrite lookup_alter_ne].
  rewrite lookup_alter_eq. intros (ch & -> & E)%fmap_Some. by rewrite (Hf ch).
Qed.
(** Taking out one waiter whose channel gets [f], which is not [Pending]. *)
Lemma alter_settles f q id e : senders_apart q → waiters q !! id = Some e → (∀ ch, f ch ≠ Pending) →
  settles q (mkConvey (order_queue q) (delete id (waiters q)) (alter f (sender e) (channels q)) (next_channel q)).
Proof.
  intros Ha He Hf. split; simpl; [apply delete_subseteq|done| |].
  - intros id' e' He' Hp'. destruct (decide (id = id')) as [<-|Hne]; [right|left].
    + assert (e' = e) as -> by congruence. rewrite lookup_delete_eq, lookup_alter_eq, Hp'. split; [done|].
      intros [= E]. by apply Hf in E.
    + rewrite lookup_delete_ne, lookup_alter_ne; [done| |done]. intros E. apply Hne. by eapply Ha.
  - intros c. apply alter_pending. by intros ch ?%Hf.
Qed.
Lemma unregister_settles id q : senders_apart q → settles q (unregister_waiter id q).
Proof.
  intros Ha. unfold unregister_waiter. destruct (waiters q !! id) as [e|] eqn:He; [|apply settles_refl].
  apply alter_settles; [done..|]. by intros [].
Qed.
Lemma dequeue_settles q l : (∀ p, p ∈ l → p ∈ order_queue q) → settles q (mkConvey l (waiters q) (channels q) (next_channel q)).
Proof. intros Hl. split; simpl; auto. Qed.
Lemma remove_settles id q : settles q (remove_order id q).2.
Proof. apply dequeue_settles. by intros p [_ ?]%list_elem_of_filter. Qed.
Lemma consume_settles q p q' : consume_order q = (Some p, q') → settles q q'.
Proof.
  unfold consume_order. destruct (order_queue q) as [|p0 rest] eqn:E; intros; simplify_eq.
  apply dequeue_settles. rewrite E. by right.
Qed.
Lemma make_room_settles q : senders_apart q → settles q (make_room q).
Proof.
  intros Ha. unfold make_room. case_match; [|apply settles_refl]. destruct (order_queue q) as [|d rest] eqn:E; [split; by auto|].
  eapply settles_trans; [apply (dequeue_settles q rest); rewrite E; by right|]. by apply unregister_settles.
Qed.
Lemma service_settles r q : senders_apart q → settles q (produce_service r q).2.
Proof.
  intros Ha. unfold produce_service. destruct (waiters q !! uni_id r) as [e|] eqn:He; [|apply settles_refl].
  apply alter_settles; [done..|]. by intros [].
Qed.
Lemma expire_settles n q : senders_apart q → settles q (expire_waiters n q).2.
Proof.
  intros Ha. set (gone := filter (λ kv, is_expired n kv.2 = true) (waiters q)). split; simpl; [apply map_filter_subseteq|done| |].
  - intros id e He Hp. fold gone. destruct (is_expired n e) eqn:Ee; [right|left]; split.
    + apply map_lookup_filter_None. right. intros e' He'. simpl. congruence.
    + assert (Hin : (id, e) ∈ map_to_list gone) by (apply elem_of_map_to_list, map_lookup_filter_Some; done).
      intros Hpend. induction (map_to_list gone) as [|kv l IH]; [by apply not_elem_of_nil in Hin|]. simpl in Hpend.
      apply elem_of_cons in Hin as [<-|Hin].
      * unfold drop_sender in Hpend. simpl in Hpend. rewrite lookup_alter_eq in Hpend.
        apply fmap_Some in Hpend as ([] & _ & ?); done.
      * apply IH; [done|]. eapply alter_pending; [|exact Hpend]. by intros [].
    + by apply map_lookup_filter_Some.
    + assert (Hne : ∀ kv, kv ∈ map_to_list gone → sender kv.2 ≠ sender e).
      { intros [id' e'] [He' Ee']%elem_of_map_to_list%map_lookup_filter_Some E. simpl in *.
        assert (id' = id) as -> by by eapply Ha. congruence. }
      induction (map_to_list gone) as [|kv l IH]; [done|]. simpl. unfold drop_sender at 1.
      rewrite lookup_alter_ne; [apply IH; intros kv' ?; apply Hne; by right|apply Hne; by left].
  - intros c. fold gone. induction (map_to_list gone) as [|kv l IH]; [done|]. simpl. intros H. apply IH.
    eapply alter_pending; [|exact H]. by intros [].
Qed.

(** A request goes on, or ends with nothing of it left. *)
Lemma neat_waiting s id r t : Neat s → requests s !! id = Some r → under_way r → Neat (with_request id (set_phase (Waiting t) r) s).
Proof.
  intros [Hw Hp Hq] Hr Hl. split; simpl.
  - intros id' e He. destruct (Hw _ _ He) as (r' & Hr' & Hl' & Es & Hc). destruct (decide (id = id')) as [<-|Hne].
    + assert (r' = r) as -> by congruence. rewrite lookup_insert_eq. eexists. by split_and!.
    + rewrite lookup_insert_ne by done. eauto.
  - intros id' r' [[<- <-]|[_ Hr']]%lookup_insert_Some; [intros _ Hc; by apply (Hp id r)|by apply Hp].
  - intros p Hin. destruct (Hq p Hin) as (r' & t' & Hr' & Hph). destruct (decide (id = uni_id p)) as [->|Hne].
    + rewrite lookup_insert_eq. by eexists _, _.
    + rewrite lookup_insert_ne by done. eauto.
Qed.
Lemma neat_ended s id r res : Neat s → requests s !! id = Some r →
  waiters (conv s) !! id = None → (∀ p, p ∈ order_queue (conv s) → uni_id p ≠ id) →
  Neat (with_request id (set_phase (Answered res) r) s).
Proof.
  intros [Hw Hp Hq] Hr Hnw Hnq. split; simpl.
  - intros id' e He. rewrite lookup_insert_ne by (intros <-; congruence). by apply Hw.
  - intros id' r' [[<- <-]|[_ Hr']]%lookup_insert_Some; [intros Hl; by destruct (Hl res)|by apply Hp].
  - intros p Hin. rewrite lookup_insert_ne by (intros E; by destruct (Hnq p Hin)). by apply Hq.
Qed.
Lemma gone_waiter id q : waiters (unregister_waiter id q) !! id = None.
Proof. unfold unregister_waiter. destruct (waiters q !! id) eqn:E; [apply lookup_delete_eq|done]. Qed.
Lemma gone_order id q p : p ∈ order_queue (remove_order id q).2 → uni_id p ≠ id.
Proof. by intros [? _]%list_elem_of_filter. Qed.
Lemma withdraw_neat m0 s id r : SInv m0 s → Neat s → requests s !! id = Some r → Neat (withdraw id r s).
Proof.
  intros HI HN Hr. unfold withdraw. apply neat_ended; [|done|apply gone_waiter|apply gone_order].
  apply neat_settles; [done|]. eapply settles_trans; [by eapply unregister_settles, neat_apart|apply remove_settles].
Qed.
(** Giving up drops the receiver first; nobody else has that channel. *)
Lemma timeout_neat m0 s id r : SInv m0 s → Neat s → requests s !! id = Some r →
  Neat (withdraw id r (with_conv (drop_receiver (r_chan r) (conv s)) s)).
Proof.
  intros HI HN Hr. set (q := (remove_order id (unregister_waiter id (drop_receiver (r_chan r) (conv s)))).2).
  apply (neat_ended (with_conv q s)); [|done|apply gone_waiter|apply gone_order].
  apply neat_settles; [done|]. subst q. destruct HN as [Hw Hp Hq].
  assert (Ha : senders_apart (conv s)) by (eapply neat_apart; [exact HI|by split]).
  eapply settles_trans; [|apply remove_settles]. unfold unregister_waiter. simpl.
  destruct (waiters (conv s) !! id) as [e|] eqn:He.
  - destruct (Hw _ _ He) as (r' & Hr' & _ & Es & _). assert (r' = r) as -> by congruence. rewrite Es.
    unfold drop_sender. split; simpl; [apply delete_subseteq|done| |].
    + intros id' e' He' Hp'. destruct (decide (id = id')) as [<-|Hne]; [right|left].
      * assert (e' = e) as -> by congruence. rewrite Es, lookup_delete_eq, lookup_alter_eq, lookup_insert_eq. by split.
      * assert (r_chan r ≠ sender e') by (intros E; apply Hne; eapply Ha; [exact He|exact He'|congruence]).
        by rewrite lookup_delete_ne, lookup_alter_ne, lookup_insert_ne.
    + intros c Hc. apply alter_pending in Hc; [|by intros []].
      by apply lookup_insert_Some in Hc as [[_ ?]|[_ ?]].
  - split; simpl; [done|done| |].
    + intros id' e' He' Hp'. left. split; [done|]. rewrite lookup_insert_ne; [done|]. intros E.
      destruct (Hw _ _ He') as (r' & Hr' & _ & Es & _).
      assert (id = id') as -> by (eapply (si_chan _ _ HI); [exact Hr|exact Hr'|congruence]). congruence.
    + intros c Hc. by apply lookup_insert_Some in Hc as [[_ ?]|[_ ?]].
Qed.

Lemma register_neat m0 s pkg c q : SInv m0 s → Neat s → requests s !! uni_id pkg = None →
  register_waiter (uni_id pkg) (now_ns s) (conv s) = (Some c, q) →
  Neat (with_request (uni_id pkg) (mkRequest pkg c Registered) (with_conv q s)).
Proof.
  intros HI [Hw Hp Hq] Hnew Hreg. unfold register_waiter in Hreg. case_bool_decide; [done|]. simplify_eq.
  assert (Hold : ∀ id r, requests s !! id = Some r → r_chan r ≠ next_channel (conv s)).
  { intros id r Hr. destruct (si_request _ _ HI id r Hr). lia. }
  split; simpl.
  - intros id e [[<- <-]|[Hne He]]%lookup_insert_Some.
    + eexists. rewrite lookup_insert_eq. split_and!; [done|done|done|apply lookup_insert_eq].
    + destruct (Hw _ _ He) as (r & Hr & ? & ? & ?). exists r. rewrite !lookup_insert_ne; [done| |done].
      intros E. by apply (Hold id r).
  - intros id r [[<- <-]|[Hne Hr]]%lookup_insert_Some; simpl; [rewrite !lookup_insert_eq; eauto|].
    rewrite (lookup_insert_ne (waiters _)) by done. rewrite (lookup_insert_ne (channels _)); [by apply Hp|].
    intros E. by apply (Hold id r).
  - intros p Hin. destruct (Hq p Hin) as (r & t & Hr & ?). exists r, t. by rewrite lookup_insert_ne by congruence.
Qed.
Lemma produce_neat m0 s id r : SInv m0 s → Neat s → requests s !! id = Some r → r_phase r = Registered →
  Neat (with_request id (set_phase (Waiting (now_ns s)) r) (with_conv (produce_order (r_pkg r) (conv s)) s)).
Proof.
  intros HI HN Hr Hph. destruct (si_request _ _ HI _ _ Hr) as [Hid _]. rewrite produce_make_room.
  assert (HN1 : Neat (with_request id (set_phase (Waiting (now_ns s)) r) (with_conv (make_room (conv s)) s))).
  { apply neat_waiting; [|done|by intros res; rewrite Hph]. apply neat_settles; [done|]. by eapply make_room_settles, neat_apart. }
  destruct HN1 as [Hw Hp Hq]. split; simpl in *; [done..|]. intros p [Hin|Hin]%elem_of_app; [by apply Hq|].
  apply list_elem_of_singleton in Hin as ->. rewrite Hid, lookup_insert_eq. by eexists _, _.
Qed.
(** What has been delivered has been processed: its order is nowhere else. *)
Lemma receive_neat m0 s id r p : SInv m0 s → Neat s → requests s !! id = Some r →
  channels (conv s) !! r_chan r = Some (Delivered p) → Neat (with_request id (set_phase (Answered (Some p)) r) s).
Proof.
  intros HI HN Hr Hc. destruct (si_request _ _ HI _ _ Hr) as [Hid _]. apply neat_ended; [done|done|..].
  - destruct (waiters (conv s) !! id) as [e|] eqn:He; [|done].
    destruct (nt_waiter _ HN _ _ He) as (r' & Hr' & _ & _ & Hc'). congruence.
  - intros p' Hin E. pose proof (si_delivered _ _ HI _ _ _ Hr Hc) as Hlog. pose proof (si_once _ _ HI) as Hnd.
    unfold orders in Hnd. rewrite !fmap_app in Hnd. apply NoDup_app in Hnd as (_ & Hd & _).
    apply (Hd (uni_id p')); [by apply list_elem_of_fmap_2|]. apply elem_of_app. right. rewrite E, <- Hid.
    apply list_elem_of_fmap_2. by apply (list_elem_of_fmap_2 fst _ _ Hlog).
Qed.

Lemma neat_step m0 s s' : SInv m0 s → Neat s → step s s' → Neat s'.
Proof.
  intros HI HN Hs. pose proof (neat_apart _ _ HI HN) as Ha.
  assert (Hsame : ∀ q l v fin n lg d, settles (conv s) q → Neat (mkSys q l v (requests s) fin n lg d)).
  { intros q l v fin n lg d Hq. by destruct (neat_settles s q HN Hq). }
  destruct Hs.
  - by eapply register_neat.
  - by eapply produce_neat.
  - by eapply Hsame, consume_settles.
  - by apply Hsame, service_settles.
  - by eapply receive_neat.
  - by eapply withdraw_neat.
  - by eapply timeout_neat.
  - by apply Hsame, expire_settles.
  - apply Hsame, remove_settles.
  - apply Hsame, settles_refl.
  - apply Hsame, settles_refl.
Qed.
Lemma reachable_neat w m0 s : stands_for w m0 → reachable w s → Neat s.
Proof.
  intros Hw Hr. assert (H : SInv m0 s ∧ Neat s); [|apply H]. unfold reachable in Hr.
  revert s Hr. apply (rtc_ind_r (λ s, SInv m0 s ∧ Neat s)).
  - split; [by apply (reachable_inv w), rtc_refl|]. by split; simpl; [..|intros p ?%elem_of_nil].
  - intros s1 s2 _ H2 [HI HN]. split; [by eapply inv_step|by eapply neat_step].
Qed.

(** ** Properties *)

(** C26 (bounds): however requests, tasks, time-outs, clean-up and shutdown
    interleave, the order queue never holds more than its capacity of orders and
    the worker never more tasks than its limit. *)
Theorem server_bounded w m0 s :
  stands_for w m0 → reachable w s →
  length (order_queue (conv s)) ≤ ORDER_QUEUE_CAPACITY ∧ length (workers s) ≤ concurrency_limit.
Proof. intros Hw Hr. by destruct (reachable_inv _ _ _ Hw Hr). Qed.

(** C2 (refinement): the store the concurrent server leaves is the one that
    results from processing, one after the other, the orders in its log, the
    processing of an order being one step (the mutex [operation_lock] of the store
    is taken to give that, and at most one call fails in each); each request is processed at most once, whatever was dropped, timed out or
    expired; every response a front end has received is the answer given there
    to that very request. *)
Theorem server_linearizes w m0 s :
  stands_for w m0 → reachable w s →
  (∃ m, stands_for (run s) m ∧ processed m0 (log s) m) ∧
  NoDup (uni_id <$> (log s).*1) ∧
  ∀ id r p, requests s !! id = Some r → r_phase r = Answered (Some p) →
    uni_id (r_pkg r) = id ∧ (r_pkg r, p) ∈ log s.
Proof.
  intros Hw Hr. destruct (reachable_inv _ _ _ Hw Hr) as [_ _ Hnd _ Hreq _ _ _ _ Hans Hst].
  split; [done|]. split.
  - unfold orders in Hnd. rewrite !fmap_app in Hnd. by apply NoDup_app in Hnd as (_ & _ & [_ [_ ?]]%NoDup_app).
  - intros id r p Hid Hph. split; [by destruct (Hreq _ _ Hid)|by eapply Hans].
Qed.

End Service.

(** ** Witnesses: one read served by the store of Manager.v *)

Definition demo_uuid (k : nat) : bytes := replicate k NUL.
Definition demo_order : Package :=
  mkPackage StatusNone (str_bytes "0123456789abcdef") GetFile
    (mkContent 0 (str_bytes "greeting.txt") []) 0.
#[local] Instance demo_objects : ObjectStore Store := manager_store demo_root demo_bm.
#[local] Instance demo_objects_laws : ObjectStoreLaws Store.
Proof. apply manager_store_laws. by vm_compute. Qed.
Abbreviation demo_start := (start (demo_env [])).
Abbreviation demo_step := (step demo_uuid 2).

(** Registered, then queued. *)
Definition demo_registered : Sys Store :=
  with_request (uni_id demo_order) (mkRequest demo_order 0 Registered)
    (with_conv (register_waiter (uni_id demo_order) 0 ConveyQueue_new).2 demo_start).
Definition demo_queued : Sys Store :=
  with_request (uni_id demo_order) (set_phase (Waiting 0) (mkRequest demo_order 0 Registered))
    (with_conv (produce_order demo_order (conv demo_registered)) demo_registered).
Lemma demo_queued_reachable : reachable demo_uuid 2 (demo_env []) demo_queued.
Proof.
  eapply rtc_l; [|eapply rtc_once].
  - eapply (step_register _ _ demo_start demo_order 0); reflexivity.
  - eapply (step_produce _ _ demo_registered (uni_id demo_order)); [|reflexivity].
    apply lookup_insert_eq.
Qed.

(** Taken by a task, processed, received. *)
Definition demo_response : Package :=
  match (process_package demo_uuid demo_order (demo_env [])).1 with
  | Ok r => r
  | _ => demo_order
  end.
Lemma demo_answered : ∃ s r, reachable demo_uuid 2 (demo_env []) s ∧
  requests s !! uni_id demo_order = Some r ∧ r_phase r = Answered (Some demo_response).
Proof.
  eexists _, _. split.
  - unfold reachable. etrans; [exact demo_queued_reachable|].
    eapply rtc_l; [eapply (step_take _ _ demo_queued demo_order); [done|simpl; lia|reflexivity]|].
    eapply rtc_l; [eapply (step_finish _ _ _ [] demo_order [] [] demo_response);
      [done|done|by intros|vm_compute; reflexivity]|].
    eapply rtc_once. eapply (step_receive _ _ _ (uni_id demo_order)); [apply lookup_insert_eq|done|].
    vm_compute. reflexivity.
  - split; [apply lookup_insert_eq|reflexivity].
Qed.

Lemma server_bounded_witness :
  length (order_queue (conv demo_queued)) ≤ ORDER_QUEUE_CAPACITY ∧ length (workers demo_queued) ≤ 2.
Proof.
  exact (server_bounded demo_uuid 2 (demo_env []) demo_map demo_queued (demo_holds [])
           demo_queued_reachable).
Defined.

Lemma server_linearizes_witness : ∃ s r,
  requests s !! uni_id demo_order = Some r ∧ r_phase r = Answered (Some demo_response) ∧
  c_data (content demo_response) = demo_hello ∧ (r_pkg r, demo_response) ∈ log s ∧
  ∃ m, stands_for (run s) m ∧ processed demo_map (log s) m.
Proof.
  destruct demo_answered as (s & r & Hs & Hr & Hph). exists s, r.
  destruct (server_linearizes (OS := demo_objects) demo_uuid 2 (demo_env []) demo_map s (demo_holds []) Hs) as (Hm & _ & Ha).
  split; [done|]. split; [done|]. split; [by vm_compute|]. split; [by eapply Ha|done].
Defined.

(** The queued request, ten seconds on. *)
Definition demo_late : Sys Store :=
  mkSys (conv demo_queued) (workers demo_queued) (run demo_queued) (requests demo_queued) (expired demo_queued)
    (now_ns demo_queued + 10 * SECOND) (log demo_queued) (shutting_down demo_queued).
