(* ===== verification/Shutdown.v ===== *)
(** * The shutdown flag ([linastore-server/src/shutdown.rs])

    One flag and one [tokio::sync::Notify], shared by every task.  Tasks call
    [wait] and [shutdown] concurrently; each line of the two methods is a step of
    its own, and the steps of the tasks interleave. *)
From S2P Require Import Prelude.

(** ** [tokio::sync::Notify] *)

(** A [Notified] future belongs to the moment it was created: [issued]. *)
Class Notify := {
  notify : Type;
  future : Type;
  notified : notify → future;
  notify_waiters : notify → notify;
  ready : notify → future → bool;
  issued : notify → future → Prop
}.
(** As documented: a future is not ready by itself; [notify_waiters] wakes every
    future created before it, polled or not, and none stops being ready. *)
Class NotifyLaws (N : Notify) : Prop := {
  issued_now n : issued n (notified n);
  issued_later n t : issued n t → issued (notify_waiters n) t;
  not_ready n : ready n (notified n) = false;
  wakes n t : issued n t → ready (notify_waiters n) t = true
}.

Section Shutdown.
Context `{N : Notify}.

(** Where a task is in [wait] or in [shutdown]. *)
Inductive Phase :=
  | WaitCalled                    (* before [self.notify.notified()] *)
  | Notified (t : future)         (* before the flag is read *)
  | Awaiting (t : future)         (* at [notified.await] *)
  | WaitReturned
  | ShutdownCalled                (* before the swap *)
  | Notifying                     (* before [notify_waiters] *)
  | ShutdownReturned.

Record Shutdown := mkShutdown {
  is_shutdown : bool;
  notify_state : notify;
  tasks : list Phase
}.

(** What the next step of a task does: the flag, the [Notify], the task's next
    phase; [None] when it cannot move. *)
Definition advance (flag : bool) (n : notify) (p : Phase) : option (bool * notify * Phase) :=
  match p with
  | WaitCalled => Some (flag, n, Notified (notified n))
  | Notified t => Some (flag, n, if flag then WaitReturned else Awaiting t)
  | Awaiting t => if ready n t then Some (flag, n, WaitReturned) else None
  | ShutdownCalled => Some (true, n, if flag then ShutdownReturned else Notifying)
  | Notifying => Some (flag, notify_waiters n, ShutdownReturned)
  | WaitReturned | ShutdownReturned => None
  end.

(** Inside [wait]. *)
Definition waiting (p : Phase) : Prop :=
  match p with WaitCalled | Notified _ | Awaiting _ => True | _ => False end.

Inductive step : Shutdown → Shutdown → Prop :=
  | step_task i p f n p' s :
      tasks s !! i = Some p → advance (is_shutdown s) (notify_state s) p = Some (f, n, p') →
      step s (mkShutdown f n (<[i := p']> (tasks s)))
  | step_call p s :
      p = WaitCalled ∨ p = ShutdownCalled →
      step s (mkShutdown (is_shutdown s) (notify_state s) (tasks s ++ [p]))
  (** A [select!] whose other branch ran drops the [wait] and calls it anew. *)
  | step_again i p s :
      tasks s !! i = Some p → waiting p →
      step s (mkShutdown (is_shutdown s) (notify_state s) (<[i := WaitCalled]> (tasks s))).

(** [get_instance], by whoever comes first. *)
Definition initial (n : notify) : Shutdown := mkShutdown false n [].

Context `{NL : !NotifyLaws N}.

(** ** Invariant *)

(** A task that could sleep through the shutdown: its future not yet woken. *)
Definition listening (n : notify) (p : Phase) : Prop :=
  match p with
  | Notified t | Awaiting t => issued n t
  | _ => True
  end.
(** A task before any shutdown. *)
Definition quiet (n0 : notify) (p : Phase) : Prop :=
  match p with
  | Notified t | Awaiting t => t = notified n0
  | WaitReturned | Notifying | ShutdownReturned => False
  | _ => True
  end.
Record Inv (n0 : notify) (s : Shutdown) : Prop := {
  inv_issued : Forall (listening (notify_state s)) (tasks s);
  (* until the flag is set nobody has notified, and nobody has returned *)
  inv_quiet : is_shutdown s = false →
    notify_state s = n0 ∧ Forall (quiet n0) (tasks s);
  (* afterwards a waiter is awake, or the one that set the flag is about to wake it *)
  inv_awake i t : is_shutdown s = true → tasks s !! i = Some (Awaiting t) →
    ready (notify_state s) t = true ∨ Notifying ∈ tasks s
}.

Lemma initial_inv n : Inv n (initial n).
Proof. split; simpl; [constructor|split; [done|constructor]|done]. Qed.

Lemma insert_other (l : list Phase) i p' j x :
  <[i := p']> l !! j = Some x → x = p' ∨ j ≠ i ∧ l !! j = Some x.
Proof. rewrite list_lookup_insert_Some. naive_solver. Qed.
(** A task that moves leaves the notifying one where it is. *)
Lemma insert_notifying (l : list Phase) i p p' :
  l !! i = Some p → p ≠ Notifying → Notifying ∈ l → Notifying ∈ <[i := p']> l.
Proof.
  intros Hp Hne [k Hk]%list_elem_of_lookup. apply list_elem_of_lookup. exists k.
  rewrite list_lookup_insert_ne; [done|]. intros ->. congruence.
Qed.

Lemma step_issued n0 s s' : Inv n0 s → step s s' → Forall (listening (notify_state s')) (tasks s').
Proof.
  intros HI Hs. pose proof (inv_issued _ _ HI) as Hi. destruct Hs as [i p f n p' s Hp Hadv|p s Hp|i p s Hp Hw]; simpl.
  - pose proof (Forall_lookup_1 _ _ _ _ Hi Hp) as Hx.
    destruct p as [|t|t| | | |]; simpl in *; repeat case_match; simplify_eq;
      apply Forall_insert; simpl; auto using issued_now.
    eapply Forall_impl; [exact Hi|]. intros []; simpl; auto using issued_later.
  - apply Forall_app. split; [done|]. by destruct Hp as [-> | ->]; repeat constructor.
  - by apply Forall_insert.
Qed.

Lemma step_quiet n0 s s' : Inv n0 s → step s s' → is_shutdown s' = false →
  notify_state s' = n0 ∧ Forall (quiet n0) (tasks s').
Proof.
  intros HI Hs. pose proof (inv_quiet _ _ HI) as Hq.
  destruct Hs as [i p f n p' s Hp Hadv|p s Hp|i p s Hp Hw]; simpl; intros Hf.
  - destruct p as [|t|t| | | |]; simpl in *; repeat case_match; simplify_eq;
      (destruct Hq as [<- Hq]; [done|]); pose proof (Forall_lookup_1 _ _ _ _ Hq Hp) as Hx; simpl in Hx;
      simplify_eq; try done.
    + split; [done|]. by apply Forall_insert.
    + split; [done|]. by apply Forall_insert.
    + by rewrite not_ready in *.
  - destruct (Hq Hf) as [? ?]. split; [done|]. apply Forall_app. split; [done|].
    by destruct Hp as [-> | ->]; repeat constructor.
  - destruct (Hq Hf) as [? ?]. split; [done|]. by apply Forall_insert.
Qed.

Lemma step_awake n0 s s' j t : Inv n0 s → step s s' → is_shutdown s' = true → tasks s' !! j = Some (Awaiting t) →
  ready (notify_state s') t = true ∨ Notifying ∈ tasks s'.
Proof.
  intros HI Hs. pose proof (inv_awake _ _ HI) as Ha. pose proof (inv_issued _ _ HI) as Hi.
  destruct Hs as [i p f n p' s Hp Hadv|p s Hp|i p s Hp Hw]; simpl; intros Hf Hj.
  - apply insert_other in Hj as [Hx|[Hne Hj]].
    + exfalso. subst p'. destruct p as [|u|u| | | |]; simpl in Hadv;
        try destruct (is_shutdown s) eqn:?; try destruct (ready _ u); congruence.
    + assert (Hlen : i < length (tasks s)) by by eapply lookup_lt_Some.
      destruct p as [|u|u| | | |]; simpl in Hadv; repeat case_match; simplify_eq; simpl.
      all: try (destruct (Ha j t) as [?|?]; [done..|by left|right; by eapply insert_notifying]).
      * right. apply list_elem_of_lookup. exists i. by apply list_lookup_insert_eq.
      * left. apply wakes. apply (Forall_lookup_1 _ _ _ _ Hi Hj).
  - rewrite elem_of_app. apply lookup_app_Some in Hj as [Hj|[_ Hj]].
    + destruct (Ha j t Hf Hj); auto.
    + apply list_lookup_singleton_Some in Hj as [_ ->]. by destruct Hp.
  - apply insert_other in Hj as [?|[Hne Hj]]; [done|].
    destruct (Ha j t Hf Hj) as [?|?]; [by left|right]. eapply insert_notifying; [exact Hp|by intros ->|done].
Qed.

Lemma flag_inv n0 s : rtc step (initial n0) s → Inv n0 s.
Proof.
  revert s. apply (rtc_ind_r (Inv n0)); [apply initial_inv|]. intros s s' _ Hs IH. split; [by eapply step_issued|by eapply step_quiet|by intros; eapply step_awake].
Qed.

(** A task leaves [wait] only after the flag was set. *)
Theorem wait_returns_after_shutdown n0 s :
  rtc step (initial n0) s → WaitReturned ∈ tasks s → is_shutdown s = true.
Proof.
  intros HI%flag_inv Hin. destruct (is_shutdown s) eqn:E; [done|].
  destruct (inv_quiet _ _ HI E) as [_ Hq]. rewrite Forall_forall in Hq. by destruct (Hq _ Hin).
Qed.

(** C34 (liveness): no wake-up is lost.  In every state the tasks can reach,
    however the steps of any number of [wait] and [shutdown] calls interleave,
    once the flag is set every task inside [wait] can take its next step, unless
    the task that set the flag still has to notify, and then that one can.  So no
    task sleeps through a shutdown, even one that looked at the flag just before
    it was set. *)
Theorem no_lost_wakeup n0 s i p :
  rtc step (initial n0) s → is_shutdown s = true →
  tasks s !! i = Some p → p ≠ WaitReturned → p ≠ ShutdownReturned →
  is_Some (advance (is_shutdown s) (notify_state s) p) ∨
  ∃ j, tasks s !! j = Some Notifying ∧ is_Some (advance (is_shutdown s) (notify_state s) Notifying).
Proof.
  intros HI%flag_inv Hf Hp Hw Hs.
  destruct p as [|t|t| | | |]; simpl; try (left; apply mk_is_Some with (1 := eq_refl)); try done.
  destruct (inv_awake _ _ HI i t Hf Hp) as [-> | [j Hj]%list_elem_of_lookup];
    [left; apply mk_is_Some with (1 := eq_refl)|].
  right. exists j. split; [done|]. apply mk_is_Some with (1 := eq_refl).
Qed.
End Shutdown.

(** ** Worked example: a counter for a [Notify] *)

#[export] Instance counter : Notify := {|
  notify := nat; future := nat; notified := id; notify_waiters := S;
  ready := λ n t, t <? n; issued := λ n t, t ≤ n
|}.
#[export] Instance counter_laws : NotifyLaws counter.
Proof.
  split; simpl; intros; [done|lia|apply Nat.ltb_irrefl|by apply Nat.ltb_lt; lia].
Qed.

(** A task reads the flag, another sets it, and only then the first sleeps. *)
Definition late_sleeper : Shutdown := mkShutdown true (0 : @notify counter) [Awaiting (0 : @future counter); Notifying].
Lemma late_sleeper_reachable : rtc step (initial (0 : @notify counter)) late_sleeper.
Proof.
  eapply rtc_l; [apply (step_call WaitCalled); by left|].
  eapply rtc_l; [apply (step_call ShutdownCalled); by right|]. simpl.
  eapply rtc_l; [eapply (step_task 0); reflexivity|]. simpl.
  eapply rtc_l; [eapply (step_task 0); reflexivity|]. simpl.
  eapply rtc_l; [eapply (step_task 1); reflexivity|]. apply rtc_refl.
Qed.
Lemma no_lost_wakeup_witness :
  is_Some (advance true (0 : @notify counter) (Awaiting (0 : @future counter))) ∨
  ∃ j, tasks late_sleeper !! j = Some Notifying ∧ is_Some (advance true (0 : @notify counter) Notifying).
Proof.
  apply (no_lost_wakeup (0 : @notify counter) late_sleeper 0 (Awaiting (0 : @future counter)));
    [apply late_sleeper_reachable|reflexivity|reflexivity|discriminate|discriminate].
Defined.
