(* ===== verification/Mapper.v ===== *)
(** * Buckets and keys ([linastore-server/src/mapper.rs])

    The table [bucket_mappings] names, for each bucket and key, the internal
    name under which the store holds the object.  [PRIMARY KEY (bucket, key)]
    and [UNIQUE (internal_name)] are the constraints; [created_at] is never
    read. *)
From S2P Require Import Prelude Io Strs World.

Definition DEFAULT_BUCKET : string := "default".

Record BucketMapper := mkMapper { bucket_mappings : gmap (string * string) string }.

Section Mapper.
Context `{P : Platform}.

Definition map_query {A} (f : gmap (string * string) string → A) : IO BucketMapper A :=
  external (λ _, AnyhowError "sqlx error") (λ _ s, s) (λ s, (inr (f (bucket_mappings s)), s)).
Definition map_execute (f : gmap (string * string) string → gmap (string * string) string)
    : IO BucketMapper unit :=
  external (λ _, AnyhowError "sqlx error") (λ _ s, s)
    (λ s, (inr tt, mkMapper (f (bucket_mappings s)))).

(** [CREATE TABLE IF NOT EXISTS], [CREATE INDEX IF NOT EXISTS]. *)
Definition BucketMapper_new : IO BucketMapper unit :=
  map_query (λ _, tt);; map_execute id;; map_execute id.

Definition resolve (bucket key : string) : IO BucketMapper (option string) :=
  map_query (λ t, t !! (bucket, key)).

(** [INSERT OR IGNORE]: a row that would break a constraint is not inserted. *)
Definition register (bucket key internal_name : string) : IO BucketMapper unit :=
  map_execute (λ t,
    if bool_decide (is_Some (t !! (bucket, key))) then t
    else if bool_decide (filter (λ kv, kv.2 = internal_name) t ≠ ∅) then t
    else <[(bucket, key) := internal_name]> t).

Definition delete_mapping (bucket key : string) : IO BucketMapper unit :=
  map_execute (delete (bucket, key)).

(** [SELECT DISTINCT bucket ... ORDER BY bucket] *)
Definition text_le (a b : string) : Prop := String.leb a b = true.
#[export] Instance text_le_dec : RelDecision text_le.
Proof. unfold text_le. intros a b. apply _. Defined.
Definition list_buckets : IO BucketMapper (list string) :=
  map_query (λ t, merge_sort text_le (elements (set_map (D := gset string) fst (dom t)))).

(** [SELECT key, internal_name ... key LIKE prefix% ORDER BY key] *)
Definition key_le (a b : string * string) : Prop := text_le a.1 b.1.
#[export] Instance key_le_dec : RelDecision key_le.
Proof. unfold key_le. intros a b. apply _. Defined.
Definition list_bucket (bucket prefix : string) : IO BucketMapper (list (string * string)) :=
  let pattern := prefix +:+ "%" in
  map_query (λ t, merge_sort key_le
    (omap (λ kv, if bool_decide (kv.1.1 = bucket) && sql_like kv.1.2 pattern
                 then Some (kv.1.2, kv.2) else None) (map_to_list t))).
End Mapper.
