(* ===== verification/Auth.v ===== *)
(** * Authentication ([linastore-server/src/auth.rs], the [auth_*] methods of
    [linastore-server/src/db/mod.rs])

    Users and sessions in the database, the password check, sessions and their
    expiry, and the rate limiter of the handshake.  Argon2, AES-GCM and SHA-256
    are parameters. *)
From S2P Require Import Prelude Io Runs Strs.
From stdpp Require Import pretty.

(** ** The tables of [db/migrations] *)

Record UserRow := mkUser { u_username : string; u_password_hash : string; u_created_at : Z }.
Record SessionRow := mkSessionRow {
  se_token : string; se_user_id : string; se_expires_at : Z; se_created_at : Z
}.
Record AuthDb := mkAuthDb {
  users : gmap string UserRow;         (* by id *)
  sessions : gmap string SessionRow
}.

Section Db.
Definition db_error : Error := AnyhowError "database error".
Definition auth_query {A} (f : AuthDb → A) : IO AuthDb A :=
  external (λ _, db_error) (λ _ s, s) (λ s, (inr (f s), s)).
(** A statement that a constraint refuses ([None]) is an error. *)
Definition auth_execute (f : AuthDb → option AuthDb) : IO AuthDb unit :=
  external (λ _, db_error) (λ _ s, s)
    (λ s, match f s with Some s' => (inr tt, s') | None => (inl db_error, s) end).

Definition auth_get_user_id_by_username (username : string) : IO AuthDb (option string) :=
  auth_query (λ d, head (map_to_list (filter (λ kv, u_username kv.2 = username) (users d))).*1).

(** [id] is the primary key, [username] is unique. *)
Definition auth_insert_user (user_id username password_hash : string) (now : Z) : IO AuthDb unit :=
  auth_execute (λ d,
    if bool_decide (is_Some (users d !! user_id)) then None
    else if bool_decide (filter (λ kv, u_username kv.2 = username) (users d) ≠ ∅) then None
    else Some (mkAuthDb (<[user_id := mkUser username password_hash now]> (users d)) (sessions d))).

(** [id] is the primary key, [token] is unique, [user_id] references a user. *)
Definition auth_insert_session (session_id token user_id : string) (expires_at created_at : Z)
    : IO AuthDb unit :=
  auth_execute (λ d,
    if bool_decide (is_Some (sessions d !! session_id)) then None
    else if bool_decide (filter (λ kv, se_token kv.2 = token) (sessions d) ≠ ∅) then None
    else if bool_decide (users d !! user_id = None) then None
    else Some (mkAuthDb (users d)
           (<[session_id := mkSessionRow token user_id expires_at created_at]> (sessions d)))).

Definition auth_get_user_id_by_token (token : string) (now : Z) : IO AuthDb (option string) :=
  auth_query (λ d,
    head ((λ kv, se_user_id kv.2) <$>
      map_to_list (filter (λ kv, se_token kv.2 = token ∧ (now < se_expires_at kv.2)%Z) (sessions d)))).

(** The number of rows deleted. *)
Definition auth_delete_expired_sessions (now : Z) : IO AuthDb nat :=
  external (λ _, db_error) (λ _ s, s) (λ d,
    (inr (size (filter (λ kv, (se_expires_at kv.2 < now)%Z) (sessions d))),
     mkAuthDb (users d) (filter (λ kv, ¬ (se_expires_at kv.2 < now)%Z) (sessions d)))).
End Db.

(** ** Sessions and the handshake *)

Inductive HandshakeStatus := HsSuccess | InvalidPassword | AuthDisabled | HsInternalError.
#[export] Instance HandshakeStatus_eq_dec : EqDecision HandshakeStatus.
Proof. solve_decision. Defined.
Definition handshake_as_u8 (s : HandshakeStatus) : N :=
  match s with HsSuccess => 0 | InvalidPassword => 1 | AuthDisabled => 2 | HsInternalError => 127 end.

Record Session := mkSession { token : string; user_id : string; expires_at_timestamp : N }.
Definition Session_new (token user_id : string) (now : N) : Session :=
  mkSession token user_id (as_u64 (now + 3600)).

(** Crates: password hashing with a salt drawn for each hash, its check, the
    UUIDs, and decryption with a key derived from a token. *)
Class AuthCrypto := {
  argon2_hash : nat → string → option string;        (* salt number, password *)
  argon2_verify : string → string → bool;            (* password, PHC string *)
  uuid_text : nat → string;
  aes_gcm_open : string → bytes → bytes → option bytes   (* token, nonce, ciphertext *)
}.

Section Auth.
Context `{K : AuthCrypto}.

Definition NONCE_SIZE : nat := 12.
Definition decrypt_with_token (token : string) (encrypted_data : bytes) : option bytes :=
  if length encrypted_data <? NONCE_SIZE then None
  else aes_gcm_open token (take NONCE_SIZE encrypted_data) (drop NONCE_SIZE encrypted_data).

Definition hash_password_argon2 {St} (password : string) : IO St string :=
  salt ← draw; of_option (AnyhowError "Argon2 hash failed") (argon2_hash salt password).

(** [db_conn] says whether the manager has a database. *)
Record AuthManager := mkAuthManager {
  db_conn : bool; auth_required : bool; password_phc : option string
}.

(** [AuthManager::new]: the environment's two settings are arguments. *)
Definition AuthManager_new {St} (db_conn auth_required : bool) (admin_password : option string)
    : IO St AuthManager :=
  if auth_required then
    match admin_password with
    | Some pw =>
        if is_empty pw then ret (mkAuthManager db_conn auth_required None)
        else r ← attempt (hash_password_argon2 pw);
             match r with
             | inr phc => ret (mkAuthManager db_conn auth_required (Some phc))
             | inl _ => ret (mkAuthManager db_conn auth_required None)
             end
    | None => ret (mkAuthManager db_conn auth_required None)
    end
  else ret (mkAuthManager db_conn auth_required None).

Definition is_password_enabled (m : AuthManager) : bool := auth_required m.
Definition verify_password (m : AuthManager) (password : string) : bool :=
  match password_phc m with Some phc => argon2_verify password phc | None => false end.

Definition create_session (m : AuthManager) (user_id : string) : IO AuthDb Session :=
  k ← draw; t ← now;
  let session := Session_new (uuid_text k) user_id t in
  (if db_conn m then
     now ← now; j ← draw;
     map_err (λ _, AnyhowError "Failed to insert session")
       (auth_insert_session (uuid_text j) (token session) (Auth.user_id session)
          (i64_of_u64 (expires_at_timestamp session)) (i64_of_u64 now))
   else ret tt);;
  ret session.

Definition validate_session (m : AuthManager) (token : string) (grace_period_seconds : Z)
    : IO AuthDb (option string) :=
  if negb (auth_required m) then ret (Some "anonymous"%string)
  else if db_conn m then
    now ← now;
    let now_with_grace := (i64_of_u64 now + grace_period_seconds)%Z in
    r ← attempt (auth_get_user_id_by_token token now_with_grace);
    match r with inr user_id => ret user_id | inl _ => ret None end
  else ret None.

Definition cleanup_expired_sessions (m : AuthManager) : IO AuthDb unit :=
  if db_conn m then
    now ← now; ignore (auth_delete_expired_sessions (i64_of_u64 now))
  else ret tt.

(** [Ok((token, expires_at))] or the status to report. *)
Definition handle_handshake (m : AuthManager) (username password : string)
    : IO AuthDb (HandshakeStatus + string * N) :=
  let finish uid :=
    r ← attempt (create_session m uid);
    match r with
    | inr session => ret (inr (token session, expires_at_timestamp session))
    | inl _ => ret (inl HsInternalError)
    end in
  if negb (is_password_enabled m) then ret (inl AuthDisabled)
  else if verify_password m password then
    if db_conn m then
      now ← now;
      r ← attempt (auth_get_user_id_by_username username);
      match r with
      | inl _ => ret (inl HsInternalError)
      | inr (Some id) => finish id
      | inr None =>
          k ← draw;
          let uid := uuid_text k in
          r ← attempt (user_phc ← hash_password_argon2 password;
                       auth_insert_user uid username user_phc (i64_of_u64 now));
          match r with
          | inl _ => ret (inl HsInternalError)
          | inr _ => finish uid
          end
      end
    else finish username
  else ret (inl InvalidPassword).

(** [init_admin_user] *)
Definition init_admin_user (auth_required : bool) (admin_username : string)
    (admin_password : option string) : IO AuthDb unit :=
  if negb auth_required then ret tt else
  pw ← of_option (AnyhowError "Missing admin password while authentication is enabled") admin_password;
  r ← auth_get_user_id_by_username admin_username;
  match r with
  | Some _ => ret tt
  | None =>
      phc ← hash_password_argon2 pw;
      k ← draw; now ← now;
      auth_insert_user (uuid_text k) admin_username phc (i64_of_u64 now)
  end.
End Auth.

Definition extract_username (identifier : bytes) : string := from_utf8_lossy (until_nul identifier).
Definition extract_password (data : bytes) : string := from_utf8_lossy (until_nul data).

(** ** The rate limiter *)

Abbreviation IpAddr := string (only parsing).
Record HandshakeRateLimiter := mkLimiter {
  window : N; max_failures : N; gc_threshold : nat;
  failures : gmap IpAddr (list N)      (* instants, oldest first *)
}.
Definition with_gc_threshold (window max_failures : N) (gc_threshold : nat) : HandshakeRateLimiter :=
  mkLimiter window max_failures gc_threshold ∅.
Definition Limiter_new (window max_failures : N) : HandshakeRateLimiter :=
  with_gc_threshold window max_failures 1024.

Definition set_failures (f : gmap IpAddr (list N)) (l : HandshakeRateLimiter) : HandshakeRateLimiter :=
  mkLimiter (window l) (max_failures l) (gc_threshold l) f.
(** [entries.retain]: the instants less than the window ago. *)
Definition recent (w now : N) (entries : list N) : list N :=
  filter (λ t, (now - t < w)%N) entries.

Definition check (ip : IpAddr) (now : N) (l : HandshakeRateLimiter) : bool * HandshakeRateLimiter :=
  match failures l !! ip with
  | Some entries =>
      let entries := recent (window l) now entries in
      ((as_u32 (len entries) <? max_failures l)%N,
       set_failures (<[ip := entries]> (failures l)) l)
  | None => (true, l)
  end.

Definition record_failure (ip : IpAddr) (now : N) (l : HandshakeRateLimiter) : HandshakeRateLimiter :=
  let entries := recent (window l) now (default [] (failures l !! ip)) ++ [now] in
  let f := <[ip := entries]> (failures l) in
  set_failures
    (if gc_threshold l <? size f
     then filter (λ kv, kv.2 ≠ []) (recent (window l) now <$> f)
     else f) l.

Definition record_success (ip : IpAddr) (l : HandshakeRateLimiter) : HandshakeRateLimiter :=
  set_failures (delete ip (failures l)) l.

(** ** Lemmas and properties: the rate limiter *)

Inductive Event := Failure (ip : IpAddr) (t : N) | Succeeded (ip : IpAddr) (t : N) | Probe (ip : IpAddr) (t : N).
Definition event_time (e : Event) : N :=
  match e with Failure _ t | Succeeded _ t | Probe _ t => t end.
Definition handle_event (l : HandshakeRateLimiter) (e : Event) : HandshakeRateLimiter :=
  match e with
  | Failure ip t => record_failure ip t l
  | Succeeded ip _ => record_success ip l
  | Probe ip t => (check ip t l).2
  end.

(** The failures of [ip] since its last success, none ever forgotten. *)
Definition all_failures (ip : IpAddr) (evs : list Event) : list N :=
  foldl (λ acc e, match e with
                  | Failure ip' t => if bool_decide (ip' = ip) then acc ++ [t] else acc
                  | Succeeded ip' _ => if bool_decide (ip' = ip) then [] else acc
                  | Probe _ _ => acc
                  end) [] evs.

Lemma recent_recent w t now l : (t ≤ now)%N → recent w now (recent w t l) = recent w now l.
Proof.
  intros Ht. unfold recent. rewrite list_filter_filter. apply list_filter_iff. intros x. lia.
Qed.
Lemma recent_app w now l l' : recent w now (l ++ l') = recent w now l ++ recent w now l'.
Proof. apply filter_app. Qed.

Definition tracked (ip : IpAddr) (l : HandshakeRateLimiter) : list N := default [] (failures l !! ip).

Lemma tracked_record ip ip' t now l :
  (t ≤ now)%N →
  recent (window l) now (tracked ip (record_failure ip' t l)) =
  recent (window l) now (tracked ip l ++ if bool_decide (ip' = ip) then [t] else []).
Proof.
  intros Ht. set (f := <[ip' := recent (window l) t (tracked ip' l) ++ [t]]> (failures l)).
  assert (Hf : recent (window l) now (default [] (f !! ip)) =
    recent (window l) now (tracked ip l ++ if bool_decide (ip' = ip) then [t] else [])).
  { unfold f, tracked. case_bool_decide as E; subst.
    - rewrite lookup_insert_eq. simpl. by rewrite !recent_app, recent_recent.
    - by rewrite lookup_insert_ne, app_nil_r. }
  rewrite <- Hf. unfold record_failure, tracked, set_failures; simpl. fold (tracked ip' l). fold f.
  destruct (gc_threshold l <? size f); [|done].
  destruct (f !! ip) as [v|] eqn:Ev; simpl.
  - destruct (decide (recent (window l) t v = [])) as [E|E].
    + rewrite (proj2 (map_lookup_filter_None _ _ _)); simpl.
      * by rewrite <- (recent_recent _ t now v), E.
      * right. intros x Hx. rewrite lookup_fmap, Ev in Hx. simpl in Hx. simplify_eq. simpl. by intros [].
    + rewrite (proj2 (map_lookup_filter_Some _ _ _ (recent (window l) t v))); simpl.
      * by apply recent_recent.
      * split; [by rewrite lookup_fmap, Ev|done].
  - rewrite (proj2 (map_lookup_filter_None _ _ _)); [done|]. left. by rewrite lookup_fmap, Ev.
Qed.

Lemma handle_event_window l e :
  window (handle_event l e) = window l ∧ max_failures (handle_event l e) = max_failures l.
Proof. destruct e; simpl; unfold check; try case_match; done. Qed.

Lemma tracked_event ip e now l :
  (event_time e ≤ now)%N →
  recent (window l) now (tracked ip (handle_event l e)) =
  recent (window l) now
    (match e with
     | Failure ip' t => tracked ip l ++ if bool_decide (ip' = ip) then [t] else []
     | Succeeded ip' _ => if bool_decide (ip' = ip) then [] else tracked ip l
     | Probe _ _ => tracked ip l
     end).
Proof.
  intros Ht. destruct e as [ip' t|ip' t|ip' t]; simpl in *.
  - by apply tracked_record.
  - unfold tracked, record_success, set_failures; simpl. case_bool_decide; subst.
    + by rewrite lookup_delete_eq.
    + by rewrite lookup_delete_ne.
  - unfold tracked, check. destruct (failures l !! ip') as [v|] eqn:E; simpl; [|done].
    destruct (decide (ip' = ip)) as [->|Hne].
    + rewrite lookup_insert_eq, E. simpl. by apply recent_recent.
    + by rewrite lookup_insert_ne.
Qed.

Lemma check_recent ip t l :
  (0 < max_failures l)%N →
  (check ip t l).1 = (as_u32 (len (recent (window l) t (tracked ip l))) <? max_failures l)%N.
Proof.
  intros Hm. unfold check, tracked. destruct (failures l !! ip); simpl; [done|].
  symmetry. by apply N.ltb_lt.
Qed.

(** The limiter remembers nothing but the failures it was told of. *)
Definition fresh_failure (ip : IpAddr) (e : Event) : list N :=
  match e with Failure ip' t => if bool_decide (ip' = ip) then [t] else [] | _ => [] end.
Lemma tracked_sublist ip e l :
  tracked ip (handle_event l e) `sublist_of` tracked ip l ++ fresh_failure ip e.
Proof.
  unfold tracked. destruct e as [ip' t|ip' t|ip' t]; simpl.
  - set (f := <[ip' := recent (window l) t (default [] (failures l !! ip')) ++ [t]]> (failures l)).
    assert (Hf : default [] (f !! ip) `sublist_of` default [] (failures l !! ip) ++ (if bool_decide (ip' = ip) then [t] else [])).
    { unfold f. case_bool_decide as E; subst.
      - rewrite lookup_insert_eq. simpl. apply sublist_app; [apply sublist_filter|done].
      - by rewrite lookup_insert_ne, app_nil_r by done. }
    unfold record_failure, set_failures; simpl. fold f. destruct (gc_threshold l <? size f); [|exact Hf].
    etrans; [|exact Hf]. destruct (filter _ _ !! ip) as [v|] eqn:Ev; simpl; [|apply sublist_nil_l].
    apply map_lookup_filter_Some in Ev as [Ev _]. rewrite lookup_fmap in Ev.
    apply fmap_Some in Ev as (v0 & -> & ->). simpl. apply sublist_filter.
  - rewrite app_nil_r. unfold record_success, set_failures; simpl. destruct (decide (ip' = ip)) as [->|Hne].
    + rewrite lookup_delete_eq. apply sublist_nil_l.
    + by rewrite lookup_delete_ne by done.
  - rewrite app_nil_r. unfold check. destruct (failures l !! ip') as [v|] eqn:E; simpl; [|done].
    destruct (decide (ip' = ip)) as [->|Hne]; [|by rewrite lookup_insert_ne by done].
    rewrite lookup_insert_eq, E. apply sublist_filter.
Qed.
Lemma tracked_event_in ip e l x :
  x ∈ tracked ip (handle_event l e) → x ∈ tracked ip l ∨ ∃ t, e = Failure ip t ∧ x = t.
Proof.
  intros Hx.
  pose proof (tracked_sublist ip e l) as Hs.
  assert (Hin : x ∈ tracked ip l ++ fresh_failure ip e) by (by eapply elem_of_sublist).
  apply elem_of_app in Hin as [Hin|Hin]; [by left|right]. destruct e as [ip' t| |]; simpl in Hin.
  - case_bool_decide; subst; set_solver.
  - set_solver.
  - set_solver.
Qed.

Lemma limiter_invariant l0 ip evs now :
  failures l0 = ∅ → Forall (λ e, event_time e ≤ now)%N evs →
  let l := foldl handle_event l0 evs in
  window l = window l0 ∧ max_failures l = max_failures l0 ∧
  recent (window l0) now (tracked ip l) = recent (window l0) now (all_failures ip evs).
Proof.
  intros H0. unfold all_failures. induction evs as [|e evs IH] using rev_ind; intros Hle.
  - simpl. split_and!; try done. unfold tracked. by rewrite H0.
  - apply Forall_app in Hle as [Hle [He _]%Forall_cons].
    rewrite !foldl_app. simpl. destruct (IH Hle) as (Hw & Hm & Hr).
    set (l := foldl handle_event l0 evs) in *. destruct (handle_event_window l e) as [Hw' Hm'].
    split; [congruence|]. split; [congruence|].
    rewrite <- Hw, (tracked_event ip e now l He), Hw.
    destruct e as [ip' t|ip' t|ip' t]; [| |done].
    + rewrite recent_app, Hr. case_bool_decide; [by rewrite recent_app|by rewrite app_nil_r].
    + by case_bool_decide.
Qed.

(** C23 (equivalence): after any history of failures, successes and probes, with
    the pruning and the garbage collection they trigger, the limiter refuses an
    address exactly when the plain count of its failures since its last success
    and within the window has reached the maximum: no failure is forgotten
    early, none is held beyond the window. *)
Theorem limiter_counts l0 ip evs now :
  failures l0 = ∅ → Forall (λ e, event_time e ≤ now)%N evs →
  (len (all_failures ip evs) < 2 ^ 32)%N → (0 < max_failures l0)%N →
  (check ip now (foldl handle_event l0 evs)).1 =
  (len (recent (window l0) now (all_failures ip evs)) <? max_failures l0)%N.
Proof.
  intros H0 Hle Hlen Hmax. destruct (limiter_invariant l0 ip evs now H0 Hle) as (Hw & Hm & Hr).
  set (l := foldl handle_event l0 evs) in *. unfold check. unfold tracked in Hr.
  destruct (failures l !! ip) as [v|] eqn:E; simpl in *.
  - rewrite Hw, Hm, Hr. rewrite wrap_small; [done|].
    assert (length (recent (window l0) now (all_failures ip evs)) ≤ length (all_failures ip evs))
      by apply length_filter. unfold len in *. lia.
  - rewrite <- Hr. symmetry. by apply N.ltb_lt.
Qed.

(** ** Lemmas and properties: sessions *)

Definition tokens_unique (d : AuthDb) : Prop := ∀ i j r r',
  sessions d !! i = Some r → sessions d !! j = Some r' → se_token r = se_token r' → i = j.

Lemma auth_query_ok {A} (f : AuthDb → A) w a w' :
  auth_query f w = (Ok a, w') → a = f (state w) ∧ state w' = state w.
Proof. intros H%external_ok. naive_solver. Qed.
Lemma auth_execute_ok f w a w' : auth_execute f w = (Ok a, w') → f (state w) = Some (state w').
Proof. intros H%external_ok. destruct (f (state w)); naive_solver. Qed.

#[export] Instance auth_query_timeless {A} (f : AuthDb → A) : Timeless (auth_query f).
Proof. unfold auth_query. apply _. Qed.
#[export] Instance auth_execute_timeless f : Timeless (auth_execute f).
Proof. unfold auth_execute. apply _. Qed.

Section AuthProofs.
Context `{K : AuthCrypto}.

#[export] Instance hash_password_timeless {St} pw : Timeless (St:=St) (hash_password_argon2 pw).
Proof. unfold hash_password_argon2. apply _. Qed.
Lemma hash_password_state {St} pw (w : Env St) r w' :
  hash_password_argon2 pw w = (r, w') → state w' = state w.
Proof.
  unfold hash_password_argon2, mbind, IO_mbind, bind, draw, of_option.
  destruct (argon2_hash _ _); intros H; by inv H.
Qed.

(** A created session is a row of its own, under a token no row had. *)
Lemma create_session_ok m uid w s w' :
  create_session m uid w = (Ok s, w') →
  expires_at_timestamp s = as_u64 (clock w + 3600) ∧ clock w' = clock w ∧
  (db_conn m = true → tokens_unique (state w) →
   tokens_unique (state w') ∧ ∃ sid row, sessions (state w') !! sid = Some row ∧
     se_token row = token s ∧ se_user_id row = uid ∧
     se_expires_at row = i64_of_u64 (expires_at_timestamp s)).
Proof.
  unfold create_session. intros (k & w1 & [= <- <-] & H)%bind_ok.
  apply bind_ok in H as (t & w2 & [= <- <-] & H).
  apply bind_ok in H as (u & w3 & H & [= <- <-]).
  assert (Ec : clock w3 = clock w).
  { destruct (db_conn m); [|by inv H]. apply timeless_ok in H; [done|apply _]. }
  split; [done|]. split; [done|]. intros Hdb Hu. rewrite Hdb in H.
  apply bind_ok in H as (t & w4 & [= <- <-] & H). apply bind_ok in H as (j & w5 & [= <- <-] & H).
  apply map_err_ok, auth_execute_ok in H. simpl in H.
  destruct (bool_decide (is_Some _)) eqn:E1; [done|]. apply bool_decide_eq_false in E1.
  destruct (bool_decide (filter _ _ ≠ ∅)) eqn:E2; [done|]. apply bool_decide_eq_false in E2.
  case_bool_decide; [done|]. injection H as <-. simpl.
  assert (Hfree : ∀ i r, sessions (state w) !! i = Some r → se_token r ≠ uuid_text (draws w)).
  { intros i r Hr Et. apply E2. intros Hemp.
    assert (Hin : filter (λ kv, se_token kv.2 = uuid_text (draws w)) (sessions (state w)) !! i = Some r)
      by by apply map_lookup_filter_Some.
    by rewrite Hemp, lookup_empty in Hin. }
  split.
  - intros i1 i2 r1 r2; simpl.
    intros [[<- <-]|[_ H1]]%lookup_insert_Some [[<- <-]|[_ H2]]%lookup_insert_Some; simpl; [done|..|by eapply Hu].
    + intros Et. by destruct (Hfree _ _ H2).
    + intros Et. by destruct (Hfree _ _ H1).
  - eexists _, _. split; [apply lookup_insert_eq|done].
Qed.

(** The only thing a token is looked up by is its row. *)
Lemma validate_session_row m g w sid row :
  auth_required m = true → db_conn m = true → calm (fates w) → tokens_unique (state w) →
  sessions (state w) !! sid = Some row →
  ∃ w', validate_session m (se_token row) g w =
    (Ok (if decide (i64_of_u64 (clock w) + g < se_expires_at row)%Z then Some (se_user_id row) else None), w')
    ∧ state w' = state w.
Proof.
  intros Hreq Hdb Hc Hu Hrow. unfold validate_session. rewrite Hreq, Hdb. cbn [negb].
  set (t := (i64_of_u64 (clock w) + g)%Z).
  set (f := λ d : AuthDb, head ((λ kv, se_user_id kv.2) <$>
      map_to_list (filter (λ kv, se_token kv.2 = se_token row ∧ (t < se_expires_at kv.2)%Z) (sessions d)))).
  assert (Hf : f (state w) = if decide (t < se_expires_at row)%Z then Some (se_user_id row) else None).
  { unfold f. destruct (decide _) as [Hlt|Hge].
    - replace (filter _ (sessions (state w))) with ({[sid := row]} : gmap string SessionRow).
      { by rewrite map_to_list_singleton. }
      apply map_eq. intros i. apply option_eq. intros r.
      rewrite lookup_singleton_Some, map_lookup_filter_Some. simpl. split; [by intros [<- <-]|].
      intros (Hr & Et & _). assert (sid = i) as <- by by eapply Hu. split; congruence.
    - rewrite (proj2 (map_empty (filter _ _))); [by rewrite map_to_list_empty|].
      intros i. apply map_lookup_filter_None. right. intros r Hr [Et Hlt]. simpl in *.
      assert (sid = i) as <- by by eapply Hu. apply Hge. congruence. }
  unfold now, mbind, IO_mbind, bind, attempt.
  pose proof (external_ends (λ _, db_error) (λ _ s, s) (λ s, (inr (f s), s)) w (λ _, False)
    (λ a w', a = f (state w) ∧ state w' = state w) (f (state w)) (state w)) as He.
  apply ends_calm in He as (a & w' & E & [-> Es] & _); [|done|by apply calm_one_failure|done|done|].
  - change (external _ _ _ w) with (auth_get_user_id_by_token (se_token row) t w) in E.
    exists w'. cbn beta iota. fold t. rewrite E, Hf. done.
  - intros n w' _ []. done.
Qed.

Lemma create_session_timeless m uid : Timeless (create_session m uid).
Proof. unfold create_session. destruct (db_conn m); apply _. Qed.

Lemma finish_ok m uid w tok exp w' :
  (r ← attempt (create_session m uid);
   match r with
   | inr session => ret (inr (A:=HandshakeStatus) (token session, expires_at_timestamp session))
   | inl _ => ret (inl HsInternalError)
   end) w = (Ok (inr (tok, exp)), w') →
  ∃ s, create_session m uid w = (Ok s, w') ∧ token s = tok ∧ expires_at_timestamp s = exp.
Proof.
  intros (r & w1 & [(s & -> & H)|(e & -> & H)]%attempt_ok & H')%bind_ok; inv H'. eauto.
Qed.

(** A successful handshake had the password, and ends by creating a session. *)
Lemma handshake_ok m username pw w tok exp w' :
  handle_handshake m username pw w = (Ok (inr (tok, exp)), w') →
  auth_required m = true ∧ verify_password m pw = true ∧
  ∃ uid s w0, create_session m uid w0 = (Ok s, w') ∧ token s = tok ∧ expires_at_timestamp s = exp ∧
    sessions (state w0) = sessions (state w) ∧ clock w0 = clock w.
Proof.
  unfold handle_handshake, is_password_enabled.
  destruct (auth_required m); [|done]. destruct (verify_password m pw); [|done].
  cbn [negb]. intros H. split; [done|]. split; [done|].
  destruct (db_conn m) eqn:Edb.
  2: { apply finish_ok in H as (s & ? & ? & ?). exists username, s, w. done. }
  apply bind_ok in H as (t & w1 & [= <- <-] & H).
  apply bind_ok in H as (r & w2 & Hq & H).
  apply attempt_ok in Hq as [(o & -> & Hq)|(e & -> & Hq)]; [|by inv H].
  pose proof (timeless_ok _ _ _ _ Hq) as Ec. apply auth_query_ok in Hq as [_ Es].
  destruct o as [id|].
  { apply finish_ok in H as (s & ? & ? & ?). exists id, s, w2. by rewrite Es. }
  apply bind_ok in H as (k & w3 & [= <- <-] & H). apply bind_ok in H as (r & w4 & Hi & H).
  apply attempt_ok in Hi as [([] & -> & Hi)|(e & -> & Hi)]; [|by inv H].
  apply bind_ok in Hi as (phc & w5 & Hh & Hi).
  pose proof (hash_password_state _ _ _ _ Hh) as Es5. pose proof (timeless_ok _ _ _ _ Hh) as Ec5.
  pose proof (timeless_ok _ _ _ _ Hi) as Ec4. apply auth_execute_ok in Hi.
  apply finish_ok in H as (s & ? & ? & ?). exists (uuid_text (draws w2)), s, w4.
  split_and!; try done; [|simpl in *; congruence].
  repeat case_bool_decide; try done. injection Hi as Hi. rewrite <- Hi. simpl in *. by rewrite Es5, Es.
Qed.

(** Both answer whatever the database does. *)
#[export] Instance create_session_proceeds m uid : Proceeds (create_session m uid).
Proof. unfold create_session, auth_insert_session, auth_execute. destruct (db_conn m); apply _. Qed.
#[export] Instance handshake_returns m u pw : Returns (handle_handshake m u pw).
Proof.
  unfold handle_handshake, auth_get_user_id_by_username, auth_query, auth_insert_user, auth_execute,
    hash_password_argon2.
  repeat (case_match || apply bind_returns || intros || apply _).
Qed.
#[export] Instance validate_returns m tok g : Returns (validate_session m tok g).
Proof.
  unfold validate_session, auth_get_user_id_by_token, auth_query.
  repeat (case_match || apply bind_returns || intros || apply _).
Qed.

(** C25 (error): the grace period works the wrong way round.  The documentation of
    [validate_session] calls it a time after the expiration during which a token is
    still accepted, and the front end passes 60 seconds for data that arrive late.
    The code adds it to the present time: a token that a handshake announces at
    time [t] to expire at [t + 3600] is accepted at [t'] exactly when [t' + g] is
    before that.  So it is refused during all of its last [g] seconds, when it has not expired,
    and no request that comes after the expiration is accepted, whatever the grace; only
    without one does it live for the hour announced. *)
Theorem session_lifetime m username pw g w tok exp w1 w2 :
  db_conn m = true → tokens_unique (state w) →
  handle_handshake m username pw w = (Ok (inr (tok, exp)), w1) →
  state w2 = state w1 → calm (fates w2) → (clock w < 2 ^ 62)%N → (clock w2 < 2 ^ 62)%N →
  exp = (clock w + 3600)%N ∧
  (∃ uid w3, validate_session m tok g w2 =
     (Ok (if decide (Z.of_N (clock w2) + g < Z.of_N exp)%Z then Some uid else None), w3)) ∧
  ((0 ≤ g)%Z → (Z.of_N exp - g ≤ Z.of_N (clock w2))%Z → (validate_session m tok g w2).1 = Ok None) ∧
  (clock w ≤ clock w2 < exp → (validate_session m tok 0 w2).1 ≠ Ok None)%N.
Proof.
  intros Hdb Hu H Es Hc Hw Hw2.
  destruct (handshake_ok _ _ _ _ _ _ _ H) as (Hreq & _ & uid & s & w0 & Hcr & <- & <- & Es0 & Ec0).
  destruct (create_session_ok _ _ _ _ _ Hcr) as (Eexp & _ & Hrow).
  destruct Hrow as (Hu1 & sid & row & Hrow & Et & Euid & Eex); [done|by intros i j r r'; rewrite Es0; apply Hu|].
  rewrite <- Es in Hu1, Hrow. rewrite <- Et, Eexp, Ec0, wrap_small by lia.
  assert (Hv : ∀ g, ∃ w3, validate_session m (se_token row) g w2 =
    (Ok (if decide (Z.of_N (clock w2) + g < Z.of_N (clock w + 3600))%Z then Some (se_user_id row) else None), w3)).
  { intros g'. destruct (validate_session_row m g' w2 sid row Hreq Hdb Hc Hu1 Hrow) as (w3 & -> & _). exists w3.
    by rewrite Eex, Eexp, Ec0, wrap_small, !i64_of_u64_small by lia. }
  split_and!; [done|by destruct (Hv g) as [w3 ->]; eauto|intros Hg Hlate|intros Hlive].
  - destruct (Hv g) as [w3 ->]. simpl. rewrite decide_False by lia. done.
  - destruct (Hv 0%Z) as [w3 ->]. simpl. rewrite decide_True by lia. done.
Qed.

(** A day in the life of the authentication tables. *)
Inductive AuthOp := Handshake (username password : string) | Validate (token : string) (g : Z) | Cleanup.
Definition auth_step (m : AuthManager) (op : AuthOp) : IO AuthDb unit :=
  match op with
  | Handshake u pw => ignore (handle_handshake m u pw)
  | Validate tok g => ignore (validate_session m tok g)
  | Cleanup => cleanup_expired_sessions m
  end.

Lemma external_state {St A} err (f : St → (Error + A) * St) w :
  state (external err (λ _ s, s) f w).2 = state w ∨ state (external err (λ _ s, s) f w).2 = (f (state w)).2.
Proof.
  unfold external. destruct (fates w) as [|[]]; auto; destruct (f (state w)) as [[] ?]; auto.
Qed.

Lemma wrong_password_state m u pw w :
  verify_password m pw = false → state (handle_handshake m u pw w).2 = state w.
Proof.
  intros Hv. unfold handle_handshake. destruct (negb _); [done|]. by rewrite Hv.
Qed.
Lemma validate_state m tok g w : state (validate_session m tok g w).2 = state w.
Proof.
  unfold validate_session. destruct (negb _); [done|]. destruct (db_conn m); [|done].
  unfold now, mbind, IO_mbind, bind, attempt, auth_get_user_id_by_token, auth_query.
  match goal with |- context [external ?e ?p ?f w] => destruct (external_state e f w) as [E|E];
    destruct (external e p f w) as [[] ?] end; done.
Qed.

Lemma auth_step_sessions m op w :
  (∀ u pw, op = Handshake u pw → verify_password m pw = false) →
  sessions (state (auth_step m op w).2) ⊆ sessions (state w) ∧ users (state (auth_step m op w).2) = users (state w).
Proof.
  intros Hpw. unfold auth_step, ignore, bind, attempt. destruct op as [u pw|tok g|].
  - pose proof (wrong_password_state m u pw w (Hpw _ _ eq_refl)) as E.
    destruct (handle_handshake m u pw w) as [[] w']; simpl in *; by rewrite E.
  - pose proof (validate_state m tok g w) as E.
    destruct (validate_session m tok g w) as [[] w']; simpl in *; by rewrite E.
  - unfold cleanup_expired_sessions. destruct (db_conn m); [|done].
    unfold now, ignore, mbind, IO_mbind, bind, attempt, auth_delete_expired_sessions.
    match goal with |- context [external ?e ?p ?f w] => destruct (external_state e f w) as [E|E];
      destruct (external e p f w) as [[] w'] end; simpl in *; rewrite E; simpl; try done;
      (split; [apply map_filter_subseteq|done]).
Qed.

(** Without the password there are no sessions.  Whatever
    handshakes with wrong passwords, look-ups and clean-ups are made, and
    whatever fails during them, no session and no user appears. *)
Theorem no_password_no_session m ops w :
  (∀ u pw, Handshake u pw ∈ ops → verify_password m pw = false) →
  let w' := (for_each ops (auth_step m) w).2 in
  sessions (state w') ⊆ sessions (state w) ∧ users (state w') = users (state w).
Proof.
  revert w. induction ops as [|op ops IH]; intros w Hpw; simpl; [done|].
  destruct (auth_step_sessions m op w) as [Hs Hu].
  { intros u pw ->. apply (Hpw u). by left. }
  unfold bind. destruct (auth_step m op w) as [[[]|e|z] w1]; simpl in *; try done.
  destruct (IH w1) as [Hs' Hu']; [intros u pw Hin; apply (Hpw u); by right|].
  split; [by etrans|congruence].
Qed.

(** *** Whom the tables know, and what is not in them yet *)

(** UUIDs do not repeat. *)
Class UuidLaws : Prop := { uuid_text_inj :: Inj (=) (=) uuid_text }.

(** No session has an identifier or token that is still to be drawn. *)
Definition unused (k : nat) (d : AuthDb) : Prop :=
  ∀ j sid row, k ≤ j → sessions d !! sid = Some row → sid ≠ uuid_text j ∧ se_token row ≠ uuid_text j.
Definition known_user (name : string) (d : AuthDb) : Prop := ∃ id row, users d !! id = Some row ∧ u_username row = name.
Definition open_for (name : string) (k : nat) (d : AuthDb) : Prop := unused k d ∧ known_user name d.

Lemma open_more name k k' d : k ≤ k' → open_for name k d → open_for name k' d.
Proof. intros Hk [H1 H2]. split; [|done]. intros j sid row Hj. apply H1. lia. Qed.

Section Day.
Context `{UL : !UuidLaws}.
Variable name : string.
Abbreviation keeps_open := (yields (λ _, True) (open_for name) (open_for name) anything).

Lemma draw_open : keeps_open draw.
Proof. intros w Hw. split; [|done]. eapply open_more; [|exact Hw]. simpl. lia. Qed.
Lemma query_open {A} (f : AuthDb → A) : keeps_open (auth_query f).
Proof. by apply yields_external. Qed.
Lemma insert_user_open id n phc t : keeps_open (auth_insert_user id n phc t).
Proof.
  apply yields_external; [done..|]. intros k d [H1 (i & row & Hi & Hn)].
  assert (Hk : known_user name d) by by exists i, row.
  case_bool_decide as Hid; [done|]. case_bool_decide; [done|]. split; [|done].
  split; [done|]. exists i, row. split; [|done]. simpl. rewrite lookup_insert_ne; [done|]. intros ->. by destruct Hid.
Qed.

(** What creating a session comes to: nothing, or a row under two new identifiers. *)
Lemma create_session_state m uid w : let w' := (create_session m uid w).2 in
  draws w ≤ draws w' ∧
  (state w' = state w ∨ ∃ row, draws w' = S (S (draws w)) ∧ se_token row = uuid_text (draws w) ∧
     state w' = mkAuthDb (users (state w)) (<[uuid_text (S (draws w)) := row]> (sessions (state w)))).
Proof.
  unfold create_session, draw, now, mbind, IO_mbind, bind. cbn [draws clock state fates]. destruct (db_conn m); [|simpl; auto].
  unfold map_err, auth_insert_session, auth_execute.
  match goal with |- context [external ?e ?p ?f ?v] =>
    pose proof (external_state e f v) as Hs; pose proof (undrawn (m := external e p f) v) as Hd;
    destruct (external e p f v) as [r w1] end.
  simpl in Hd, Hs. assert (draws w ≤ draws w1) by lia.
  destruct Hs as [Hs|Hs]; [|repeat case_bool_decide];
    destruct r as [[]|e|z]; simpl in *; (split; [lia|]); auto; right; eexists (mkSessionRow _ _ _ _); by split_and!.
Qed.
Lemma create_session_open m uid : keeps_open (create_session m uid).
Proof.
  intros w Hw. split; [|by destruct (create_session m uid w) as [[] ?]].
  destruct (create_session_state m uid w) as [Hd [E|(row & Ed & Et & E)]]; rewrite E; [by eapply open_more|].
  rewrite Ed. destruct Hw as [H1 H2]. split; [|done]. intros j sid row' Hj. simpl.
  intros [[<- <-]|[_ Hr]]%lookup_insert_Some; [|apply (H1 j); [lia|done]].
  rewrite Et. split; intros ?%(inj uuid_text); lia.
Qed.
Lemma handshake_open m u pw : keeps_open (handle_handshake m u pw).
Proof.
  unfold handle_handshake.
  assert (Hfin : ∀ uid, keeps_open (r ← attempt (create_session m uid);
    match r with inr s => ret (inr (token s, expires_at_timestamp s)) | inl _ => ret (inl HsInternalError) end)).
  { intros uid. eapply yields_bind; [apply yields_attempt, create_session_open|]. intros [] _; by apply yields_ret. }
  destruct (negb _); [by apply yields_ret|]. destruct (verify_password _ _); [|by apply yields_ret].
  destruct (db_conn m); [|apply Hfin]. apply yields_now. intros t.
  eapply yields_bind; [apply yields_attempt, query_open|]. intros [e|[id|]] _; [by apply yields_ret|apply Hfin|].
  eapply yields_bind; [apply draw_open|]. intros k _. eapply yields_bind; [apply yields_attempt|].
  - eapply (yields_bind anything); [|intros phc _; apply insert_user_open].
    eapply yields_bind; [apply draw_open|]. intros salt _. by apply yields_of_option.
  - intros [e|[]] _; [by apply yields_ret|apply Hfin].
Qed.
Lemma auth_step_open m op : keeps_open (auth_step m op).
Proof.
  destruct op as [u pw|tok g|]; simpl.
  - eapply yields_ignore, handshake_open.
  - eapply (yields_ignore anything). unfold validate_session. destruct (negb _); [by apply yields_ret|].
    destruct (db_conn m); [|by apply yields_ret]. apply yields_now. intros t.
    eapply yields_bind; [apply yields_attempt, query_open|]. intros [] _; by apply yields_ret.
  - unfold cleanup_expired_sessions. destruct (db_conn m); [|by apply yields_ret]. apply yields_now. intros t.
    eapply (yields_ignore anything), yields_external; [done..|]. intros k d [H1 H2]. split; [|done]. split; [|done].
    intros j sid row Hj [Hr _]%map_lookup_filter_Some. by apply H1.
Qed.
Lemma day_open m ops w : open_for name (draws w) (state w) →
  let w' := (for_each ops (auth_step m) w).2 in open_for name (draws w') (state w').
Proof.
  intros Hw. destruct (yields_for_each (Z := λ _, True) (J := open_for name) anything ops (auth_step m)) with (w := w) as [H _];
    [by apply Forall_true|by intros; apply auth_step_open|done|exact H].
Qed.

(** A session for a user who is known, when nothing fails. *)
Lemma create_session_fresh m uid w :
  db_conn m = true → calm (fates w) → unused (draws w) (state w) → is_Some (users (state w) !! uid) →
  ∃ s w' sid row, create_session m uid w = (Ok s, w') ∧ expires_at_timestamp s = as_u64 (clock w + 3600) ∧
    sessions (state w) !! sid = None ∧ sessions (state w') = <[sid := row]> (sessions (state w)) ∧
    se_token row = token s ∧ se_user_id row = uid ∧ se_expires_at row = i64_of_u64 (as_u64 (clock w + 3600)) ∧
    ∀ sid' row', sessions (state w) !! sid' = Some row' → se_token row' ≠ token s.
Proof.
  intros Hdb Hc Hs Hu. unfold create_session, draw, now, mbind, IO_mbind, bind, ret. cbn [fates clock draws state].
  rewrite Hdb. unfold map_err, auth_insert_session, auth_execute.
  match goal with |- context [external ?e ?p ?f ?w0] => destruct (external_calm e p f w0 Hc) as (fs & _ & ->) end.
  cbn [state draws token Auth.user_id Session_new].
  assert (Hn : sessions (state w) !! uuid_text (S (draws w)) = None).
  { apply eq_None_not_Some. intros [row Hr]. by destruct (Hs (S (draws w)) _ _ ltac:(lia) Hr). }
  assert (Ht : ∀ sid row, sessions (state w) !! sid = Some row → se_token row ≠ uuid_text (draws w)).
  { intros sid row Hr. by destruct (Hs (draws w) _ _ ltac:(lia) Hr). }
  rewrite (bool_decide_eq_false_2 (is_Some _)) by (rewrite Hn; by intros [? ?]).
  rewrite (bool_decide_eq_false_2 (filter _ _ ≠ ∅)).
  2: { intros Hne. apply Hne, map_empty. intros i. apply map_lookup_filter_None. right. intros row Hr. by eapply Ht. }
  rewrite (bool_decide_eq_false_2 (users _ !! uid = None)) by by destruct Hu as [? ->].
  eexists _, _, (uuid_text (S (draws w))), _. split; [reflexivity|]. by split_and!.
Qed.
End Day.

(** The hourly clean-up only deletes sessions past their
    expiry, which no look-up would accept, and when nothing fails it leaves none
    of them. *)
Theorem cleanup_exact m w :
  let w' := (cleanup_expired_sessions m w).2 in
  (∀ sid row, sessions (state w) !! sid = Some row → (i64_of_u64 (clock w) ≤ se_expires_at row)%Z →
     sessions (state w') !! sid = Some row) ∧
  (db_conn m = true → calm (fates w) →
     ∀ sid row, sessions (state w') !! sid = Some row →
       (i64_of_u64 (clock w) ≤ se_expires_at row)%Z ∧ sessions (state w) !! sid = Some row).
Proof.
  unfold cleanup_expired_sessions. destruct (db_conn m); [|done].
  unfold now, ignore, mbind, IO_mbind, bind, attempt, auth_delete_expired_sessions. split.
  - intros sid row Hrow Hexp.
    match goal with |- context [external ?e ?p ?f w] => destruct (external_state e f w) as [E|E];
      destruct (external e p f w) as [[] w'] end; simpl in *; rewrite E; simpl; try done;
      apply map_lookup_filter_Some; (split; [done|simpl; lia]).
  - intros _ Hc sid row. unfold external. destruct (fates w) as [|f fs] eqn:Ef.
    + simpl. rewrite map_lookup_filter_Some. simpl. intros [? ?]. split; [lia|done].
    + apply Forall_cons in Hc as [-> _]. simpl. rewrite map_lookup_filter_Some. simpl.
      intros [? ?]. split; [lia|done].
Qed.
End AuthProofs.

(** ** Witnesses *)

#[export] Instance demo_crypto : AuthCrypto := {|
  argon2_hash := λ k pw, Some pw;
  argon2_verify := λ pw phc, String.eqb pw phc;
  uuid_text := λ k, String "u" (pretty k);
  aes_gcm_open := λ tok nonce c, Some c
|}.
#[export] Instance demo_uuids : UuidLaws.
Proof. split. by intros k k' [= ?%(inj pretty)]. Qed.
Definition demo_manager : AuthManager := mkAuthManager true true (Some "secret"%string).
Definition demo_auth_env (t : N) : Env AuthDb := mkEnv (mkAuthDb ∅ ∅) [] t 0.
Definition demo_shaken : Res (HandshakeStatus + string * N) * Env AuthDb :=
  handle_handshake demo_manager "alice" "secret" (demo_auth_env 1000).
Definition demo_token : string :=
  match demo_shaken.1 with Ok (inr (tok, _)) => tok | _ => "" end.

Definition demo_events : list Event :=
  [Failure "10.0.0.1" (10 * 10 ^ 9); Failure "10.0.0.1" (50 * 10 ^ 9); Failure "10.0.0.2" (55 * 10 ^ 9)].
(** Two failures, both within the minute at 65 s, one of them at 100 s. *)
Lemma limiter_counts_witness :
  (check "10.0.0.1" (65 * 10 ^ 9) (foldl handle_event (Limiter_new (60 * 10 ^ 9) 2) demo_events)).1 = false ∧
  (check "10.0.0.1" (100 * 10 ^ 9) (foldl handle_event (Limiter_new (60 * 10 ^ 9) 2) demo_events)).1 = true.
Proof.
  split.
  - rewrite (limiter_counts (Limiter_new (60 * 10 ^ 9) 2) "10.0.0.1" demo_events);
      [reflexivity|reflexivity|by repeat constructor|reflexivity|reflexivity].
  - rewrite (limiter_counts (Limiter_new (60 * 10 ^ 9) 2) "10.0.0.1" demo_events);
      [reflexivity|reflexivity|by repeat constructor|reflexivity|reflexivity].
Defined.

Lemma demo_shaken_ok : handle_handshake demo_manager "alice" "secret" (demo_auth_env 1000) =
  (Ok (inr (demo_token, 4600%N)), demo_shaken.2).
Proof. vm_compute. reflexivity. Qed.
Lemma demo_tokens_unique t : tokens_unique (state (demo_auth_env t)).
Proof. by intros i j r r' H. Qed.

(** With the 60 seconds of the front end, thirty seconds before the announced
    expiration; and without any, at the same time. *)
Lemma session_lifetime_witness :
  let late := mkEnv (state demo_shaken.2) [] 4570 7 in
  (validate_session demo_manager demo_token 60 late).1 = Ok None ∧
  (validate_session demo_manager demo_token 0 late).1 ≠ Ok None.
Proof.
  destruct (session_lifetime demo_manager "alice" "secret" 60 (demo_auth_env 1000) demo_token 4600
    demo_shaken.2 (mkEnv (state demo_shaken.2) [] 4570 7) eq_refl (demo_tokens_unique 1000)
    demo_shaken_ok eq_refl (Forall_nil_2 _) eq_refl eq_refl) as (_ & _ & Hlate & Hlive).
  split; [apply Hlate; done|apply Hlive; done].
Defined.

Lemma no_password_no_session_witness :
  sessions (state (for_each [Handshake "root" "guess"; Handshake "alice" "wrong"; Cleanup]
    (auth_step demo_manager) demo_shaken.2).2) ⊆ sessions (state demo_shaken.2).
Proof.
  apply (no_password_no_session demo_manager).
  intros u pw Hin. repeat (apply elem_of_cons in Hin as [E|Hin]; [by inv E|]). by apply not_elem_of_nil in Hin.
Defined.
