(* ===== verification/Server.v ===== *)
(** * One front end's view of the server

    What a connection handler works on: the object store behind the queue, the
    order queue, the bucket table, the authentication tables and the handshake
    limiter; and the exchange every front end makes with the worker
    ([process_through_queue] of [front/s3_service.rs], written out again in the
    two other front ends).  At its await point the handler gives way to the
    other tasks: their work is an argument, [others]. *)
From S2P Require Import Prelude Io Runs Strs World Wire ObjectStore Conveyer Porter Mapper Auth.

Record Srv (St : Type) := mkSrv {
  objects : St;
  conveyer : ConveyQueue;
  mapper : BucketMapper;
  auth_db : AuthDb;
  limiter : HandshakeRateLimiter
}.
Arguments mkSrv {St}. Arguments objects {St}. Arguments conveyer {St}.
Arguments mapper {St}. Arguments auth_db {St}. Arguments limiter {St}.

Section Parts.
Context {St : Type}.
Definition set_objects (x : St) (s : Srv St) : Srv St :=
  mkSrv x (conveyer s) (mapper s) (auth_db s) (limiter s).
Definition set_conveyer (x : ConveyQueue) (s : Srv St) : Srv St :=
  mkSrv (objects s) x (mapper s) (auth_db s) (limiter s).
Definition set_mapper (x : BucketMapper) (s : Srv St) : Srv St :=
  mkSrv (objects s) (conveyer s) x (auth_db s) (limiter s).
Definition set_auth_db (x : AuthDb) (s : Srv St) : Srv St :=
  mkSrv (objects s) (conveyer s) (mapper s) x (limiter s).
Definition set_limiter (x : HandshakeRateLimiter) (s : Srv St) : Srv St :=
  mkSrv (objects s) (conveyer s) (mapper s) (auth_db s) x.

Definition on_objects {A} : IO St A → IO (Srv St) A := focus objects set_objects.
Definition on_mapper {A} : IO BucketMapper A → IO (Srv St) A := focus mapper set_mapper.
Definition on_auth {A} : IO AuthDb A → IO (Srv St) A := focus auth_db set_auth_db.
(** The queue's and the limiter's methods. *)
Definition on_queue {A} (f : ConveyQueue → A * ConveyQueue) : IO (Srv St) A := λ w,
  let '(a, q) := f (conveyer (state w)) in
  (Ok a, mkEnv (set_conveyer q (state w)) (fates w) (clock w) (draws w)).
Definition on_limiter {A} (f : HandshakeRateLimiter → A * HandshakeRateLimiter) : IO (Srv St) A := λ w,
  let '(a, l) := f (limiter (state w)) in
  (Ok a, mkEnv (set_limiter l (state w)) (fates w) (clock w) (draws w)).
Definition instant_now : IO (Srv St) N := t ← now; ret (t * SECOND)%N.
End Parts.

(** The end of an exchange: no waiter could be registered, a response, the
    sender was dropped, or time ran out. *)
Inductive Exchanged := Unregistered | Answer (pkg : Package) | ChannelClosed | TimedOut.

Section Server.
Context {St : Type} `{OS : ObjectStore St}.
(** A UUID's sixteen bytes. *)
Variable uuid_bytes : nat → bytes.
(** What the other tasks do while a handler awaits its response. *)
Variable others : IO (Srv St) unit.

(** Both ways of giving up on a response. *)
Definition abandon (uni_id : bytes) : IO (Srv St) unit :=
  on_queue (λ q, (tt, unregister_waiter uni_id q));;
  on_queue (remove_order uni_id);;
  ret tt.

(** [register_waiter], [produce_order], and what the wait for at most ten
    seconds brings. *)
Definition exchange (package : Package) : IO (Srv St) Exchanged :=
  t ← instant_now;
  rx ← on_queue (register_waiter (uni_id package) t);
  match rx with
  | None => ret Unregistered
  | Some c =>
      on_queue (λ q, (tt, produce_order package q));;
      others;;
      ch ← on_queue (λ q, (channels q !! c, q));
      match ch with
      | Some (Delivered pkg) => ret (Answer pkg)
      | Some Pending =>
          on_queue (λ q, (tt, drop_receiver c q));;
          abandon (uni_id package);; ret TimedOut
      | _ => abandon (uni_id package);; ret ChannelClosed
      end
  end.

(** A package for a request, under the [k]-th UUID. *)
Definition order_package (k : nat) (t : N) (b : Behavior) (flags : N) (ident data : bytes) : Package :=
  let p := Package_new_with_id (uuid_bytes k) (Z.of_N t) in
  mkPackage (p_status p) (uni_id p) b (mkContent flags ident data) (created_at p).

Definition process_through_queue (b : Behavior) (identifier : string) (data : bytes)
    : IO (Srv St) (Status + Package) :=
  k ← draw; t ← now;
  let package := order_package k t b 0 (str_bytes identifier) data in
  r ← exchange package;
  match r with
  | Answer pkg => if decide (p_status pkg = Success) then ret (inr pkg) else ret (inl (p_status pkg))
  | _ => ret (inl InternalError)
  end.

(** The worker's turn, as the other task: it takes every order there is. *)
Fixpoint porter_turn (fuel : nat) : IO (Srv St) unit :=
  match fuel with
  | O => ret tt
  | S fuel' =>
      o ← on_queue consume_order;
      match o with
      | None => ret tt
      | Some pkg =>
          r ← on_objects (process_package uuid_bytes pkg);
          on_queue (produce_service r);;
          porter_turn fuel'
      end
  end.
End Server.

(** ** Lemmas: the handler always answers *)

#[export] Instance on_queue_returns {St A} (f : ConveyQueue → A * ConveyQueue) : Returns (on_queue (St:=St) f).
Proof. intros w Hw. unfold on_queue. destruct (f _) as [a q]. simpl. eauto. Qed.
#[export] Instance on_limiter_returns {St A} (f : HandshakeRateLimiter → A * HandshakeRateLimiter) :
  Returns (on_limiter (St:=St) f).
Proof. intros w Hw. unfold on_limiter. destruct (f _) as [a l]. simpl. eauto. Qed.
#[export] Instance instant_returns {St} : Returns (instant_now (St:=St)).
Proof. unfold instant_now. apply _. Qed.

Section Answers.
Context {St : Type} `{OS : ObjectStore St}.
Variable others : IO (Srv St) unit.
#[export] Instance exchange_returns pkg : Returns others → Returns (exchange others pkg).
Proof. intros Ho. unfold exchange, abandon. repeat (case_match || apply bind_returns || intros || apply _). Qed.
#[export] Instance register_proceeds b k n : Proceeds (on_mapper (St:=St) (register b k n)).
Proof. unfold on_mapper, register, map_execute. apply _. Qed.
#[export] Instance resolve_proceeds b k : Proceeds (on_mapper (St:=St) (resolve b k)).
Proof. unfold on_mapper, resolve, map_query. apply _. Qed.
End Answers.

(** ** A quiet server *)

Section Quiet.
Context {St : Type} `{OS : ObjectStore St} `{!ObjectStoreLaws St} `{P : Platform} `{PL : !PlatformLaws P}.
Variable uuid_bytes : nat → bytes.
Implicit Types (w : Env (Srv St)).

Definition store_env w : Env St := mkEnv (objects (state w)) (fates w) (clock w) (draws w).

(** No order and no waiter is left, nothing fails, the store stands for [m] and
    the bucket table is [t], whose internal names have all been drawn. *)
Record Quiet w (m : gmap string bytes) (t : gmap (string * string) string) : Prop := {
  q_calm : calm (fates w);
  q_orders : order_queue (conveyer (state w)) = [];
  q_waiters : waiters (conveyer (state w)) = ∅;
  q_objects : stands_for (store_env w) m;
  q_table : bucket_mappings (mapper (state w)) = t;
  q_drawn : ∀ bk n, t !! bk = Some n → ∃ k, k < draws w ∧ n = uuid_v4 k
}.

Lemma quiet_draws w m t d :
  Quiet w m t → draws w ≤ d → Quiet (mkEnv (state w) (fates w) (clock w) d) m t.
Proof.
  intros [] Hd. split; simpl; try done.
  - eapply stands_for_ext; [exact q_objects0|done|done].
  - intros bk n Hn. destruct (q_drawn0 bk n Hn) as (k & ? & ?). exists k. split; [lia|done].
Qed.

Lemma quiet_auth ad w m t :
  Quiet w m t → Quiet (mkEnv (set_auth_db ad (state w)) (fates w) (clock w) (draws w)) m t.
Proof. intros []. by split. Qed.

Lemma effect_calm (Q : Prop) pkg m r m' : Q → effect Q pkg m r m' → effect True pkg m r m'.
Proof.
  intros HQ (? & ? & He). split; [done|]. split; [done|].
  repeat case_match; naive_solver.
Qed.

(** The whole exchange with the worker, when nothing else is going on. *)
Lemma exchange_quiet w m t pkg :
  Quiet w m t → feasible pkg m →
  ∃ r m' w', exchange (porter_turn uuid_bytes ORDER_QUEUE_CAPACITY) pkg w = (Ok (Answer r), w') ∧
    effect True pkg m r m' ∧ Quiet w' m' t ∧ draws w ≤ draws w'.
Proof.
  intros HQ Hfe. pose proof HQ as [Hc Ho Hw Hm Ht Hdr].
  destruct w as [[objs [oq wt chs nx] mp adb lim] fs ck dr]; simpl in *. subst oq wt.
  destruct (process_package_effect uuid_bytes (mkEnv objs fs ck dr) m pkg Hm
    (calm_one_failure _ Hc) Hfe) as (r & w1 & m' & Hrun & Hm' & He & Hn).
  assert (Hn1 : next (mkEnv objs fs ck dr) w1) by (destruct Hn as [|[]]; done).
  exists r, m'. unfold exchange. 
  assert (Hid : uni_id r = uni_id pkg) by apply He.
  eexists. split.
  - unfold instant_now, now, ret, mbind, IO_mbind, bind, on_queue, register_waiter; simpl.
    rewrite lookup_empty. simpl. unfold on_objects, focus; simpl. rewrite Hrun. simpl.
    unfold produce_service; simpl. rewrite Hid, lookup_insert_eq. simpl.
    unfold send. rewrite lookup_alter_eq, lookup_insert_eq. reflexivity.
  - split; [exact (effect_calm _ _ _ _ _ Hc He)|]. destruct w1 as [objs1 fs1 ck1 dr1].
    pose proof (next_draws _ _ Hn1) as Hd; simpl in Hd. split; [|done].
    split; simpl; try done.
    + by apply (next_calm _ _ Hn1).
    + apply delete_insert_id, lookup_empty.
    + intros bk n Hbk. destruct (Hdr bk n Hbk) as (k & ? & ?). exists k. split; [lia|done].
Qed.

(** *** One order under an internal name *)

Lemma order_name_text b flags ident data k ts :
  ident ≠ EmptyString → printable (str_bytes ident) →
  order_name (order_package uuid_bytes k ts b flags (str_bytes ident) data) = Some ident.
Proof.
  intros Hne Hp. unfold order_name; simpl. rewrite until_nul_clean by by apply printable_no_nul.
  unfold from_utf8. rewrite (printable_valid _ Hp), bytes_str_bytes.
  destruct ident; [done|]. done.
Qed.

(** What the worker answers to an order under the name [n], and leaves. *)
Definition outcome (b : Behavior) (n : string) (data : bytes) (m : gmap string bytes) (r : Package)
    (m' : gmap string bytes) : Prop :=
  match b with
  | PutFile => p_status r = Success ∧ m' = <[n := data]> m
  | GetFile => m' = m ∧ c_identifier (content r) = str_bytes n ∧
      match m !! n with
      | Some d => p_status r = Success ∧ c_data (content r) = d
      | None => p_status r = FileNotFound ∧ c_data (content r) = []
      end
  | DeleteFile => p_status r = Success ∧ m' = delete n m
  | BehaviorNone => p_status r = InternalError ∧ m' = m
  end.

Lemma exchange_order w m t j ts b flags k data :
  Quiet w m t → (∀ pkg, behavior pkg = b → c_data (content pkg) = data → feasible pkg m) →
  ∃ r m' w', exchange (porter_turn uuid_bytes ORDER_QUEUE_CAPACITY)
      (order_package uuid_bytes j ts b flags (str_bytes (uuid_v4 k)) data) w = (Ok (Answer r), w') ∧
    Quiet w' m' t ∧ draws w ≤ draws w' ∧ outcome b (uuid_v4 k) data m r m'.
Proof.
  intros HQ Hfe. set (pkg := order_package _ _ _ _ _ _ _).
  destruct (exchange_quiet _ _ _ pkg HQ) as (r & m' & w' & Hex & He & HQ' & Hd); [by apply Hfe|].
  exists r, m', w'. split; [done|]. split; [done|]. split; [done|].
  destruct (uuid_printable k) as [Hne Hpr].
  destruct He as (_ & Hi & He). unfold pkg in He. rewrite order_name_text in He by done.
  simpl in He, Hi. unfold outcome. destruct b; [|naive_solver..].
  destruct He as [(? & Hm & ->)|(? & ? & -> & Hm)]; (split; [done|]); (split; [done|]); by rewrite Hm.
Qed.

(** *** The bucket table *)

Lemma map_query_quiet {A} (f : gmap (string * string) string → A) w m t :
  Quiet w m t → ∃ w', on_mapper (map_query f) w = (Ok (f t), w') ∧ Quiet w' m t ∧ draws w' = draws w.
Proof.
  intros [Hc Ho Hw Hm Ht Hdr]. destruct w as [[ob cv mp ad li] fs ck dr]; simpl in *. subst t.
  unfold on_mapper, focus, map_query, external; simpl. destruct fs as [|f0 fs]; simpl.
  - eexists. split; [reflexivity|]. split; [|done]. by split.
  - apply Forall_cons in Hc as [-> Hc]. eexists. split; [reflexivity|]. split; [|done].
    split; simpl; try done. by eapply stands_for_ext.
Qed.
Lemma map_execute_quiet f w m t :
  Quiet w m t → (∀ bk n, f t !! bk = Some n → t !! bk = Some n ∨ ∃ k, k < draws w ∧ n = uuid_v4 k) →
  ∃ w', on_mapper (map_execute f) w = (Ok tt, w') ∧ Quiet w' m (f t) ∧ draws w' = draws w.
Proof.
  intros [Hc Ho Hw Hm Ht Hdr] Hf. destruct w as [[ob cv mp ad li] fs ck dr]; simpl in *. subst t.
  assert (Hdr' : ∀ bk n, f (bucket_mappings mp) !! bk = Some n → ∃ k, k < dr ∧ n = uuid_v4 k).
  { intros bk n Hn. destruct (Hf bk n Hn); eauto. }
  unfold on_mapper, focus, map_execute, external; simpl. destruct fs as [|f0 fs]; simpl.
  - eexists. split; [reflexivity|]. split; [|done]. by split.
  - apply Forall_cons in Hc as [-> Hc]. eexists. split; [reflexivity|]. split; [|done].
    split; simpl; try done. by eapply stands_for_ext.
Qed.

(** The table after [register]: the first name a key was given stays. *)
Definition registered (b k n : string) (t : gmap (string * string) string) :=
  if bool_decide (is_Some (t !! (b, k))) then t else <[(b, k) := n]> t.

(** A name drawn just now. *)
Lemma register_quiet b k w m t :
  Quiet w m t → let w0 := mkEnv (state w) (fates w) (clock w) (S (draws w)) in
  ∃ w', on_mapper (register b k (uuid_v4 (draws w))) w0 = (Ok tt, w') ∧
    Quiet w' m (registered b k (uuid_v4 (draws w)) t) ∧ draws w' = S (draws w).
Proof.
  intros HQ w0. set (n := uuid_v4 (draws w)).
  assert (HQ0 : Quiet w0 m t) by (apply quiet_draws; [done|lia]).
  assert (Hfree : filter (λ kv, kv.2 = n) t = ∅).
  { apply map_empty. intros bk. apply map_lookup_filter_None. right. intros x Hx E. simpl in E.
    destruct (q_drawn _ _ _ HQ bk x Hx) as (j & Hj & ->). apply uuid_unique in E. lia. }
  destruct (map_execute_quiet (λ t, if bool_decide (is_Some (t !! (b, k))) then t
      else if bool_decide (filter (λ kv, kv.2 = n) t ≠ ∅) then t else <[(b, k) := n]> t) w0 m t HQ0)
    as (w1 & E1 & HQ1 & Hd1).
  { intros bk x. case_bool_decide; [by left|]. case_bool_decide; [by left|].
    intros [[_ <-]|[_ ?]]%lookup_insert_Some; [|by left]. right. exists (draws w). simpl. split; [lia|done]. }
  exists w1. split; [exact E1|]. split; [|exact Hd1]. unfold registered.
  case_bool_decide; [exact HQ1|]. by rewrite bool_decide_eq_false_2 in HQ1 by (by intros []).
Qed.
End Quiet.
