(* ===== verification/DemoServer.v ===== *)
(** * A concrete server, for the worked examples

    The manager's store behind the front ends, with nothing stored and nothing
    going on. *)
From S2P Require Import Prelude Io Runs Strs World Wire ObjectStore Conveyer Porter Mapper Auth Server.
From S2P Require Import Store Block Manager.

#[export] Instance demo_objects : ObjectStore Store := manager_store demo_root demo_bm.
#[export] Instance demo_objects_laws : ObjectStoreLaws Store.
Proof. apply manager_store_laws. by vm_compute. Qed.
Definition demo_uuid (k : nat) : bytes := le_bytes 16 (N.of_nat k).
Definition demo_parts (s : Store) : Srv Store :=
  mkSrv s ConveyQueue_new (mkMapper ∅) (mkAuthDb ∅ ∅) (Limiter_new (60 * SECOND) 5).
Definition demo_srv : Env (Srv Store) := mkEnv (demo_parts empty_store) [] 0 0.

Lemma parts_quiet s d m :
  holds demo_root (mkEnv s [] 0 d) m → Quiet (mkEnv (demo_parts s) [] 0 d) m ∅.
Proof.
  intros H. split; [constructor|reflexivity|reflexivity|exact H|reflexivity|].
  intros bk n Hn. rewrite lookup_empty in Hn. discriminate Hn.
Qed.
Lemma demo_quiet : Quiet demo_srv ∅ ∅.
Proof. apply parts_quiet, holds_empty. Qed.

Lemma demo_admissible m d : roomy m → admissible m d.
Proof. intros H. split; [exact H|apply demo_no_collision]. Qed.
Lemma roomy_empty : roomy ∅.
Proof. vm_compute. reflexivity. Qed.
Lemma roomy_single n d : roomy {[n := d]}.
Proof. unfold roomy. rewrite map_size_singleton. vm_compute. reflexivity. Qed.
