(* ===== verification/Host.v ===== *)
(** * The host of a server process ([std::fs], [std::env], [libc::kill])

    What starting and stopping a server touches outside the store: files and
    directories, the log, the console, other processes, the database the URL
    names and the bucket table.  Every call to the operating system is an
    external step of Io.v. *)
From S2P Require Import Prelude Io Runs Strs World Disk Mapper Auth.

(** ** The database of [db/mod.rs] *)

(** What the [sqlx] migrator notes of a migration in a table of its own
    ([_sqlx_migrations]): its number, the checksum of its script, and whether it
    was completed. *)
Record Applied := mkApplied { a_version : N; a_checksum : string; a_success : bool }.
#[export] Instance Applied_eq_dec : EqDecision Applied.
Proof. solve_decision. Defined.
(** [None] for a table that does not exist.  [applied] holds the migrator's notes. *)
Record Database := mkDatabase {
  mig_records : option (list string);
  auth_tables : option AuthDb;
  applied : list Applied
}.
Definition empty_database : Database := mkDatabase None None [].

(** One file of [db/migrations]: its number, its description, the checksum of its
    script, and the script, which fails as a whole ([None]) or takes effect as a
    whole. *)
Record Migration := mkMigration {
  m_version : N; m_description : string; m_checksum : string; m_script : Database → option Database
}.

(** ** The host *)

Inductive Signal := SIGINT | SIGTERM | SIGKILL.
#[export] Instance Signal_eq_dec : EqDecision Signal.
Proof. solve_decision. Defined.

Record Host := mkHost {
  cwd : path;                         (* the working directory *)
  host_fs : Fs;
  log : list string;                  (* lines of the log, oldest first *)
  console : list string;              (* lines printed *)
  alive : gset Z;                     (* running processes *)
  signalled : list (Z * Signal);      (* signals sent, oldest first *)
  database : Database;
  buckets : BucketMapper
}.

Definition set_host_fs (f : Fs → Fs) (h : Host) : Host :=
  mkHost (cwd h) (f (host_fs h)) (log h) (console h) (alive h) (signalled h) (database h) (buckets h).
Definition add_log (l : list string) (h : Host) : Host :=
  mkHost (cwd h) (host_fs h) (log h ++ l) (console h) (alive h) (signalled h) (database h) (buckets h).
Definition add_console (l : string) (h : Host) : Host :=
  mkHost (cwd h) (host_fs h) (log h) (console h ++ [l]) (alive h) (signalled h) (database h) (buckets h).
Definition add_signal (s : Z * Signal) (h : Host) : Host :=
  mkHost (cwd h) (host_fs h) (log h) (console h) (alive h) (signalled h ++ [s]) (database h) (buckets h).
Definition set_alive (f : gset Z → gset Z) (h : Host) : Host :=
  mkHost (cwd h) (host_fs h) (log h) (console h) (f (alive h)) (signalled h) (database h) (buckets h).
Definition set_database (d : Database) (h : Host) : Host :=
  mkHost (cwd h) (host_fs h) (log h) (console h) (alive h) (signalled h) d (buckets h).
Definition set_buckets (b : BucketMapper) (h : Host) : Host :=
  mkHost (cwd h) (host_fs h) (log h) (console h) (alive h) (signalled h) (database h) b.

(** [Context::context] of [error.rs]: the cause follows the message. *)
Definition error_text (e : Error) : string :=
  match e with IoError _ m | AnyhowError m => m end.
Definition context {St A} (msg : string) (m : IO St A) : IO St A :=
  map_err (λ e, AnyhowError (msg +:+ ": " +:+ error_text e)) m.

(** [event!] and [println!]. *)
Definition event (line : string) : IO Host unit := update (add_log [line]).
Definition println (line : string) : IO Host unit := update (add_console line).

(** ** Paths and files *)

(** [Path::parent]: the components but the last. *)
Definition parent (p : string) : option (list Component) :=
  match last (components p) with
  | None | Some RootDir => None
  | Some _ => Some (take (length (components p) - 1) (components p))
  end.

Definition components_text (l : list Component) : string :=
  match l with
  | RootDir :: l' => "/" +:+ Strs.join "/" (as_os_str <$> l')
  | _ => Strs.join "/" (as_os_str <$> l)
  end.

Definition is_file (p : path) (f : Fs) : bool := bool_decide (is_Some (files f !! p)).
Definition is_dir (p : path) (f : Fs) : bool := bool_decide (p ∈ dirs f).

(** A call that reads or changes files. *)
Definition on_fs {A} (partial : nat → Fs → Fs) (g : Fs → (Error + A) * Fs) : IO Host A :=
  external os_error (λ n h, set_host_fs (partial n) h)
    (λ h, let '(r, f) := g (host_fs h) in (r, set_host_fs (λ _, f) h)).
Definition untouched : nat → Fs → Fs := λ _ f, f.

(** [Path::exists]: a failing look-up counts as no. *)
Definition path_exists (p : path) : IO Host bool :=
  r ← attempt (on_fs untouched (λ f, (inr (is_file p f || is_dir p f), f)));
  ret (match r with inr b => b | inl _ => false end).
(** [fs::create_dir_all] *)
Definition create_dir_all (p : path) : IO Host unit :=
  on_fs untouched (λ f, (inr tt, mkFs (files f) (list_to_set (prefixes p) ∪ dirs f))).
(** [OpenOptions::new().create(true)] with [write] or [append], then [open]. *)
Definition open_create (p : path) : IO Host unit :=
  on_fs untouched (λ f,
    if is_file p f then (inr tt, f)
    else if is_dir (parent_of p) f && negb (is_dir p f)
    then (inr tt, mkFs (<[p := []]> (files f)) (dirs f))
    else (inl (os_error NotFound), f)).
(** [fs::write]; interrupted, it leaves a prefix. *)
Definition write_file (p : path) (b : bytes) : IO Host unit :=
  let writable f := is_dir (parent_of p) f && negb (is_dir p f) in
  on_fs (λ n f, if writable f then mkFs (<[p := take n b]> (files f)) (dirs f) else f) (λ f,
    if writable f then (inr tt, mkFs (<[p := b]> (files f)) (dirs f))
    else (inl (os_error NotFound), f)).
(** [fs::read_to_string] *)
Definition read_to_string (p : path) : IO Host string :=
  on_fs untouched (λ f,
    match files f !! p with
    | None => (inl (os_error NotFound), f)
    | Some b => match from_utf8 b with
                | Some s => (inr s, f)
                | None => (inl (IoError InvalidData "stream did not contain valid UTF-8"), f)
                end
    end).
Definition remove_file (p : path) : IO Host unit :=
  on_fs untouched (λ f,
    if is_file p f then (inr tt, mkFs (delete p (files f)) (dirs f))
    else (inl (os_error NotFound), f)).

(** [env::current_dir()], and the same as text. *)
Definition current_dir : IO Host path := external os_error (λ _ h, h) (λ h, (inr (cwd h), h)).
Definition path_text (p : path) : string := "/" +:+ Strs.join "/" p.

(** [libc::kill]: whether the process was found; a group ([pid <= 0]) always is. *)
Definition kill (pid : Z) (sig : Signal) : IO Host bool :=
  external os_error (λ _ h, h) (λ h,
    if bool_decide (0 < pid)%Z && negb (bool_decide (pid ∈ alive h)) then (inr false, h)
    else (inr true, add_signal (pid, sig) h)).

(** ** Lemmas: runs that nothing disturbs *)

(** A call on files that nothing disturbs. *)
Lemma on_fs_calm {A} p (g : Fs → (Error + A) * Fs) w :
  calm (fates w) →
  ∃ fs, calm fs ∧ on_fs p g w =
    (match (g (host_fs (state w))).1 with inl e => Err e | inr a => Ok a end,
     mkEnv (set_host_fs (λ _, (g (host_fs (state w))).2) (state w)) fs (clock w) (draws w)).
Proof.
  intros Hc. unfold on_fs.
  match goal with |- context [external ?e ?p ?f w] => destruct (external_calm e p f w Hc) as (fs & Hfs & ->) end.
  exists fs. split; [done|]. by destruct (g (host_fs (state w))).
Qed.
Lemma set_host_fs_id h : set_host_fs (λ _, host_fs h) h = h.
Proof. by destruct h. Qed.
Lemma path_exists_calm p w :
  calm (fates w) →
  ∃ fs, calm fs ∧ path_exists p w =
    (Ok (is_file p (host_fs (state w)) || is_dir p (host_fs (state w))),
     mkEnv (state w) fs (clock w) (draws w)).
Proof.
  intros Hc. unfold path_exists, mbind, IO_mbind, bind, attempt.
  destruct (on_fs_calm untouched (λ f, (inr (is_file p f || is_dir p f), f)) w Hc) as (fs & Hfs & ->).
  exists fs. split; [done|]. simpl. by rewrite set_host_fs_id.
Qed.
Lemma current_dir_calm w :
  calm (fates w) →
  ∃ fs, calm fs ∧ current_dir w = (Ok (cwd (state w)), mkEnv (state w) fs (clock w) (draws w)).
Proof.
  intros Hc. destruct (external_calm os_error (λ _ h, h) (λ h : Host, (inr (cwd h), h)) w Hc) as (fs & ? & E).
  exists fs. split; [done|]. exact E.
Qed.

Lemma context_step {St A} msg (m : IO St A) w a w1 :
  m w = (Ok a, w1) → context msg m w = (Ok a, w1).
Proof. intros E. unfold context, map_err. by rewrite E. Qed.
