(* ===== verification/Database.v ===== *)
(** * The authentication database ([linastore-server/src/db/mod.rs])

    Which database a URL names, the directory and the file SQLite needs, and the
    migrations with their record [mig_records].  The back ends for MySQL and
    PostgreSQL are behind Cargo features that are off by default: the build
    modelled has SQLite only.  [sqlx] is a parameter: how it opens a database
    and how its migrator runs scripts. *)
From S2P Require Import Prelude Io Runs Strs World Disk Mapper Auth Host.
From stdpp Require Import pretty.

Inductive DbType := SQLite | MySQL | PostgreSQL.
#[export] Instance DbType_eq_dec : EqDecision DbType.
Proof. solve_decision. Defined.

Definition from_url (url : string) : DbType :=
  if starts_with "sqlite:" url then SQLite
  else if starts_with "mysql://" url || starts_with "mariadb://" url then MySQL
  else if starts_with "postgres://" url || starts_with "postgresql://" url then PostgreSQL
  else SQLite.

(** [sqlx]: opening the database a URL names, from a working directory
    ([None]: refused), running the pending migrations ([Migrator::run]; [None]: an
    error), and the checksum it takes of a script, given by its name. *)
Class Sqlx := {
  sqlx_connect : path → string → Fs → option Fs;
  sqlx_migrate : list Migration → Database → option Database;
  sqlx_checksum : string → string
}.

(** A path that means itself inside a URL. *)
Definition plain (p : string) : Prop :=
  p ≠ EmptyString ∧ p ≠ ":memory:"%string ∧ find_char "?" p = None ∧ find_char "%" p = None.

(** A note that fits a migration of [ms]. *)
Definition fits (ms : list Migration) (a : Applied) : Prop :=
  a_success a = true ∧ ∃ m, m ∈ ms ∧ m_version m = a_version a ∧ m_checksum m = a_checksum a.

(** What is documented of it.  An existing file is opened; [mode=rwc] creates the
    file, but not its directory; no file that is there changes.  The migrator
    first validates what was applied before: a migration that is noted but was not
    completed ([Dirty]), that is not among those it has ([VersionMissing]), or
    whose script has changed since ([VersionMismatch]) is an error.  It skips what it has
    applied, applies what it has not in one transaction each, and notes it. *)
Class SqlxLaws (X : Sqlx) : Prop := {
  connect_existing c p f :
    plain p → is_file (locate c (components p)) f = true → sqlx_connect c ("sqlite://" +:+ p) f = Some f;
  connect_rwc c p f :
    plain p →
    let q := locate c (components p) in
    sqlx_connect c ("sqlite://" +:+ p +:+ "?mode=rwc") f =
    if is_file q f then Some f
    else if is_dir (parent_of q) f && negb (is_dir q f)
    then Some (mkFs (<[q := []]> (files f)) (dirs f)) else None;
  connect_keeps c url f f' : sqlx_connect c url f = Some f' → files f ⊆ files f';
  migrate_dirty ms d a : a ∈ applied d → a_success a = false → sqlx_migrate ms d = None;
  migrate_missing ms d a :
    a ∈ applied d → a_version a ∉ m_version <$> ms → sqlx_migrate ms d = None;
  migrate_changed ms d a m :
    NoDup (m_version <$> ms) → a ∈ applied d → m ∈ ms → m_version m = a_version a →
    m_checksum m ≠ a_checksum a → sqlx_migrate ms d = None;
  migrate_done ms d :
    Forall (fits ms) (applied d) → Forall (λ m, m_version m ∈ a_version <$> applied d) ms →
    NoDup (m_version <$> ms) → sqlx_migrate ms d = Some d;
  migrate_pending m d :
    applied d = [] →
    sqlx_migrate [m] d =
    (d' ← m_script m d;
     Some (mkDatabase (mig_records d') (auth_tables d') [mkApplied (m_version m) (m_checksum m) true]))
}.

(** [000001_init_auth.sql] *)
Definition init_auth_version : string := "000001_init_auth".
Definition init_auth_sql (d : Database) : option Database :=
  let records := default [] (mig_records d) in
  match auth_tables d with
  | Some _ => None   (* CREATE TABLE users, without IF NOT EXISTS *)
  | None =>
      Some (mkDatabase
        (Some (if bool_decide (init_auth_version ∈ records) then records
               else records ++ [init_auth_version]))
        (Some (mkAuthDb ∅ ∅)) (applied d))
  end.

(** The migrations compiled into the server. *)
Definition MIGRATOR_SQLITE `{X : Sqlx} : list Migration :=
  [mkMigration 1 "init auth" (sqlx_checksum init_auth_version) init_auth_sql].

(** [{:06}] *)
Definition pad6 (s : string) : string :=
  bytes_str (replicate (6 - String.length s) "0"%char) +:+ s.
Definition version_le (a b : string) : Prop := String.leb a b = true.
#[export] Instance version_le_dec : RelDecision version_le.
Proof. unfold version_le. intros a b. apply _. Defined.
Definition migration_versions (migrator : list Migration) : list string :=
  merge_sort version_le
    ((λ m, pad6 (pretty (m_version m)) +:+ "_" +:+ replace_char " " "_" (m_description m)) <$> migrator).

Definition is_missing_mig_records_table (msg : string) : bool :=
  contains "mig_records" msg && contains "does not exist" msg
  || contains "no such table: mig_records" msg
  || contains "mig_records" msg && contains "doesn't exist" msg.

(** SQLite's report of a table that is not there. *)
Definition no_such_table : Error :=
  AnyhowError "error returned from database: (code: 1) no such table: mig_records".

Section Database.
Context `{X : Sqlx}.

(** [SELECT version FROM mig_records] *)
Definition select_versions : IO Host (list string) :=
  external (λ _, db_error) (λ _ h, h)
    (λ h, (from_option inr (inl no_such_table) (mig_records (database h)), h)).

Definition fetch_mig_versions_sqlite : IO Host (list string) :=
  rows ← attempt select_versions;
  match rows with
  | inr l => ret l
  | inl e => if is_missing_mig_records_table (error_text e) then ret [] else fail e
  end.

Definition all_mig_records_present_sqlite (versions : list string) : IO Host bool :=
  if bool_decide (versions = []) then ret false else
  existing ← fetch_mig_versions_sqlite;
  if bool_decide (existing = []) then ret false
  else ret (forallb (λ v, bool_decide (v ∈ existing)) versions).

Definition run_migrations_sqlite : IO Host unit :=
  event "Running database migrations (SQLite)";;
  let versions := migration_versions MIGRATOR_SQLITE in
  present ← all_mig_records_present_sqlite versions;
  if present : bool then
    event "All migrations already recorded in mig_records (SQLite); skipping"
  else
    context "Failed to run migrations"
      (external (λ _, db_error) (λ _ h, h) (λ h,
         match sqlx_migrate MIGRATOR_SQLITE (database h) with
         | Some d => (inr tt, set_database d h)
         | None => (inl db_error, h)
         end));;
    event "Database migrations completed successfully".

(** [{:?}] of a path. *)
Context (debug : string → string).

Definition ensure_sqlite_parent_dir (db_url : string) : IO Host unit :=
  if bool_decide (db_url = "sqlite::memory:"%string) || starts_with "sqlite::memory:" db_url
     || bool_decide (db_url = "sqlite://:memory:"%string) then ret tt else
  match (match Strs.strip_prefix "sqlite://" db_url with
         | Some path => Some path
         | None => Strs.strip_prefix "sqlite:" db_url
         end) with
  | None => ret tt
  | Some rest =>
      let rest := default rest (head (split_on "?" rest)) in
      if is_empty rest || bool_decide (rest = ":memory:"%string) || starts_with "file:" rest
      then ret tt else
      c ← (h ← get_state; ret (cwd h));
      (match parent rest with
       | Some dir =>
           context "Failed to create SQLite database directory"
             (if bool_decide (dir = []) then ret tt else create_dir_all (locate c dir));;
           event ("Database directory created: " +:+ debug (components_text dir))
       | None => ret tt
       end);;
      let db_path := locate c (components rest) in
      match file_name rest with
      | None => ret tt
      | Some _ =>
          there ← path_exists db_path;
          if there : bool then ret tt else
          context "Failed to create SQLite database file" (open_create db_path);;
          event ("Database file created: " +:+ debug rest)
      end
  end.

(** [SqlitePool::connect] *)
Definition connect (db_url : string) : IO Host unit :=
  external (λ _, db_error) (λ _ h, h) (λ h,
    match sqlx_connect (cwd h) db_url (host_fs h) with
    | Some f => (inr tt, set_host_fs (λ _, f) h)
    | None => (inl (AnyhowError "unable to open database file"), h)
    end).

Definition DbConnection_new (db_url : string) : IO Host DbType :=
  event ("Creating database connection with URL: " +:+ db_url);;
  match from_url db_url with
  | SQLite =>
      ensure_sqlite_parent_dir db_url;;
      context "Failed to open SQLite database connection" (connect db_url);;
      event "Database connection created (SQLite)";;
      run_migrations_sqlite;;
      ret SQLite
  | MySQL => fail (AnyhowError "MySQL support requires enabling the Cargo feature `mysql`")
  | PostgreSQL => fail (AnyhowError "PostgreSQL support requires enabling the Cargo feature `postgres`")
  end.

Definition init_database (db_url : string) : IO Host DbType :=
  event ("Initializing database with URL: " +:+ db_url);; DbConnection_new db_url.
Definition get_db_connection (db_url : string) : IO Host DbType := init_database db_url.

(** A statement of [Auth] on the connected database; it fails on one whose
    tables were never created. *)
Definition on_auth_tables {A} (m : IO AuthDb A) : IO Host A :=
  h ← get_state;
  match auth_tables (database h) with
  | None => fail db_error
  | Some d => focus (λ h, default (mkAuthDb ∅ ∅) (auth_tables (database h)))
                (λ d h, set_database (mkDatabase (mig_records (database h)) (Some d) (applied (database h))) h) m
  end.
End Database.

(** ** Lemmas *)

Lemma the_versions `{X : Sqlx} : migration_versions MIGRATOR_SQLITE = [init_auth_version].
Proof. by vm_compute. Qed.

Section DatabaseProofs.
Context `{X : Sqlx} `{XL : !SqlxLaws X}.

Definition recorded (d : Database) : bool := bool_decide (init_auth_version ∈ default [] (mig_records d)).
(** The migrator's own note of the one migration. *)
Definition note : Applied := mkApplied 1 (sqlx_checksum init_auth_version) true.

(** The database after [run_migrations_sqlite], or why it fails. *)
Definition migrated (d : Database) : option Database :=
  if recorded d then Some d
  else if decide (applied d = []) then
    match auth_tables d with
    | Some _ => None
    | None => Some (mkDatabase (Some (default [] (mig_records d) ++ [init_auth_version]))
                      (Some (mkAuthDb ∅ ∅)) [note])
    end
  else if decide (Forall (λ a, a = note) (applied d)) then Some d
  else None.

Lemma one_version : NoDup (m_version <$> MIGRATOR_SQLITE).
Proof. apply NoDup_singleton. Qed.
(** The migrator refuses a note that is not its own. *)
Lemma foreign_note d a : a ∈ applied d → a ≠ note → sqlx_migrate MIGRATOR_SQLITE d = None.
Proof.
  destruct a as [v c ok]. intros Ha Hne. destruct ok; [|by eapply migrate_dirty].
  destruct (decide (v = 1%N)) as [->|Hv]; [|eapply migrate_missing; [exact Ha|set_solver]].
  eapply migrate_changed; [apply one_version|exact Ha|by left|done|]. simpl. by intros <-.
Qed.
Lemma sqlx_migrated d : recorded d = false → sqlx_migrate MIGRATOR_SQLITE d = migrated d.
Proof.
  intros Hr. unfold migrated. rewrite Hr. case_decide as Ha; [|case_decide as Hn].
  - unfold MIGRATOR_SQLITE. rewrite migrate_pending by done. simpl. unfold init_auth_sql.
    destruct (auth_tables d); simpl; [done|]. unfold recorded in Hr. by rewrite Hr.
  - apply migrate_done; [|apply Forall_singleton|apply one_version].
    + eapply Forall_impl; [exact Hn|]. intros a ->. split; [done|]. eexists. by split; [left|].
    + destruct (applied d) as [|a l]; [done|]. apply Forall_cons in Hn as [-> _]. by left.
  - apply not_Forall_Exists in Hn; [|apply _]. apply Exists_exists in Hn as (a & Hin & Hne).
    by apply foreign_note with a.
Qed.

Lemma all_present_calm w :
  calm (fates w) →
  ∃ fs, calm fs ∧ all_mig_records_present_sqlite [init_auth_version] w =
    (Ok (recorded (database (state w))), mkEnv (state w) fs (clock w) (draws w)).
Proof.
  intros Hc. unfold all_mig_records_present_sqlite. rewrite bool_decide_eq_false_2 by done.
  unfold fetch_mig_versions_sqlite, select_versions.
  destruct (external_calm (λ _, db_error) (λ _ h, h)
    (λ h, (from_option inr (inl no_such_table) (mig_records (database h)), h)) w Hc) as (fs & Hfs & E).
  exists fs. split; [done|]. unfold mbind, IO_mbind, bind, attempt. rewrite E. clear E. unfold recorded.
  destruct (mig_records (database (state w))) as [l|]; cbn -[error_text is_missing_mig_records_table].
  - destruct l as [|v l]; [done|]. rewrite bool_decide_eq_false_2 by done. simpl.
    by rewrite andb_true_r.
  - done.
Qed.

(** The statement that runs the migrator. *)
Lemma migrator_calm w :
  calm (fates w) → recorded (database (state w)) = false →
  ∃ fs, calm fs ∧
    external (λ _, db_error) (λ _ h, h) (λ h,
       match sqlx_migrate MIGRATOR_SQLITE (database h) with
       | Some d => (inr tt, set_database d h)
       | None => (inl db_error, h)
       end) w =
    match migrated (database (state w)) with
    | Some d => (Ok tt, mkEnv (set_database d (state w)) fs (clock w) (draws w))
    | None => (Err db_error, mkEnv (state w) fs (clock w) (draws w))
    end.
Proof.
  intros Hc Hr. match goal with |- context [external ?e ?p ?f w] =>
    destruct (external_calm e p f w Hc) as (fs & Hfs & ->) end.
  exists fs. split; [done|]. rewrite sqlx_migrated by done. by destruct (migrated _).
Qed.

Lemma migrated_again d d' : migrated d = Some d' → migrated d' = Some d'.
Proof.
  unfold migrated. destruct (recorded d) eqn:Hr; [intros [= <-]; by rewrite Hr|].
  case_decide as Ha.
  - destruct (auth_tables d); [done|]. intros [= <-]. unfold recorded. simpl.
    rewrite bool_decide_eq_true_2; [done|]. set_solver.
  - case_decide; [|done]. intros [= <-]. rewrite Hr, decide_False, decide_True by done. done.
Qed.

Lemma run_migrations_calm w :
  calm (fates w) →
  ∃ r w', run_migrations_sqlite w = (r, w') ∧ calm (fates w') ∧ cwd (state w') = cwd (state w) ∧
    host_fs (state w') = host_fs (state w) ∧
    match migrated (database (state w)) with
    | Some d => r = Ok tt ∧ database (state w') = d
    | None => (∃ e, r = Err e) ∧ database (state w') = database (state w)
    end.
Proof.
  intros Hc. unfold run_migrations_sqlite. rewrite the_versions.
  set (w0 := mkEnv (add_log ["Running database migrations (SQLite)"%string] (state w)) (fates w) (clock w) (draws w)).
  rewrite (bind_step (event _) _ w tt w0 eq_refl).
  destruct (all_present_calm w0 Hc) as (fs & Hfs & E). rewrite (bind_step _ _ _ _ _ E).
  change (recorded (database (state w0))) with (recorded (database (state w))).
  destruct (recorded (database (state w))) eqn:Hr.
  - eexists _, _. split; [reflexivity|]. unfold migrated. rewrite Hr. done.
  - destruct (migrator_calm (mkEnv (state w0) fs (clock w0) (draws w0)) Hfs Hr) as (fs2 & Hfs2 & E2).
    unfold context, map_err, mbind, IO_mbind, bind. rewrite E2.
    change (database (state (mkEnv (state w0) fs (clock w0) (draws w0)))) with (database (state w)).
    destruct (migrated (database (state w))) as [d|]; eexists _, _; (split; [reflexivity|]); eauto 10.
Qed.

(** C36 (functional): the migrations of a database run once.  With no call
    failing, a database that has the record of the migration is left exactly as it
    is, and so is one for which [sqlx] has a note of having run it.
    One of which neither knows, without the tables, gets them, empty, with the
    record and the note; one that has the tables but neither record nor note is refused
    untouched, and so is one where the migrator finds the note of another migration, of another
    version of the script, or of one that was not completed.  Running them again
    changes nothing more. *)
Theorem migrations_run_once w :
  calm (fates w) →
  let '(r, w') := run_migrations_sqlite w in
  match migrated (database (state w)) with
  | Some d => r = Ok tt ∧ database (state w') = d ∧ migrated d = Some d
  | None => (∃ e, r = Err e) ∧ database (state w') = database (state w)
  end.
Proof.
  intros Hc. destruct (run_migrations_calm w Hc) as (r & w' & -> & _ & _ & _ & H).
  destruct (migrated _) as [d|] eqn:Em; [|done]. apply migrated_again in Em. naive_solver.
Qed.

(** Where a path with a file name leads, and its parent. *)
Lemma file_name_parent p s :
  file_name p = Some s →
  ∃ l, components p = l ++ [Normal s] ∧ parent p = Some l ∧
    ∀ c, locate c (components p) = locate c l ++ [s].
Proof.
  unfold file_name, parent. destruct (last (components p)) as [[]|] eqn:E; try done. intros [= ->].
  apply last_Some in E as (l & E). exists l. split; [done|]. split.
  - rewrite E, length_app. simpl. replace (length l + 1 - 1) with (length l) by lia.
    by rewrite take_app_length.
  - intros c. rewrite E. unfold locate. by rewrite foldl_app.
Qed.

Lemma plain_not_memory p : plain p →
  bool_decide ("sqlite://" +:+ p = "sqlite::memory:"%string) || starts_with "sqlite::memory:" ("sqlite://" +:+ p)
    || bool_decide ("sqlite://" +:+ p = "sqlite://:memory:"%string) = false.
Proof.
  intros (_ & Hm & _). rewrite !bool_decide_eq_false_2; [done| |done].
  intros E. apply Hm. apply (f_equal (Strs.strip_prefix "sqlite://")) in E. rewrite strip_prefix_app in E.
  by injection E.
Qed.

(** The parent directory is there after [create_dir_all], the file after
    [open_create]. *)
Lemma create_dir_all_calm msg p w :
  calm (fates w) →
  ∃ fs, calm fs ∧ context msg (create_dir_all p) w =
    (Ok tt, mkEnv (set_host_fs (λ f, mkFs (files f) (list_to_set (prefixes p) ∪ dirs f)) (state w)) fs
              (clock w) (draws w)).
Proof.
  intros Hc. unfold create_dir_all.
  match goal with |- context [on_fs ?p ?g] => destruct (on_fs_calm p g w Hc) as (fs & Hfs & E) end.
  exists fs. split; [done|]. by eapply context_step.
Qed.
Lemma open_create_calm msg p w :
  calm (fates w) → is_file p (host_fs (state w)) = false → is_dir p (host_fs (state w)) = false →
  is_dir (parent_of p) (host_fs (state w)) = true →
  ∃ fs, calm fs ∧ context msg (open_create p) w =
    (Ok tt, mkEnv (set_host_fs (λ f, mkFs (<[p := []]> (files f)) (dirs f)) (state w)) fs (clock w) (draws w)).
Proof.
  intros Hc Hf Hd Hp. unfold open_create.
  match goal with |- context [on_fs ?p ?g] => destruct (on_fs_calm p g w Hc) as (fs & Hfs & E) end.
  exists fs. split; [done|]. eapply context_step. rewrite E, Hf, Hd, Hp. done.
Qed.

(** The two steps of [ensure_sqlite_parent_dir]. *)
Lemma parent_dir_calm w l q s (c := cwd (state w)) :
  calm (fates w) → q = locate c l ++ [s] →
  is_dir c (host_fs (state w)) = true → is_dir q (host_fs (state w)) = false →
  ∃ w1, context "Failed to create SQLite database directory"
      (if bool_decide (l = []) then ret tt else create_dir_all (locate c l)) w = (Ok tt, w1) ∧
    calm (fates w1) ∧ cwd (state w1) = c ∧ database (state w1) = database (state w) ∧
    files (host_fs (state w1)) = files (host_fs (state w)) ∧ is_dir q (host_fs (state w1)) = false ∧
    is_dir (parent_of q) (host_fs (state w1)) = true.
Proof.
  intros Hc -> Hcd Hqd. rewrite parent_of_snoc. case_bool_decide as Hl0.
  - subst l. by exists w.
  - destruct (create_dir_all_calm "Failed to create SQLite database directory" (locate c l) w Hc)
      as (fs & Hfs & E).
    eexists. split; [exact E|]. do 4 (split; [done|]). split.
    + apply bool_decide_eq_false in Hqd. apply bool_decide_eq_false.
      intros [Hin%elem_of_list_to_set%prefixes_length|Hin]%elem_of_union; [|done].
      rewrite length_app in Hin. simpl in Hin. lia.
    + apply bool_decide_eq_true_2, elem_of_union_l, elem_of_list_to_set, prefixes_self.
Qed.

Lemma ensure_calm debug p w (c := cwd (state w)) (q := locate c (components p)) :
  calm (fates w) → plain p → starts_with "file:" p = false → is_Some (file_name p) →
  is_dir c (host_fs (state w)) = true → is_dir q (host_fs (state w)) = false →
  ∃ w1, ensure_sqlite_parent_dir debug ("sqlite://" +:+ p) w = (Ok tt, w1) ∧ calm (fates w1) ∧
    cwd (state w1) = c ∧ database (state w1) = database (state w) ∧ is_file q (host_fs (state w1)) = true ∧
    files (host_fs (state w1)) = if is_file q (host_fs (state w)) then files (host_fs (state w))
                                 else <[q := []]> (files (host_fs (state w))).
Proof.
  intros Hc Hp Hfile [s Hname] Hcd Hqd. destruct (file_name_parent p s Hname) as (l & Hl & Hpar & Hloc).
  unfold ensure_sqlite_parent_dir. rewrite (plain_not_memory p Hp), strip_prefix_app.
  destruct Hp as (Hne & Hmem & Hqm & _). rewrite (split_on_whole _ _ Hqm).
  cbv zeta. change (default p (head [p])) with p.
  rewrite Hfile, (bool_decide_eq_false_2 (p = _)) by done.
  destruct p as [|ch p']; [done|]. cbn [is_empty orb]. set (p := String ch p') in *.
  rewrite (bind_step (h ← get_state; ret (cwd h)) _ w c w eq_refl). rewrite Hpar, Hname. fold q.
  destruct (parent_dir_calm w l q s Hc (Hloc c) Hcd Hqd) as (w1 & E1 & Hc1 & Hcwd1 & Hdb1 & Hf1 & Hqd1 & Hpd1).
  set (w2 := mkEnv (add_log ["Database directory created: " +:+ debug (components_text l)] (state w1))
    (fates w1) (clock w1) (draws w1)).
  rewrite (bind_step _ _ w tt w2) by by rewrite (bind_step _ _ _ _ _ E1).
  destruct (path_exists_calm q w2 Hc1) as (fs3 & Hc3 & E3). rewrite (bind_step _ _ _ _ _ E3).
  assert (Hfq : is_file q (host_fs (state w2)) = is_file q (host_fs (state w))) by (unfold is_file; simpl; by rewrite Hf1).
  change (is_dir q (host_fs (state w2))) with (is_dir q (host_fs (state w1))). rewrite Hfq, Hqd1, orb_false_r.
  destruct (is_file q (host_fs (state w))) eqn:Eq.
  - eexists. split; [reflexivity|]. by split_and!.
  - destruct (open_create_calm "Failed to create SQLite database file" q
      (mkEnv (state w2) fs3 (clock w2) (draws w2)) Hc3 Hfq Hqd1 Hpd1) as (fs4 & Hc4 & E4).
    rewrite (bind_step _ _ _ _ _ E4). eexists. split; [reflexivity|]. simpl.
    do 3 (split; [done|]). split; [|by rewrite Hf1].
    apply bool_decide_eq_true_2. simpl. rewrite lookup_insert_eq. eauto.
Qed.

Lemma connect_calm p w :
  calm (fates w) → plain p → is_file (locate (cwd (state w)) (components p)) (host_fs (state w)) = true →
  ∃ fs, calm fs ∧ connect ("sqlite://" +:+ p) w = (Ok tt, mkEnv (state w) fs (clock w) (draws w)).
Proof.
  intros Hc Hp Hf. unfold connect.
  match goal with |- context [external ?e ?p ?f w] => destruct (external_calm e p f w Hc) as (fs & Hfs & E) end.
  exists fs. split; [done|]. rewrite E, (connect_existing _ p _ Hp Hf). simpl. by rewrite set_host_fs_id.
Qed.

(** A path in a URL is enough.  Nothing failing, [sqlite://p]
    for a plain path [p] connects whether or not its directories and its file
    exist: what is missing is created, the file empty, every other file is as
    before, and the migrations have run. *)
Theorem sqlite_url_connects debug p w (c := cwd (state w)) (q := locate c (components p)) d :
  calm (fates w) → plain p → starts_with "file:" p = false → is_Some (file_name p) →
  is_dir c (host_fs (state w)) = true → is_dir q (host_fs (state w)) = false →
  migrated (database (state w)) = Some d →
  ∃ w', DbConnection_new debug ("sqlite://" +:+ p) w = (Ok SQLite, w') ∧ database (state w') = d ∧
    files (host_fs (state w')) =
    if is_file q (host_fs (state w)) then files (host_fs (state w)) else <[q := []]> (files (host_fs (state w))).
Proof.
  intros Hc Hp Hfile Hname Hcd Hqd Hm. unfold DbConnection_new.
  rewrite (bind_step (event _) _ w tt _ eq_refl).
  assert (Hty : from_url ("sqlite://" +:+ p) = SQLite) by done. rewrite Hty.
  match goal with |- context [mkEnv (add_log ?l ?h) ?fs ?t ?k] =>
    destruct (ensure_calm debug p (mkEnv (add_log l h) fs t k) Hc Hp Hfile Hname Hcd Hqd)
      as (w1 & E1 & Hc1 & Hcwd1 & Hdb1 & Hf1 & Hfiles) end.
  rewrite (bind_step _ _ _ _ _ E1).
  destruct (connect_calm p w1 Hc1 Hp) as (fs2 & Hc2 & E2); [by rewrite Hcwd1|].
  rewrite (bind_step _ _ _ _ _ (context_step _ _ _ _ _ E2)).
  rewrite (bind_step (event _) _ _ tt _ eq_refl).
  match goal with |- context [mkEnv (add_log ?l ?h) ?fs ?t ?k] =>
    destruct (run_migrations_calm (mkEnv (add_log l h) fs t k) Hc2) as (r & w3 & E3 & _ & _ & Hfs3 & Hres) end.
  simpl in Hfs3, Hres, Hdb1. rewrite Hdb1, Hm in Hres. destruct Hres as [-> Hdb3].
  rewrite (bind_step _ _ _ _ _ E3). eexists. split; [reflexivity|]. split; [done|]. by rewrite Hfs3.
Qed.
End DatabaseProofs.

(** ** Worked examples *)

(** A migrator and a database library that do what is documented. *)
Definition demo_connect (c : path) (url : string) (f : Fs) : option Fs :=
  rest ← Strs.strip_prefix "sqlite://" url;
  match split_on "?" rest with
  | [p] => let q := locate c (components p) in if is_file q f then Some f else None
  | [p; "mode=rwc"%string] =>
      let q := locate c (components p) in
      if is_file q f then Some f
      else if is_dir (parent_of q) f && negb (is_dir q f)
      then Some (mkFs (<[q := []]> (files f)) (dirs f)) else None
  | _ => None
  end.
(** One migration after the other; notes that do not fit are errors. *)
Definition fitting (ms : list Migration) (a : Applied) : bool :=
  a_success a && existsb (λ m, (m_version m =? a_version a)%N && String.eqb (m_checksum m) (a_checksum a)) ms.
Definition demo_migrate (ms : list Migration) (d : Database) : option Database :=
  if forallb (fitting ms) (applied d) then
    foldl (λ o m, d ← o;
      if bool_decide (m_version m ∈ a_version <$> applied d) then Some d else
      d' ← m_script m d;
      Some (mkDatabase (mig_records d') (auth_tables d')
              (applied d ++ [mkApplied (m_version m) (m_checksum m) true]))) (Some d) ms
  else None.
#[export] Instance demo_sqlx : Sqlx :=
  {| sqlx_connect := demo_connect; sqlx_migrate := demo_migrate; sqlx_checksum := λ s, s |}.

Lemma fitting_spec ms a : fitting ms a = true ↔ fits ms a.
Proof.
  unfold fitting, fits. rewrite andb_true_iff, existsb_exists. apply and_iff_compat_l.
  split; intros (m & Hm & H); exists m; rewrite <- list_elem_of_In in *;
    rewrite andb_true_iff, N.eqb_eq, String.eqb_eq in *; tauto.
Qed.
Lemma demo_invalid ms d a : a ∈ applied d → ¬ fits ms a → demo_migrate ms d = None.
Proof.
  intros Ha Hf. unfold demo_migrate. destruct (forallb _ _) eqn:E; [|done]. destruct Hf.
  rewrite forallb_forall in E. by apply fitting_spec, E, list_elem_of_In.
Qed.
Lemma same_version (ms : list Migration) m m' :
  NoDup (m_version <$> ms) → m ∈ ms → m' ∈ ms → m_version m = m_version m' → m = m'.
Proof.
  intros Hnd (i & Hi)%list_elem_of_lookup (j & Hj)%list_elem_of_lookup E.
  assert (i = j) as -> by (eapply NoDup_lookup; [exact Hnd|..]; rewrite list_lookup_fmap, ?Hi, ?Hj; simpl; by rewrite ?E).
  congruence.
Qed.

#[export] Instance demo_sqlx_laws : SqlxLaws demo_sqlx.
Proof.
  split.
  - intros c p f (_ & _ & Hq & _) Hf. simpl. unfold demo_connect. rewrite strip_prefix_app. simpl.
    rewrite split_on_whole by done. by rewrite Hf.
  - intros c p f (_ & _ & Hq & _). simpl. unfold demo_connect. rewrite strip_prefix_app. simpl.
    change (p +:+ "?mode=rwc") with (p +:+ String "?" "mode=rwc"). by rewrite split_on_app.
  - intros c url f f'. simpl. unfold demo_connect. destruct (Strs.strip_prefix _ _) as [rest|]; [|done]. simpl.
    assert (Hins : ∀ q, is_file q f = false → files f ⊆ <[q := []]> (files f))
      by (intros q Hq; apply insert_subseteq; by apply bool_decide_eq_false, eq_None_not_Some in Hq).
    repeat case_match; intros H'; simplify_eq; try done. by apply Hins.
  - intros ms d a Ha Hs. eapply demo_invalid; [exact Ha|]. intros [? _]. congruence.
  - intros ms d a Ha Hv. eapply demo_invalid; [exact Ha|]. intros (_ & m & Hm & E & _). apply Hv. rewrite <- E.
    by apply list_elem_of_fmap_2.
  - intros ms d a m Hnd Ha Hm E Hne. eapply demo_invalid; [exact Ha|]. intros (_ & m' & Hm' & E' & Hc).
    rewrite <- E' in E. pose proof (same_version _ _ _ Hnd Hm Hm' E). congruence.
  - intros ms d Hfit Hall _. simpl. unfold demo_migrate.
    replace (forallb (fitting ms) (applied d)) with true.
    + clear Hfit. induction Hall as [|m ms' Hm _ IH]; [done|]. simpl.
      rewrite bool_decide_eq_true_2 by done. apply IH.
    + symmetry. apply forallb_forall. intros a Ha%list_elem_of_In. apply fitting_spec. by eapply (proj1 (Forall_forall _ _) Hfit).
  - intros m d Hm. simpl. unfold demo_migrate. rewrite Hm. simpl. rewrite Hm. done.
Qed.
(** A machine with two processes, and the files given. *)
Definition demo_host (f : gmap path bytes) : Host :=
  mkHost ["srv"%string] (mkFs f (list_to_set (prefixes ["srv"%string]))) [] [] {[ 41%Z; 42%Z ]} []
    empty_database (mkMapper ∅).
Lemma migrations_run_once_witness :
  let '(r, w') := run_migrations_sqlite (mkEnv (demo_host ∅) [] 0 0) in
  r = Ok tt ∧
  database (state w') = mkDatabase (Some [init_auth_version]) (Some (mkAuthDb ∅ ∅)) [note] ∧
  migrated (database (state w')) = Some (database (state w')).
Proof.
  pose proof (migrations_run_once (mkEnv (demo_host ∅) [] 0 0) ltac:(constructor)) as H.
  destruct (run_migrations_sqlite _) as [r w']. simpl in H. destruct H as (-> & -> & H). done.
Defined.
(** A database that a later version of the server has migrated further is refused. *)
Example later_schema_refused :
  let d := mkDatabase None (Some (mkAuthDb ∅ ∅)) [note; mkApplied 2 "000002_more" true] in
  sqlx_migrate MIGRATOR_SQLITE d = None ∧ migrated d = None.
Proof. split; vm_compute; reflexivity. Qed.
Lemma sqlite_url_connects_witness :
  ∃ w', DbConnection_new id "sqlite://./data/meta.db" (mkEnv (demo_host ∅) [] 0 0) = (Ok SQLite, w') ∧
    database (state w') = mkDatabase (Some [init_auth_version]) (Some (mkAuthDb ∅ ∅)) [note] ∧
    files (host_fs (state w')) = <[["srv"; "data"; "meta.db"]%string := []]> ∅.
Proof.
  destruct (sqlite_url_connects id "./data/meta.db" (mkEnv (demo_host ∅) [] 0 0)
    (mkDatabase (Some [init_auth_version]) (Some (mkAuthDb ∅ ∅)) [note])) as (w' & E & Hd & Hf);
    [constructor|repeat split; done|done|vm_compute; eauto|vm_compute; reflexivity|vm_compute; reflexivity
    |reflexivity|].
  exists w'. split; [exact E|]. split; [exact Hd|]. rewrite Hf. vm_compute. reflexivity.
Defined.
