(* ===== verification/Startup.v ===== *)
(** * Starting and stopping the server ([linastore-server/src/utils.rs],
    [main.rs], [front/manager.rs])

    [start_server] is [run_server] up to the moment its tasks are spawned: the
    PID file, the log, the bucket table, the configuration, the database, the
    authentication manager and the administrator, in that order.  [handle_stop]
    is the other subcommand.  [run_server] puts the fork into the background
    before it.  What follows the start is in Serving.v. *)
From S2P Require Import Prelude Io Runs Strs Text Vars World Disk Mapper Auth Host Database.
From stdpp Require Import pretty.

(** [r.expect(msg)] *)
Definition expect {St A} (msg : string) (m : IO St A) : IO St A := λ w,
  match m w with (Err e, w') => (Halt (Panic msg), w') | r => r end.

Definition pid_dir (c : path) : path := c ++ ["linastore"%string].
Definition pid_file (c : path) : path := c ++ ["linastore"; "linastore.pid"]%string.

Definition write_pid_file (pid : N) : IO Host unit :=
  c ← context "Failed to get current directory" current_dir;
  there ← path_exists (pid_dir c);
  (if there : bool then ret tt
   else context "Failed to create linastore directory" (create_dir_all (pid_dir c)));;
  context "Failed to write PID file" (write_file (pid_file c) (str_bytes (pretty pid))).

Definition init_logging (log_dir : string) : IO Host unit :=
  c ← (h ← get_state; ret (cwd h));
  let log_path := locate c (components log_dir) in
  there ← path_exists log_path;
  (if there : bool then ret tt
   else context "Failed to create log directory" (create_dir_all log_path));;
  context "Failed to open log file" (open_create (log_path ++ ["linastore.log"%string])).

(** What [run_server] has when it spawns its tasks. *)
Record Running := mkRunning { manager : AuthManager; settings : EnvVar; root : string }.

Section Startup.
Context `{X : Sqlx} `{K : AuthCrypto} (debug : string → string).

(** [mapper::init_mapper] *)
Definition mappings_db (root : string) : string := root +:+ "/linadata/mappings.db".
Definition init_mapper (root : string) : IO Host unit :=
  connect ("sqlite://" +:+ mappings_db root +:+ "?mode=rwc");;
  focus buckets set_buckets BucketMapper_new.

(** From the log to the initialization of the order queue. *)
Definition prepare (log_dir : option string) : IO Host string :=
  log_directory ←
    match log_dir with
    | Some d => ret d
    | None =>
        c ← expect "Failed to get current directory" current_dir;
        s ← expect "Failed to convert path"
              (of_option (AnyhowError "to_str") (from_utf8 (str_bytes (path_text c))));
        ret (s +:+ "/linadata/logs")
    end;
  init_logging log_directory;;
  event ("Logging initialized, logs stored in: " +:+ log_directory);;
  c ← context "Failed to get current directory" current_dir;
  root ← of_option (AnyhowError "Failed to convert current directory to string")
           (from_utf8 (str_bytes (path_text c)));
  r ← attempt (init_mapper root);
  match r with
  | inl e =>
      event ("Failed to initialize bucket mapper: " +:+ debug (error_text e));;
      fail (AnyhowError ("Bucket mapper init failed: " +:+ error_text e))
  | inr _ =>
      event "Bucket mapper initialized";;
      event "Message queue initialized";;
      ret root
  end.

(** From the configuration to the administrator. *)
Definition configure (env : environment) (root : string) : IO Host Running :=
  let '(v, lines) := initialize debug env in
  update (add_log lines);;
  match validate v with
  | inl e => fail e
  | inr _ =>
      get_db_connection debug (db_url v);;
      event "Database initialized";;
      m ← AuthManager_new true (Vars.auth_required v) (admin_password v);
      event "Auth manager initialized with database";;
      r ← attempt (on_auth_tables
                     (init_admin_user (Vars.auth_required v) (admin_username v) (admin_password v)));
      match r with
      | inl e => event ("Failed to initialize admin user: " +:+ debug (error_text e));; fail e
      | inr _ => ret (mkRunning m v root)
      end
  end.

Definition start_server (pid : N) (log_dir : option string) (env : environment) : IO Host Running :=
  write_pid_file pid;; root ← prepare log_dir; configure env root.

(** [daemonize]: the parent exits, the child goes on under its own number, in a
    session of its own and without a terminal. *)
Definition daemonize (parent child : N) : IO Host unit :=
  context "Failed to fork process"
    (external os_error (λ _ h, h)
       (λ h, (inr tt, set_alive (λ a, {[Z.of_N child]} ∪ a ∖ {[Z.of_N parent]}) h)));;
  context "Failed to create new session" (external os_error (λ _ h, h) (λ h, (inr tt, h)));;
  context "Failed to open /dev/null" (external os_error (λ _ h, h) (λ h, (inr tt, h))).
Definition run_server (parent child : N) (daemon : bool) (log_dir : option string) (env : environment)
    : IO Host Running :=
  if daemon then daemonize parent child;; start_server child log_dir env
  else start_server parent log_dir env.

(** [front]: where the three front ends listen. *)
Definition front_addresses (v : EnvVar) : string * string * string :=
  (ip_address v +:+ ":" +:+ http_port v, ip_address v +:+ ":" +:+ advanced_port v,
   ip_address v +:+ ":" +:+ s3_port v).
End Startup.

(** ** Stopping *)

(** The one signal [run_server] waits for: [tokio::signal::ctrl_c()].  Any other
    of these ends the process where it is. *)
Definition shutdown_signal : Signal := SIGINT.
Definition shuts_down_gracefully (s : Signal) : bool := bool_decide (s = shutdown_signal).

Definition stop_process (pid : Z) (force : bool) (file : path) : IO Host unit :=
  r ← attempt (kill pid (if force then SIGKILL else SIGTERM));
  match r with
  | inr true => ret tt
  | inr false =>
      println "Server process not found (may have already stopped)";;
      ignore (remove_file file)
  | inl e => fail (AnyhowError ("Failed to stop server: " +:+ error_text e))
  end.

Definition handle_stop (force : bool) : IO Host unit :=
  c ← context "Failed to get current directory" current_dir;
  there ← path_exists (pid_file c);
  if negb there then println "No running LiNaStore server found (PID file not found)" else
  pid_str ← context "Failed to read PID file" (read_to_string (pid_file c));
  pid ← of_option (AnyhowError "Invalid PID in file") (parse_i32 (trim pid_str));
  stop_process pid force (pid_file c);;
  ignore (remove_file (pid_file c));;
  println (if force then "LiNaStore server force stopped" else "LiNaStore server stopped gracefully").

(** ** The command line ([main.rs]) *)

Inductive ServerCommands :=
  | Start (foreground : bool) (log_dir : option string)
  | Stop (force : bool).
(** What is done with a parsed command line; [help] is what [clap] prints. *)
Definition server_main `{X : Sqlx} `{K : AuthCrypto} (debug : string → string) (help : string) (parent child : N)
    (env : environment) (command : option ServerCommands) : IO Host unit :=
  match command with
  | Some (Start foreground log_dir) => run_server debug parent child (negb foreground) log_dir env;; ret tt
  | Some (Stop force) => handle_stop force
  | None => println help
  end.

(** ** Lemmas: what start-up leaves alone *)

#[export] Instance on_fs_keeps_database {A} p (g : Fs → (Error + A) * Fs) : Preserves database (on_fs p g).
Proof. apply external_preserves; [done|]. intros h. by destruct (g (host_fs h)). Qed.
#[export] Instance event_keeps_database l : Preserves database (event l).
Proof. by intros w. Qed.
#[export] Instance current_dir_keeps_database : Preserves database current_dir.
Proof. by apply external_preserves. Qed.
#[export] Instance expect_preserves {St X A} (f : St → X) msg (m : IO St A) :
  Preserves f m → Preserves f (expect msg m).
Proof. intros Hm w. unfold expect. specialize (Hm w). by destruct (m w) as [[] ?]. Qed.
#[export] Instance context_preserves {St X A} (f : St → X) msg (m : IO St A) :
  Preserves f m → Preserves f (context msg m).
Proof. intros Hm. by apply map_err_preserves. Qed.
#[export] Instance path_exists_keeps_database p : Preserves database (path_exists p).
Proof. unfold path_exists. apply _. Qed.
#[export] Instance get_state_preserves {St X} (f : St → X) : Preserves f get_state.
Proof. by intros w. Qed.
#[export] Instance focus_buckets_keeps_database {A} (m : IO BucketMapper A) :
  Preserves database (focus buckets set_buckets m).
Proof. intros w. unfold focus. by destruct (m _). Qed.

Section StartupProofs.
Context `{X : Sqlx} `{K : AuthCrypto} (debug : string → string).

#[export] Instance connect_keeps_database url : Preserves database (connect url).
Proof. apply external_preserves; [done|]. intros h. by destruct (sqlx_connect _ _ _). Qed.

#[export] Instance prepare_keeps_database log_dir : Preserves database (prepare debug log_dir).
Proof.
  unfold prepare, init_logging, init_mapper, create_dir_all, open_create.
  repeat first [apply _ | apply bind_preserves; [|intros ?] | apply attempt_preserves | case_match].
Qed.

#[export] Instance write_pid_file_keeps_database pid : Preserves database (write_pid_file pid).
Proof.
  unfold write_pid_file, create_dir_all, write_file.
  repeat first [apply _ | apply bind_preserves; [|intros ?] | apply context_preserves | case_match].
Qed.

Lemma validate_cases v : validate v = inr tt ∨ ∃ e, validate v = inl e.
Proof. destruct (validate v) as [e|[]]; eauto. Qed.

(** [configure], once the configuration has been read. *)
Lemma configure_step env root w :
  let v := (initialize debug env).1 in
  let w0 := mkEnv (add_log (initialize debug env).2 (state w)) (fates w) (clock w) (draws w) in
  configure debug env root w =
  match validate v with
  | inl e => (Err e, w0)
  | inr _ =>
      (get_db_connection debug (db_url v);;
       event "Database initialized";;
       m ← AuthManager_new true (Vars.auth_required v) (admin_password v);
       event "Auth manager initialized with database";;
       r ← attempt (on_auth_tables
                      (init_admin_user (Vars.auth_required v) (admin_username v) (admin_password v)));
       match r with
       | inl e => event ("Failed to initialize admin user: " +:+ debug (error_text e));; fail e
       | inr _ => ret (mkRunning m v root)
       end) w0
  end.
Proof.
  unfold configure. destruct (initialize debug env) as [v lines]. simpl.
  unfold mbind at 1, IO_mbind, bind at 1. simpl. by destruct (validate v).
Qed.

Lemma AuthManager_new_ok {St} db req pw (w : Env St) m w' :
  AuthManager_new db req pw w = (Ok m, w') →
  state w' = state w ∧ db_conn m = db ∧ auth_required m = req ∧
  (password_phc m = None ∨ ∃ p k phc, pw = Some p ∧ argon2_hash k p = Some phc ∧ password_phc m = Some phc).
Proof.
  unfold AuthManager_new. destruct req; [|intros H; inv H; simpl; auto].
  destruct pw as [p|]; [|intros H; inv H; simpl; auto].
  destruct (is_empty p); [intros H; inv H; simpl; auto|].
  intros (r & w1 & [(phc & -> & Hh)|(e & -> & Hh)]%attempt_ok & H)%bind_ok; inv H;
    pose proof (hash_password_state _ _ _ _ Hh); simpl; auto.
  split; [done|]. split; [done|]. split; [done|]. right. unfold hash_password_argon2 in Hh.
  apply bind_ok in Hh as (k & w2 & [= <- <-] & Hh). apply of_option_ok in Hh as [? _]. eauto 10.
Qed.

Lemma find_user username (d : AuthDb) id :
  head (map_to_list (filter (λ kv, u_username kv.2 = username) (users d))).*1 = Some id →
  ∃ row, users d !! id = Some row ∧ u_username row = username.
Proof.
  intros H. destruct (map_to_list _) as [|[i row] l] eqn:E; [done|]. injection H as <-.
  assert (Hin : (i, row) ∈ map_to_list (filter (λ kv, u_username kv.2 = username) (users d)))
    by (rewrite E; by left).
  apply elem_of_map_to_list, map_lookup_filter_Some in Hin as [? ?]. eauto.
Qed.

Lemma init_admin_user_ok username pw w w' :
  init_admin_user true username pw w = (Ok tt, w') →
  ∃ id row, users (state w') !! id = Some row ∧ u_username row = username.
Proof.
  unfold init_admin_user. simpl. intros (p & w1 & [_ ->]%of_option_ok & H)%bind_ok.
  apply bind_ok in H as (o & w2 & Hq & H). apply auth_query_ok in Hq as [Hq Hs].
  destruct o as [id|].
  - inv H. rewrite Hs. symmetry in Hq. apply find_user in Hq. eauto.
  - apply bind_ok in H as (phc & w3 & Hh & H). apply hash_password_state in Hh.
    apply bind_ok in H as (k & w4 & [= <- <-] & H). apply bind_ok in H as (t & w5 & [= <- <-] & H).
    apply auth_execute_ok in H. simpl in H. repeat case_bool_decide; try done. injection H as <-.
    eexists _, _. split; [apply lookup_insert_eq|done].
Qed.

(** Argon2: a hash is verified by its own password only. *)
Class ArgonLaws : Prop := {
  argon2_exact k pw phc pw' :
    argon2_hash k pw = Some phc → argon2_verify pw' phc = true ↔ pw' = pw
}.

Lemma on_auth_tables_ok {A} (m : IO AuthDb A) w a w' :
  on_auth_tables m w = (Ok a, w') →
  ∃ d w1, auth_tables (database (state w)) = Some d ∧
    m (mkEnv d (fates w) (clock w) (draws w)) = (Ok a, w1) ∧
    auth_tables (database (state w')) = Some (state w1).
Proof.
  unfold on_auth_tables. intros (h & w0 & [= <- <-] & H)%bind_ok.
  destruct (auth_tables (database (state w))) as [d|] eqn:Ed; [|done].
  unfold focus in H. rewrite Ed in H. simpl in H.
  destruct (m _) as [r w1] eqn:Em. injection H as -> <-. eauto.
Qed.

(** A configuration the server went on with. *)
Lemma configure_ok env root w r w' :
  configure debug env root w = (Ok r, w') →
  let v := (initialize debug env).1 in
  validate v = inr tt ∧ settings r = v ∧
  db_conn (manager r) = true ∧ auth_required (manager r) = Vars.auth_required v ∧
  (password_phc (manager r) = None ∨
   ∃ p k phc, admin_password v = Some p ∧ argon2_hash k p = Some phc ∧ password_phc (manager r) = Some phc) ∧
  (Vars.auth_required v = true → ∃ d id row, auth_tables (database (state w')) = Some d ∧
     users d !! id = Some row ∧ u_username row = admin_username v).
Proof.
  rewrite configure_step. set (v := (initialize debug env).1). simpl.
  destruct (validate_cases v) as [-> |[e ->]]; [|done].
  intros (t & w1 & _ & H)%bind_ok. apply bind_ok in H as (u & w2 & [= <- <-] & H).
  apply bind_ok in H as (m & w3 & Hm & H). apply AuthManager_new_ok in Hm as (_ & Hdb & Hreq & Hphc).
  apply bind_ok in H as (u & w4 & [= <- <-] & H). apply bind_ok in H as (o & w5 & Ha & H).
  apply attempt_ok in Ha as [([] & -> & Ha)|(e & -> & Ha)]; [|by apply bind_ok in H as (? & ? & _ & ?)].
  inv H. simpl. split_and!; try done. intros Hon. rewrite Hon in Ha.
  apply on_auth_tables_ok in Ha as (d & w6 & _ & Hi & Hd).
  apply init_admin_user_ok in Hi as (id & row & Hrow & Hname). eauto 10.
Qed.


Lemma refused_start pid log_dir env w :
  ¬ well_configured env →
  let '(r, w') := start_server debug pid log_dir env w in
  (∀ a, r ≠ Ok a) ∧ database (state w') = database (state w).
Proof.
  intros Hbad. destruct (validate_well_configured debug env) as (Hwc & _).
  pose proof (preserves (f := database) (m := write_pid_file pid;; prepare debug log_dir) w) as Hp.
  unfold start_server, mbind, IO_mbind, bind in *.
  destruct (write_pid_file pid w) as [[u|e|z] w0]; [|done..].
  destruct (prepare debug log_dir w0) as [[root|e|z] w1]; simpl in *; [|done..].
  rewrite configure_step. simpl. destruct (validate_cases (initialize debug env).1) as [Hv|[e ->]].
  - by apply Hwc in Hv.
  - done.
Qed.

(** Under a configuration that is not well formed the server never
    opens, whatever else happens, and the database is not touched. *)
Theorem bad_configuration_refused pid log_dir env w :
  ¬ well_configured env →
  let '(r, w') := start_server debug pid log_dir env w in
  (∀ a, r ≠ Ok a) ∧ database (state w') = database (state w).
Proof. apply refused_start. Qed.
End StartupProofs.

(** ** Lemmas: the PID file *)

Lemma read_to_string_calm p s w :
  calm (fates w) → files (host_fs (state w)) !! p = Some (str_bytes s) → valid_utf8 (str_bytes s) = true →
  ∃ fs, calm fs ∧ read_to_string p w = (Ok s, mkEnv (state w) fs (clock w) (draws w)).
Proof.
  intros Hc Hp Hv. unfold read_to_string.
  match goal with |- context [on_fs ?p ?g w] => destruct (on_fs_calm p g w Hc) as (fs & Hfs & ->) end.
  exists fs. split; [done|]. rewrite Hp. unfold from_utf8. rewrite Hv, bytes_str_bytes.
  simpl. by rewrite set_host_fs_id.
Qed.

Definition stop_signal (force : bool) : Signal := if force then SIGKILL else SIGTERM.

(** The host after the signal: sent to a process that is there, or the file gone
    and a line printed. *)
Definition signal_sent (force : bool) (pid : Z) (file : path) (h : Host) : Host :=
  if bool_decide (pid ∈ alive h) then add_signal (pid, stop_signal force) h
  else set_host_fs (λ f, mkFs (delete file (files f)) (dirs f))
         (add_console "Server process not found (may have already stopped)" h).

(** Removing the PID file, there or not. *)
Lemma remove_file_ignored p w :
  calm (fates w) →
  ∃ fs, calm fs ∧ ignore (remove_file p) w =
    (Ok tt, mkEnv (set_host_fs (λ f, mkFs (delete p (files f)) (dirs f)) (state w)) fs (clock w) (draws w)).
Proof.
  intros Hc. unfold ignore, attempt, bind, remove_file.
  match goal with |- context [on_fs ?p ?g w] => destruct (on_fs_calm p g w Hc) as (fs & Hfs & ->) end.
  exists fs. split; [done|]. destruct (is_file p _) eqn:Hf; simpl; [done|].
  apply bool_decide_eq_false, eq_None_not_Some in Hf. unfold set_host_fs. repeat f_equal.
  rewrite delete_id by done. by destruct (host_fs (state w)).
Qed.

Lemma stop_process_calm force pid file w :
  calm (fates w) → (0 < pid)%Z → is_file file (host_fs (state w)) = true →
  ∃ fs, calm fs ∧ stop_process pid force file w =
    (Ok tt, mkEnv (signal_sent force pid file (state w)) fs (clock w) (draws w)).
Proof.
  intros Hc Hpid Hf. unfold stop_process, kill.
  match goal with |- context [external ?e ?p ?f] => destruct (external_calm e p f w Hc) as (fs & Hfs & E) end.
  unfold mbind, IO_mbind, bind at 1, attempt. rewrite E. clear E.
  rewrite (bool_decide_eq_true_2 _ Hpid). unfold signal_sent.
  case_bool_decide as Hal; simpl; [by exists fs|].
  unfold println, update. simpl.
  destruct (remove_file_ignored file (mkEnv (add_console "Server process not found (may have already stopped)"
    (state w)) fs (clock w) (draws w))) as (fs2 & ? & E); [done|].
  exists fs2. split; [done|]. exact E.
Qed.

(** [handle_stop] on a PID file that a server wrote. *)
Lemma handle_stop_calm force pid w (c := cwd (state w)) :
  calm (fates w) → (0 < pid < 2 ^ 31)%N →
  files (host_fs (state w)) !! pid_file c = Some (str_bytes (pretty pid)) →
  ∃ fs, handle_stop force w =
    (Ok tt, mkEnv (add_console (if force then "LiNaStore server force stopped" else "LiNaStore server stopped gracefully")
                     (set_host_fs (λ f, mkFs (delete (pid_file c) (files f)) (dirs f))
                        (signal_sent force (Z.of_N pid) (pid_file c) (state w)))) fs (clock w) (draws w)).
Proof.
  intros Hc Hpid Hfile. set (h := state w) in *.
  assert (His : is_file (pid_file c) (host_fs h) = true)
    by (apply bool_decide_eq_true_2; rewrite Hfile; eauto).
  assert (Hpr : printable (str_bytes (pretty pid))) by apply printable_pretty.
  unfold handle_stop.
  destruct (current_dir_calm w Hc) as (fs1 & Hc1 & E1).
  rewrite (bind_step _ _ _ _ _ (context_step _ _ _ _ _ E1)). fold h c.
  destruct (path_exists_calm (pid_file c) (mkEnv h fs1 (clock w) (draws w)) Hc1) as (fs2 & Hc2 & E2).
  rewrite (bind_step _ _ _ _ _ E2). simpl. rewrite His. cbn [orb negb].
  destruct (read_to_string_calm (pid_file c) (pretty pid) (mkEnv h fs2 (clock w) (draws w)) Hc2 Hfile
    (printable_valid _ Hpr)) as (fs3 & Hc3 & E3).
  rewrite (bind_step _ _ _ _ _ (context_step _ _ _ _ _ E3)).
  rewrite (trim_printable _ Hpr), parse_i32_pretty by lia. cbn [of_option].
  rewrite (bind_step (ret _) _ _ _ _ eq_refl).
  destruct (stop_process_calm force (Z.of_N pid) (pid_file c) (mkEnv h fs3 (clock w) (draws w)) Hc3
    ltac:(lia) His) as (fs4 & Hc4 & E4).
  rewrite (bind_step _ _ _ _ _ E4). cbn [state fates clock draws].
  destruct (remove_file_ignored (pid_file c) (mkEnv (signal_sent force (Z.of_N pid) (pid_file c) h)
    fs4 (clock w) (draws w)) Hc4) as (fs5 & Hc5 & E5).
  rewrite (bind_step _ _ _ _ _ E5). by exists fs5.
Qed.

(** What a start leaves alone once its PID file is written: the file, the
    working directory, the other processes. *)
Record marked (c : path) (b : bytes) (al : gset Z) (sg : list (Z * Signal)) (h : Host) : Prop := {
  mk_cwd : cwd h = c;
  mk_file : files (host_fs h) !! pid_file c = Some b;
  mk_alive : alive h = al;
  mk_signalled : signalled h = sg
}.

(** What start-up only adds to: it keeps whatever stays true when lines are
    logged, files are added and the tables change. *)
Class Steady (J : Host → Prop) : Prop := {
  steady_log l h : J h → J (add_log l h);
  steady_fs f h : files (host_fs h) ⊆ files f → J h → J (set_host_fs (λ _, f) h);
  steady_database d h : J h → J (set_database d h);
  steady_buckets m h : J h → J (set_buckets m h)
}.
#[export] Instance marked_steady c b al sg : Steady (marked c b al sg).
Proof.
  split; [by intros l h []; split| |by intros d h []; split..].
  intros f h Hf []. split; try done. by eapply lookup_weaken.
Qed.
#[export] Instance logged_steady line : Steady (λ h, line ∈ log h).
Proof. split; [|done..]. intros l h Hin. by apply elem_of_app; left. Qed.

#[export] Instance expect_keeps {St A} (J : St → Prop) msg (m : IO St A) : Keeps J m → Keeps J (expect msg m).
Proof. intros Hm w HJ. unfold expect. specialize (Hm w HJ). by destruct (m w) as [[] ?]. Qed.
#[export] Instance context_keeps {St A} (J : St → Prop) msg (m : IO St A) : Keeps J m → Keeps J (context msg m).
Proof. intros Hm. by apply map_err_keeps. Qed.
#[export] Instance get_state_keeps {St} (J : St → Prop) : Keeps J get_state.
Proof. by intros w. Qed.
#[export] Instance of_option_keeps {St A} (J : St → Prop) e (o : option A) : Keeps J (of_option e o).
Proof. destruct o; apply _. Qed.
#[export] Instance AuthManager_new_keeps `{AuthCrypto} {St} (J : St → Prop) db req pw :
  Keeps J (AuthManager_new db req pw).
Proof.
  assert (Hh : ∀ p, Keeps (St:=St) J (hash_password_argon2 p)).
  { intros p w HJ. by rewrite (hash_password_state p w _ _ (surjective_pairing _)). }
  unfold AuthManager_new.
  repeat first [apply _ | apply bind_keeps; [|intros ?] | case_match].
Qed.

Ltac keep_steps :=
  repeat first [apply _ | apply bind_keeps; [|intros ?] | apply context_keeps | apply attempt_keeps | case_match].

Section Steady.
Context (J : Host → Prop) `{HJ : !Steady J}.

#[export] Instance update_log_keeps l : Keeps J (update (add_log l)).
Proof. intros w. apply steady_log. Qed.
#[export] Instance event_keeps l : Keeps J (event l).
Proof. apply _. Qed.
#[export] Instance current_dir_keeps : Keeps J current_dir.
Proof. by apply external_keeps. Qed.

Lemma on_fs_keeps {A} (g : Fs → (Error + A) * Fs) :
  (∀ f, files f ⊆ files (g f).2) → Keeps J (on_fs untouched g).
Proof.
  intros Hg. apply external_keeps; intros; [by apply steady_fs|].
  specialize (Hg (host_fs s)). destruct (g (host_fs s)) as [r f]. by apply steady_fs.
Qed.
#[export] Instance path_exists_keeps p : Keeps J (path_exists p).
Proof.
  unfold path_exists. apply bind_keeps; [|apply _]. apply attempt_keeps. by apply on_fs_keeps.
Qed.
#[export] Instance create_dir_all_keeps p : Keeps J (create_dir_all p).
Proof. by apply on_fs_keeps. Qed.
#[export] Instance open_create_keeps p : Keeps J (open_create p).
Proof.
  apply on_fs_keeps. intros f. destruct (is_file p f) eqn:E; [done|].
  destruct (_ && _); [|done]. simpl. apply insert_subseteq.
  by apply bool_decide_eq_false, eq_None_not_Some in E.
Qed.
#[export] Instance focus_buckets_keeps {A} (m : IO BucketMapper A) : Keeps J (focus buckets set_buckets m).
Proof. intros w Hw. unfold focus. destruct (m _). by apply steady_buckets. Qed.
#[export] Instance on_auth_tables_keeps {A} (m : IO AuthDb A) : Keeps J (on_auth_tables m).
Proof.
  unfold on_auth_tables. apply bind_keeps; [apply _|]. intros h. case_match; [|apply _].
  intros w Hw. unfold focus. destruct (m _). by apply steady_database.
Qed.

Context `{X : Sqlx} `{XL : !SqlxLaws X} (debug : string → string).
#[export] Instance connect_steady url : Keeps J (connect url).
Proof.
  apply external_keeps; [done|]. intros h Hh.
  destruct (sqlx_connect (cwd h) url (host_fs h)) as [f|] eqn:E; [|done].
  apply steady_fs; [by eapply connect_keeps|done].
Qed.
#[export] Instance run_migrations_keeps : Keeps J run_migrations_sqlite.
Proof.
  assert (Hq : Keeps J select_versions) by (apply external_keeps; by intros).
  assert (He : Keeps J (external (λ _, db_error) (λ _ h, h) (λ h,
         match sqlx_migrate MIGRATOR_SQLITE (database h) with
         | Some d => (inr tt, set_database d h)
         | None => (inl db_error, h)
         end))).
  { apply external_keeps; [done|]. intros h Hh. case_match; [by apply steady_database|done]. }
  unfold run_migrations_sqlite, all_mig_records_present_sqlite, fetch_mig_versions_sqlite. keep_steps.
Qed.
#[export] Instance DbConnection_new_keeps url : Keeps J (DbConnection_new debug url).
Proof. unfold DbConnection_new, ensure_sqlite_parent_dir. keep_steps. Qed.
#[export] Instance configure_keeps `{K : AuthCrypto} env root : Keeps J (configure debug env root).
Proof.
  unfold configure, get_db_connection, init_database. destruct (initialize debug env) as [v lines].
  keep_steps.
Qed.
#[export] Instance prepare_keeps log_dir : Keeps J (prepare debug log_dir).
Proof. unfold prepare, init_logging, init_mapper. keep_steps. Qed.
End Steady.

Lemma pid_file_dir c : pid_file c = pid_dir c ++ ["linastore.pid"%string].
Proof. unfold pid_dir. by rewrite <- app_assoc. Qed.

Section PidFile.
Context `{X : Sqlx} `{XL : !SqlxLaws X} `{K : AuthCrypto} (debug : string → string).

Lemma write_pid_file_calm pid w (c := cwd (state w)) :
  calm (fates w) → is_file (pid_dir c) (host_fs (state w)) = false →
  is_dir (pid_file c) (host_fs (state w)) = false →
  ∃ w', write_pid_file pid w = (Ok tt, w') ∧ calm (fates w') ∧
    marked c (str_bytes (pretty pid)) (alive (state w)) (signalled (state w)) (state w').
Proof.
  intros Hc Hd Hf. set (h := state w) in *. unfold write_pid_file.
  destruct (current_dir_calm w Hc) as (fs1 & Hc1 & E1).
  rewrite (bind_step _ _ _ _ _ (context_step _ _ _ _ _ E1)). fold h c.
  destruct (path_exists_calm (pid_dir c) (mkEnv h fs1 (clock w) (draws w)) Hc1) as (fs2 & Hc2 & E2).
  rewrite (bind_step _ _ _ _ _ E2). cbn [state].
  assert (Hw : ∀ w1, calm (fates w1) → cwd (state w1) = c → alive (state w1) = alive h →
    signalled (state w1) = signalled h →
    is_dir (pid_dir c) (host_fs (state w1)) = true → is_dir (pid_file c) (host_fs (state w1)) = false →
    ∃ w', context "Failed to write PID file" (write_file (pid_file c) (str_bytes (pretty pid))) w1 = (Ok tt, w') ∧
      calm (fates w') ∧ marked c (str_bytes (pretty pid)) (alive h) (signalled h) (state w')).
  { intros w1 Hc' Hcwd Ha Hs Hd1 Hf1. unfold write_file.
    match goal with |- context [on_fs ?p ?g] => destruct (on_fs_calm p g w1 Hc') as (fs & Hfs & E) end.
    eexists. split; [eapply context_step; rewrite E|].
    - rewrite pid_file_dir, parent_of_snoc, <- pid_file_dir, Hd1, Hf1. reflexivity.
    - split; [done|]. by split; try apply lookup_insert_eq. }
  rewrite Hd. destruct (is_dir (pid_dir c) (host_fs h)) eqn:Ed; simpl.
  - rewrite (bind_step (ret tt) _ _ _ _ eq_refl). by apply Hw.
  - unfold create_dir_all.
    match goal with |- context [on_fs ?p ?g] =>
      destruct (on_fs_calm p g (mkEnv h fs2 (clock w) (draws w)) Hc2) as (fs3 & Hc3 & E3) end.
    rewrite (bind_step _ _ _ _ _ (context_step _ _ _ _ _ E3)). apply Hw; simpl; try done.
    + apply bool_decide_eq_true_2. apply elem_of_union_l, elem_of_list_to_set, prefixes_self.
    + apply bool_decide_eq_false. apply bool_decide_eq_false in Hf.
      intros [Hin%elem_of_list_to_set%prefixes_length|Hin]%elem_of_union; [|done].
      unfold pid_file, pid_dir in Hin. rewrite !length_app in Hin. simpl in Hin. lia.
Qed.

(** However a start goes on, its PID file is there. *)
Lemma start_marked pid log_dir env w (c := cwd (state w)) :
  calm (fates w) → is_file (pid_dir c) (host_fs (state w)) = false →
  is_dir (pid_file c) (host_fs (state w)) = false →
  marked c (str_bytes (pretty pid)) (alive (state w)) (signalled (state w))
    (state (start_server debug pid log_dir env w).2).
Proof.
  intros Hc Hd Hf. destruct (write_pid_file_calm pid w Hc Hd Hf) as (w1 & E & _ & Hm).
  unfold start_server. rewrite (bind_step _ _ _ _ _ E).
  apply (keeps (J := marked _ _ _ _) (m := root ← prepare debug log_dir; configure debug env root)), Hm.
Qed.

Lemma daemonize_calm parent child w :
  calm (fates w) → ∃ fs, calm fs ∧ daemonize parent child w =
    (Ok tt, mkEnv (set_alive (λ a, {[Z.of_N child]} ∪ a ∖ {[Z.of_N parent]}) (state w)) fs (clock w) (draws w)).
Proof.
  intros Hc. unfold daemonize. set (go := λ a, {[Z.of_N child]} ∪ a ∖ {[Z.of_N parent]}).
  destruct (external_calm os_error (λ _ h, h) (λ h : Host, (inr tt, set_alive go h)) w Hc) as (fs1 & H1 & E1).
  cbn [fst snd] in E1. rewrite (bind_step _ _ _ _ _ (context_step _ _ _ _ _ E1)).
  assert (Hquiet : ∀ msg (w : Env Host), calm (fates w) → ∃ fs, calm fs ∧
    context msg (external os_error (λ _ h, h) (λ h : Host, (inr tt, h))) w = (Ok tt, mkEnv (state w) fs (clock w) (draws w))).
  { intros msg x Hx. destruct (external_calm os_error (λ _ h, h) (λ h : Host, (inr tt, h)) x Hx) as (fs & Hfs & E).
    exists fs. split; [done|]. by rewrite (context_step _ _ _ _ _ E). }
  destruct (Hquiet "Failed to create new session" (mkEnv (set_alive go (state w)) fs1 (clock w) (draws w)) H1)
    as (fs2 & H2 & E2).
  cbn [state clock draws] in E2. rewrite (bind_step _ _ _ _ _ E2).
  destruct (Hquiet "Failed to open /dev/null" _ (H2 : calm (fates (mkEnv (set_alive go (state w)) fs2 (clock w) (draws w)))))
    as (fs3 & H3 & E3). by exists fs3.
Qed.

(** However a start goes on, in the foreground or not, the PID file names the
    process that serves. *)
Lemma run_marked parent child daemon log_dir env w (c := cwd (state w)) :
  calm (fates w) → is_file (pid_dir c) (host_fs (state w)) = false →
  is_dir (pid_file c) (host_fs (state w)) = false →
  (daemon = false → Z.of_N parent ∈ alive (state w)) →
  let pid := if daemon then child else parent in
  ∃ al, Z.of_N pid ∈ al ∧ marked c (str_bytes (pretty pid)) al (signalled (state w))
    (state (run_server debug parent child daemon log_dir env w).2).
Proof.
  intros Hc Hd Hf Hal. destruct daemon; simpl.
  - unfold run_server. destruct (daemonize_calm parent child w Hc) as (fs & Hfs & E).
    rewrite (bind_step _ _ _ _ _ E). set (w1 := mkEnv _ fs _ _). exists (alive (state w1)).
    split; [simpl; set_solver|by apply (start_marked child log_dir env w1)].
  - exists (alive (state w)). split; [auto|by apply start_marked].
Qed.

(** C37 (roundtrip): the PID file leads back to the server.  What the command
    [start] wrote, in the foreground or after the fork, the command [stop] reads,
    whatever the start did next: it signals exactly the process that serves,
    removes the file and reports success.  The signal of a stop without [--force]
    is not the one the server waits for, so the server does not shut down
    gracefully then either. *)
Theorem stop_signals_started help (parent child : N) (foreground : bool) log_dir env force w w2 (c := cwd (state w))
    (pid := if foreground then parent else child) :
  calm (fates w) → is_file (pid_dir c) (host_fs (state w)) = false →
  is_dir (pid_file c) (host_fs (state w)) = false →
  (0 < pid < 2 ^ 31)%N → (foreground = true → Z.of_N parent ∈ alive (state w)) →
  state w2 = state (server_main debug help parent child env (Some (Start foreground log_dir)) w).2 →
  calm (fates w2) →
  let '(r, w3) := server_main debug help parent child env (Some (Stop force)) w2 in
  r = Ok tt ∧ signalled (state w3) = signalled (state w) ++ [(Z.of_N pid, stop_signal force)] ∧
  files (host_fs (state w3)) !! pid_file c = None ∧
  shuts_down_gracefully (stop_signal force) = false.
Proof.
  intros Hc Hd Hf Hpid Hal Hs Hc2.
  destruct (run_marked parent child (negb foreground) log_dir env w Hc Hd Hf) as (al & Hin & [E1 E2 E3 E4]);
    [by destruct foreground; [intros _; apply Hal|]|].
  assert (Hst : state w2 = state (run_server debug parent child (negb foreground) log_dir env w).2).
  { rewrite Hs. simpl. unfold mbind, IO_mbind, bind. by destruct (run_server _ _ _ _ _ _ w) as [[] ?]. }
  rewrite <- Hst in *. replace (if negb foreground then child else parent) with pid in * by by destruct foreground.
  simpl. destruct (handle_stop_calm force pid w2 Hc2 Hpid) as (fs & ->); [by rewrite E1|].
  simpl. rewrite E1. unfold signal_sent. rewrite bool_decide_eq_true_2 by by rewrite E3.
  split; [done|]. split; [simpl; by rewrite E4|]. split; [apply lookup_delete_eq|by destruct force].
Qed.

(** A start that fails takes the PID file of the server that is
    running.  The second start, refused for its configuration, has overwritten
    the file; once it is gone, stopping finds no process, removes the file and
    reports success, and the first server, never signalled, runs on. *)
Theorem failed_start_hides_server pid1 pid2 log_dir env force w w2 (c := cwd (state w)) :
  calm (fates w) → is_file (pid_dir c) (host_fs (state w)) = false →
  is_dir (pid_file c) (host_fs (state w)) = false →
  files (host_fs (state w)) !! pid_file c = Some (str_bytes (pretty pid1)) →
  Z.of_N pid1 ∈ alive (state w) → Z.of_N pid2 ∉ alive (state w) → (0 < pid2 < 2 ^ 31)%N →
  ¬ well_configured env →
  state w2 = state (start_server debug pid2 log_dir env w).2 → calm (fates w2) →
  (∀ a, (start_server debug pid2 log_dir env w).1 ≠ Ok a) ∧
  let '(r, w3) := handle_stop force w2 in
  r = Ok tt ∧ signalled (state w3) = signalled (state w) ∧
  files (host_fs (state w3)) !! pid_file c = None ∧ Z.of_N pid1 ∈ alive (state w3).
Proof.
  intros Hc Hd Hf _ H1 H2 Hpid Hbad Hs Hc2.
  split; [pose proof (refused_start debug pid2 log_dir env w Hbad) as Hr;
    destruct (start_server debug pid2 log_dir env w); apply Hr|].
  destruct (start_marked pid2 log_dir env w Hc Hd Hf) as [E1 E2 E3 E4]. rewrite <- Hs in *.
  destruct (handle_stop_calm force pid2 w2 Hc2 Hpid) as (fs & ->); [by rewrite E1|].
  simpl. rewrite E1. unfold signal_sent. rewrite bool_decide_eq_false_2 by by rewrite E3.
  split; [done|]. simpl. split; [done|]. split; [by rewrite !lookup_delete_eq|by rewrite E3].
Qed.
End PidFile.

Section StartupProperties.
Context `{X : Sqlx} `{XL : !SqlxLaws X} `{K : AuthCrypto} (debug : string → string).

(** C38 (error): the mask of the configuration's log is in vain: every server that
    comes up has written the database's URL to its log as it is, password and
    all. *)
Theorem url_logged_in_clear pid log_dir env w r w' :
  start_server debug pid log_dir env w = (Ok r, w') →
  ("Initializing database with URL: " +:+ db_url (settings r)) ∈ log (state w').
Proof.
  intros (u & w0 & _ & H)%bind_ok. apply bind_ok in H as (root & w1 & _ & H).
  assert (Hset : settings r = (initialize debug env).1) by apply (configure_ok _ _ _ _ _ _ H).
  rewrite configure_step in H. rewrite Hset. destruct (validate_cases (initialize debug env).1) as [Hv|[e Hv]];
    rewrite Hv in H; [|done].
  apply bind_ok in H as (t & w2 & Hdb & H). set (line := "Initializing database with URL: " +:+ _).
  apply bind_ok in Hdb as (u' & w3 & [= <- <-] & Hdb).
  match type of Hdb with ?m ?w0 = _ => pose proof (keeps (J := λ h, line ∈ log h) (m := m) w0) as Hk end.
  rewrite Hdb in Hk. match type of H with ?m w2 = _ => assert (Hrest : Keeps (λ h, line ∈ log h) m) by keep_steps end.
  specialize (Hrest w2). rewrite H in Hrest. apply Hrest, Hk. simpl. apply elem_of_app. right. by left.
Qed.

(** The directory of the bucket table is not there. *)
Definition no_directory (c q : path) (h : Host) : Prop :=
  cwd h = c ∧ is_file q (host_fs h) = false ∧ is_dir (parent_of q) (host_fs h) = false.

Lemma on_fs_no_directory {A} c q p (g : Fs → (Error + A) * Fs) :
  (∀ f n, is_file q f = false → is_dir (parent_of q) f = false →
     is_file q (p n f) = false ∧ is_dir (parent_of q) (p n f) = false) →
  (∀ f, is_file q f = false → is_dir (parent_of q) f = false →
     is_file q (g f).2 = false ∧ is_dir (parent_of q) (g f).2 = false) →
  Keeps (no_directory c q) (on_fs p g).
Proof.
  intros Hp Hg. apply external_keeps.
  - intros n h (? & H1 & H2). destruct (Hp (host_fs h) n H1 H2). by split.
  - intros h (? & H1 & H2). specialize (Hg (host_fs h) H1 H2). destruct (g (host_fs h)) as [r f]. by split.
Qed.
Lemma path_exists_no_directory c q p : Keeps (no_directory c q) (path_exists p).
Proof.
  unfold path_exists. apply bind_keeps; [|apply _]. apply attempt_keeps. by apply on_fs_no_directory.
Qed.
Lemma create_dir_no_directory c q p :
  parent_of q ∉ prefixes p → Keeps (no_directory c q) (create_dir_all p).
Proof.
  intros Hq. apply on_fs_no_directory; [done|]. intros f Hf Hd. split; [done|].
  apply bool_decide_eq_false in Hd. apply bool_decide_eq_false. simpl. set_solver.
Qed.
(** A file is only created where there is a directory. *)
Lemma insert_no_directory q p b f :
  is_dir (parent_of p) f = true → is_file q f = false → is_dir (parent_of q) f = false →
  is_file q (mkFs (<[p := b]> (files f)) (dirs f)) = false.
Proof.
  intros Hp Hq Hd. unfold is_file. simpl. rewrite lookup_insert_ne; [done|]. intros ->. congruence.
Qed.
Lemma open_create_no_directory c q p : Keeps (no_directory c q) (open_create p).
Proof.
  apply on_fs_no_directory; [done|]. intros f Hf Hd. destruct (is_file p f); [done|].
  destruct (is_dir (parent_of p) f) eqn:Hp; [|done]. destruct (is_dir p f); [done|]. simpl.
  split; [by apply insert_no_directory|done].
Qed.
Lemma write_file_no_directory c q p b : Keeps (no_directory c q) (write_file p b).
Proof.
  unfold write_file. apply on_fs_no_directory.
  - intros f n Hf Hd. destruct (is_dir (parent_of p) f) eqn:Hp; [|done]. destruct (is_dir p f); [done|].
    simpl. split; [by apply insert_no_directory|done].
  - intros f Hf Hd. destruct (is_dir (parent_of p) f) eqn:Hp; [|done]. destruct (is_dir p f); [done|].
    simpl. split; [by apply insert_no_directory|done].
Qed.

Lemma current_dir_ok w c w' : context "Failed to get current directory" current_dir w = (Ok c, w') →
  c = cwd (state w) ∧ state w' = state w.
Proof. intros H. apply map_err_ok, external_ok in H. naive_solver. Qed.

(** A step that keeps a property, inside a successful run. *)
Lemma keeps_ok {St A} (J : St → Prop) (m : IO St A) w a w' :
  Keeps J m → m w = (Ok a, w') → J (state w) → J (state w').
Proof. intros Hk E HJ. specialize (Hk w HJ). by rewrite E in Hk. Qed.

Lemma write_pid_file_no_directory c q pid w u w' :
  parent_of q ∉ prefixes (pid_dir c) → no_directory c q (state w) →
  write_pid_file pid w = (Ok u, w') → no_directory c q (state w').
Proof.
  intros Hq HJ (c0 & w1 & [-> Es]%current_dir_ok & H)%bind_ok. rewrite <- Es in HJ.
  destruct HJ as (Ec & HJ). assert (HJ' : no_directory c q (state w1)) by by split.
  rewrite <- Es, Ec in H. eapply keeps_ok; [|exact H|exact HJ'].
  apply bind_keeps; [apply path_exists_no_directory|]. intros b.
  apply bind_keeps; [|intros _; apply context_keeps, write_file_no_directory].
  destruct b; [apply _|]. by apply context_keeps, create_dir_no_directory.
Qed.
Lemma init_logging_no_directory c q d w u w' :
  parent_of q ∉ prefixes (locate c (components d)) → no_directory c q (state w) →
  init_logging d w = (Ok u, w') → no_directory c q (state w').
Proof.
  intros Hq HJ (c0 & w1 & H0 & H)%bind_ok. apply bind_ok in H0 as (h & w2 & [= <- <-] & [= <- <-]).
  destruct HJ as (Ec & HJ). assert (HJ' : no_directory c q (state w)) by by split.
  rewrite Ec in H. eapply keeps_ok; [|exact H|exact HJ'].
  apply bind_keeps; [apply path_exists_no_directory|]. intros b.
  apply bind_keeps; [|intros _; apply context_keeps, open_create_no_directory].
  destruct b; [apply _|]. by apply context_keeps, create_dir_no_directory.
Qed.

(** In a fresh directory the server does not come up when its log is
    kept elsewhere.  Nothing before the bucket table's database is opened creates
    [linadata], unless the log happens to be below it, and SQLite does not create
    directories: whatever the configuration and whatever else happens, such a
    start fails. *)
Theorem separate_log_dir_fails pid d env w (c := cwd (state w))
    (q := locate c (components (mappings_db (path_text c)))) :
  plain (mappings_db (path_text c)) →
  is_file q (host_fs (state w)) = false → is_dir (parent_of q) (host_fs (state w)) = false →
  parent_of q ∉ prefixes (pid_dir c) → parent_of q ∉ prefixes (locate c (components d)) →
  ∀ r, (start_server debug pid (Some d) env w).1 ≠ Ok r.
Proof.
  intros Hplain Hf Hd Hp Hl r Hr.
  destruct (start_server debug pid (Some d) env w) as [o w'] eqn:H. simpl in Hr. subst o.
  assert (HJ : no_directory c q (state w)) by done.
  apply bind_ok in H as (u & w0 & Hw & H). apply bind_ok in H as (root & w1 & H & _).
  apply (write_pid_file_no_directory c q) in Hw; [|done|done].
  unfold prepare in H. rewrite (bind_step (ret d) _ _ _ _ eq_refl) in H.
  apply bind_ok in H as (u1 & w2 & Hi & H). apply (init_logging_no_directory c q) in Hi as (Ec & Hf2 & Hd2); [|done|done].
  apply bind_ok in H as (u2 & w3 & [= <- <-] & H).
  apply bind_ok in H as (c0 & w4 & [-> Es]%current_dir_ok & H). simpl in Es, H. rewrite Ec in H.
  apply bind_ok in H as (root0 & w5 & [Hr ->]%of_option_ok & H).
  unfold from_utf8 in Hr. destruct (valid_utf8 _); [|done]. change (Some (bytes_str (str_bytes (path_text c))) = Some root0) in Hr. rewrite bytes_str_bytes in Hr. injection Hr as <-.
  apply bind_ok in H as (o & w6 & Hm & H).
  apply attempt_ok in Hm as [([] & -> & Hm)|(e & -> & _)]; [|by apply bind_ok in H as (? & ? & _ & ?)].
  apply bind_ok in Hm as (u3 & w7 & Hc & _). apply external_ok in Hc. rewrite Es in Hc. simpl in Hc.
  rewrite Ec, (connect_rwc c _ _ Hplain) in Hc. fold q in Hc. by rewrite Hf2, Hd2 in Hc.
Qed.

(** The tables' queries and insertions, nothing failing. *)
Lemma auth_query_calm {A} (f : AuthDb → A) w :
  calm (fates w) → ∃ fs, calm fs ∧ auth_query f w = (Ok (f (state w)), mkEnv (state w) fs (clock w) (draws w)).
Proof. intros Hc. apply (external_calm (λ _, db_error) (λ _ s, s) (λ s, (inr (f s), s)) w Hc). Qed.

(** C10 (functional): start-up and handshake fit together.  Once a server with
    authentication has come up, whose password Argon2 could hash, with whatever
    sessions its database still holds, and after any
    handshakes, look-ups and clean-ups and any failures among them: a client that
    knows administrator and password and whose calls do not fail gets a session of an hour, in a row
    of its own under a token no session has, every other session staying; and any other
    password is refused, the tables being as before.  UUIDs are taken never to
    repeat: none that is drawn from now on is in the database ([unused]). *)
Theorem configured_login `{AL : !ArgonLaws} `{UL : !UuidLaws} pid log_dir env w r w' pw d k ops fs1 t1 fs t :
  start_server debug pid log_dir env w = (Ok r, w') →
  auth_required (manager r) = true → password_phc (manager r) ≠ None →
  env_var env "LINASTORE_ADMIN_PASSWORD" = Some pw →
  auth_tables (database (state w')) = Some d → unused k d → calm fs → (t < 2 ^ 62)%N →
  let w1 := (for_each ops (auth_step (manager r)) (mkEnv d fs1 t1 k)).2 in
  let w2 := mkEnv (state w1) fs t (draws w1) in
  (∃ tok w3 sid row, handle_handshake (manager r) (admin_username (settings r)) pw w2 =
     (Ok (inr (tok, (t + 3600)%N)), w3) ∧
     sessions (state w1) !! sid = None ∧ sessions (state w3) = <[sid := row]> (sessions (state w1)) ∧
     se_token row = tok ∧ se_expires_at row = Z.of_N (t + 3600) ∧
     ∀ sid' row', sessions (state w1) !! sid' = Some row' → se_token row' ≠ tok) ∧
  (∀ user p, p ≠ pw → ∃ w3, handle_handshake (manager r) user p w2 =
     (Ok (inl InvalidPassword), w3) ∧ state w3 = state w1).
Proof.
  intros (u & w0 & _ & H)%bind_ok Hon Hphc Hpw Hd Hs Hc Ht w1 w2. apply bind_ok in H as (root & wr & _ & H).
  apply configure_ok in H as (Hv & -> & Hdb & Hreq & Hhash & Hadmin). rewrite Hon in Hreq.
  destruct Hhash as [?|(p0 & j & phc & Hp0 & Hh & Ephc)]; [done|].
  destruct (validate_well_configured debug env) as (_ & _ & Hsame). apply Hsame in Hp0 as Hp0'.
  rewrite Hpw in Hp0'. injection Hp0' as <-.
  assert (Hver : ∀ p, verify_password (manager r) p = bool_decide (p = pw)).
  { intros p. unfold verify_password. rewrite Ephc. apply eq_true_iff_eq.
    rewrite (argon2_exact _ _ _ _ Hh). by rewrite bool_decide_eq_true. }
  split.
  - destruct (Hadmin (eq_sym Hreq)) as (d' & id & row & Hd' & Hrow & Hname). rewrite Hd in Hd'.
    injection Hd' as <-. set (name := admin_username _) in *.
    destruct (day_open name (manager r) ops (mkEnv d fs1 t1 k)) as [Hun Hknown]; [split; [done|by exists id, row]|].
    fold w1 in Hun, Hknown.
    unfold handle_handshake, is_password_enabled. rewrite Hon, Hver, bool_decide_eq_true_2, Hdb by done.
    cbn [negb]. rewrite (bind_step now _ _ _ _ eq_refl).
    destruct (auth_query_calm (λ d, head (map_to_list (filter (λ kv, u_username kv.2 = name) (users d))).*1) w2 Hc)
      as (fs2 & Hc2 & E1).
    rewrite (bind_step _ _ _ _ _ (attempt_step _ _ _ _ E1)). cbn [state clock draws w2]. destruct (head _) as [id'|] eqn:Ehead.
    + apply find_user in Ehead as (row' & Hrow' & _).
      destruct (create_session_fresh (manager r) id' (mkEnv (state w1) fs2 t (draws w1)) Hdb Hc2 Hun (mk_is_Some _ _ Hrow'))
        as (ses & w3 & sid & srow & E2 & Hexp & Hnew & Hins & Htok & _ & Hse & Hfree).
      exists (token ses), w3, sid, srow. unfold mbind, IO_mbind, bind, attempt. rewrite E2, Hexp. simpl in *.
      rewrite wrap_small in Hse |- * by lia. split_and!; try done. by rewrite Hse, i64_of_u64_small by lia.
    + exfalso. destruct Hknown as (id2 & row2 & Hrow2 & Hname2).
      destruct (map_to_list _) as [|kv l] eqn:El; [|done]. simpl in El. apply map_to_list_empty_iff in El.
      assert (Hin : filter (λ kv, u_username kv.2 = name) (users (state w1)) !! id2 = Some row2)
        by by apply map_lookup_filter_Some.
      by rewrite El, lookup_empty in Hin.
  - intros user p Hp. unfold handle_handshake, is_password_enabled.
    rewrite Hon, Hver, bool_decide_eq_false_2 by done. by eexists.
Qed.
End StartupProperties.

(** ** Worked examples *)

#[export] Instance demo_argon : ArgonLaws.
Proof. split. intros k pw phc pw' [= <-]. apply String.eqb_eq. Qed.

Definition demo_config : environment :=
  list_to_map [("LINASTORE_AUTH_REQUIRED", str_bytes "on"); ("LINASTORE_ADMIN_PASSWORD", str_bytes "secret")]%string.
Definition demo_start : Res Running * Env Host :=
  start_server id 42 None demo_config (mkEnv (demo_host ∅) [] 1000 0).
Definition demo_running : Running :=
  match demo_start.1 with Ok r => r | _ => mkRunning demo_manager (initialize id ∅).1 "" end.

(** The server comes up from nothing. *)
Example demo_start_ok :
  demo_start.1 = Ok demo_running ∧ auth_required (manager demo_running) = true ∧
  migrated (database (state demo_start.2)) = Some (database (state demo_start.2)).
Proof. vm_compute. done. Qed.

Definition bad_config : environment := <["LINASTORE_AUTH_REQUIRED"%string := str_bytes "enable"]> demo_config.
Lemma bad_config_bad : ¬ well_configured bad_config.
Proof.
  intros [_ Hw _]. destruct (Hw ltac:(vm_compute; eauto)) as (raw & Hraw & Hin).
  vm_compute in Hraw. injection Hraw as <-. vm_compute in Hin.
  repeat (apply elem_of_cons in Hin as [Hin|Hin]; [done|]). by apply elem_of_nil in Hin.
Qed.
Lemma bad_configuration_refused_witness :
  let '(r, w') := start_server id 42 None bad_config (mkEnv (demo_host ∅) [] 1000 0) in
  (∀ a, r ≠ Ok a) ∧ database (state w') = empty_database.
Proof. apply (bad_configuration_refused id 42 None bad_config). exact bad_config_bad. Defined.

(** Process 41 starts the server in the background, as process 42. *)
Abbreviation demo_main := (server_main id "usage" 41 42 demo_config).
Definition demo_daemon : Res unit * Env Host :=
  demo_main (Some (Start false None)) (mkEnv (demo_host ∅) [] 1000 0).
Lemma stop_signals_started_witness :
  let '(r, w3) := demo_main (Some (Stop false)) demo_daemon.2 in
  r = Ok tt ∧ signalled (state w3) = [(42%Z, SIGTERM)] ∧
  files (host_fs (state w3)) !! ["srv"; "linastore"; "linastore.pid"]%string = None ∧
  shuts_down_gracefully SIGTERM = false.
Proof.
  apply (stop_signals_started id "usage" 41 42 false None demo_config false (mkEnv (demo_host ∅) [] 1000 0) demo_daemon.2);
    [vm_compute; constructor|vm_compute; reflexivity|vm_compute; reflexivity|lia|discriminate|reflexivity|].
  vm_compute. constructor.
Defined.

(** A server, process 41, is running. *)
Definition busy_host : Host := demo_host {[ ["srv"; "linastore"; "linastore.pid"]%string := str_bytes "41" ]}.
Lemma failed_start_hides_server_witness :
  let w2 := (start_server id 77 None bad_config (mkEnv busy_host [] 1000 0)).2 in
  (∀ a, (start_server id 77 None bad_config (mkEnv busy_host [] 1000 0)).1 ≠ Ok a) ∧
  let '(r, w3) := handle_stop false w2 in
  r = Ok tt ∧ signalled (state w3) = [] ∧
  files (host_fs (state w3)) !! ["srv"; "linastore"; "linastore.pid"]%string = None ∧ 41%Z ∈ alive (state w3).
Proof.
  apply (failed_start_hides_server id 41 77 None bad_config false (mkEnv busy_host [] 1000 0));
    [vm_compute; constructor|vm_compute; reflexivity..| | |lia|exact bad_config_bad|reflexivity|].
  - vm_compute. reflexivity.
  - intros H. vm_compute in H. discriminate H.
  - vm_compute. constructor.
Defined.

Lemma url_logged_in_clear_witness :
  "Initializing database with URL: sqlite://./linadata/meta.db"%string ∈ log (state demo_start.2).
Proof.
  assert (H : start_server id 42 None demo_config (mkEnv (demo_host ∅) [] 1000 0) =
    (Ok demo_running, demo_start.2)) by (vm_compute; reflexivity).
  exact (url_logged_in_clear id 42 None demo_config _ demo_running demo_start.2 H).
Defined.

Lemma separate_log_dir_fails_witness :
  ∀ r, (start_server id 42 (Some "/var/log/lina"%string) demo_config (mkEnv (demo_host ∅) [] 1000 0)).1 ≠ Ok r.
Proof.
  apply (separate_log_dir_fails id 42 "/var/log/lina" demo_config (mkEnv (demo_host ∅) [] 1000 0)).
  - repeat split; done.
  - vm_compute; reflexivity.
  - vm_compute; reflexivity.
  - vm_compute. intros H. repeat (apply elem_of_cons in H as [H|H]; [discriminate H|]). by apply elem_of_nil in H.
  - vm_compute. intros H. repeat (apply elem_of_cons in H as [H|H]; [discriminate H|]). by apply elem_of_nil in H.
Defined.

Definition demo_tables : AuthDb := default (mkAuthDb ∅ ∅) (auth_tables (database (state demo_start.2))).
(** The administrator has logged in before, and somebody has guessed. *)
Definition demo_day : Env AuthDb :=
  (for_each [Handshake "admin" "secret"; Handshake "admin" "guess"; Cleanup] (auth_step (manager demo_running))
     (mkEnv demo_tables [] 2000 7)).2.
Lemma configured_login_witness : let w2 := mkEnv (state demo_day) [] 3000 (draws demo_day) in
  size (sessions (state demo_day)) = 1 ∧
  (∃ tok w3 sid row, handle_handshake (manager demo_running) "admin" "secret" w2 = (Ok (inr (tok, 6600%N)), w3) ∧
     sessions (state demo_day) !! sid = None ∧ sessions (state w3) = <[sid := row]> (sessions (state demo_day)) ∧
     se_token row = tok ∧ se_expires_at row = 6600%Z ∧
     ∀ sid' row', sessions (state demo_day) !! sid' = Some row' → se_token row' ≠ tok) ∧
  (∀ user p, p ≠ "secret"%string → ∃ w3, handle_handshake (manager demo_running) user p w2 =
     (Ok (inl InvalidPassword), w3) ∧ state w3 = state demo_day).
Proof.
  assert (H : start_server id 42 None demo_config (mkEnv (demo_host ∅) [] 1000 0) =
    (Ok demo_running, demo_start.2)) by (vm_compute; reflexivity).
  split; [vm_compute; reflexivity|].
  apply (configured_login id 42 None demo_config _ demo_running demo_start.2 "secret" demo_tables 7 _ [] 2000 [] 3000 H);
    [vm_compute; reflexivity|vm_compute; discriminate|vm_compute; reflexivity|vm_compute; reflexivity
    | |constructor|lia].
  intros j sid row _ Hr. replace (sessions demo_tables) with (∅ : gmap string SessionRow) in Hr by (vm_compute; reflexivity).
  rewrite lookup_empty in Hr. discriminate Hr.
Defined.
