(* ===== verification/Serving.v ===== *)
(** * From the first connection to the end of the process
    ([linastore-server/src/utils.rs], [front/manager.rs], the listeners)

    What [run_server] spawns and how it ends: the three listeners ([front]), the
    hourly removal of expired sessions and the worker loop each go round until
    the shutdown flag tells them to stop; after the signal [run_server] sets the
    flag, gives each of its three tasks five seconds and aborts it when it is
    still there.  Each loop calls [wait] anew in every round; its steps are those
    of Shutdown.v.  What a round does (a connection, a removal, an order) is
    modelled elsewhere. *)
From S2P Require Import Prelude Shutdown.

(** The loops: [run_http_server], [run_advanced_server], [run_s3_server],
    [auth::cleanup_expired_sessions], [porter]. *)
Inductive Task := Http | Advanced | S3 | Cleanup | Porter.
#[export] Instance Task_eq_dec : EqDecision Task.
Proof. solve_decision. Defined.
(** Where a loop is; [k] is its call of [wait]. *)
Inductive Loop :=
  | Starting                    (* before [TcpListener::bind], [StoreManager::new] *)
  | Looping (k : nat)
  | Draining                    (* the worker loop, its tasks still running *)
  | Ended.
#[export] Instance Loop_eq_dec : EqDecision Loop.
Proof. solve_decision. Defined.
Abbreviation Loops := (Task → Loop).
Definition set_loop (c : Task) (x : Loop) (l : Loops) : Loops := λ c', if decide (c' = c) then x else l c'.
Definition ended (l : Loops) (c : Task) : bool := bool_decide (l c = Ended).

(** The tasks [run_server] holds, in the order it waits for them. *)
Inductive Handle := porter_handle | front_handle | cleanup_handle.
(** [front] ends when all three listeners have ([tokio::join!]). *)
Definition finished (l : Loops) (h : Handle) : bool :=
  match h with
  | porter_handle => ended l Porter
  | front_handle => ended l Http && ended l Advanced && ended l S3
  | cleanup_handle => ended l Cleanup
  end.

(** [run_server] itself: awaiting the signal; in [shutdown], its call being [k];
    awaiting a task; returned. *)
Inductive Main := Serving | InShutdown (k : nat) | Ending (h : Handle) (deadline : N) | Returned.
Definition shutdown_timeout : N := 5.
Definition after (h : Handle) (now : N) : Main :=
  match h with
  | porter_handle => Ending front_handle (now + shutdown_timeout)
  | front_handle => Ending cleanup_handle (now + shutdown_timeout)
  | cleanup_handle => Returned
  end.

Section Serving.
Context `{No : Notify}.

Record Life := mkLife {
  flag : Shutdown;
  loops : Loops;
  main : Main;
  failed : list Task;     (* those that never began to loop *)
  aborted : list Handle;
  now : N;                     (* seconds *)
  signal_at : option N
}.
Definition with_flag (f : Shutdown) (s : Life) : Life :=
  mkLife f (loops s) (main s) (failed s) (aborted s) (now s) (signal_at s).
Definition with_loop (c : Task) (x : Loop) (s : Life) : Life :=
  mkLife (flag s) (set_loop c x (loops s)) (main s) (failed s) (aborted s) (now s) (signal_at s).
Definition with_main (m : Main) (s : Life) : Life :=
  mkLife (flag s) (loops s) m (failed s) (aborted s) (now s) (signal_at s).
Definition at_signal (m : Main) (s : Life) : Life :=
  mkLife (flag s) (loops s) m (failed s) (aborted s) (now s) (Some (now s)).
(** A new call of [wait] or [shutdown], and one that moves to [p]. *)
Definition call (p : Phase) (f : Shutdown) : Shutdown := mkShutdown (is_shutdown f) (notify_state f) (tasks f ++ [p]).
Definition moved (k : nat) (b : bool) (n : notify) (p : Phase) (f : Shutdown) : Shutdown :=
  mkShutdown b n (<[k := p]> (tasks f)).

(** Time passes as long as [run_server] has nothing to do at once. *)
Definition may_pass (d : N) (s : Life) : Prop :=
  match main s with
  | Serving => True
  | InShutdown _ | Returned => False
  | Ending h deadline => finished (loops s) h = false ∧ (now s + d <= deadline)%N
  end.

Inductive step : Life → Life → Prop :=
  (** The listener is bound, the store opened; the loop begins. *)
  | step_begin c s :
      loops s c = Starting →
      step s (with_flag (call WaitCalled (flag s)) (with_loop c (Looping (length (tasks (flag s)))) s))
  (** The address cannot be bound; the worker's store cannot be opened and it
      panics.  Nobody is told. *)
  | step_fail c s :
      loops s c = Starting → c ≠ Cleanup →
      step s (mkLife (flag s) (set_loop c Ended (loops s)) (main s) (c :: failed s) (aborted s) (now s) (signal_at s))
  | step_poll c k p b n p' s :
      loops s c = Looping k → tasks (flag s) !! k = Some p →
      advance (is_shutdown (flag s)) (notify_state (flag s)) p = Some (b, n, p') →
      step s (with_flag (moved k b n p' (flag s)) s)
  (** The other branch of the [select!]: a connection, a tick, an order or the
      end of one. *)
  | step_round c k p s :
      loops s c = Looping k → tasks (flag s) !! k = Some p → waiting p →
      step s (with_flag (moved k (is_shutdown (flag s)) (notify_state (flag s)) WaitCalled (flag s)) s)
  | step_leave c k s :
      loops s c = Looping k → tasks (flag s) !! k = Some WaitReturned →
      step s (with_loop c (if decide (c = Porter) then Draining else Ended) s)
  (** The worker loop also looks at the flag after each round. *)
  | step_seen k s :
      loops s Porter = Looping k → is_shutdown (flag s) = true →
      step s (with_loop Porter Draining s)
  | step_drained s :
      loops s Porter = Draining → step s (with_loop Porter Ended s)
  (** [tokio::signal::ctrl_c()] *)
  | step_signal s :
      main s = Serving →
      step s (with_flag (call ShutdownCalled (flag s)) (at_signal (InShutdown (length (tasks (flag s)))) s))
  | step_signal_error s :
      main s = Serving → step s (at_signal (Ending porter_handle (now s + shutdown_timeout)) s)
  | step_shutdown k p b n p' s :
      main s = InShutdown k → tasks (flag s) !! k = Some p →
      advance (is_shutdown (flag s)) (notify_state (flag s)) p = Some (b, n, p') →
      step s (with_flag (moved k b n p' (flag s)) s)
  | step_grace k s :
      main s = InShutdown k → tasks (flag s) !! k = Some ShutdownReturned →
      step s (with_main (Ending porter_handle (now s + shutdown_timeout)) s)
  | step_joined h deadline s :
      main s = Ending h deadline → finished (loops s) h = true →
      step s (with_main (after h (now s)) s)
  | step_abort h deadline s :
      main s = Ending h deadline → finished (loops s) h = false → (deadline <= now s)%N →
      step s (mkLife (flag s) (loops s) (after h (now s)) (failed s) (h :: aborted s) (now s) (signal_at s))
  | step_tick d s :
      may_pass d s →
      step s (mkLife (flag s) (loops s) (main s) (failed s) (aborted s) (now s + d) (signal_at s)).

Definition spawned (n : notify) : Life := mkLife (initial n) (λ _, Starting) Serving [] [] 0 None.
Definition reachable (n : notify) (s : Life) : Prop := rtc step (spawned n) s.

Context `{NL : !NotifyLaws No}.

(** ** What is always so *)

(** The flag goes through states of Shutdown.v only. *)
Lemma step_flag s s' : step s s' → rtc Shutdown.step (flag s) (flag s').
Proof.
  intros []; simpl; try apply rtc_refl; apply rtc_once.
  - apply step_call. by left.
  - by eapply step_task.
  - by eapply step_again.
  - apply step_call. by right.
  - by eapply step_task.
Qed.
Lemma reachable_flag n s : reachable n s → rtc Shutdown.step (initial n) (flag s).
Proof.
  revert s. apply (rtc_ind_r (λ s, rtc Shutdown.step (initial n) (flag s))); [apply rtc_refl|].
  intros s s' _ Hs IH. etrans; [exact IH|by apply step_flag].
Qed.

Definition in_wait (p : Phase) : Prop := waiting p ∨ p = WaitReturned.
Definition in_shutdown (p : Phase) : Prop := p = ShutdownCalled ∨ p = Notifying ∨ p = ShutdownReturned.
Lemma advance_wait b n p b' n' p' : advance b n p = Some (b', n', p') → in_wait p → in_wait p' ∧ b' = b ∧ n' = n.
Proof. unfold in_wait. destruct p; simpl; repeat case_match; intros; simplify_eq; naive_solver. Qed.
Lemma advance_shutdown b n p b' n' p' :
  advance b n p = Some (b', n', p') → in_shutdown p → in_shutdown p' ∧ (p' = ShutdownReturned → b' = true ∨ p = Notifying).
Proof. unfold in_shutdown. destruct p; simpl; repeat case_match; intros; simplify_eq; naive_solver. Qed.

(** Who owns which call. *)
Record Owned (s : Life) : Prop := {
  ow_loop c k : loops s c = Looping k → ∃ p, tasks (flag s) !! k = Some p ∧ in_wait p;
  ow_main k : main s = InShutdown k → ∃ p, tasks (flag s) !! k = Some p ∧ in_shutdown p;
  ow_only k p : tasks (flag s) !! k = Some p → p = ShutdownCalled ∨ p = Notifying → main s = InShutdown k
}.
Lemma owned_moved s k p b n p' :
  Owned s → tasks (flag s) !! k = Some p → in_wait p → in_wait p' →
  Owned (with_flag (moved k b n p' (flag s)) s).
Proof.
  intros [H1 H2 H3] Hk Hp Hp'. assert (Hlt : k < length (tasks (flag s))) by by eapply lookup_lt_Some.
  split; simpl.
  - intros c j Hc. destruct (decide (j = k)) as [->|Hne]; [exists p'; by rewrite list_lookup_insert_eq|].
    rewrite list_lookup_insert_ne by done. eauto.
  - intros j Hj. destruct (H2 _ Hj) as (q & Hq & Hin). exists q.
    rewrite list_lookup_insert_ne; [done|]. intros <-. rewrite Hk in Hq. simplify_eq.
    unfold in_wait, in_shutdown in *. destruct q; naive_solver.
  - intros j q [(<- & <- & _)|[Hne Hq]]%list_lookup_insert_Some Hor; [|eauto].
    exfalso. unfold in_wait in Hp'. naive_solver.
Qed.
Ltac step_cases Hs :=
  destruct Hs as [c s Hc|c s Hc Hne|c k p b n p' s Hc Hk Ha|c k p s Hc Hk Hw|c k s Hc Hk|k s Hc Hf|s Hc
    |s Hm|s Hm|k p b n p' s Hm Hk Ha|k s Hm Hk|h dl s Hm Hfin|h dl s Hm Hfin Hdl|d s Hd].

Lemma lookup_call k p q f : tasks (call p f) !! k = Some q ↔
  tasks f !! k = Some q ∨ k = length (tasks f) ∧ q = p.
Proof.
  simpl. rewrite lookup_app_Some, list_lookup_singleton_Some. split.
  - intros [?|(? & ? & ?)]; [by left|right]. split; [lia|done].
  - intros [?|[-> ->]]; [by left|right]. split; [done|]. split; [lia|done].
Qed.
Lemma set_loop_looping c x l c' k :
  set_loop c x l c' = Looping k → (∀ j, x ≠ Looping j) → l c' = Looping k.
Proof. unfold set_loop. case_decide; [|done]. intros -> Hx. by destruct (Hx k). Qed.
Lemma set_loop_same c x l : set_loop c x l c = x.
Proof. unfold set_loop. by rewrite decide_True. Qed.
(** A loop that ends, or a wait of [run_server] that does, owns nothing new. *)
Lemma owned_less s s' :
  Owned s → flag s' = flag s → (∀ c k, loops s' c = Looping k → loops s c = Looping k) → main s' = main s → Owned s'.
Proof. intros [H1 H2 H3] Hf Hl Hm. split; rewrite Hf; [eauto| |]; rewrite Hm; eauto. Qed.
Lemma owned_main s s' :
  Owned s → flag s' = flag s → loops s' = loops s → (∀ k, main s' ≠ InShutdown k) →
  (∀ k, main s = InShutdown k → tasks (flag s) !! k = Some ShutdownReturned) → Owned s'.
Proof.
  intros [H1 H2 H3] Hf Hl Hm Hold. split; rewrite Hf.
  - intros c k. rewrite Hl. apply H1.
  - intros k Hk. by destruct (Hm k).
  - intros k p Hk Hp. rewrite (Hold k (H3 k p Hk Hp)) in Hk. naive_solver.
Qed.

Lemma owned_step s s' : Owned s → step s s' → Owned s'.
Proof.
  intros HO Hs. pose proof HO as [H1 H2 H3].
  step_cases Hs.
  - split; cbn [with_flag with_loop flag loops main].
    + intros c' k. unfold set_loop. case_decide; [intros [= <-]; exists WaitCalled|intros Hc'].
      * split; [|by left]. apply lookup_call. by right.
      * destruct (H1 _ _ Hc') as (p & Hp & Hin). exists p. split; [|done]. apply lookup_call. by left.
    + intros k Hk. destruct (H2 _ Hk) as (p & Hp & Hin). exists p. split; [|done]. apply lookup_call. by left.
    + intros k p [Hk|[-> ->]]%lookup_call Hp; [eauto|naive_solver].
  - eapply owned_less; [exact HO|done| |done]. intros c' k Hc'. by apply (set_loop_looping _ _ _ _ _ Hc').
  - destruct (H1 _ _ Hc) as (q & Hq & Hin). assert (q = p) as -> by congruence.
    eapply owned_moved; [done..|]. by apply (advance_wait _ _ _ _ _ _ Ha).
  - eapply owned_moved; [done|done|by left|by left].
  - eapply owned_less; [exact HO|done| |done]. intros c' j Hc'. apply (set_loop_looping _ _ _ _ _ Hc'). intros i. by destruct (decide (c = Porter)).
  - eapply owned_less; [exact HO|done| |done]. intros c' j Hc'. by apply (set_loop_looping _ _ _ _ _ Hc').
  - eapply owned_less; [exact HO|done| |done]. intros c' j Hc'. by apply (set_loop_looping _ _ _ _ _ Hc').
  - split; cbn [with_flag at_signal flag loops main].
    + intros c' k Hc'. destruct (H1 _ _ Hc') as (p & Hp & Hin). exists p. split; [|done]. apply lookup_call. by left.
    + intros k [= <-]. exists ShutdownCalled. split; [|by left]. apply lookup_call. by right.
    + intros k p [Hk|[-> ->]]%lookup_call Hp; [|done]. by rewrite (H3 _ _ Hk Hp) in Hm.
  - apply (owned_main s); [done..|]. simpl. congruence.
  - destruct (H2 _ Hm) as (q & Hq & Hin). assert (q = p) as -> by congruence.
    assert (Hlt : k < length (tasks (flag s))) by by eapply lookup_lt_Some.
    destruct (advance_shutdown _ _ _ _ _ _ Ha Hin) as [Hin' _]. split; cbn [with_flag moved flag loops main tasks].
    + intros c j Hc. destruct (H1 _ _ Hc) as (q & Hq' & Hin''). exists q. rewrite list_lookup_insert_ne; [done|].
      intros <-. rewrite Hk in Hq'. simplify_eq. unfold in_wait, in_shutdown in *. destruct q; naive_solver.
    + intros j Hj. rewrite Hm in Hj. injection Hj as <-. exists p'. by rewrite list_lookup_insert_eq.
    + intros j q [(<- & <- & _)|[Hne Hq']]%list_lookup_insert_Some Hor; [done|eauto].
  - apply (owned_main s); [done..| |]; simpl; congruence.
  - apply (owned_main s); [done..| |]; simpl; [|congruence]. by destruct h.
  - apply (owned_main s); [done..| |]; simpl; [|congruence]. by destruct h.
  - by eapply owned_less.
Qed.

(** *** Time *)

(** What is left of the grace when a task is awaited. *)
Definition budget (h : Handle) : N := match h with porter_handle => 5 | front_handle => 10 | cleanup_handle => 15 end.
Definition Timely (s : Life) : Prop :=
  match main s with
  | Serving => signal_at s = None
  | InShutdown _ => signal_at s = Some (now s)
  | Ending h deadline => ∃ t, signal_at s = Some t ∧ (deadline <= t + budget h)%N ∧ (now s <= deadline)%N
  | Returned => ∃ t, signal_at s = Some t ∧ (now s <= t + 15)%N
  end.
Lemma timely_after h t now_s s :
  signal_at s = Some t → now s = now_s → main s = after h now_s → (now_s <= t + budget h)%N → Timely s.
Proof.
  intros Ht <- Hm Hn. unfold Timely. rewrite Hm. destruct h; simpl in *; exists t;
    unfold shutdown_timeout; (split; [done|]); lia.
Qed.
Lemma timely_step s s' : Timely s → step s s' → Timely s'.
Proof.
  intros HT Hs. step_cases Hs; try exact HT; unfold Timely in HT.
  - done.
  - exists (now s). unfold shutdown_timeout. simpl. split; [done|]. lia.
  - rewrite Hm in HT. exists (now s). unfold shutdown_timeout. simpl. split; [done|]. lia.
  - rewrite Hm in HT. destruct HT as (t & Ht & Hd & Hn). apply (timely_after h t (now s)); [done..|lia].
  - rewrite Hm in HT. destruct HT as (t & Ht & Hd & Hn). apply (timely_after h t (now s)); [done..|lia].
  - unfold may_pass in Hd. unfold Timely. simpl. destruct (main s); [done|done| |done].
    destruct HT as (t & Ht & Hle & Hn), Hd as [_ Hd]. by exists t.
Qed.

(** *** What has ended *)

Lemma ended_stays s s' c : step s s' → loops s c = Ended → loops s' c = Ended.
Proof.
  intros [] He; simpl; try exact He; unfold set_loop; case_decide; try done; subst; try congruence.
Qed.
Lemma finished_stays s s' h : step s s' → finished (loops s) h = true → finished (loops s') h = true.
Proof.
  intros Hs. assert (He : ∀ c, ended (loops s) c = true → ended (loops s') c = true).
  { intros c Hc%bool_decide_eq_true. apply bool_decide_eq_true. by eapply ended_stays. }
  destruct h; simpl; rewrite ?andb_true_iff; naive_solver.
Qed.
Definition settled (s : Life) (h : Handle) : Prop := finished (loops s) h = true ∨ h ∈ aborted s.
Definition Awaited (s : Life) : Prop :=
  match main s with
  | Serving | InShutdown _ | Ending porter_handle _ => True
  | Ending front_handle _ => settled s porter_handle
  | Ending cleanup_handle _ => settled s porter_handle ∧ settled s front_handle
  | Returned => ∀ h, settled s h
  end.
Lemma aborted_stays s s' h : step s s' → h ∈ aborted s → h ∈ aborted s'.
Proof. intros [] Hh; try exact Hh. by right. Qed.
Lemma settled_stays s s' h : step s s' → settled s h → settled s' h.
Proof. intros Hs [?|?]; [left; by eapply finished_stays|right; by eapply aborted_stays]. Qed.

Lemma awaited_after h deadline s s' n :
  Awaited s → step s s' → main s = Ending h deadline → main s' = after h n → settled s' h → Awaited s'.
Proof.
  unfold Awaited. intros HA Hs Hm Hm' Hh. rewrite Hm in HA. rewrite Hm'.
  destruct h; simpl; [done| |].
  - split; [by eapply settled_stays|done].
  - destruct HA as [H1 H2]. intros []; [by eapply settled_stays..|done].
Qed.
Lemma awaited_same s s' : Awaited s → step s s' → main s' = main s → Awaited s'.
Proof.
  unfold Awaited. intros HA Hs ->. destruct (main s) as [| |[] |]; try done.
  - by eapply settled_stays.
  - destruct HA. split; by eapply settled_stays.
  - intros h. eapply settled_stays; [done|apply HA].
Qed.
Lemma awaited_step s s' : Awaited s → step s s' → Awaited s'.
Proof.
  intros HA Hs. pose proof Hs as Hs'. destruct Hs; try (by apply (awaited_same _ _ HA Hs')).
  - done.
  - done.
  - done.
  - eapply (awaited_after h); [exact HA|exact Hs'|done|done|]. by left.
  - eapply (awaited_after h); [exact HA|exact Hs'|done|done|]. right. by left.
Qed.

(** *** Nobody stops without being told *)

Definition Told (s : Life) : Prop := ∀ c, loops s c = Draining ∨ loops s c = Ended →
  c ∈ failed s ∨ is_shutdown (flag s) = true.
Lemma flag_stays s s' : step s s' → is_shutdown (flag s) = true → is_shutdown (flag s') = true.
Proof.
  intros [] Hf; try exact Hf; simpl.
  all: destruct p as [| | | | | |]; simpl in *; repeat case_match; by simplify_eq.
Qed.
Lemma told_loop s c x :
  Told s → is_shutdown (flag s) = true → Told (with_loop c x s).
Proof. intros _ Hf c' _. by right. Qed.
Lemma told_step n s s' : rtc Shutdown.step (initial n) (flag s) → Told s → step s s' → Told s'.
Proof.
  intros Hr HT Hs. pose proof (flag_stays _ _ Hs) as Hfs. destruct (is_shutdown (flag s)) eqn:Ef.
  { intros c _. right. auto. }
  assert (Hleft : ∀ c, loops s c = Draining ∨ loops s c = Ended → c ∈ failed s).
  { intros c Hc. destruct (HT c Hc); [done|congruence]. }
  destruct Hs; try (intros c' Hc'; left; by apply Hleft).
  - intros c' Hc'. left. apply Hleft. simpl in Hc'. unfold set_loop in Hc'. case_decide; [by destruct Hc'|done].
  - intros c' Hc'. left. simpl in *. unfold set_loop in Hc'. case_decide as E; [subst; by left|right; auto].
  - exfalso. assert (Hw : WaitReturned ∈ tasks (flag s)) by (apply list_elem_of_lookup; eauto).
    by rewrite (wait_returns_after_shutdown n (flag s) Hr Hw) in Ef.
  - congruence.
  - intros c' Hc'. left. simpl in *. unfold set_loop in Hc'. case_decide as E; [subst; auto|auto].
Qed.

(** *** What is so in every reachable state *)

Record LInv (n : notify) (s : Life) : Prop := {
  li_flag : rtc Shutdown.step (initial n) (flag s);
  li_owned : Owned s;
  li_timely : Timely s;
  li_awaited : Awaited s;
  li_told : Told s
}.
Lemma reachable_linv n s : reachable n s → LInv n s.
Proof.
  revert s. apply (rtc_ind_r (LInv n)).
  - split; [apply rtc_refl| |done|done|by intros c [?|?]].
    split; simpl; [done|done|]. intros k p Hk. by rewrite lookup_nil in Hk.
  - intros s s' _ Hs [H1 H2 H3 H4 H5]. split.
    + etrans; [exact H1|by apply step_flag].
    + by eapply owned_step.
    + by eapply timely_step.
    + by eapply awaited_step.
    + by eapply told_step.
Qed.

(** ** The end *)

(** A task is awaited no longer than its deadline. *)
Lemma await_ends h deadline s :
  main s = Ending h deadline → (now s <= deadline)%N →
  ∃ s', rtc step s s' ∧ main s' = after h (now s').
Proof.
  intros Hm Hn. destruct (finished (loops s) h) eqn:Hf.
  - exists (with_main (after h (now s)) s). split; [|done]. apply rtc_once. by eapply step_joined.
  - set (d := (deadline - now s)%N).
    set (s1 := mkLife (flag s) (loops s) (main s) (failed s) (aborted s) (now s + d) (signal_at s)).
    assert (H1 : step s s1) by (apply step_tick; unfold may_pass; rewrite Hm; split; [done|lia]).
    eexists. split; [eapply rtc_l; [exact H1|]; apply rtc_once; eapply (step_abort h deadline s1); [done|done|]|done].
    simpl. lia.
Qed.
Lemma ending_returns h deadline s :
  main s = Ending h deadline → (now s <= deadline)%N → ∃ s', rtc step s s' ∧ main s' = Returned.
Proof.
  assert (Hlast : ∀ deadline s, main s = Ending cleanup_handle deadline → (now s <= deadline)%N →
    ∃ s', rtc step s s' ∧ main s' = Returned).
  { intros dl x Hm Hn. by destruct (await_ends _ _ _ Hm Hn) as (s' & ? & ?); exists s'. }
  assert (Hmiddle : ∀ deadline s, main s = Ending front_handle deadline → (now s <= deadline)%N →
    ∃ s', rtc step s s' ∧ main s' = Returned).
  { intros dl x Hm Hn. destruct (await_ends _ _ _ Hm Hn) as (s1 & Hr & Hm1).
    destruct (Hlast _ s1 Hm1) as (s' & Hr' & ?); [unfold shutdown_timeout; lia|]. exists s'. split; [by etrans|done]. }
  intros Hm Hn. destruct h; [|by eapply Hmiddle|by eapply Hlast].
  destruct (await_ends _ _ _ Hm Hn) as (s1 & Hr & Hm1).
  destruct (Hmiddle _ s1 Hm1) as (s' & Hr' & ?); [unfold shutdown_timeout; lia|]. exists s'. split; [by etrans|done].
Qed.

(** [run_server] comes out of [shutdown] by itself. *)
Lemma shutdown_call_ends k s p :
  main s = InShutdown k → tasks (flag s) !! k = Some p → in_shutdown p →
  ∃ s', rtc step s s' ∧ main s' = Ending porter_handle (now s' + shutdown_timeout).
Proof.
  assert (Hdone : ∀ s, main s = InShutdown k → tasks (flag s) !! k = Some ShutdownReturned →
    ∃ s', rtc step s s' ∧ main s' = Ending porter_handle (now s' + shutdown_timeout)).
  { intros x Hm Hk. eexists. split; [apply rtc_once; by eapply step_grace|done]. }
  assert (Hmove : ∀ s p b n p', main s = InShutdown k → tasks (flag s) !! k = Some p →
    advance (is_shutdown (flag s)) (notify_state (flag s)) p = Some (b, n, p') →
    ∃ s', step s s' ∧ main s' = InShutdown k ∧ tasks (flag s') !! k = Some p').
  { intros x q b n q' Hm Hk Ha. eexists. split; [by eapply step_shutdown|]. split; [done|].
    simpl. apply list_lookup_insert_eq. by eapply lookup_lt_Some. }
  assert (Hnotify : ∀ s, main s = InShutdown k → tasks (flag s) !! k = Some Notifying →
    ∃ s', rtc step s s' ∧ main s' = Ending porter_handle (now s' + shutdown_timeout)).
  { intros x Hm Hk. destruct (Hmove x _ _ _ _ Hm Hk eq_refl) as (s1 & Hs & Hm1 & Hk1).
    destruct (Hdone s1 Hm1 Hk1) as (s' & ? & ?). exists s'. split; [by eapply rtc_l|done]. }
  intros Hm Hk [->|[->| ->]]; [|by apply Hnotify|by apply Hdone].
  destruct (Hmove s _ _ _ _ Hm Hk eq_refl) as (s1 & Hs & Hm1 & Hk1).
  destruct (is_shutdown (flag s)).
  - destruct (Hdone s1 Hm1 Hk1) as (s' & ? & ?). exists s'. split; [by eapply rtc_l|done].
  - destruct (Hnotify s1 Hm1 Hk1) as (s' & ? & ?). exists s'. split; [by eapply rtc_l|done].
Qed.
Lemma can_return n s : LInv n s → main s ≠ Serving → ∃ s', rtc step s s' ∧ main s' = Returned.
Proof.
  intros HI Hs. destruct (main s) as [|k|h dl|] eqn:Hm; [done| | |by exists s].
  - destruct (ow_main _ (li_owned _ _ HI) k Hm) as (p & Hk & Hp).
    destruct (shutdown_call_ends k s p Hm Hk Hp) as (s1 & Hr & Hm1).
    destruct (ending_returns _ _ s1 Hm1) as (s' & Hr' & ?); [unfold shutdown_timeout; lia|].
    exists s'. split; [by etrans|done].
  - pose proof (li_timely _ _ HI) as HT. unfold Timely in HT. rewrite Hm in HT.
    destruct HT as (t & _ & _ & Hn). by eapply ending_returns.
Qed.

(** A loop that is told stops by its own steps, whatever the others do. *)
Lemma leaves c k s :
  loops s c = Looping k → tasks (flag s) !! k = Some WaitReturned →
  ∃ s', rtc step s s' ∧ loops s' c = Ended ∧ main s' = main s.
Proof.
  intros Hc Hk. pose proof (step_leave c k s Hc Hk) as Hs. destruct (decide (c = Porter)) as [->|Hne].
  - exists (with_loop Porter Ended (with_loop Porter Draining s)). split; [|split; [apply set_loop_same|done]].
    eapply rtc_l; [exact Hs|]. apply rtc_once. apply step_drained. apply set_loop_same.
  - eexists. split; [apply rtc_once; exact Hs|]. split; [apply set_loop_same|done].
Qed.
Lemma told_loop_ends n c k s :
  LInv n s → is_shutdown (flag s) = true → (∀ j, main s ≠ InShutdown j) → loops s c = Looping k →
  ∃ s', rtc step s s' ∧ loops s' c = Ended ∧ main s' = main s.
Proof.
  intros HI Hf Hm Hc. destruct (ow_loop _ (li_owned _ _ HI) c k Hc) as (p & Hk & Hp).
  assert (Hlt : k < length (tasks (flag s))) by by eapply lookup_lt_Some.
  assert (Hpoll : ∀ s p b n p', loops s c = Looping k → tasks (flag s) !! k = Some p → k < length (tasks (flag s)) →
    advance (is_shutdown (flag s)) (notify_state (flag s)) p = Some (b, n, p') →
    ∃ s', step s s' ∧ loops s' = loops s ∧ main s' = main s ∧ tasks (flag s') !! k = Some p' ∧
      is_shutdown (flag s') = b ∧ k < length (tasks (flag s'))).
  { intros x q b m q' Hx Hq Hl Ha. eexists. split; [by eapply step_poll|]. simpl. rewrite length_insert.
    split; [done|]. split; [done|]. split; [by apply list_lookup_insert_eq|done]. }
  assert (Hlast : ∀ x q b m, loops x c = Looping k → main x = main s → tasks (flag x) !! k = Some q → k < length (tasks (flag x)) →
    advance (is_shutdown (flag x)) (notify_state (flag x)) q = Some (b, m, WaitReturned) →
    ∃ s', rtc step x s' ∧ loops s' c = Ended ∧ main s' = main s).
  { intros x q b m Hx Hmx Hq Hl Ha. destruct (Hpoll _ _ _ _ _ Hx Hq Hl Ha) as (s1 & Hs & Hl1 & Hm1 & Hk1 & _ & _).
    destruct (leaves c k s1) as (s' & ? & ? & ?); [by rewrite Hl1|done|]. exists s'.
    split; [by eapply rtc_l|]. split; [done|congruence]. }
  destruct Hp as [Hw| ->]; [|by apply (leaves c k)].
  destruct p as [|t|t| | | |]; try done.
  - destruct (Hpoll _ _ _ _ _ Hc Hk Hlt eq_refl) as (s1 & Hs & Hl1 & Hm1 & Hk1 & Hf1 & Hlt1). rewrite Hf in Hf1.
    destruct (Hlast s1 _ (is_shutdown (flag s1)) (notify_state (flag s1)) ltac:(by rewrite Hl1) Hm1 Hk1 Hlt1) as (s' & ? & ?);
      [by simpl; rewrite Hf1|]. exists s'. split; [by eapply rtc_l|done].
  - eapply (Hlast s); [done|done|exact Hk|done|]. simpl. by rewrite Hf.
  - eapply (Hlast s); [done|done|exact Hk|done|]. simpl.
    destruct (inv_awake _ _ (flag_inv _ _ (li_flag _ _ HI)) k t Hf Hk) as [-> |[j Hj]%list_elem_of_lookup]; [done|].
    destruct (Hm j). eapply (ow_only _ (li_owned _ _ HI)); [done|by right].
Qed.

(** C35 (liveness): the server ends when it is told to, and not before.  In every
    state it can reach: a loop has stopped only because it never began or because
    the flag is set; from the signal on no more than 15 seconds pass before
    [run_server] has returned, and it can always get there; when it returns, each
    of its three tasks has ended or was aborted; and once the flag is set and
    [shutdown] returned, every loop that still goes round can stop by its own
    steps alone. *)
Theorem server_ends n s :
  reachable n s →
  (∀ c, loops s c = Ended → c ∈ failed s ∨ is_shutdown (flag s) = true) ∧
  (∀ t, signal_at s = Some t → (now s <= t + 15)%N ∧ ∃ s', rtc step s s' ∧ main s' = Returned) ∧
  (main s = Returned → ∀ h, finished (loops s) h = true ∨ h ∈ aborted s) ∧
  (is_shutdown (flag s) = true → (∀ k, main s ≠ InShutdown k) → ∀ c k, loops s c = Looping k →
     ∃ s', rtc step s s' ∧ loops s' c = Ended ∧ main s' = main s).
Proof.
  intros HI%reachable_linv. split; [intros c Hc; apply (li_told _ _ HI); by right|]. split; [|split].
  - intros t Ht. pose proof (li_timely _ _ HI) as HT. unfold Timely in HT. split.
    + destruct (main s) as [| |h dl|]; [congruence|simplify_eq; lia|..]; destruct HT as (t' & Ht' & Hd); simplify_eq;
        [destruct h; simpl in *; lia|lia].
    + apply (can_return n); [done|]. intros Hm. rewrite Hm in HT. congruence.
  - intros Hm. pose proof (li_awaited _ _ HI) as HA. unfold Awaited in HA. by rewrite Hm in HA.
  - intros Hf Hm c k Hc. by eapply told_loop_ends.
Qed.
End Serving.

(** ** Worked example: one listener, an address that is taken, a signal *)

Definition demo_life : Life (No := counter) := mkLife
  (mkShutdown true (1 : @notify counter) [Awaiting (0 : @future counter); ShutdownReturned])
  (set_loop S3 Ended (set_loop Http (Looping 0) (λ _, Starting)))
  (Ending porter_handle 5) [S3] [] 3 (Some 0%N).
Lemma demo_life_reachable : reachable (0 : @notify counter) demo_life.
Proof.
  eapply rtc_l; [by apply (step_begin Http)|].
  eapply rtc_l; [by apply (step_fail S3)|].
  eapply rtc_l; [by eapply (step_poll Http 0)|].
  eapply rtc_l; [by eapply (step_poll Http 0)|].
  eapply rtc_l; [by apply step_signal|].
  eapply rtc_l; [by eapply (step_shutdown 1)|].
  eapply rtc_l; [by eapply (step_shutdown 1)|].
  eapply rtc_l; [by eapply (step_grace 1)|].
  apply rtc_once. by apply (step_tick 3).
Qed.
Lemma server_ends_witness :
  (∀ c, loops demo_life c = Ended → c ∈ failed demo_life ∨ is_shutdown (flag demo_life) = true) ∧
  (∀ t, signal_at demo_life = Some t →
     (now demo_life <= t + 15)%N ∧ ∃ s', rtc step demo_life s' ∧ main s' = Returned) ∧
  (main demo_life = Returned → ∀ h, finished (loops demo_life) h = true ∨ h ∈ aborted demo_life) ∧
  (is_shutdown (flag demo_life) = true → (∀ k, main demo_life ≠ InShutdown k) → ∀ c k, loops demo_life c = Looping k →
     ∃ s', rtc step demo_life s' ∧ loops s' c = Ended ∧ main s' = main demo_life).
Proof. exact (server_ends (0 : @notify counter) demo_life demo_life_reachable). Defined.
