(* ===== verification/Waitress.v ===== *)
(** * The binary protocol's front end ([waitress] in
    [linastore-server/src/front/advanced_service.rs])

    One handler serves one connection, message after message: handshakes,
    session check, decryption of an upload, the bucket table, the order and its
    response.  One definition per stage of the loop body, composed in
    [serve_message] and repeated in [waitress].  A failed write to the peer is
    only logged, so a turn is the bytes written and whether the loop goes on. *)
From stdpp Require Import pretty.
From S2P Require Import Prelude Io Runs Strs World Wire ObjectStore Conveyer Porter Mapper Auth Server.
From S2P Require Import Store Manager DemoServer.

Record Turn := mkTurn { reply : bytes; keep_open : bool }.

(** Bucket and key of an identifier, separated by a NUL byte. *)
Definition object_path (id_bytes : bytes) : string * string :=
  match nul_pos id_bytes with
  | Some null_pos =>
      (from_utf8_lossy (take null_pos id_bytes), from_utf8_lossy (drop (S null_pos) id_bytes))
  | None => (DEFAULT_BUCKET, from_utf8_lossy id_bytes)
  end.

(** Session token and file data of a message's data field. *)
Definition split_token (o : Op) (d : bytes) : option string * bytes :=
  match o, d with
  | OpWrite, _ :: _ =>
      match nul_pos d with
      | Some null_pos =>
          (from_utf8 (take null_pos d),
           if S null_pos <? length d then drop (S null_pos) d else [])
      | None => (None, d)
      end
  | _, [] => (None, [])
  | _, _ => (from_utf8 (take (default (length d) (nul_pos d)) d), [])
  end.

Definition behavior_of (o : Op) : Behavior :=
  match o with
  | OpDelete => DeleteFile
  | OpWrite => PutFile
  | OpRead => GetFile
  | OpAuth | OpNone => BehaviorNone
  end.

Section Waitress.
Context {St : Type} `{OS : ObjectStore St} `{P : Platform} `{K : AuthCrypto}.
Variable crc32 : bytes → N.
Variable uuid_bytes : nat → bytes.
Variable others : IO (Srv St) unit.
(** [get_mapper().is_some()] and [get_auth_manager()]. *)
Variable some_mapper : bool.
Variable auth_manager : AuthManager.
(** [peer_addr.ip()] *)
Variable peer_ip : IpAddr.

Definition close_with (st : Status) (code : option HandshakeStatus) : Turn :=
  mkTurn (write_error_response crc32 st (handshake_as_u8 <$> code)) false.
(** An error reply after which the connection is kept. *)
Definition error_turn (st : Status) : Turn := mkTurn (write_error_response crc32 st None) true.

Definition with_checksum (m : LiNaProtocol) : LiNaProtocol :=
  let p := payload m in
  mkProtocol (flags m) (status m)
    (mkPayLoad (ilen p) (identifier p) (dlen p) (calculate_checksum crc32 m) (data p)).

(** The reply to a handshake that succeeded. *)
Definition session_response (token : string) (expires_at : N) : LiNaProtocol :=
  let response_data := byte_of (handshake_as_u8 HsSuccess) :: str_bytes token ++ NUL
                         :: str_bytes (pretty expires_at) in
  with_checksum (mkProtocol (flags LiNaProtocol_new) Success
    (mkPayLoad 0 [] (as_u32 (len response_data)) 0 response_data)).

Definition handshake_failure_status (st : HandshakeStatus) : Status :=
  match st with
  | InvalidPassword => Unauthorized
  | AuthDisabled => BadRequest
  | HsInternalError => InternalError
  | HsSuccess => InternalError
  end.

Definition serve_auth (message : LiNaProtocol) : IO (Srv St) Turn :=
  t ← instant_now;
  allowed ← on_limiter (check peer_ip t);
  if negb allowed then ret (close_with Unauthorized (Some InvalidPassword)) else
  let username := extract_username (identifier (payload message)) in
  let password := extract_password (data (payload message)) in
  if is_empty username then
    t ← instant_now;
    on_limiter (λ l, (tt, record_failure peer_ip t l));;
    ret (close_with BadRequest (Some HsInternalError))
  else
    r ← on_auth (handle_handshake auth_manager username password);
    match r with
    | inr (token, expires_at) =>
        on_limiter (λ l, (tt, record_success peer_ip l));;
        ret (mkTurn (serialize_protocol_message (session_response token expires_at)) true)
    | inl st =>
        (if decide (st = InvalidPassword) then
           t ← instant_now; on_limiter (λ l, (tt, record_failure peer_ip t l))
         else ret tt);;
        ret (close_with (handshake_failure_status st) (Some st))
    end.

(** The token to decrypt with, when the request may go on. *)
Definition authorize (session_token : option string) : IO (Srv St) (option (option string)) :=
  if is_password_enabled auth_manager then
    match session_token with
    | Some token =>
        r ← on_auth (validate_session auth_manager token 60);
        match r with
        | Some valid_user_id => ret (Some (Some token))
        | None => ret None
        end
    | None => ret None
    end
  else ret (Some session_token).

(** The data to store; [None] when a payload that should decrypt does not. *)
Definition open_data (valid_token : option string) (file_data : bytes) : option bytes :=
  match valid_token, file_data with
  | Some token, _ :: _ =>
      match decrypt_with_token token file_data with
      | Some decrypted => Some decrypted
      | None => if is_password_enabled auth_manager then None else Some file_data
      end
  | _, _ => Some file_data
  end.

(** The internal name for the order, or the status to refuse the request with. *)
Definition resolve_identifier (o : Op) (bucket key : string) : IO (Srv St) (Status + string) :=
  match o with
  | OpWrite =>
      k ← draw;
      let internal_name := uuid_v4 k in
      (if some_mapper then ignore (on_mapper (register bucket key internal_name)) else ret tt);;
      ret (inr internal_name)
  | _ =>
      if some_mapper then
        r ← attempt (on_mapper (resolve bucket key));
        match r with
        | inr (Some internal) => ret (inr internal)
        | _ => ret (inl FileNotFound)
        end
      else ret (inl InternalError)
  end.

Definition package_response (pkg : Package) : LiNaProtocol :=
  let c := content pkg in
  with_checksum (mkProtocol (flags LiNaProtocol_new) (p_status pkg)
    (mkPayLoad (as_u8 (len (c_identifier c))) (c_identifier c) (as_u32 (len (c_data c))) 0 (c_data c))).

(** The request proper, under the UUID with number [k]. *)
Definition serve_order (k : nat) (message : LiNaProtocol) (o : Op) (file_data : bytes)
    : IO (Srv St) Turn :=
  t ← now;
  let '(bucket, key) := object_path (identifier (payload message)) in
  resolved ← resolve_identifier o bucket key;
  match resolved with
  | inl st => ret (close_with st None)
  | inr name =>
      r ← exchange others
            (order_package uuid_bytes k t (behavior_of o) (flags message) (str_bytes name) file_data);
      match r with
      | Unregistered => ret (close_with InternalError None)
      | ChannelClosed | TimedOut => ret (error_turn InternalError)
      | Answer pkg => ret (mkTurn (serialize_protocol_message (package_response pkg)) true)
      end
  end.

(** The body of the loop. *)
Definition serve_message (message : LiNaProtocol) : IO (Srv St) Turn :=
  let o := op message in
  if decide (o = OpAuth) then serve_auth message
  else
    k ← draw;
    let '(session_token, file_data) := split_token o (data (payload message)) in
    granted ← authorize session_token;
    match granted with
    | None => ret (close_with Unauthorized None)
    | Some valid_token =>
        match open_data valid_token file_data with
        | None => ret (close_with BadRequest None)
        | Some file_data => serve_order k message o file_data
        end
    end.

(** ** The connection *)

Section Connection.
Variable spare : nat → nat.
Variable max_payload_size : N.
Variable fin : Ending.

Abbreviation parse := (parse_protocol_message crc32 spare max_payload_size fin LiNaProtocol_new).

(** How the handler ends: it returns, waits for ever for a silent peer, or (if
    the bound were too small) runs out of fuel; with the bytes it has written. *)
Inductive Session_end := Returned | Waits | Fuel.

Fixpoint serve (fuel : nat) (segs : list bytes) : IO (Srv St) (bytes * Session_end) :=
  match fuel with
  | O => ret ([], Fuel)
  | S fuel' =>
      match parse segs with
      | ReadErr _ => ret ([], Returned)
      | Blocked => ret ([], Waits)
      | OutOfFuel => ret ([], Fuel)
      | Got message rest =>
          turn ← serve_message message;
          if keep_open turn then
            r ← serve fuel' rest; ret (reply turn ++ r.1, r.2)
          else ret (reply turn, Returned)
      end
  end.

(** One message takes at least one byte. *)
Definition waitress (segs : list bytes) : IO (Srv St) (bytes * Session_end) :=
  draw;; serve (S (length (concat segs))) segs.
End Connection.
End Waitress.

(** ** Lemmas: one turn *)

Section Turns.
Context {St : Type} `{OS : ObjectStore St} `{P : Platform} `{K : AuthCrypto}.
Variable crc32 : bytes → N.
Variable uuid_bytes : nat → bytes.
Variable others : IO (Srv St) unit.
Variable some_mapper : bool.
Variable mgr : AuthManager.
Variable ip : IpAddr.

Abbreviation message_turn := (serve_message crc32 uuid_bytes others some_mapper mgr ip).
Abbreviation connection := (waitress crc32 uuid_bytes others some_mapper mgr ip).

#[export] Instance message_returns m : Returns others → Returns (message_turn m).
Proof.
  intros Ho. unfold serve_message, serve_auth, authorize, serve_order, resolve_identifier, on_auth.
  repeat (case_match || apply bind_returns || intros || apply _).
Qed.

(** *** Without credentials *)

(** The token of a message opens no session that would still be accepted. *)
Definition no_live_session (d : AuthDb) (t : N) (tok : option string) : Prop :=
  ∀ tk sid row, tok = Some tk → sessions d !! sid = Some row → se_token row = tk →
    (se_expires_at row ≤ i64_of_u64 t + 60)%Z.
(** Neither a live session nor, in a handshake, the password. *)
Definition unprivileged (d : AuthDb) (t : N) (m : LiNaProtocol) : Prop :=
  if decide (op m = OpAuth) then verify_password mgr (extract_password (data (payload m))) = false
  else no_live_session d t (split_token (op m) (data (payload m))).1.

(** Nothing but the limiter has changed. *)
Definition untouched (s s' : Srv St) : Prop :=
  objects s' = objects s ∧ conveyer s' = conveyer s ∧ mapper s' = mapper s ∧ auth_db s' = auth_db s.

Lemma no_session_found d t tk g :
  (∀ sid row, sessions d !! sid = Some row → se_token row = tk → (se_expires_at row ≤ i64_of_u64 t + g)%Z) →
  head ((λ kv, se_user_id kv.2) <$> map_to_list
    (filter (λ kv, se_token kv.2 = tk ∧ (i64_of_u64 t + g < se_expires_at kv.2)%Z) (sessions d))) = None.
Proof.
  intros Hno. rewrite (proj2 (map_empty (filter _ _))); [by rewrite map_to_list_empty|].
  intros i. apply map_lookup_filter_None. right. intros r Hr [Et Hlt]. simpl in *.
  specialize (Hno _ _ Hr Et). lia.
Qed.

Lemma authorize_refused w tok :
  auth_required mgr = true → no_crash (fates w) →
  no_live_session (auth_db (state w)) (clock w) tok →
  ∃ w', authorize mgr tok w = (Ok None, w') ∧ untouched (state w) (state w') ∧
    no_crash (fates w') ∧ clock w' = clock w.
Proof.
  intros Hreq Hw Hno. unfold authorize, is_password_enabled. rewrite Hreq.
  destruct tok as [tk|]; [|by exists w].
  set (w0 := mkEnv (auth_db (state w)) (fates w) (clock w) (draws w)).
  assert (∃ w', validate_session mgr tk 60 w0 = (Ok None, w') ∧ state w' = state w0 ∧
    no_crash (fates w') ∧ clock w' = clock w0) as (w' & Hv & Hs & Hc & Ht).
  { unfold validate_session. rewrite Hreq. cbn [negb]. destruct (db_conn mgr); [|by exists w0].
    unfold now, mbind, IO_mbind, bind, attempt, auth_get_user_id_by_token, auth_query, external.
    cbn [clock fates state w0]. rewrite no_session_found by (intros sid row Hr E; by eapply Hno).
    destruct (fates w) as [|[|k n|n] fs]; simpl.
    - by eexists.
    - apply Forall_cons in Hw as [_ Hw]. by eexists.
    - apply Forall_cons in Hw as [_ Hw]. by eexists.
    - apply Forall_cons in Hw as [Hd _]. by destruct (Hd n). }
  unfold on_auth, focus, mbind, IO_mbind, bind. fold w0. rewrite Hv.
  eexists. split; [reflexivity|]. simpl. rewrite Hs. by split_and!.
Qed.

Lemma serve_auth_refused w m :
  verify_password mgr (extract_password (data (payload m))) = false →
  ∃ st c w', serve_auth crc32 mgr ip m w = (Ok (close_with crc32 st (Some c)), w') ∧
    untouched (state w) (state w').
Proof.
  intros Hv. unfold serve_auth, instant_now, mbind, IO_mbind, bind, now, ret, on_limiter.
  destruct (check _ _ _) as [[] l]; simpl; [|by eexists _, _, _].
  destruct (is_empty _); [by eexists _, _, _|].
  unfold on_auth, focus, handle_handshake, is_password_enabled. rewrite Hv.
  destruct (auth_required mgr); simpl; by eexists _, _, _.
Qed.

Lemma unprivileged_turn w m :
  auth_required mgr = true → no_crash (fates w) →
  unprivileged (auth_db (state w)) (clock w) m →
  ∃ st c w', message_turn m w = (Ok (close_with crc32 st c), w') ∧ untouched (state w) (state w') ∧
    (op m ≠ OpAuth → st = Unauthorized ∧ c = None).
Proof.
  intros Hreq Hw Hun. unfold serve_message, unprivileged in *. destruct (decide (op m = OpAuth)) as [E|E].
  - destruct (serve_auth_refused w m Hun) as (st & c & w' & Hs & Hu). by eexists _, _, _.
  - unfold draw, mbind, IO_mbind, bind. destruct (split_token _ _) as [tok d] eqn:Et. simpl in Hun.
    destruct (authorize_refused (mkEnv (state w) (fates w) (clock w) (S (draws w))) tok)
      as (w' & Ha & Hu & _); [done..|]. rewrite Ha. by eexists _, _, _.
Qed.

(** With authentication on, a message other than a handshake
    whose token opens no live session is answered with [Unauthorized] and
    nothing else: the connection is closed; no order is queued, and the store,
    the bucket table, the users and the sessions are as they were, however many
    of the look-ups fail. *)
Theorem unauthorized_untouched w m :
  auth_required mgr = true → no_crash (fates w) → op m ≠ OpAuth →
  no_live_session (auth_db (state w)) (clock w) (split_token (op m) (data (payload m))).1 →
  ∃ w', message_turn m w = (Ok (close_with crc32 Unauthorized None), w') ∧
    untouched (state w) (state w').
Proof.
  intros Hreq Hw Hop Hno.
  destruct (unprivileged_turn w m) as (st & c & w' & E & Hu & Hst); [done..| |].
  - unfold unprivileged. by rewrite decide_False.
  - destruct (Hst Hop) as [-> ->]. eauto.
Qed.

(** *** A flood of handshakes *)

Definition at_time (t : N) (w : Env (Srv St)) : Env (Srv St) := mkEnv (state w) (fates w) t (draws w).

(** A handshake without the password, seen from the limiter. *)
Lemma wrong_handshake w m :
  auth_required mgr = true → op m = OpAuth →
  verify_password mgr (extract_password (data (payload m))) = false →
  let T := (clock w * SECOND)%N in let l := limiter (state w) in
  limiter (state (message_turn m w).2) =
    (if (check ip T l).1 then handle_event (handle_event l (Probe ip T)) (Failure ip T)
     else handle_event l (Probe ip T)).
Proof.
  intros Hreq Hop Hv. unfold serve_message. rewrite decide_True by done.
  unfold serve_auth, instant_now, mbind, IO_mbind, bind, now, ret, on_limiter.
  unfold handle_event. destruct (check _ _ _) as [[] l]; simpl; [|done].
  destruct (is_empty _); [done|].
  unfold on_auth, focus, handle_handshake, is_password_enabled. rewrite Hv, Hreq. done.
Qed.

Definition flood (w : Env (Srv St)) (msgs : list (N * LiNaProtocol)) : Env (Srv St) :=
  foldl (λ w p, (message_turn p.2 (at_time p.1 w)).2) w msgs.

(** A handshake without the password at second [p.1], less than a window before [T]. *)
Definition guess (T win : N) (p : N * LiNaProtocol) : Prop :=
  op p.2 = OpAuth ∧ verify_password mgr (extract_password (data (payload p.2))) = false ∧
  (p.1 ≤ T)%N ∧ ((T - p.1) * SECOND < win)%N.

(** What [j] guesses leave: as many failures as the limit allows, all recent. *)
Definition counted (T : N) (l0 l : HandshakeRateLimiter) (j : nat) : Prop :=
  window l = window l0 ∧ max_failures l = max_failures l0 ∧
  (∀ x, x ∈ tracked ip l → x ≤ T * SECOND ∧ T * SECOND - x < window l0)%N ∧
  (N.min (N.of_nat j) (max_failures l0) ≤ len (recent (window l0) (T * SECOND) (tracked ip l)))%N ∧
  (len (tracked ip l) ≤ max_failures l0)%N.

Lemma recent_all win now l : Forall (λ x, now - x < win)%N l → recent win now l = l.
Proof.
  induction 1 as [|x l Hx Hl IH]; [done|]. unfold recent in *. by rewrite filter_cons_True, IH.
Qed.

Lemma guess_counted T l0 w p j :
  auth_required mgr = true → (max_failures l0 < 2 ^ 32)%N → (0 < max_failures l0)%N → guess T (window l0) p →
  counted T l0 (limiter (state w)) j →
  counted T l0 (limiter (state (message_turn p.2 (at_time p.1 w)).2)) (S j).
Proof.
  intros Hreq H32 Hmax (Hop & Hv & Ht & Hrec) (Hw & Hm & Hin & Hc & Hlen). rewrite wrong_handshake by done.
  cbn [state clock at_time]. set (t := (p.1 * SECOND)%N). set (l := limiter (state w)) in *.
  assert (HtT : (t ≤ T * SECOND ∧ T * SECOND - t < window l0)%N)
    by (unfold t; rewrite <- N.mul_sub_distr_r; split; [by apply N.mul_le_mono_r|done]).
  set (l1 := handle_event l (Probe ip t)).
  destruct (handle_event_window l (Probe ip t)) as [Hw1 Hm1]. fold l1 in Hw1, Hm1.
  destruct (handle_event_window l1 (Failure ip t)) as [Hw2 Hm2].
  assert (Hin1 : ∀ x, x ∈ tracked ip l1 → (x ≤ T * SECOND ∧ T * SECOND - x < window l0)%N).
  { intros x [Hx|(? & ? & ?)]%tracked_event_in; [auto|done]. }
  assert (E1 : recent (window l0) (T * SECOND) (tracked ip l1) = recent (window l0) (T * SECOND) (tracked ip l)).
  { rewrite <- Hw. unfold l1. by rewrite tracked_event by apply HtT. }
  assert (Ea : ∀ now, (t ≤ now ≤ T * SECOND)%N → recent (window l0) now (tracked ip l) = tracked ip l).
  { intros now Hnow. apply recent_all, Forall_forall. intros x Hx. specialize (Hin x Hx). lia. }
  pose proof (sublist_length _ _ (tracked_sublist ip (Probe ip t) l)) as Hs1. fold l1 in Hs1.
  pose proof (sublist_length _ _ (tracked_sublist ip (Failure ip t) l1)) as Hs2.
  cbn [fresh_failure] in Hs1, Hs2. rewrite bool_decide_eq_true_2 in Hs2 by done.
  rewrite app_nil_r in Hs1. rewrite length_app in Hs2. cbn [length] in Hs2.
  rewrite check_recent by congruence. rewrite Hw, Ea by lia.
  pose proof (N.Div0.mod_le (len (tracked ip l)) (2 ^ 32)) as Hle. unfold wrap.
  destruct (N.ltb_spec (len (tracked ip l) mod 2 ^ 32) (max_failures l)) as [Hlt|Hge].
  2: { split_and!; [congruence..|done| |unfold len in *; lia]. rewrite E1, Ea by lia. lia. }
  rewrite N.mod_small in Hlt by (unfold len in *; lia).
  split_and!; [congruence..| | |].
  - intros x [Hx|(? & [= <-] & ->)]%tracked_event_in; auto.
  - rewrite <- Hw, <- Hw1. rewrite tracked_event by apply HtT. rewrite bool_decide_eq_true_2 by done.
    rewrite recent_app, Hw1, Hw, E1. unfold recent at 2.
    rewrite filter_cons_True by apply HtT. unfold len in *. rewrite length_app. simpl. lia.
  - unfold len in *. lia.
Qed.

Lemma flood_counted T l0 msgs : ∀ w j,
  auth_required mgr = true → (max_failures l0 < 2 ^ 32)%N → (0 < max_failures l0)%N → Forall (guess T (window l0)) msgs →
  counted T l0 (limiter (state w)) j →
  counted T l0 (limiter (state (flood w msgs))) (length msgs + j).
Proof.
  induction msgs as [|p msgs IH]; intros w j Hreq H32 Hmax Hg Hc; [done|].
  apply Forall_cons in Hg as [Hp Hg]. cbn [flood foldl length]. 
  replace (S (length msgs) + j) with (length msgs + S j) by lia.
  apply IH; try done. by apply guess_counted.
Qed.

(** C24 (safety): brute force is cut off.  Once an address that had no record
    has made [max_failures] handshakes without the password within a window,
    the next handshake from it is refused: even with the right password, no
    session is made and the password is not looked at. *)
Theorem flood_refused T w msgs m :
  auth_required mgr = true → failures (limiter (state w)) !! ip = None →
  (0 < max_failures (limiter (state w)))%N →
  (max_failures (limiter (state w)) ≤ len msgs)%N → (max_failures (limiter (state w)) < 2 ^ 32)%N →
  Forall (guess T (window (limiter (state w)))) msgs → op m = OpAuth →
  let w1 := at_time T (flood w msgs) in
  ∃ w2, message_turn m w1 = (Ok (close_with crc32 Unauthorized (Some InvalidPassword)), w2) ∧
    untouched (state w1) (state w2).
Proof.
  intros Hreq Hnone Hmax Hlen Hmax32 Hg Hop w1.
  destruct (flood_counted T (limiter (state w)) msgs w 0 Hreq Hmax32 Hmax Hg) as (Hw & Hm & _ & Hc & Hlim).
  { unfold counted, tracked. rewrite Hnone. split; [done|]. split; [done|].
    split; [intros x Hx; by apply elem_of_nil in Hx|]. unfold len; simpl; split; lia. }
  set (l := limiter (state (flood w msgs))) in *.
  assert (Hck : (check ip (T * SECOND) l).1 = false).
  { rewrite check_recent by congruence. apply N.ltb_ge. rewrite Hw, Hm.
    assert (length (recent (window (limiter (state w))) (T * SECOND) (tracked ip l)) ≤ length (tracked ip l))
      by apply length_filter.
    unfold len in *. rewrite wrap_small by lia. lia. }
  unfold serve_message. rewrite decide_True by done.
  unfold serve_auth, instant_now, mbind, IO_mbind, bind, now, ret, on_limiter.
  change (limiter (state w1)) with l. change (clock w1) with T.
  destruct (check ip (T * SECOND) l) as [b l']. simpl in Hck. subst b. by eexists.
Qed.

(** *** The connection *)

Section Loop.
Variable spare : nat → nat.
Variable max_payload_size : N.
Variable fin : Ending.
Hypothesis spare_pos : ∀ n, 1 ≤ spare n.

Abbreviation parse := (parse_protocol_message crc32 spare max_payload_size fin LiNaProtocol_new).
Abbreviation serve_all := (serve crc32 uuid_bytes others some_mapper mgr ip spare max_payload_size fin).

Lemma serve_answers `{!Returns others} fuel : ∀ segs w,
  length (concat segs) < fuel → no_crash (fates w) →
  ∃ out e w', serve_all fuel segs w = (Ok (out, e), w') ∧ e ≠ Fuel ∧ no_crash (fates w').
Proof.
  induction fuel as [|fuel IH]; intros segs w Hf Hw; [lia|]. simpl.
  pose proof (parse_fuel crc32 spare max_payload_size fin LiNaProtocol_new segs spare_pos) as Hp.
  destruct (parse segs) as [m rest|e| |] eqn:E; [|by eexists _, _, w|by eexists _, _, w|done].
  apply parse_consumes in E; [|done].
  destruct (returns_run (message_turn m) w Hw) as (turn & w1 & Em & Hw1).
  unfold mbind, IO_mbind, bind. rewrite Em. destruct (keep_open turn); [|by eexists _, _, w1].
  destruct (IH rest w1) as (out & e & w2 & Er & He & Hw2); [lia|done|]. rewrite Er.
  by eexists _, _, w2.
Qed.

(** C30 (termination): a connection handler comes to an end (it returns, or
    waits for a silent peer) whatever bytes arrive and however many database
    and file operations fail; no error escapes it. *)
Theorem waitress_answers segs w :
  Returns others → no_crash (fates w) →
  ∃ out e w', connection spare max_payload_size fin segs w = (Ok (out, e), w') ∧ e ≠ Fuel.
Proof.
  intros Ho Hw. unfold waitress, mbind, IO_mbind, bind, draw.
  destruct (serve_answers (S (length (concat segs))) segs (mkEnv (state w) (fates w) (clock w) (S (draws w))))
    as (out & e & w' & E & He & _); [lia|done|]. exists out, e, w'. done.
Qed.
(** The messages a peer gets to send before it is cut off. *)
Definition first_message (segs : list bytes) (m : LiNaProtocol) : Prop := ∃ rest, parse segs = Got m rest.

(** C4 (safety): the same for whole connections: whatever bytes a peer sends,
    in whatever segments, if its first message holds neither the password nor a
    live session, the connection changes nothing but the limiter's record, and
    at most one error reply is written. *)
Theorem connection_without_credentials segs w :
  auth_required mgr = true → no_crash (fates w) →
  (∀ m, first_message segs m → unprivileged (auth_db (state w)) (clock w) m) →
  ∃ out e w', connection spare max_payload_size fin segs w = (Ok (out, e), w') ∧
    untouched (state w) (state w') ∧
    (out = [] ∨ ∃ st c, out = write_error_response crc32 st c).
Proof.
  intros Hreq Hw Hun. unfold waitress, mbind, IO_mbind, bind, draw.
  set (w0 := mkEnv (state w) (fates w) (clock w) (S (draws w))). cbn [serve].
  pose proof (parse_fuel crc32 spare max_payload_size fin LiNaProtocol_new segs spare_pos) as Hp.
  destruct (parse segs) as [m rest|e| |] eqn:E.
  - destruct (unprivileged_turn w0 m Hreq Hw) as (st & c & w' & Em & Hu & _); [by apply Hun; exists rest|].
    unfold mbind, IO_mbind, bind. rewrite Em. simpl. eexists _, _, w'. split; [done|]. split; [exact Hu|eauto].
  - eexists _, _, w0. split_and!; [done..|by left].
  - eexists _, _, w0. split_and!; [done..|by left].
  - done.
Qed.
End Loop.
End Turns.

(** ** Requests on a quiet server *)

Section Requests.
Context {St : Type} `{OS : ObjectStore St} `{!ObjectStoreLaws St} `{P : Platform} `{PL : !PlatformLaws P}
  `{K : AuthCrypto}.
Variable crc32 : bytes → N.
Variable uuid_bytes : nat → bytes.
Variable mgr : AuthManager.
Variable ip : IpAddr.
Implicit Types (w : Env (Srv St)) (m : gmap string bytes) (t : gmap (string * string) string).

Abbreviation worker := (porter_turn uuid_bytes ORDER_QUEUE_CAPACITY).
Abbreviation turn_of := (serve_message crc32 uuid_bytes worker true mgr ip).

(** A message as a client sends it. *)
Definition request (fl : N) (ident d : bytes) : LiNaProtocol :=
  mkProtocol fl StatusNone (mkPayLoad (as_u8 (len ident)) ident (as_u32 (len d)) 0 d).

(** The turn is a reply with this status and data, and the connection goes on. *)
Definition answers (turn : Turn) (st : Status) (d : bytes) : Prop :=
  keep_open turn = true ∧ ∃ p, reply turn = frame (status_u8 st) p ∧
    data p = d ∧ dlen p = as_u32 (len d) ∧
    checksum p = calculate_checksum crc32 (mkProtocol 0 StatusNone p).

Lemma response_answers pkg :
  answers (mkTurn (serialize_protocol_message (package_response crc32 pkg)) true)
    (p_status pkg) (c_data (content pkg)).
Proof. split; [done|]. by eexists. Qed.

Lemma order_write k msg d w m t b key :
  Quiet w m t → object_path (identifier (payload msg)) = (b, key) → admissible m d →
  ∃ turn w', serve_order crc32 uuid_bytes worker true k msg OpWrite d w = (Ok turn, w') ∧
    (∃ x, answers turn Success x) ∧
    Quiet w' (<[uuid_v4 (draws w) := d]> m) (registered b key (uuid_v4 (draws w)) t).
Proof.
  intros HQ Hp Hadm. unfold serve_order. rewrite Hp. unfold resolve_identifier.
  destruct (register_quiet b key w m t HQ) as (w1 & E1 & HQ1 & Hd1).
  destruct (exchange_order uuid_bytes w1 m _ k (clock w) PutFile (flags msg) (draws w) d HQ1)
    as (r & m' & w2 & E2 & HQ2 & _ & Hr & ->).
  { intros pkg Hb Hdt. unfold feasible. by rewrite Hb, Hdt. }
  eexists _, w2. split; [|split; [|exact HQ2]].
  - unfold now, draw, mbind, IO_mbind, bind, ignore, bind, attempt. rewrite E1.
    cbn beta iota delta [ret behavior_of]. rewrite E2. reflexivity.
  - rewrite <- Hr. eexists. apply response_answers.
Qed.

(** Orders on a key that has a name. *)
Lemma order_named k msg o w m t b key n :
  o ≠ OpWrite → Quiet w m t → object_path (identifier (payload msg)) = (b, key) →
  t !! (b, key) = Some n → (o = OpDelete → removable m) →
  ∃ turn r m' w', serve_order crc32 uuid_bytes worker true k msg o [] w = (Ok turn, w') ∧
    answers turn (p_status r) (c_data (content r)) ∧ Quiet w' m' t ∧ draws w ≤ draws w' ∧
    outcome (behavior_of o) n [] m r m'.
Proof.
  intros Ho HQ Hp Ht Hrem. unfold serve_order. rewrite Hp.
  assert (Er : resolve_identifier (St:=St) true o b key =
    (r ← attempt (on_mapper (resolve b key));
     match r with inr (Some internal) => ret (inr internal) | _ => ret (inl FileNotFound) end))
    by by destruct o.
  rewrite Er. destruct (map_query_quiet (λ t, t !! (b, key)) w m t HQ) as (w1 & E1 & HQ1 & Hd1).
  rewrite Ht in E1. destruct (q_drawn _ _ _ HQ _ _ Ht) as (j & _ & ->).
  destruct (exchange_order uuid_bytes w1 m t k (clock w) (behavior_of o) (flags msg) j [] HQ1)
    as (r & m' & w2 & E2 & HQ2 & Hd & Hr).
  { intros pkg Hb _. unfold feasible. rewrite Hb. destruct o; simpl; try done; auto. }
  eexists _, r, m', w2. split; [|split; [apply response_answers|split; [exact HQ2|split; [lia|exact Hr]]]].
  unfold now, mbind, IO_mbind, bind, attempt, resolve. rewrite E1.
  cbn beta iota delta [ret]. rewrite E2. reflexivity.
Qed.

(** *** Requests that are let through *)

Definition bump w : Env (Srv St) := mkEnv (state w) (fates w) (clock w) (S (draws w)).
(** The session check passes and leaves everything in place. *)
Definition admits (tok : option string) w : Prop := ∀ m t, Quiet w m t →
  ∃ w1, authorize mgr tok w = (Ok (Some tok), w1) ∧ Quiet w1 m t ∧ draws w1 = draws w.

Lemma open_admits tok w : auth_required mgr = false → admits tok w.
Proof.
  intros Hr m t HQ. exists w. split; [|done]. unfold authorize, is_password_enabled. by rewrite Hr.
Qed.

Lemma session_admits sid row w :
  auth_required mgr = true → db_conn mgr = true → tokens_unique (auth_db (state w)) →
  sessions (auth_db (state w)) !! sid = Some row →
  (i64_of_u64 (clock w) + 60 < se_expires_at row)%Z → admits (Some (se_token row)) w.
Proof.
  intros Hreq Hdb Hu Hrow Hlive m t [Hc Ho Hw Hm Ht Hdr].
  destruct w as [[ob cv mp ad li] fs ck dr]; simpl in *.
  destruct (validate_session_row mgr 60 (mkEnv ad fs ck dr) sid row Hreq Hdb Hc Hu Hrow) as (w1 & E & Es).
  rewrite decide_True in E by done.
  assert (En : calm (fates w1) ∧ clock w1 = ck ∧ draws w1 = dr).
  { revert E. unfold validate_session. rewrite Hreq, Hdb. cbn [negb].
    unfold now, mbind, IO_mbind, bind, attempt, auth_get_user_id_by_token, auth_query, external.
    cbn [clock fates state draws]. destruct fs as [|f fs]; [by intros [= _ <-]|].
    apply Forall_cons in Hc as [-> Hc]. by intros [= _ <-]. }
  destruct w1 as [ad1 fs1 ck1 dr1]; simpl in *. destruct En as (Hc1 & -> & ->). subst ad1.
  eexists. split.
  - unfold authorize, is_password_enabled, on_auth, focus. rewrite Hreq.
    unfold mbind, IO_mbind, bind. cbn [state fates clock draws auth_db]. rewrite E. reflexivity.
  - split; [|done]. split; simpl; try done. by eapply stands_for_ext.
Qed.

Lemma admitted_turn msg tok d d' w m t :
  op msg ≠ OpAuth → split_token (op msg) (data (payload msg)) = (tok, d) →
  open_data mgr tok d = Some d' → admits tok (bump w) → Quiet w m t →
  ∃ w0, turn_of msg w = serve_order crc32 uuid_bytes worker true (draws w) msg (op msg) d' w0 ∧
    Quiet w0 m t ∧ draws w0 = S (draws w).
Proof.
  intros Ho Hs Hd Ha HQ. destruct (Ha m t) as (w0 & E & HQ0 & Hd0); [apply quiet_draws; [done|lia]|].
  exists w0. split; [|done]. unfold serve_message. rewrite decide_False by done.
  unfold draw, mbind, IO_mbind, bind. fold (bump w). rewrite Hs, E. by rewrite Hd.
Qed.

Lemma split_write_plain d : no_nul d → split_token OpWrite d = (None, d).
Proof. intros H%no_nul_forall%position_None. unfold split_token, nul_pos. by destruct d; [|rewrite H]. Qed.
Lemma split_write_field a rest :
  no_nul a → split_token OpWrite (a ++ NUL :: rest) = (from_utf8 a, rest).
Proof.
  intros H%no_nul_forall. unfold split_token, nul_pos.
  rewrite position_app_here; [|done|by apply bool_decide_eq_true].
  rewrite take_app_length, length_app. simpl.
  replace (drop (S (length a)) (a ++ NUL :: rest)) with rest.
  2: { rewrite drop_app_ge by lia. by replace (S (length a) - length a) with 1 by lia. }
  destruct (Nat.ltb_spec (S (length a)) (length a + S (length rest))).
  - by destruct a.
  - assert (rest = []) as -> by (destruct rest; simpl in *; [done|lia]). by destruct a.
Qed.

Lemma upload fw ident tok d d' w m t b key raw :
  from_flags fw = OpWrite → split_token OpWrite raw = (tok, d) → open_data mgr tok d = Some d' →
  admits tok (bump w) → object_path ident = (b, key) → Quiet w m t → admissible m d' →
  let n := uuid_v4 (S (draws w)) in
  ∃ r1 w1, turn_of (request fw ident raw) w = (Ok r1, w1) ∧ (∃ x, answers r1 Success x) ∧
    Quiet w1 (<[n := d']> m) (registered b key n t).
Proof.
  intros Hfw Hs Ho Ha Hp HQ Hadm n.
  assert (Eo : op (request fw ident raw) = OpWrite) by exact Hfw.
  destruct (admitted_turn (request fw ident raw) tok d d' w m t) as (w0 & E0 & HQ0 & Hd0);
    rewrite ?Eo; try done.
  rewrite Eo in E0.
  destruct (order_write (draws w) (request fw ident raw) d' w0 m t b key HQ0 Hp Hadm) as (r1 & w1 & E1 & Ha1 & HQ1).
  exists r1, w1. rewrite E0. unfold n. rewrite <- Hd0. done.
Qed.

(** A read or a delete, with a token or without. *)
Lemma named fr ident tok raw w m t b key n :
  from_flags fr ≠ OpWrite → from_flags fr ≠ OpAuth →
  split_token (from_flags fr) raw = (tok, []) → admits tok (bump w) →
  object_path ident = (b, key) → Quiet w m t → t !! (b, key) = Some n →
  (from_flags fr = OpDelete → removable m) →
  ∃ r2 r m' w2, turn_of (request fr ident raw) w = (Ok r2, w2) ∧
    answers r2 (p_status r) (c_data (content r)) ∧ Quiet w2 m' t ∧
    outcome (behavior_of (from_flags fr)) n [] m r m'.
Proof.
  intros Hfr Hfa Hs Ha Hp HQ Ht Hrem.
  assert (Eo : op (request fr ident raw) = from_flags fr) by done.
  destruct (admitted_turn (request fr ident raw) tok [] [] w m t) as (w0 & E0 & HQ0 & _);
    rewrite ?Eo; try done; [by destruct tok|].
  destruct (order_named (draws w) (request fr ident raw) (from_flags fr) w0 m t b key n Hfr HQ0 Hp Ht Hrem)
    as (r2 & r & m' & w2 & E2 & Ha2 & HQ2 & _ & Hr).
  exists r2, r, m', w2. rewrite E0. by split_and!.
Qed.

Lemma read_back fr ident tok raw w m t b key n :
  from_flags fr = OpRead → split_token OpRead raw = (tok, []) → admits tok (bump w) →
  object_path ident = (b, key) → Quiet w m t → t !! (b, key) = Some n →
  ∃ r2 w2, turn_of (request fr ident raw) w = (Ok r2, w2) ∧ Quiet w2 m t ∧
    match m !! n with Some d => answers r2 Success d | None => answers r2 FileNotFound [] end.
Proof.
  intros Hfr Hs Ha Hp HQ Ht.
  destruct (named fr ident tok raw w m t b key n) as (r2 & r & m' & w2 & E & Han & HQ2 & Hr); try done;
    [by rewrite Hfr..|].
  rewrite Hfr in Hr. destruct Hr as (-> & _ & Hr). exists r2, w2. split; [done|]. split; [done|].
  destruct (m !! n); destruct Hr as [<- <-]; [done|eauto].
Qed.

(** *** Without authentication *)

Section Open.
Hypothesis open_server : auth_required mgr = false.

(** C17 (roundtrip): with authentication off, a file written under a new bucket
    and key, whose bytes hold no NUL, is what a read of them answers. *)
Theorem write_then_read fw fr ident d w m t b key :
  from_flags fw = OpWrite → from_flags fr = OpRead → object_path ident = (b, key) →
  no_nul d → Quiet w m t → admissible m d → t !! (b, key) = None →
  ∃ r1 w1 r2 w2, turn_of (request fw ident d) w = (Ok r1, w1) ∧ (∃ x, answers r1 Success x) ∧
    turn_of (request fr ident []) w1 = (Ok r2, w2) ∧ answers r2 Success d.
Proof.
  intros Hfw Hfr Hp Hd HQ Hadm Ht.
  destruct (upload fw ident None d d w m t b key d) as (r1 & w1 & E1 & Ha & HQ1); try done;
    [by apply split_write_plain|by apply open_admits|].
  unfold registered in HQ1. rewrite bool_decide_eq_false_2 in HQ1 by (rewrite Ht; by intros []).
  destruct (read_back fr ident None [] w1 _ _ b key _ Hfr eq_refl (open_admits _ _ open_server) Hp HQ1
    (lookup_insert_eq _ _ _)) as (r2 & w2 & E2 & _ & Ha2).
  rewrite lookup_insert_eq in Ha2. eauto 10.
Qed.

(** With authentication off, a file is not stored as sent when it
    holds a NUL byte: what stands before the first one is taken for a session
    token, and only the rest is stored. *)
Theorem write_loses_prefix fw fr ident a rest w m t b key :
  from_flags fw = OpWrite → from_flags fr = OpRead → object_path ident = (b, key) →
  no_nul a → (∀ tok, from_utf8 a = Some tok → decrypt_with_token tok rest = None) →
  Quiet w m t → admissible m rest → t !! (b, key) = None →
  ∃ r1 w1 r2 w2, turn_of (request fw ident (a ++ NUL :: rest)) w = (Ok r1, w1) ∧ (∃ x, answers r1 Success x) ∧
    turn_of (request fr ident []) w1 = (Ok r2, w2) ∧ answers r2 Success rest.
Proof.
  intros Hfw Hfr Hp Ha Hdec HQ Hadm Ht.
  destruct (upload fw ident (from_utf8 a) rest rest w m t b key (a ++ NUL :: rest)) as (r1 & w1 & E1 & Ha1 & HQ1);
    try done; [by apply split_write_field| |by apply open_admits|].
  { unfold open_data, is_password_enabled. rewrite open_server. destruct (from_utf8 a) as [tok|]; [|done].
    destruct rest; [done|]. by rewrite Hdec. }
  unfold registered in HQ1. rewrite bool_decide_eq_false_2 in HQ1 by (rewrite Ht; by intros []).
  destruct (read_back fr ident None [] w1 _ _ b key _ Hfr eq_refl (open_admits _ _ open_server) Hp HQ1
    (lookup_insert_eq _ _ _)) as (r2 & w2 & E2 & _ & Ha2).
  rewrite lookup_insert_eq in Ha2. eauto 10.
Qed.

(** A delete by this protocol removes the object but not its row in
    the bucket table, and that makes the key useless: a later write answers
    [Success], and every read after it [FileNotFound]. *)
Theorem delete_poisons_key fd fw fr ident d w m t b key n :
  from_flags fd = OpDelete → from_flags fw = OpWrite → from_flags fr = OpRead →
  object_path ident = (b, key) → no_nul d → Quiet w m t → t !! (b, key) = Some n →
  removable m → admissible (delete n m) d →
  ∃ r0 w0 r1 w1 r2 w2, turn_of (request fd ident []) w = (Ok r0, w0) ∧ (∃ x, answers r0 Success x) ∧
    turn_of (request fw ident d) w0 = (Ok r1, w1) ∧ (∃ x, answers r1 Success x) ∧
    turn_of (request fr ident []) w1 = (Ok r2, w2) ∧ (∃ x, answers r2 FileNotFound x).
Proof.
  intros Hfd Hfw Hfr Hp Hd HQ Ht Hrem Hadm.
  destruct (named fd ident None [] w m t b key n) as (r0 & r & m' & w0 & E0 & Ha0 & HQ0 & Hr); try done;
    [by rewrite Hfd..|by apply open_admits|].
  rewrite Hfd in Hr. destruct Hr as [Hst ->]. rewrite Hst in Ha0.
  destruct (upload fw ident None d d w0 (delete n m) t b key d) as (r1 & w1 & E1 & Ha1 & HQ1); try done;
    [by apply split_write_plain|by apply open_admits|].
  unfold registered in HQ1. rewrite bool_decide_eq_true_2 in HQ1 by eauto.
  assert (Hne : uuid_v4 (S (draws w0)) ≠ n).
  { destruct (q_drawn _ _ _ HQ0 _ _ Ht) as (j & Hj & ->). intros E%uuid_unique. lia. }
  destruct (read_back fr ident None [] w1 _ t b key n Hfr eq_refl (open_admits _ _ open_server) Hp HQ1 Ht)
    as (r2 & w2 & E2 & _ & Ha2).
  rewrite lookup_insert_ne, lookup_delete_eq in Ha2 by done. eauto 15.
Qed.
End Open.

(** *** With authentication *)

(** C18 (functional): with authentication on, an upload under a live session
    stores, under the key it names, the decryption of what was sent. *)
Theorem encrypted_upload fw ident sealed d sid row w m t b key :
  auth_required mgr = true → db_conn mgr = true → tokens_unique (auth_db (state w)) →
  sessions (auth_db (state w)) !! sid = Some row →
  (i64_of_u64 (clock w) + 60 < se_expires_at row)%Z →
  valid_utf8 (str_bytes (se_token row)) = true → no_nul (str_bytes (se_token row)) →
  is_empty (se_token row) = false →
  from_flags fw = OpWrite → object_path ident = (b, key) →
  sealed ≠ [] → decrypt_with_token (se_token row) sealed = Some d →
  Quiet w m t → admissible m d →
  ∃ r1 w1, turn_of (request fw ident (str_bytes (se_token row) ++ NUL :: sealed)) w = (Ok r1, w1) ∧
    (∃ x, answers r1 Success x) ∧
    let n := uuid_v4 (S (draws w)) in Quiet w1 (<[n := d]> m) (registered b key n t).
Proof.
  intros Hreq Hdb Hu Hrow Hlive Hv Hnn Hne Hfw Hp Hs Hdec HQ Hadm.
  destruct (upload fw ident (Some (se_token row)) sealed d w m t b key
    (str_bytes (se_token row) ++ NUL :: sealed)) as (r1 & w1 & E1 & Ha & HQ1); try done.
  - rewrite split_write_field by done. unfold from_utf8. by rewrite Hv, bytes_str_bytes.
  - unfold open_data. destruct sealed; [done|]. by rewrite Hdec.
  - by eapply session_admits.
  - eauto.
Qed.
End Requests.

(** ** Witnesses *)

Definition demo_crc (b : bytes) : N := as_u32 (len b).
Definition demo_open : AuthManager := mkAuthManager false false None.
Definition demo_ip : string := "10.0.0.7".
Abbreviation demo_turn := (serve_message demo_crc demo_uuid (porter_turn demo_uuid ORDER_QUEUE_CAPACITY) true).
Definition demo_ident : bytes := str_bytes "photos" ++ NUL :: str_bytes "cat.png".
Lemma demo_object_path : object_path demo_ident = ("photos"%string, "cat.png"%string).
Proof. vm_compute. reflexivity. Qed.
Lemma hello_no_nul : no_nul demo_hello.
Proof. apply no_nul_forall. vm_compute. repeat constructor. Qed.

(** A password guess, a read with a made-up token, and bytes that are noise. *)
Definition demo_guess : LiNaProtocol := request 0x60 (str_bytes "root") (str_bytes "letmein").
Definition demo_snoop : LiNaProtocol := request 0x40 demo_ident (str_bytes "no such token").
Definition demo_bytes : list bytes :=
  [frame 0x40 (payload (with_checksum demo_crc demo_snoop))].

Lemma waitress_answers_witness :
  ∃ out e w', waitress demo_crc demo_uuid (ret tt) true demo_open demo_ip (λ _, 64) 1024 Eof
    demo_bytes demo_srv = (Ok (out, e), w') ∧ e ≠ Fuel.
Proof.
  apply (waitress_answers demo_crc demo_uuid (ret tt) true demo_open demo_ip (λ _, 64) 1024 Eof).
  - intros n. lia.
  - apply ret_returns.
  - constructor.
Defined.

Lemma unauthorized_untouched_witness :
  ∃ w', demo_turn demo_manager demo_ip demo_snoop demo_srv =
    (Ok (close_with demo_crc Unauthorized None), w') ∧ untouched (state demo_srv) (state w').
Proof.
  apply (unauthorized_untouched demo_crc demo_uuid _ true demo_manager demo_ip).
  - reflexivity.
  - constructor.
  - vm_compute. discriminate.
  - intros tk sid row _ Hs. discriminate Hs.
Defined.

Lemma connection_without_credentials_witness :
  ∃ out e w', waitress demo_crc demo_uuid (porter_turn demo_uuid ORDER_QUEUE_CAPACITY) true demo_manager
    demo_ip (λ _, 64) 1024 Eof demo_bytes demo_srv = (Ok (out, e), w') ∧
    untouched (state demo_srv) (state w') ∧ (out = [] ∨ ∃ st c, out = write_error_response demo_crc st c).
Proof.
  apply (connection_without_credentials demo_crc demo_uuid _ true demo_manager demo_ip (λ _, 64) 1024 Eof).
  - intros n. lia.
  - reflexivity.
  - constructor.
  - intros m [rest Hm]. vm_compute in Hm. injection Hm as <- _. intros tk sid row _ Hs. discriminate Hs.
Defined.

(** Five guesses in five seconds, then the right password. *)
Definition demo_flood : list (N * LiNaProtocol) := (λ t, (t, demo_guess)) <$> [100; 101; 102; 103; 104]%N.
Lemma flood_refused_witness :
  let w1 := at_time 105 (flood demo_crc demo_uuid (ret tt) true demo_manager demo_ip demo_srv demo_flood) in
  ∃ w2, serve_message demo_crc demo_uuid (ret tt) true demo_manager demo_ip
      (request 0x60 (str_bytes "root") (str_bytes "secret")) w1 =
    (Ok (close_with demo_crc Unauthorized (Some InvalidPassword)), w2) ∧ untouched (state w1) (state w2).
Proof.
  apply (flood_refused demo_crc demo_uuid (ret tt) true demo_manager demo_ip 105 demo_srv demo_flood);
    [reflexivity|reflexivity|reflexivity|vm_compute; discriminate|reflexivity| |vm_compute; reflexivity].
  repeat constructor; vm_compute; discriminate.
Defined.

Lemma write_then_read_witness :
  ∃ r1 w1 r2 w2, demo_turn demo_open demo_ip (request 0x80 demo_ident demo_hello) demo_srv = (Ok r1, w1) ∧
    (∃ x, answers demo_crc r1 Success x) ∧
    demo_turn demo_open demo_ip (request 0x40 demo_ident []) w1 = (Ok r2, w2) ∧
    answers demo_crc r2 Success demo_hello.
Proof.
  exact (write_then_read demo_crc demo_uuid demo_open demo_ip eq_refl 0x80 0x40 demo_ident demo_hello demo_srv
    ∅ ∅ "photos" "cat.png" eq_refl eq_refl demo_object_path hello_no_nul demo_quiet
    (demo_admissible _ _ roomy_empty) (lookup_empty _)).
Defined.

(** [ab\0cd] comes back as [cd]. *)
Lemma write_loses_prefix_witness :
  ∃ r1 w1 r2 w2, demo_turn demo_open demo_ip
      (request 0x80 demo_ident (str_bytes "ab" ++ NUL :: str_bytes "cd")) demo_srv = (Ok r1, w1) ∧
    (∃ x, answers demo_crc r1 Success x) ∧
    demo_turn demo_open demo_ip (request 0x40 demo_ident []) w1 = (Ok r2, w2) ∧
    answers demo_crc r2 Success (str_bytes "cd").
Proof.
  apply (write_loses_prefix demo_crc demo_uuid demo_open demo_ip eq_refl 0x80 0x40 demo_ident (str_bytes "ab")
    (str_bytes "cd") demo_srv ∅ ∅ "photos" "cat.png" eq_refl eq_refl demo_object_path).
  - apply no_nul_forall. vm_compute. repeat constructor.
  - intros tok _. reflexivity.
  - exact demo_quiet.
  - exact (demo_admissible _ _ roomy_empty).
  - exact (lookup_empty _).
Defined.

(** After one upload: delete, write again, read. *)
Lemma delete_poisons_key_witness :
  ∃ r w r0 w0 r1 w1 r2 w2,
    demo_turn demo_open demo_ip (request 0x80 demo_ident demo_hello) demo_srv = (Ok r, w) ∧
    demo_turn demo_open demo_ip (request 0xC0 demo_ident []) w = (Ok r0, w0) ∧
    (∃ x, answers demo_crc r0 Success x) ∧
    demo_turn demo_open demo_ip (request 0x80 demo_ident demo_hello) w0 = (Ok r1, w1) ∧
    (∃ x, answers demo_crc r1 Success x) ∧
    demo_turn demo_open demo_ip (request 0x40 demo_ident []) w1 = (Ok r2, w2) ∧
    (∃ x, answers demo_crc r2 FileNotFound x).
Proof.
  destruct (upload demo_crc demo_uuid demo_open demo_ip 0x80 demo_ident None demo_hello demo_hello demo_srv
    ∅ ∅ "photos" "cat.png" demo_hello eq_refl (split_write_plain _ hello_no_nul) eq_refl
    (open_admits demo_open _ _ eq_refl) demo_object_path demo_quiet (demo_admissible _ _ roomy_empty))
    as (r & w & E & _ & HQ).
  exists r, w. set (n := uuid_v4 (S (draws demo_srv))) in HQ.
  unfold registered in HQ. rewrite bool_decide_eq_false_2 in HQ
    by (rewrite lookup_empty; intros [x Hx]; discriminate Hx).
  rewrite !insert_empty in HQ.
  destruct (delete_poisons_key demo_crc demo_uuid demo_open demo_ip eq_refl 0xC0 0x80 0x40 demo_ident demo_hello
    w {[n := demo_hello]} {[("photos"%string, "cat.png"%string) := n]} "photos" "cat.png" n
    eq_refl eq_refl eq_refl demo_object_path hello_no_nul HQ (lookup_singleton_eq _ _) (roomy_single _ _))
    as (r0 & w0 & r1 & w1 & r2 & w2 & H).
  - rewrite delete_singleton_eq. exact (demo_admissible _ _ roomy_empty).
  - exists r0, w0, r1, w1, r2, w2. split; [exact E|exact H].
Defined.

(** A server on which a session is open. *)
Definition demo_row : SessionRow := mkSessionRow "tok" "u" 4000 400.
Definition demo_session_srv : Env (Srv Store) :=
  mkEnv (set_auth_db (mkAuthDb ∅ {["s"%string := demo_row]}) (state demo_srv)) [] 0 0.
Lemma encrypted_upload_witness :
  ∃ r1 w1, demo_turn demo_manager demo_ip
      (request 0x80 demo_ident (str_bytes "tok" ++ NUL :: replicate 12 "n"%char ++ demo_hello)) demo_session_srv
      = (Ok r1, w1) ∧ (∃ x, answers demo_crc r1 Success x) ∧
    Quiet w1 (<[uuid_v4 1 := demo_hello]> ∅) (registered "photos" "cat.png" (uuid_v4 1) ∅).
Proof.
  apply (encrypted_upload demo_crc demo_uuid demo_manager demo_ip 0x80 demo_ident
    (replicate 12 "n"%char ++ demo_hello) demo_hello "s" demo_row demo_session_srv ∅ ∅ "photos" "cat.png").
  - reflexivity.
  - reflexivity.
  - intros i j r r'. cbn [demo_session_srv state set_auth_db auth_db sessions].
    rewrite !lookup_singleton_Some. intros [<- _] [<- _] _. reflexivity.
  - exact (lookup_singleton_eq _ _).
  - reflexivity.
  - vm_compute. reflexivity.
  - apply no_nul_forall. vm_compute. repeat constructor.
  - reflexivity.
  - reflexivity.
  - exact demo_object_path.
  - discriminate.
  - vm_compute. reflexivity.
  - apply (quiet_auth _ demo_srv), demo_quiet.
  - exact (demo_admissible _ _ roomy_empty).
Defined.
