(* ===== verification/S3.v ===== *)
(** * The S3-compatible front end ([linastore-server/src/front/s3_service.rs])

    XML replies, request paths, and the handler [handle_s3]: one definition per
    method it serves.  The HTTP library and its time-outs are outside; a request
    is its method, its URI and its body, if the body can be read. *)
From stdpp Require Import pretty.
From S2P Require Import Prelude Io Runs Strs World Wire ObjectStore Conveyer Porter Mapper Auth Server.
From S2P Require Import Block Manager DemoServer.

(** ** Text *)

(** The double quote. *)
Definition QUOT : ascii := Ascii false true false false false true false false.
Definition DQ : string := String QUOT EmptyString.
Definition S3_XML_NAMESPACE : string := "http://s3.amazonaws.com/doc/2006-03-01/".
Definition NL : string := String (byte_of 10) EmptyString.
Definition XML_DECL : string :=
  "<?xml version=" +:+ DQ +:+ "1.0" +:+ DQ +:+ " encoding=" +:+ DQ +:+ "UTF-8" +:+ DQ +:+ "?>" +:+ NL.

Definition escape_xml (s : string) : string :=
  replace_char QUOT "&quot;"
    (replace_char "'" "&apos;"
      (replace_char ">" "&gt;"
        (replace_char "<" "&lt;"
          (replace_char "&" "&amp;" s)))).

Definition s3_error_xml (code message resource : string) : string :=
  XML_DECL +:+ "<Error><Code>" +:+ code +:+ "</Code><Message>" +:+ message
    +:+ "</Message><Resource>" +:+ resource +:+ "</Resource></Error>".

Definition list_buckets_xml (buckets : list string) : string :=
  let inner := foldl (λ acc b, acc +:+ "<Bucket><Name>" +:+ escape_xml b +:+ "</Name></Bucket>")
                 EmptyString buckets in
  XML_DECL +:+ "<ListAllMyBucketsResult xmlns=" +:+ DQ +:+ S3_XML_NAMESPACE +:+ DQ +:+ "><Buckets>"
    +:+ inner +:+ "</Buckets></ListAllMyBucketsResult>".

Definition list_objects_xml (files : list (string * string)) (bucket prefix : string)
    (max_keys : N) (is_truncated : bool) : string :=
  let contents := foldl (λ acc kv, acc +:+ "<Contents><Key>" +:+ escape_xml kv.1
      +:+ "</Key><Size>0</Size><StorageClass>STANDARD</StorageClass></Contents>") EmptyString files in
  XML_DECL +:+ "<ListBucketResult xmlns=" +:+ DQ +:+ S3_XML_NAMESPACE +:+ DQ +:+ "><IsTruncated>"
    +:+ (if is_truncated then "true" else "false") +:+ "</IsTruncated><Name>" +:+ escape_xml bucket
    +:+ "</Name><Prefix>" +:+ escape_xml prefix +:+ "</Prefix><MaxKeys>" +:+ pretty max_keys
    +:+ "</MaxKeys><KeyCount>" +:+ pretty (len files) +:+ "</KeyCount>" +:+ contents
    +:+ "</ListBucketResult>".

Definition get_mime_type (filename : string) : string :=
  match extension filename with
  | Some e =>
      if String.eqb e "jpeg" || String.eqb e "jpg" then "image/jpeg"
      else if String.eqb e "png" then "image/png"
      else if String.eqb e "mp4" then "video/mp4"
      else if String.eqb e "pdf" then "application/pdf"
      else if String.eqb e "txt" then "text/plain"
      else if String.eqb e "json" then "application/json"
      else if String.eqb e "html" then "text/html"
      else "application/octet-stream"
  | None => "application/octet-stream"
  end.

(** Bucket and key of a path: the key is what follows the second slash. *)
Definition parse_s3_path (path : string) : option string * option string :=
  let path := default path (strip_prefix "/" path) in
  if is_empty path then (None, None)
  else match find_char SLASH path with
       | Some i => (Some (str_take i path), Some (str_drop (S i) path))
       | None => (Some path, None)
       end.

(** [v.parse::<u32>()] *)
Fixpoint parse_digits (acc : N) (s : string) : option N :=
  match s with
  | EmptyString => Some acc
  | String c s' =>
      if ((48 <=? to_u8 c) && (to_u8 c <=? 57))%N
      then let acc := (acc * 10 + (to_u8 c - 48))%N in
           if (acc <? 2 ^ 32)%N then parse_digits acc s' else None
      else None
  end.
Definition parse_u32 (s : string) : option N :=
  let s := default s (strip_prefix "+" s) in
  if is_empty s then None else parse_digits 0 s.

(** [query.split('&').find_map(...)] *)
Definition find_map {A B} (f : A → option B) (l : list A) : option B := head (omap f l).

(** ** Replies *)

Record Response := mkResponse { code : N; headers : list (string * string); body : bytes }.

Definition build_response (status : N) (text content_type : string) : Response :=
  mkResponse status [("Content-Type", content_type); ("Content-Length", pretty (len (str_bytes text)))]%string
    (str_bytes text).
Definition build_empty_response (status : N) : Response := mkResponse status [] [].

Inductive Method := GET | HEAD | PUT | DELETE | OtherMethod.

Section S3.
Context {St : Type} `{OS : ObjectStore St} `{P : Platform}.
Variable uuid_bytes : nat → bytes.
Variable others : IO (Srv St) unit.
(** [get_mapper().is_some()] *)
Variable some_mapper : bool.

Abbreviation process := (process_through_queue uuid_bytes others).

Definition etag : IO (Srv St) (string * string) :=
  k ← draw; ret ("ETag"%string, DQ +:+ replace_char "-" EmptyString (uuid_v4 k) +:+ DQ).

(** [m.resolve(b, k).await.unwrap_or(None)], with and without a mapper. *)
Definition lookup_name (bucket key : string) : IO (Srv St) (option string) :=
  if some_mapper then
    r ← attempt (on_mapper (resolve bucket key));
    match r with inr n => ret n | inl _ => ret None end
  else ret None.

Definition not_found (key : string) : Response :=
  build_response 404 (s3_error_xml "NoSuchKey" "The specified key does not exist." key) "application/xml".
Definition internal_error (message key : string) : Response :=
  build_response 500 (s3_error_xml "InternalError" message key) "application/xml".

Definition s3_list_buckets : IO (Srv St) Response :=
  buckets ← (if some_mapper then
               r ← attempt (on_mapper list_buckets);
               match r with inr bs => ret bs | inl _ => ret ["linastore"%string] end
             else ret ["linastore"%string]);
  ret (build_response 200 (list_buckets_xml buckets) "application/xml").

Definition s3_list_objects (bucket query : string) : IO (Srv St) Response :=
  let parts := split_on "&" query in
  let prefix := default EmptyString (find_map (strip_prefix "prefix=") parts) in
  let max_keys := default 1000%N
    (find_map (λ p, v ← strip_prefix "max-keys=" p; parse_u32 v) parts) in
  files ← (if some_mapper then
             r ← attempt (on_mapper (list_bucket bucket prefix));
             match r with inr fs => ret fs | inl _ => ret [] end
           else ret []);
  let total := as_u32 (len files) in
  let is_truncated := (max_keys <? total)%N in
  let shown := take (N.to_nat max_keys) files in
  ret (build_response 200 (list_objects_xml shown bucket prefix max_keys is_truncated) "application/xml").

Definition s3_get (bucket key : string) : IO (Srv St) Response :=
  internal_name ← lookup_name bucket key;
  match internal_name with
  | Some name =>
      r ← process GetFile name [];
      match r with
      | inr pkg =>
          e ← etag;
          let d := c_data (content pkg) in
          ret (mkResponse 200 [("Content-Type", get_mime_type key);
                               ("Content-Length", pretty (len d)); e]%string d)
      | inl FileNotFound => ret (not_found key)
      | inl _ => ret (internal_error "Internal server error" key)
      end
  | None => ret (not_found key)
  end.

Definition s3_head (path : string) : IO (Srv St) Response :=
  match (parse_s3_path path).2 with
  | None => ret (build_empty_response 400)
  | Some k =>
      internal_name ← match (parse_s3_path path).1 with
                      | Some b => lookup_name b k
                      | None => ret None
                      end;
      match internal_name with
      | Some name =>
          r ← process GetFile name [];
          match r with
          | inr pkg =>
              e ← etag;
              ret (mkResponse 200 [("Content-Type", get_mime_type k);
                                   ("Content-Length", pretty (len (c_data (content pkg)))); e]%string [])
          | inl _ => ret (build_empty_response 404)
          end
      | None => ret (build_empty_response 404)
      end
  end.

Definition s3_put (path : string) (req_body : option bytes) : IO (Srv St) Response :=
  match parse_s3_path path with
  | (_, None) => ret (build_response 200 EmptyString "application/xml")
  | (None, Some _) =>
      ret (build_response 400 (s3_error_xml "BadRequest" "Bucket name required" EmptyString) "application/xml")
  | (Some bucket, Some key) =>
      match req_body with
      | None =>
          ret (build_response 400 (s3_error_xml "BadRequest" "Failed to read request body" key) "application/xml")
      | Some body_bytes =>
          k ← draw;
          let internal_name := uuid_v4 k in
          (if some_mapper then ignore (on_mapper (register bucket key internal_name)) else ret tt);;
          r ← process PutFile internal_name body_bytes;
          match r with
          | inr _ => e ← etag; ret (mkResponse 200 [e] [])
          | inl _ => ret (internal_error "Failed to store object" key)
          end
      end
  end.

Definition s3_delete (path : string) : IO (Srv St) Response :=
  match parse_s3_path path with
  | (Some b, Some k) =>
      internal_name ← lookup_name b k;
      match internal_name with
      | Some name =>
          ignore (on_mapper (delete_mapping b k));;
          process DeleteFile name [];;
          ret (build_empty_response 204)
      | None => ret (build_empty_response 204)
      end
  | _ => ret (build_empty_response 204)
  end.

Definition handle_s3 (method : Method) (uri : string) (req_body : option bytes) : IO (Srv St) Response :=
  let parts := split_on "?" uri in
  let path := default uri (parts !! 0) in
  let query := default EmptyString (parts !! 1) in
  match method with
  | GET =>
      match parse_s3_path path with
      | (None, _) => s3_list_buckets
      | (Some bucket, None) => s3_list_objects bucket query
      | (Some bucket, Some key) => s3_get bucket key
      end
  | HEAD => s3_head path
  | PUT => s3_put path req_body
  | DELETE => s3_delete path
  | OtherMethod =>
      ret (build_response 405 (s3_error_xml "MethodNotAllowed"
        "The specified method is not allowed against this resource." path) "application/xml")
  end.
End S3.

(** ** Lemmas: XML text *)

Definition entity (c : ascii) : string :=
  if ascii_dec c "&" then "&amp;"
  else if ascii_dec c "<" then "&lt;"
  else if ascii_dec c ">" then "&gt;"
  else if ascii_dec c "'" then "&apos;"
  else if ascii_dec c QUOT then "&quot;"
  else String c EmptyString.
(** The one-pass escape the five replacements amount to. *)
Fixpoint escape_chars (s : string) : string :=
  match s with EmptyString => EmptyString | String c s' => entity c +:+ escape_chars s' end.

Lemma replace_char_app c r a b : replace_char c r (a +:+ b) = replace_char c r a +:+ replace_char c r b.
Proof.
  induction a as [|x a IH]; simpl; [done|]. destruct (ascii_dec x c); rewrite IH; [|done].
  by rewrite str_app_assoc.
Qed.

Lemma escape_xml_chars s : escape_xml s = escape_chars s.
Proof.
  unfold escape_xml. induction s as [|c s IH]; [done|].
  change (String c s) with (String c EmptyString +:+ s). rewrite !replace_char_app, IH.
  change (escape_chars (String c EmptyString +:+ s)) with (entity c +:+ escape_chars s). f_equal.
  unfold entity. simpl.
  destruct (ascii_dec c "&") as [->|H1]; [by vm_compute|]. simpl.
  destruct (ascii_dec c "<") as [->|H2]; [by vm_compute|]. simpl.
  destruct (ascii_dec c ">") as [->|H3]; [by vm_compute|]. simpl.
  destruct (ascii_dec c "'") as [->|H4]; [by vm_compute|]. simpl.
  by destruct (ascii_dec c QUOT) as [->|H5].
Qed.

(** A reader of character data: the five entities. *)
Fixpoint unescape_fuel (fuel : nat) (s : string) : string :=
  match fuel, s with
  | S fuel', String c s' =>
      match strip_prefix "&amp;" s, strip_prefix "&lt;" s, strip_prefix "&gt;" s,
            strip_prefix "&apos;" s, strip_prefix "&quot;" s with
      | Some r, _, _, _, _ => String "&" (unescape_fuel fuel' r)
      | _, Some r, _, _, _ => String "<" (unescape_fuel fuel' r)
      | _, _, Some r, _, _ => String ">" (unescape_fuel fuel' r)
      | _, _, _, Some r, _ => String "'" (unescape_fuel fuel' r)
      | _, _, _, _, Some r => String QUOT (unescape_fuel fuel' r)
      | _, _, _, _, _ => String c (unescape_fuel fuel' s')
      end
  | _, _ => EmptyString
  end.
Definition markup (c : ascii) : Prop := to_u8 c = 60%N ∨ to_u8 c = 62%N ∨ to_u8 c = 34%N ∨ to_u8 c = 39%N.

Lemma unescape_escape fuel s :
  String.length s ≤ fuel → unescape_fuel fuel (escape_chars s) = s.
Proof.
  revert s. induction fuel as [|fuel IH]; intros [|c s] Hf; simpl in Hf; try done; try lia.
  assert (IH' : unescape_fuel fuel (escape_chars s) = s) by (apply IH; lia).
  simpl escape_chars. unfold entity.
  destruct (ascii_dec c "&") as [->|H1]; [exact (f_equal (String _) IH')|].
  destruct (ascii_dec c "<") as [->|H2]; [exact (f_equal (String _) IH')|].
  destruct (ascii_dec c ">") as [->|H3]; [exact (f_equal (String _) IH')|].
  destruct (ascii_dec c "'") as [->|H4]; [exact (f_equal (String _) IH')|].
  destruct (ascii_dec c QUOT) as [->|H5]; [exact (f_equal (String _) IH')|].
  change (String c EmptyString +:+ escape_chars s) with (String c (escape_chars s)).
  cbn [unescape_fuel strip_prefix].
  destruct (ascii_dec "&" c) as [E|_]; [by subst c; destruct H1|]. by rewrite IH'.
Qed.

Lemma escape_chars_plain s : Forall (λ c, ¬ markup c) (str_bytes (escape_chars s)).
Proof.
  induction s as [|c s IH]; [constructor|]. simpl escape_chars. rewrite str_bytes_app.
  apply Forall_app. split; [|done]. unfold entity, markup.
  repeat (case_match; [repeat (apply Forall_cons; split; [vm_compute; intuition discriminate|]); constructor|]).
  apply Forall_cons. split; [|constructor].
  intros [E|[E|[E|E]]]; [apply n0|apply n1|apply n3|apply n2]; by apply to_u8_inj.
Qed.

(** Text put into a reply by [escape_xml] is inert (no angle
    bracket or quote is left of it) and is read back unchanged. *)
Theorem escape_xml_roundtrip s :
  Forall (λ c, ¬ markup c) (str_bytes (escape_xml s)) ∧
  unescape_fuel (String.length s) (escape_xml s) = s.
Proof. rewrite escape_xml_chars. split; [apply escape_chars_plain|by apply unescape_escape]. Qed.

(** ** The handler on a quiet server *)

Section S3Proofs.
Context {St : Type} `{OS : ObjectStore St} `{!ObjectStoreLaws St} `{P : Platform} `{PL : !PlatformLaws P}.
Variable uuid_bytes : nat → bytes.
Implicit Types (w : Env (Srv St)) (m : gmap string bytes) (t : gmap (string * string) string).

Abbreviation worker := (porter_turn uuid_bytes ORDER_QUEUE_CAPACITY).
Abbreviation s3 := (handle_s3 uuid_bytes worker true).

Lemma process_quiet w m t b k data :
  Quiet w m t → (∀ pkg, behavior pkg = b → c_data (content pkg) = data → feasible pkg m) →
  ∃ r m' w', process_through_queue uuid_bytes worker b (uuid_v4 k) data w =
      (Ok (if decide (p_status r = Success) then inr r else inl (p_status r)), w') ∧
    Quiet w' m' t ∧ draws w ≤ draws w' ∧ outcome b (uuid_v4 k) data m r m'.
Proof.
  intros HQ Hfe. unfold process_through_queue, draw, now, mbind, IO_mbind, bind at 1 2.
  destruct w as [st fs ck dr]. cbn [draws state fates clock].
  destruct (exchange_order uuid_bytes _ m t dr ck b 0 k data (quiet_draws _ _ _ (S dr) HQ ltac:(simpl; lia)) Hfe)
    as (r & m' & w' & Hex & HQ' & Hd & He).
  exists r, m', w'. split; [|cbn [draws] in Hd; split; [done|]; split; [lia|done]].
  unfold bind. cbn [clock]. cbn [state fates clock] in Hex. rewrite Hex. by destruct (decide _).
Qed.

Lemma lookup_name_quiet b k w m t :
  Quiet w m t → ∃ w', lookup_name true b k w = (Ok (t !! (b, k)), w') ∧ Quiet w' m t ∧ draws w' = draws w.
Proof.
  intros HQ. destruct (map_query_quiet (λ t, t !! (b, k)) w m t HQ) as (w' & E & HQ' & Hd).
  exists w'. split; [|done]. unfold lookup_name, resolve, mbind, IO_mbind, bind, attempt. by rewrite E.
Qed.

Lemma etag_quiet w m t : Quiet w m t → ∃ e w', etag (St:=St) w = (Ok e, w') ∧ Quiet w' m t ∧ draws w ≤ draws w'.
Proof.
  intros HQ. eexists _, _. split; [reflexivity|]. simpl. split; [apply quiet_draws; [done|lia]|lia].
Qed.

(** The path of a request. *)
Definition uri_path (uri : string) : string := default uri (split_on "?" uri !! 0).
Definition addresses (uri b k : string) : Prop := parse_s3_path (uri_path uri) = (Some b, Some k).
Lemma put_quiet uri b k d w m t :
  Quiet w m t → addresses uri b k → admissible m d →
  ∃ resp w', s3 PUT uri (Some d) w = (Ok resp, w') ∧ code resp = 200%N ∧ body resp = [] ∧
    Quiet w' (<[uuid_v4 (draws w) := d]> m) (registered b k (uuid_v4 (draws w)) t).
Proof.
  intros HQ Ha Hadm. unfold handle_s3. fold (uri_path uri). unfold s3_put. rewrite Ha.
  destruct (register_quiet b k w m t HQ) as (w1 & E1 & HQ1 & Hd1).
  destruct (process_quiet w1 m _ PutFile (draws w) d HQ1) as (r & m' & w2 & E2 & HQ2 & _ & Hr & ->).
  { intros pkg Hb Hdt. unfold feasible. by rewrite Hb, Hdt. }
  destruct (etag_quiet w2 _ _ HQ2) as (e & w3 & E3 & HQ3 & _).
  exists (mkResponse 200 [e] []), w3. split; [|by split_and!].
  unfold draw, mbind, IO_mbind, bind, ignore, bind, attempt. rewrite E1.
  cbn beta iota delta [ret]. rewrite E2, Hr, decide_True by done. cbn beta iota. by rewrite E3.
Qed.

Lemma get_quiet uri b k n d w m t :
  Quiet w m t → addresses uri b k → t !! (b, k) = Some n → m !! n = Some d →
  ∃ resp w', s3 GET uri None w = (Ok resp, w') ∧ code resp = 200%N ∧ body resp = d ∧ Quiet w' m t.
Proof.
  intros HQ Ha Ht Hd. unfold handle_s3. fold (uri_path uri). rewrite Ha. unfold s3_get.
  destruct (lookup_name_quiet b k w m t HQ) as (w1 & E1 & HQ1 & _). rewrite Ht in E1.
  destruct (q_drawn _ _ _ HQ _ _ Ht) as (j & _ & ->).
  destruct (process_quiet w1 m t GetFile j [] HQ1) as (r & m' & w2 & E2 & HQ2 & _ & (-> & _ & Hr)).
  { intros pkg Hb _. unfold feasible. by rewrite Hb. }
  rewrite Hd in Hr. destruct Hr as [Hr Hdata].
  destruct (etag_quiet w2 m t HQ2) as (e & w3 & E3 & HQ3 & _).
  eexists _, w3. split; [unfold mbind, IO_mbind, bind; rewrite E1, E2, Hr, decide_True, E3 by done; reflexivity|].
  split; [done|]. split; [exact Hdata|done].
Qed.

Lemma get_missing uri b k w m t :
  Quiet w m t → addresses uri b k → t !! (b, k) = None →
  ∃ resp w', s3 GET uri None w = (Ok resp, w') ∧ code resp = 404%N ∧
    body resp = str_bytes (s3_error_xml "NoSuchKey" "The specified key does not exist." k) ∧ Quiet w' m t.
Proof.
  intros HQ Ha Ht. unfold handle_s3. fold (uri_path uri). rewrite Ha. unfold s3_get.
  destruct (lookup_name_quiet b k w m t HQ) as (w1 & E1 & HQ1 & _). rewrite Ht in E1.
  eexists _, w1. split; [unfold mbind, IO_mbind, bind; rewrite E1; reflexivity|done].
Qed.

(** C16 (roundtrip): an object put under a new key comes back.  From the HTTP
    request through the bucket table, the order queue, the worker, the store
    and back: a GET of the key after the PUT answers 200 with exactly the body
    that was put. *)
Theorem s3_put_then_get uri b k d w m t :
  Quiet w m t → addresses uri b k → admissible m d → t !! (b, k) = None →
  ∃ r1 w1 r2 w2, s3 PUT uri (Some d) w = (Ok r1, w1) ∧ code r1 = 200%N ∧
    s3 GET uri None w1 = (Ok r2, w2) ∧ code r2 = 200%N ∧ body r2 = d.
Proof.
  intros HQ Ha Hadm Ht. destruct (put_quiet uri b k d w m t HQ Ha Hadm) as (r1 & w1 & E1 & H1 & _ & HQ1).
  unfold registered in HQ1. rewrite bool_decide_eq_false_2 in HQ1 by (rewrite Ht; by intros [? [=]]).
  destruct (get_quiet uri b k _ d w1 _ _ HQ1 Ha (lookup_insert_eq _ _ _) (lookup_insert_eq _ _ _))
    as (r2 & w2 & E2 & H2 & H3 & _).
  exists r1, w1, r2, w2. done.
Qed.

(** The same for a key that exists already: the PUT answers 200 and
    stores the new body, but [INSERT OR IGNORE] leaves the key on its first
    name, and every later GET answers with the old contents. *)
Theorem s3_second_put_lost uri b k d w m t n old :
  Quiet w m t → addresses uri b k → admissible m d → t !! (b, k) = Some n → m !! n = Some old →
  ∃ r1 w1 r2 w2, s3 PUT uri (Some d) w = (Ok r1, w1) ∧ code r1 = 200%N ∧
    s3 GET uri None w1 = (Ok r2, w2) ∧ code r2 = 200%N ∧ body r2 = old.
Proof.
  intros HQ Ha Hadm Ht Hold. destruct (put_quiet uri b k d w m t HQ Ha Hadm) as (r1 & w1 & E1 & H1 & _ & HQ1).
  unfold registered in HQ1. rewrite bool_decide_eq_true_2 in HQ1 by eauto.
  assert (Hne : uuid_v4 (draws w) ≠ n).
  { destruct (q_drawn _ _ _ HQ _ _ Ht) as (j & Hj & ->). intros E%uuid_unique. lia. }
  destruct (get_quiet uri b k n old w1 _ t HQ1 Ha Ht) as (r2 & w2 & E2 & H2 & H3 & _).
  { by rewrite lookup_insert_ne. }
  exists r1, w1, r2, w2. done.
Qed.

Lemma delete_quiet uri b k n w m t :
  Quiet w m t → addresses uri b k → t !! (b, k) = Some n → removable m →
  ∃ resp w', s3 DELETE uri None w = (Ok resp, w') ∧ code resp = 204%N ∧ body resp = [] ∧
    Quiet w' (delete n m) (delete (b, k) t).
Proof.
  intros HQ Ha Ht Hrem. unfold handle_s3. fold (uri_path uri). unfold s3_delete. rewrite Ha.
  destruct (lookup_name_quiet b k w m t HQ) as (w1 & E1 & HQ1 & Hd1). rewrite Ht in E1.
  destruct (q_drawn _ _ _ HQ _ _ Ht) as (j & Hj & ->).
  destruct (map_execute_quiet (delete (b, k)) w1 m t HQ1) as (w2 & E2 & HQ2 & Hd2).
  { intros bk x [_ ?]%lookup_delete_Some. by left. }
  destruct (process_quiet w2 m _ DeleteFile j [] HQ2) as (r & m' & w3 & E3 & HQ3 & _ & Hr & ->).
  { intros pkg Hb _. unfold feasible. by rewrite Hb. }
  exists (build_empty_response 204), w3. split; [|split_and!; [done..|exact HQ3]].
  unfold mbind, IO_mbind, bind, ignore, bind, attempt, delete_mapping. rewrite E1.
  cbn beta iota delta [ret]. rewrite E2. cbn beta iota delta [ret]. rewrite E3. reflexivity.
Qed.

(** DELETE removes the key and the object: both the table and
    the store have lost their entry, and a GET of the key answers 404. *)
Theorem s3_delete_then_gone uri b k n w m t :
  Quiet w m t → addresses uri b k → t !! (b, k) = Some n → removable m →
  ∃ r1 w1 r2 w2, s3 DELETE uri None w = (Ok r1, w1) ∧ code r1 = 204%N ∧
    Quiet w1 (delete n m) (delete (b, k) t) ∧
    s3 GET uri None w1 = (Ok r2, w2) ∧ code r2 = 404%N.
Proof.
  intros HQ Ha Ht Hrem. destruct (delete_quiet uri b k n w m t HQ Ha Ht Hrem) as (r1 & w1 & E1 & H1 & _ & HQ1).
  destruct (get_missing uri b k w1 _ _ HQ1 Ha (lookup_delete_eq _ _)) as (r2 & w2 & E2 & H2 & _).
  by exists r1, w1, r2, w2.
Qed.
End S3Proofs.

(** ** Witnesses: the manager's store behind the front end *)

Definition demo_uri : string := "/photos/cat.png?versionId=1".
Lemma demo_addresses : addresses demo_uri "photos" "cat.png".
Proof. vm_compute. reflexivity. Qed.
Abbreviation demo_s3 := (handle_s3 demo_uuid (porter_turn demo_uuid ORDER_QUEUE_CAPACITY) true).

(** The server after one PUT. *)
Lemma demo_put_quiet : ∃ r w n, demo_s3 PUT demo_uri (Some demo_hello) demo_srv = (Ok r, w) ∧
  Quiet w {[n := demo_hello]} {[("photos", "cat.png")%string := n]}.
Proof.
  destruct (put_quiet demo_uuid demo_uri "photos" "cat.png" demo_hello demo_srv ∅ ∅ demo_quiet
    demo_addresses (demo_admissible _ _ roomy_empty)) as (r & w & E & _ & _ & HQ).
  exists r, w, (uuid_v4 (draws demo_srv)). split; [exact E|].
  unfold registered in HQ. rewrite bool_decide_eq_false_2 in HQ.
  - rewrite !insert_empty in HQ. exact HQ.
  - rewrite lookup_empty. intros [x Hx]. discriminate Hx.
Qed.

Lemma s3_put_then_get_witness : ∃ r1 w1 r2 w2,
  demo_s3 PUT demo_uri (Some demo_hello) demo_srv = (Ok r1, w1) ∧ code r1 = 200%N ∧
  demo_s3 GET demo_uri None w1 = (Ok r2, w2) ∧ code r2 = 200%N ∧ body r2 = demo_hello.
Proof.
  exact (s3_put_then_get demo_uuid demo_uri "photos" "cat.png" demo_hello demo_srv ∅ ∅ demo_quiet
    demo_addresses (demo_admissible _ _ roomy_empty) (lookup_empty _)).
Defined.

(** PUT twice, and the first contents come back. *)
Lemma s3_second_put_lost_witness : ∃ r0 w0 r1 w1 r2 w2,
  demo_s3 PUT demo_uri (Some demo_hello) demo_srv = (Ok r0, w0) ∧
  demo_s3 PUT demo_uri (Some demo_input) w0 = (Ok r1, w1) ∧ code r1 = 200%N ∧
  demo_s3 GET demo_uri None w1 = (Ok r2, w2) ∧ code r2 = 200%N ∧ body r2 = demo_hello.
Proof.
  destruct demo_put_quiet as (r0 & w0 & n & E & HQ). exists r0, w0.
  destruct (s3_second_put_lost demo_uuid demo_uri "photos" "cat.png" demo_input w0 _ _ n demo_hello
    HQ demo_addresses (demo_admissible _ _ (roomy_single _ _))
    (lookup_singleton_eq _ _) (lookup_singleton_eq _ _)) as (r1 & w1 & r2 & w2 & H).
  exists r1, w1, r2, w2. split; [exact E|exact H].
Defined.

Lemma s3_delete_then_gone_witness : ∃ r0 w0 r1 w1 r2 w2,
  demo_s3 PUT demo_uri (Some demo_hello) demo_srv = (Ok r0, w0) ∧
  demo_s3 DELETE demo_uri None w0 = (Ok r1, w1) ∧ code r1 = 204%N ∧
  demo_s3 GET demo_uri None w1 = (Ok r2, w2) ∧ code r2 = 404%N.
Proof.
  destruct demo_put_quiet as (r0 & w0 & n & E & HQ). exists r0, w0.
  destruct (s3_delete_then_gone demo_uuid demo_uri "photos" "cat.png" n w0 _ _
    HQ demo_addresses (lookup_singleton_eq _ _) (roomy_single _ _)) as (r1 & w1 & r2 & w2 & H1 & H2 & _ & H3).
  exists r1, w1, r2, w2. split; [exact E|]. split; [exact H1|]. split; [exact H2|exact H3].
Defined.
