(* ===== verification/Http.v ===== *)
(** * The read-only HTTP front end ([linastore-server/src/front/http_service.rs])

    A GET of [/bucket/key] (or of [/key], in the default bucket) fetches the
    object through the queue.  The HTTP library is outside; the whole URI, with
    any query, is what the code takes the path from. *)
From stdpp Require Import pretty.
From S2P Require Import Prelude Io Runs Strs World Wire ObjectStore Conveyer Porter Mapper Auth Server.
From S2P Require Import Block Manager DemoServer S3.

Definition http_mime_type (filename : string) : string :=
  match extension filename with
  | Some e =>
      if String.eqb e "jpeg" || String.eqb e "jpg" then "image/jpeg"
      else if String.eqb e "png" then "image/png"
      else if String.eqb e "mp4" then "video/mp4"
      else if String.eqb e "pdf" then "application/pdf"
      else if String.eqb e "txt" then "text/plain"
      else if String.eqb e "json" then "application/json"
      else if String.eqb e "html" then "text/html"
      else if String.eqb e "css" then "text/css"
      else if String.eqb e "js" then "application/javascript"
      else if String.eqb e "svg" then "image/svg+xml"
      else if String.eqb e "webp" then "image/webp"
      else if String.eqb e "gif" then "image/gif"
      else if String.eqb e "ico" then "image/x-icon"
      else if String.eqb e "xml" then "application/xml"
      else "application/octet-stream"
  | None => "application/octet-stream"
  end.

Definition plain (status : N) (text : string) : Response := mkResponse status [] (str_bytes text).

Section Http.
Context {St : Type} `{OS : ObjectStore St} `{P : Platform}.
Variable uuid_bytes : nat → bytes.
Variable others : IO (Srv St) unit.
Variable some_mapper : bool.

Definition resolve_with_mapper (bucket key : string) : IO (Srv St) (Response + string) :=
  if some_mapper then
    r ← attempt (on_mapper (resolve bucket key));
    match r with
    | inr (Some internal) => ret (inr internal)
    | _ => ret (inl (plain 404 "Not Found"))
    end
  else ret (inl (plain 500 "Mapper unavailable")).

(** Bucket and key of the path; [split] yields at least one part. *)
Definition http_object (path : string) : option (string * string) :=
  match split_on SLASH path with
  | bucket :: part :: parts => Some (bucket, join "/" (part :: parts))
  | [key] => Some (DEFAULT_BUCKET, key)
  | [] => None
  end.

(** The reply to a package from the worker. *)
Definition http_reply (pkg : Package) : Response :=
  let content_type := http_mime_type (from_utf8_lossy (until_nul (c_identifier (content pkg)))) in
  let d := c_data (content pkg) in
  mkResponse 200
    [("X-Content-Type-Options", "nosniff"); ("X-Frame-Options", "DENY");
     ("Content-Type", content_type); ("Content-Length", pretty (len d))]%string d.

Definition http_fetch (file_identifier : string) : IO (Srv St) Response :=
  draw;;
  k ← draw; t ← now;
  r ← exchange others (order_package uuid_bytes k t GetFile 0 (str_bytes file_identifier) []);
  match r with
  | Unregistered => ret (plain 500 "Failed to process request")
  | Answer pkg => ret (http_reply pkg)
  | ChannelClosed => ret (plain 500 "Channel closed unexpectedly")
  | TimedOut => ret (plain 408 "Request timeout")
  end.

Definition handle_http (method : Method) (uri : string) : IO (Srv St) Response :=
  match method with
  | GET =>
      let path := default uri (strip_prefix "/" uri) in
      if is_empty path then ret (plain 200 "LiNastore is running")
      else match http_object path with
           | None => ret (plain 400 "Invalid URL")
           | Some (bucket, key) =>
               r ← resolve_with_mapper bucket key;
               match r with
               | inr file_identifier => http_fetch file_identifier
               | inl resp => ret resp
               end
           end
  | _ => ret (plain 405 "Method Not Allowed")
  end.
End Http.

(** ** Lemmas *)

Lemma dotless_extension s : dotless s → extension s = None.
Proof.
  intros Hd. unfold extension, mbind, option_bind.
  destruct (file_name s) as [f|] eqn:E; [|done].
  assert (Hf : rfind_char DOT f = None); [|by rewrite Hf].
  apply rfind_char_None. unfold file_name in E.
  destruct (last (components s)) as [[| | |g]|] eqn:El; simplify_eq.
  apply last_Some_elem_of in El. revert El. unfold components.
  assert (Hparts : Forall dotless (split_on SLASH s)).
  { unfold dotless in *. induction s as [|c s IH]; [by repeat constructor|].
    simpl in *. destruct (ascii_dec c DOT) as [|Hc]; [done|]. apply fmap_None in Hd. specialize (IH Hd).
    destruct (ascii_dec c SLASH); [by constructor|].
    destruct (split_on SLASH s) as [|w ws]; [by repeat constructor; simpl; destruct (ascii_dec c DOT)|].
    apply Forall_cons in IH as [Hw Hws]. constructor; [|done]. simpl.
    destruct (ascii_dec c DOT); [done|]. by rewrite Hw. }
  assert (Hin : Normal f ∈ omap component_of (split_on SLASH s) → find_char DOT f = None).
  { intros (part & Hp & Hc)%list_elem_of_omap. eapply Forall_forall in Hparts; [|exact Hp].
    unfold component_of in Hc. repeat case_match; simplify_eq. exact Hparts. }
  repeat case_match; rewrite ?elem_of_cons; intros Hel; apply Hin; naive_solver.
Qed.

Section HttpProofs.
Context {St : Type} `{OS : ObjectStore St} `{!ObjectStoreLaws St} `{P : Platform} `{PL : !PlatformLaws P}.
Variable uuid_bytes : nat → bytes.
Implicit Types (w : Env (Srv St)) (m : gmap string bytes) (t : gmap (string * string) string).

Abbreviation worker := (porter_turn uuid_bytes ORDER_QUEUE_CAPACITY).
Abbreviation http := (handle_http uuid_bytes worker true).

Definition http_addresses (uri b k : string) : Prop :=
  is_empty (default uri (strip_prefix "/" uri)) = false ∧
  http_object (default uri (strip_prefix "/" uri)) = Some (b, k).

Lemma http_quiet uri b k w m t n :
  Quiet w m t → http_addresses uri b k → t !! (b, k) = Some n →
  ∃ resp w', http GET uri w = (Ok resp, w') ∧ Quiet w' m t ∧
    code resp = 200%N ∧ body resp = default [] (m !! n) ∧
    ("Content-Type"%string, "application/octet-stream"%string) ∈ headers resp.
Proof.
  intros HQ [Hne Ho] Ht. unfold handle_http. rewrite Hne, Ho. unfold resolve_with_mapper.
  destruct (map_query_quiet (λ t, t !! (b, k)) w m t HQ) as (w1 & E1 & HQ1 & Hd1).
  rewrite Ht in E1. destruct (q_drawn _ _ _ HQ _ _ Ht) as (j & _ & ->).
  set (w2 := mkEnv (state w1) (fates w1) (clock w1) (S (S (draws w1)))).
  assert (HQ2 : Quiet w2 m t) by (apply quiet_draws; [done|lia]).
  destruct (exchange_order uuid_bytes w2 m t (S (draws w1)) (clock w1) GetFile 0 j [] HQ2)
    as (r & m' & w3 & E3 & HQ3 & _ & -> & Hid & Hr).
  { intros pkg Hb _. unfold feasible. by rewrite Hb. }
  exists (http_reply r), w3. split; [|split; [done|]].
  - unfold mbind, IO_mbind, bind, attempt, resolve. rewrite E1. cbn beta iota delta [ret].
    unfold http_fetch, draw, now, mbind, IO_mbind, bind. cbn [draws clock state fates].
    fold w2. rewrite E3. done.
  - split; [done|]. split; [unfold http_reply; simpl; by destruct (m !! uuid_v4 j); destruct Hr as [_ ->]|].
    unfold http_reply. cbn [headers]. rewrite Hid.
    destruct (uuid_printable j) as [_ Hp]. rewrite until_nul_clean by by apply printable_no_nul.
    rewrite from_utf8_lossy_valid, bytes_str_bytes by by apply printable_valid.
    unfold http_mime_type. rewrite dotless_extension by apply uuid_dotless.
    set_solver.
Qed.

(** C40 (error): the two HTTP front ends meet in the store, but the type gets lost:
    an object put by S3 under a new key, whatever its extension, is what a plain GET
    of the same bucket and key answers, and always as [application/octet-stream],
    because the type is taken from the internal name.  The end-to-end test of the
    types ([test_http_mime_types]) expects [application/json] for a key that ends in
    [.json]; the code never answers that. *)
Theorem s3_put_then_http_get uri uri' b k d w m t :
  Quiet w m t → addresses uri b k → http_addresses uri' b k → admissible m d → t !! (b, k) = None →
  ∃ r1 w1 r2 w2, handle_s3 uuid_bytes worker true PUT uri (Some d) w = (Ok r1, w1) ∧ code r1 = 200%N ∧
    http GET uri' w1 = (Ok r2, w2) ∧ code r2 = 200%N ∧ body r2 = d ∧
    ("Content-Type"%string, "application/octet-stream"%string) ∈ headers r2.
Proof.
  intros HQ Ha Hh Hadm Ht.
  destruct (put_quiet uuid_bytes uri b k d w m t HQ Ha Hadm) as (r1 & w1 & E1 & H1 & _ & HQ1).
  unfold registered in HQ1. rewrite bool_decide_eq_false_2 in HQ1 by (rewrite Ht; by intros []).
  destruct (http_quiet uri' b k w1 _ _ _ HQ1 Hh (lookup_insert_eq _ _ _)) as (r2 & w2 & E2 & _ & H2 & H3 & H4).
  rewrite lookup_insert_eq in H3. exists r1, w1, r2, w2. done.
Qed.

(** A key whose object is gone from the store (deleted by the
    binary protocol, say) is answered with 200 and an empty body, as an empty
    object would be. *)
Theorem http_missing_is_empty uri b k n w m t :
  Quiet w m t → http_addresses uri b k → t !! (b, k) = Some n → m !! n = None →
  ∃ resp w', http GET uri w = (Ok resp, w') ∧ code resp = 200%N ∧ body resp = [].
Proof.
  intros HQ Hh Ht Hn. destruct (http_quiet uri b k w m t n HQ Hh Ht) as (r & w' & E & _ & H1 & H2 & _).
  rewrite Hn in H2. eauto.
Qed.
End HttpProofs.

(** ** Witnesses *)

Abbreviation demo_http := (handle_http demo_uuid (porter_turn demo_uuid ORDER_QUEUE_CAPACITY) true).
Lemma demo_http_addresses : http_addresses "/photos/cat.png" "photos" "cat.png".
Proof. split; vm_compute; reflexivity. Qed.

Lemma s3_put_then_http_get_witness : ∃ r1 w1 r2 w2,
  demo_s3 PUT demo_uri (Some demo_hello) demo_srv = (Ok r1, w1) ∧ code r1 = 200%N ∧
  demo_http GET "/photos/cat.png" w1 = (Ok r2, w2) ∧ code r2 = 200%N ∧ body r2 = demo_hello ∧
  ("Content-Type"%string, "application/octet-stream"%string) ∈ headers r2.
Proof.
  exact (s3_put_then_http_get demo_uuid demo_uri "/photos/cat.png" "photos" "cat.png" demo_hello demo_srv ∅ ∅
    demo_quiet demo_addresses demo_http_addresses (demo_admissible _ _ roomy_empty) (lookup_empty _)).
Defined.

(** The bucket table knows a name the store does not. *)
Definition demo_dangling : Env (Srv Store) :=
  mkEnv (set_mapper (mkMapper {[("photos", "cat.png")%string := uuid_v4 0]}) (state demo_srv)) [] 0 1.
Lemma dangling_quiet : Quiet demo_dangling ∅ {[("photos", "cat.png")%string := uuid_v4 0]}.
Proof.
  destruct (quiet_draws _ _ _ 1 demo_quiet (Nat.le_0_l 1)) as [H1 H2 H3 H4 _ _].
  split; [exact H1|exact H2|exact H3|exact H4|reflexivity|].
  intros bk n Hn. apply lookup_singleton_Some in Hn as [_ <-]. exists 0. split; [|reflexivity]. apply Nat.lt_0_1.
Qed.
Lemma http_missing_is_empty_witness : ∃ resp w',
  demo_http GET "/photos/cat.png" demo_dangling = (Ok resp, w') ∧ code resp = 200%N ∧ body resp = [].
Proof.
  exact (http_missing_is_empty demo_uuid "/photos/cat.png" "photos" "cat.png" (uuid_v4 0) demo_dangling ∅ _
    dangling_quiet demo_http_addresses (lookup_singleton_eq _ _) (lookup_empty _)).
Defined.
