(* ===== verification/Gateway.v ===== *)
(** * The three front ends as one table of objects

    What the clients of the S3, the plain HTTP and the binary front end see,
    request after request: a table from bucket and key to contents, whose entries
    are written once.  An entry may also be spent ([None]): its object has been
    deleted by the binary protocol, which leaves the name.  [spec] says what each
    request answers and makes of the table, given the sessions and the time; [requests_refine] that the handlers,
    with the bucket table, the order queue, the worker and the store behind them,
    do just that. *)
From stdpp Require Import pretty.
From S2P Require Import Prelude Io Runs Strs World Wire ObjectStore Conveyer Porter Mapper Auth Server Block Manager DemoServer S3 Http Waitress.

Inductive Call :=
  | ToS3 (method : Method) (uri : string) (req_body : option bytes)
  | ToHttp (method : Method) (uri : string)
  | ToPort (fl : N) (ident raw : bytes).    (* flags, identifier and data of a message *)

(** An answer: a page with status and body; a frame with a status and, when it
    matters, data; or a frame with a status after which the connection is closed. *)
Inductive Reply := Page (status : N) (text : bytes) | Told (st : Status) (d : option bytes) | Dropped (st : Status).

(** ** The specification *)

Abbreviation Objects := (gmap (string * string) (option bytes)).

Section Spec.
Context `{P : Platform} `{K : AuthCrypto}.
Variable mgr : AuthManager.
Variable D : AuthDb.
Implicit Types (a : Objects).

Definition buckets_of a : list string :=
  merge_sort text_le (elements (set_map (D := gset string) fst (dom a))).
(** The keys of bucket [b] that match [prefix%], in byte order. *)
Definition keys_of (b prefix : string) a : list string :=
  merge_sort text_le
    (omap (λ bk : string * string, if bool_decide (bk.1 = b) && sql_like bk.2 (prefix +:+ "%")
                                   then Some bk.2 else None) (elements (dom a))).
Definition listing (b query : string) a : string :=
  let parts := split_on "&" query in
  let prefix := default EmptyString (find_map (strip_prefix "prefix=") parts) in
  let max_keys := default 1000%N (find_map (λ p, v ← strip_prefix "max-keys=" p; parse_u32 v) parts) in
  let keys := keys_of b prefix a in
  list_objects_xml ((λ k, (k, EmptyString)) <$> take (N.to_nat max_keys) keys) b prefix max_keys
    (max_keys <? as_u32 (len keys))%N.

(** An object is put once: the table keeps the first contents of a key, spent or
    not. *)
Definition put_once (b k : string) (d : bytes) a : Objects :=
  match a !! (b, k) with Some _ => a | None => <[(b, k) := Some d]> a end.

Definition error_of (error_code message resource : string) : bytes := str_bytes (s3_error_xml error_code message resource).
Definition spec_s3 (method : Method) (uri : string) (req_body : option bytes) a
    : Reply * Objects :=
  let address := parse_s3_path (uri_path uri) in
  match method with
  | GET =>
      match address with
      | (None, _) => (Page 200 (str_bytes (list_buckets_xml (buckets_of a))), a)
      | (Some b, None) => (Page 200 (str_bytes (listing b (default EmptyString (split_on "?" uri !! 1)) a)), a)
      | (Some b, Some k) =>
          match a !! (b, k) with
          | Some (Some d) => (Page 200 d, a)
          | _ => (Page 404 (error_of "NoSuchKey" "The specified key does not exist." k), a)
          end
      end
  | HEAD =>
      match address with
      | (_, None) => (Page 400 [], a)
      | (Some b, Some k) => (Page (match a !! (b, k) with Some (Some _) => 200 | _ => 404 end) [], a)
      | (None, Some _) => (Page 404 [], a)
      end
  | PUT =>
      match address with
      | (_, None) => (Page 200 [], a)
      | (None, Some _) => (Page 400 (error_of "BadRequest" "Bucket name required" EmptyString), a)
      | (Some b, Some k) =>
          match req_body with
          | None => (Page 400 (error_of "BadRequest" "Failed to read request body" k), a)
          | Some d => (Page 200 [], put_once b k d a)
          end
      end
  | DELETE =>
      match address with
      | (Some b, Some k) => (Page 204 [], delete (b, k) a)
      | _ => (Page 204 [], a)
      end
  | OtherMethod =>
      (Page 405 (error_of "MethodNotAllowed" "The specified method is not allowed against this resource."
                (uri_path uri)), a)
  end.

Definition spec_http (method : Method) (uri : string) a : Reply :=
  match method with
  | GET =>
      let path := default uri (strip_prefix "/" uri) in
      if is_empty path then Page 200 (str_bytes "LiNastore is running")
      else match http_object path with
           | None => Page 400 (str_bytes "Invalid URL")
           | Some bk =>
               match a !! bk with
               | Some (Some d) => Page 200 d
               | Some None => Page 200 []
               | None => Page 404 (str_bytes "Not Found")
               end
           end
  | _ => Page 405 (str_bytes "Method Not Allowed")
  end.

(** The sessions in force open the store to their tokens, up to the grace period
    of a minute before they expire. *)
Definition live (tm : N) (tk : string) : bool :=
  db_conn mgr && bool_decide (filter (λ kv : string * SessionRow,
    se_token kv.2 = tk ∧ (i64_of_u64 tm + 60 < se_expires_at kv.2)%Z) (sessions D) ≠ ∅).
Definition granted (tm : N) (tok : option string) : bool :=
  negb (auth_required mgr) || match tok with Some tk => live tm tk | None => false end.

(** The binary protocol at time [tm]. *)
Definition spec_port (tm : N) (fl : N) (ident raw : bytes) a : Reply * Objects :=
  let bk := object_path ident in
  let '(tok, d) := split_token (from_flags fl) raw in
  if negb (granted tm tok) then (Dropped Unauthorized, a) else
  match open_data mgr tok d with
  | None => (Dropped BadRequest, a)
  | Some d' =>
      match from_flags fl with
      | OpWrite => (Told Success None, put_once bk.1 bk.2 d' a)
      | OpRead =>
          match a !! bk with
          | Some (Some d) => (Told Success (Some d), a)
          | Some None => (Told FileNotFound (Some []), a)
          | None => (Dropped FileNotFound, a)
          end
      | OpDelete =>
          match a !! bk with
          | Some _ => (Told Success None, <[bk := None]> a)
          | None => (Dropped FileNotFound, a)
          end
      | _ =>
          match a !! bk with
          | Some _ => (Told InternalError None, a)
          | None => (Dropped FileNotFound, a)
          end
      end
  end.

Definition spec (tm : N) (r : Call) a : Reply * Objects :=
  match r with
  | ToS3 method uri req_body => spec_s3 method uri req_body a
  | ToHttp method uri => (spec_http method uri a, a)
  | ToPort fl ident raw => spec_port tm fl ident raw a
  end.
(** Requests, each some seconds after the one before. *)
Fixpoint specs (tm : N) (rs : list (N * Call)) a : list Reply * Objects :=
  match rs with
  | [] => ([], a)
  | (dt, r) :: rs' =>
      let '(ans, a1) := spec (tm + dt) r a in
      let '(anss, a2) := specs (tm + dt) rs' a1 in (ans :: anss, a2)
  end.
End Spec.

(** ** Listings *)

#[export] Instance text_le_trans : Transitive text_le.
Proof.
  intros a b c H1 H2. apply Is_true_true. trans b; by apply Is_true_true.
Qed.
#[export] Instance text_le_antisymm : AntiSymm (=) text_le.
Proof. intros a b. apply String.leb_antisym. Qed.
#[export] Instance text_le_total : Total text_le.
Proof. intros a b. apply String.leb_total. Qed.
#[export] Instance key_le_total : Total key_le.
Proof. intros a b. apply (total text_le a.1 b.1). Qed.

(** Sorting rows by their keys sorts the keys. *)
Lemma sorted_keys (l : list (string * string)) : (merge_sort key_le l).*1 = merge_sort text_le l.*1.
Proof.
  apply (Sorted_unique text_le).
  - pose proof (Sorted_merge_sort key_le l) as Hs. clear -Hs.
    induction Hs as [|x l' Hs IH Hhd]; [constructor|]. rewrite fmap_cons. constructor; [done|].
    destruct Hhd; [constructor|]. rewrite fmap_cons. by constructor.
  - apply (Sorted_merge_sort text_le).
  - by rewrite (merge_sort_Permutation key_le l), (merge_sort_Permutation text_le l.*1).
Qed.

Lemma foldl_fmap {A B D} (f : D → B → D) (g : A → B) (l : list A) (d : D) :
  foldl f d (g <$> l) = foldl (λ d x, f d (g x)) d l.
Proof. revert d. induction l as [|x l IH]; intros d; simpl; [done|apply IH]. Qed.

(** A listing shows keys only. *)
Lemma listing_keys l b prefix max tr :
  list_objects_xml l b prefix max tr = list_objects_xml ((λ k, (k, EmptyString)) <$> l.*1) b prefix max tr.
Proof.
  unfold list_objects_xml. rewrite !foldl_fmap. unfold len. by rewrite !length_fmap.
Qed.

Lemma merge_sort_perm l l' : l ≡ₚ l' → merge_sort text_le l = merge_sort text_le l'.
Proof.
  intros Hp. apply (Sorted_unique text_le); [apply (Sorted_merge_sort text_le)..|].
  by rewrite !(merge_sort_Permutation text_le).
Qed.

Section Listing.
Context `{P : Platform}.
Implicit Types (a : Objects) (t : gmap (string * string) string).

(** What the bucket table lists is what the table of objects lists. *)
Lemma list_bucket_keys b prefix t a : dom t = dom a →
  (merge_sort key_le (omap (λ kv, if bool_decide (kv.1.1 = b) && sql_like kv.1.2 (prefix +:+ "%")
     then Some (kv.1.2, kv.2) else None) (map_to_list t))).*1 = keys_of b prefix a.
Proof.
  intros Hd. rewrite sorted_keys. unfold keys_of. rewrite <- Hd. apply merge_sort_perm.
  assert (Hp : (map_to_list t).*1 ≡ₚ elements (dom t)).
  { apply NoDup_Permutation; [apply NoDup_fst_map_to_list|apply NoDup_elements|].
    intros bk. rewrite elem_of_elements, elem_of_dom, list_elem_of_fmap. split.
    - intros ([bk' n] & -> & Hn%elem_of_map_to_list). by exists n.
    - intros [n Hn]. exists (bk, n). split; [done|]. by apply elem_of_map_to_list. }
  rewrite <- Hp. clear. induction (map_to_list t) as [|[[b' k] n] l IH]; [done|]. simpl.
  destruct (bool_decide _ && _); simpl; [by constructor|done].
Qed.
End Listing.

(** ** Sessions and the clock

    No request but a handshake changes what sessions there are; and no request
    takes time. *)
Section Steady.
Context {St : Type} `{OS : ObjectStore St} `{!ObjectStoreLaws St} `{P : Platform} `{K : AuthCrypto}.
Variable crc32 : bytes → N.
Variable uuid_bytes : nat → bytes.

Class Steady {A} (m : IO (Srv St) A) : Prop :=
  steady : ∀ w, auth_db (state (m w).2) = auth_db (state w) ∧ clock (m w).2 = clock w.

Lemma steady_of {A} (m : IO (Srv St) A) : Preserves auth_db m → Timeless m → Steady m.
Proof. intros Hp Ht w. split; [apply Hp|apply Ht]. Qed.
#[export] Instance ret_steady {A} (a : A) : Steady (ret a).
Proof. by apply steady_of. Qed.
#[export] Instance now_steady : Steady now.
Proof. by apply steady_of. Qed.
#[export] Instance draw_steady : Steady draw.
Proof. by apply steady_of. Qed.
#[export] Instance bind_steady {A B} (m : IO (Srv St) A) (k : A → IO (Srv St) B) :
  Steady m → (∀ a, Steady (k a)) → Steady (m ≫= k).
Proof.
  intros Hm Hk w. unfold mbind, IO_mbind, bind. destruct (Hm w) as [E1 E2].
  destruct (m w) as [[a|e|z] w1]; simpl in *; [|done..]. rewrite <- E1, <- E2. apply Hk.
Qed.
#[export] Instance attempt_steady {A} (m : IO (Srv St) A) : Steady m → Steady (attempt m).
Proof. intros Hm w. unfold attempt. specialize (Hm w). by destruct (m w) as [[] ?]. Qed.
#[export] Instance ignore_steady {A} (m : IO (Srv St) A) : Steady m → Steady (ignore m).
Proof. intros Hm. unfold ignore. apply _. Qed.
#[export] Instance on_queue_steady {A} (f : ConveyQueue → A * ConveyQueue) : Steady (on_queue f).
Proof. intros w. unfold on_queue. by destruct (f _). Qed.
#[export] Instance on_objects_steady {A} (m : IO St A) : Timeless m → Steady (on_objects m).
Proof. intros Hm. apply steady_of; [by apply focus_preserves|by apply focus_timeless]. Qed.
#[export] Instance on_mapper_steady {A} (m : IO BucketMapper A) : Timeless m → Steady (on_mapper m).
Proof. intros Hm. apply steady_of; [by apply focus_preserves|by apply focus_timeless]. Qed.

Ltac steadily := repeat (case_match || apply _ || apply bind_steady || intros ?
  || apply attempt_steady || apply on_mapper_steady || apply external_timeless).

#[export] Instance process_timeless pkg : Timeless (process_package uuid_bytes pkg).
Proof. unfold process_package, new_response. repeat (case_match || apply _ || apply bind_timeless || intros ? || apply attempt_timeless). Qed.
#[export] Instance porter_steady n : Steady (porter_turn uuid_bytes n).
Proof. induction n as [|n IH]; simpl; steadily. Qed.
#[export] Instance exchange_steady n pkg : Steady (exchange (porter_turn uuid_bytes n) pkg).
Proof. unfold exchange, instant_now, abandon. steadily. Qed.
#[export] Instance through_queue_steady n b i d : Steady (process_through_queue uuid_bytes (porter_turn uuid_bytes n) b i d).
Proof. unfold process_through_queue. steadily. Qed.
#[export] Instance s3_steady n method uri d : Steady (handle_s3 uuid_bytes (porter_turn uuid_bytes n) true method uri d).
Proof.
  unfold handle_s3, s3_list_buckets, s3_list_objects, s3_get, s3_head, s3_put, s3_delete, lookup_name, etag,
    list_buckets, list_bucket, resolve, register, delete_mapping, map_query, map_execute. steadily.
Qed.
#[export] Instance http_steady n method uri : Steady (handle_http uuid_bytes (porter_turn uuid_bytes n) true method uri).
Proof. unfold handle_http, http_fetch, resolve_with_mapper, resolve, map_query. steadily. Qed.
Lemma validate_still mgr tk g : Preserves (λ d : AuthDb, d) (validate_session mgr tk g).
Proof.
  unfold validate_session, auth_get_user_id_by_token, auth_query.
  repeat (case_match || apply _ || apply attempt_preserves || (by apply external_preserves) || apply bind_preserves || intros ?).
Qed.
#[export] Instance validate_timeless mgr tk g : Timeless (validate_session mgr tk g).
Proof.
  unfold validate_session, auth_get_user_id_by_token, auth_query.
  repeat (case_match || apply _ || apply bind_timeless || intros ? || apply attempt_timeless || apply external_timeless).
Qed.
#[export] Instance authorize_steady mgr tok : Steady (authorize (St := St) mgr tok).
Proof.
  assert (Hv : ∀ tk, Steady (on_auth (validate_session mgr tk 60))).
  { intros tk. apply steady_of; [|by apply focus_timeless, _]. intros w. unfold on_auth, focus.
    pose proof (validate_still mgr tk 60 (mkEnv (auth_db (state w)) (fates w) (clock w) (draws w))) as E.
    by destruct (validate_session _ _ _ _). }
  unfold authorize. repeat case_match; try apply _. apply bind_steady; [apply Hv|]. intros []; apply _.
Qed.
Lemma message_steady n mgr ip msg : op msg ≠ OpAuth →
  Steady (serve_message crc32 uuid_bytes (porter_turn uuid_bytes n) true mgr ip msg).
Proof.
  intros Ho. unfold serve_message. rewrite decide_False by done.
  unfold serve_order, resolve_identifier, resolve, register, map_query, map_execute. steadily.
Qed.
End Steady.

(** ** The handlers keep to it *)

Section Gateway.
Context {St : Type} `{OS : ObjectStore St} `{!ObjectStoreLaws St} `{P : Platform} `{PL : !PlatformLaws P}
  `{K : AuthCrypto}.
Variable crc32 : bytes → N.
Variable uuid_bytes : nat → bytes.
Variable mgr : AuthManager.
Variable ip : IpAddr.
Implicit Types (w : Env (Srv St)) (m : gmap string bytes) (t : gmap (string * string) string) (a : Objects).

Abbreviation worker := (porter_turn uuid_bytes ORDER_QUEUE_CAPACITY).
Abbreviation s3 := (handle_s3 uuid_bytes worker true).
Abbreviation http := (handle_http uuid_bytes worker true).
Abbreviation port := (serve_message crc32 uuid_bytes worker true mgr ip).

Definition handle (r : Call) : IO (Srv St) (Response + Turn) :=
  match r with
  | ToS3 method uri req_body => resp ← s3 method uri req_body; ret (inl resp)
  | ToHttp method uri => resp ← http method uri; ret (inl resp)
  | ToPort fl ident raw => turn ← port (request fl ident raw); ret (inr turn)
  end.
Definition pass (dt : N) : IO (Srv St) unit := λ w,
  (Ok tt, mkEnv (state w) (fates w) (clock w + dt) (draws w)).
Fixpoint handle_all (rs : list (N * Call)) : IO (Srv St) (list (Response + Turn)) :=
  match rs with
  | [] => ret []
  | (dt, r) :: rs' => pass dt;; x ← handle r; xs ← handle_all rs'; ret (x :: xs)
  end.
(** The bytes of an answer say what the specification says. *)
Definition shows (x : Response + Turn) (ans : Reply) : Prop :=
  match x, ans with
  | inl resp, Page st text => code resp = st ∧ body resp = text
  | inr turn, Told st (Some d) => answers crc32 turn st d
  | inr turn, Told st None => ∃ d, answers crc32 turn st d
  | inr turn, Dropped st => turn = close_with crc32 st None
  | _, _ => False
  end.

(** What the store holds: at most [n] objects, with contents in [V]. *)
Definition holding (V : bytes → Prop) (n : nat) m : Prop := size m ≤ n ∧ ∀ x d, m !! x = Some d → V d.
(** The store takes contents in [V] as long as it holds no more than [n] objects. *)
Definition ample (V : bytes → Prop) (n : nat) : Prop := ∀ m, holding V n m →
  removable m ∧ ∀ d, V d → admissible m d.

(** The bucket table and the store stand for the table of objects [a]: no two
    keys share an object. *)
Record stands m t a : Prop := {
  st_object bk : a !! bk = (λ x, m !! x) <$> t !! bk;
  st_own bk bk' x : t !! bk = Some x → t !! bk' = Some x → bk = bk'
}.
Definition Serves V n w a : Prop := ∃ m t, Quiet w m t ∧ holding V n m ∧ stands m t a.

Lemma stands_dom m t a : stands m t a → dom t = dom a.
Proof.
  intros [Ho _]. apply set_eq. intros bk. by rewrite !elem_of_dom, Ho, fmap_is_Some.
Qed.
Lemma holding_insert V n m x d : holding V n m → V d → holding V (S n) (<[x := d]> m).
Proof.
  intros [Hs HV] Hd. split.
  - rewrite map_size_insert. unfold id. case_match; lia.
  - intros y d' [[_ <-]|[_ Hy]]%lookup_insert_Some; [done|by eapply HV].
Qed.
Lemma holding_delete V n m x : holding V n m → holding V n (delete x m).
Proof.
  intros [Hs HV]. split; [pose proof (map_subseteq_size _ _ (delete_subseteq m x)); lia|].
  intros y d [_ Hy]%lookup_delete_Some. by eapply HV.
Qed.
Lemma holding_weaken V n n' m : n ≤ n' → holding V n m → holding V n' m.
Proof. intros Hn [Hs HV]. split; [lia|done]. Qed.

(** An object under a name that is not in the bucket table. *)
Lemma stands_put m t a b k x d : stands m t a → (∀ bk, t !! bk ≠ Some x) →
  stands (<[x := d]> m) (registered b k x t) (put_once b k d a).
Proof.
  intros Hst Hx. pose proof Hst as [Ho Hi].
  assert (Hm : ∀ bk, (λ y, <[x := d]> m !! y) <$> t !! bk = (λ y, m !! y) <$> t !! bk).
  { intros bk. destruct (t !! bk) as [y|] eqn:Ey; [|done]. simpl. f_equal. apply lookup_insert_ne.
    intros <-. by eapply Hx. }
  unfold registered, put_once. rewrite (Ho (b, k)). destruct (t !! (b, k)) as [y|] eqn:Ey.
  - rewrite bool_decide_eq_true_2 by eauto. simpl. split; [|done]. intros bk. by rewrite Ho, Hm.
  - rewrite bool_decide_eq_false_2 by (by intros []). simpl. split.
    + intros bk. destruct (decide (bk = (b, k))) as [->|Hne]; [rewrite !lookup_insert_eq; simpl; by rewrite lookup_insert_eq|].
      by rewrite !lookup_insert_ne, Ho, Hm by done.
    + intros bk bk' y [[<- E]|[_ Hy]]%lookup_insert_Some [[<- E']|[_ Hy']]%lookup_insert_Some; subst; try done;
        [by destruct (Hx bk')|by destruct (Hx bk)|by eapply Hi].
Qed.
(** An object is gone: with its key, or without. *)
Lemma own_delete m t a bk bk' x : stands m t a → t !! bk = Some x → bk' ≠ bk →
  (λ y, delete x m !! y) <$> t !! bk' = a !! bk'.
Proof.
  intros [Ho Hi] Hx Hne. rewrite Ho. destruct (t !! bk') as [y|] eqn:Ey; [|done]. simpl. f_equal.
  apply lookup_delete_ne. intros <-. by eapply Hne, Hi.
Qed.
Lemma stands_delete m t a bk x : stands m t a → t !! bk = Some x →
  stands (delete x m) (delete bk t) (delete bk a).
Proof.
  intros Hst Hx. split.
  - intros bk'. destruct (decide (bk' = bk)) as [->|Hne]; [by rewrite !lookup_delete_eq|].
    rewrite !lookup_delete_ne by done. by erewrite own_delete.
  - intros bk' bk'' y [_ ?]%lookup_delete_Some [_ ?]%lookup_delete_Some. by eapply st_own.
Qed.
Lemma stands_spend m t a bk x : stands m t a → t !! bk = Some x → stands (delete x m) t (<[bk := None]> a).
Proof.
  intros Hst Hx. split; [|by apply (st_own _ _ _ Hst)]. intros bk'.
  destruct (decide (bk' = bk)) as [->|Hne]; [by rewrite lookup_insert_eq, Hx; simpl; rewrite lookup_delete_eq|].
  rewrite lookup_insert_ne by done. by erewrite own_delete.
Qed.

(** *** Who is let through *)

Lemma authorize_says D tm tok w m t : auth_db (state w) = D → clock w = tm → Quiet w m t →
  ∃ w1, authorize mgr tok w = (Ok (if granted mgr D tm tok then Some tok else None), w1) ∧
    Quiet w1 m t ∧ draws w1 = draws w.
Proof.
  intros <- <- HQ. unfold authorize, granted, is_password_enabled. destruct (auth_required mgr) eqn:Er; simpl; [|by exists w].
  destruct tok as [tk|]; [|by exists w]. unfold live, validate_session. rewrite Er. cbn [negb].
  destruct HQ as [Hc Ho Hw Hm Ht Hdr]. destruct w as [[ob cv mp ad li] fs ck dr]; simpl in *.
  destruct (db_conn mgr); simpl; [|exists (mkEnv (mkSrv ob cv mp ad li) fs ck dr); by split_and!].
  unfold on_auth, focus, mbind, IO_mbind, bind, now, attempt, auth_get_user_id_by_token, auth_query; simpl.
  set (g := λ d : AuthDb, head ((λ kv : string * SessionRow, se_user_id kv.2) <$> map_to_list
    (filter (λ kv : string * SessionRow, se_token kv.2 = tk ∧ (i64_of_u64 ck + 60 < se_expires_at kv.2)%Z) (sessions d)))).
  destruct (external_calm (λ _ : ErrorKind, db_error) (λ _ s, s) (λ d, (inr (g d), d)) (mkEnv ad fs ck dr) Hc) as (fs' & Hc' & E).
  simpl in E. unfold g in E at 1. rewrite E. set (F := filter _ (sessions ad)) in *.
  assert (Hg : match g ad with Some _ => F ≠ ∅ | None => F = ∅ end).
  { unfold g. fold F. destruct (map_to_list F) as [|kv l] eqn:El; simpl; [by apply map_to_list_empty_iff|].
    intros HF. by rewrite HF, map_to_list_empty in El. }
  assert (HQ' : Quiet (mkEnv (mkSrv ob cv mp ad li) fs' ck dr) m t) by (split; simpl; try done; by eapply stands_for_ext).
  destruct (g ad); simpl; [rewrite bool_decide_eq_true_2 by done|rewrite bool_decide_eq_false_2 by (by intros [])];
    eexists; (split; [reflexivity|done]).
Qed.
Lemma granted_admits D tm tok w : auth_db (state w) = D → clock w = tm → granted mgr D tm tok = true → admits mgr tok w.
Proof.
  intros HD Htm Hg m t HQ. destruct (authorize_says D tm tok w m t HD Htm HQ) as (w1 & E & H).
  rewrite Hg in E. by exists w1.
Qed.

(** *** One request *)

(** Contents in [V]; and no handshake, which is not about objects. *)
Definition regular (V : bytes → Prop) (r : Call) : Prop :=
  match r with
  | ToS3 PUT _ (Some d) => V d
  | ToPort fl _ raw => from_flags fl ≠ OpAuth ∧
      (from_flags fl = OpWrite → ∀ d, open_data mgr (split_token OpWrite raw).1 (split_token OpWrite raw).2 = Some d → V d)
  | _ => True
  end.

Section Calls.
Context (V : bytes → Prop) (n : nat) (w : Env (Srv St)) (m : gmap string bytes)
  (t : gmap (string * string) string) (a : Objects).
Context (HQ : Quiet w m t) (Hh : holding V n m) (Hst : stands m t a)
  (Hrem : removable m) (Hadm : ∀ d, V d → admissible m d).
Context (D : AuthDb) (tm : N) (HD : auth_db (state w) = D) (Htm : clock w = tm).

(** The handler answers as the specification says, and leaves a server that
    stands for the table the specification says. *)
Definition meets (r : Call) : Prop := ∃ x w', handle r w = (Ok x, w') ∧
  shows x (spec mgr D tm r a).1 ∧ Serves V (S n) w' (spec mgr D tm r a).2.

Lemma serves_same w' : Quiet w' m t → Serves V (S n) w' a.
Proof. intros HQ'. exists m, t. split_and!; [done| |done]. eapply holding_weaken; [|done]. lia. Qed.
Lemma fresh_name bk : t !! bk ≠ Some (uuid_v4 (draws w)).
Proof. intros Hbk. destruct (q_drawn _ _ _ HQ _ _ Hbk) as (j & Hj & E'%uuid_unique). lia. Qed.

(** Pages: the handler's run, what it says, what it leaves. *)
Lemma meets_s3 method uri d resp w' :
  s3 method uri d w = (Ok resp, w') → spec_s3 method uri d a = (Page (code resp) (body resp), a) →
  Quiet w' m t → meets (ToS3 method uri d).
Proof.
  intros E Es HQ'. exists (inl resp), w'. cbn [handle spec]. unfold mbind, IO_mbind, bind. rewrite E, Es.
  split_and!; [done..|]. by apply serves_same.
Qed.
Lemma meets_http_page method uri resp w' :
  http method uri w = (Ok resp, w') → spec_http method uri a = Page (code resp) (body resp) →
  Quiet w' m t → meets (ToHttp method uri).
Proof.
  intros E Es HQ'. exists (inl resp), w'. cbn [handle spec]. unfold mbind, IO_mbind, bind. rewrite E, Es.
  split_and!; [done..|]. by apply serves_same.
Qed.

(** The worker's answer to a GET of a key that has a name. *)
Lemma fetch b k w1 x : Quiet w1 m t → t !! (b, k) = Some x →
  ∃ r w2, process_through_queue uuid_bytes worker GetFile x [] w1 = (Ok r, w2) ∧ Quiet w2 m t ∧
    match m !! x with
    | Some d => ∃ pkg, r = inr pkg ∧ c_data (content pkg) = d
    | None => r = inl FileNotFound
    end.
Proof.
  intros HQ1 Hx. destruct (q_drawn _ _ _ HQ1 _ _ Hx) as (j & _ & ->).
  destruct (process_quiet uuid_bytes w1 m t GetFile j [] HQ1) as (r & m' & w2 & E & HQ2 & _ & (-> & _ & Hr)).
  { intros pkg Hb _. unfold feasible. by rewrite Hb. }
  eexists _, w2. split; [exact E|]. split; [exact HQ2|].
  destruct (m !! uuid_v4 j) as [d|]; destruct Hr as [-> Hd].
  - rewrite decide_True by done. eauto.
  - by rewrite decide_False.
Qed.

Lemma meets_get uri d : meets (ToS3 GET uri d).
Proof.
  destruct (parse_s3_path (uri_path uri)) as [[b|] [k|]] eqn:Ep.
  - assert (Eh : s3 GET uri d = s3_get uuid_bytes worker true b k)
      by (unfold handle_s3; fold (uri_path uri); by rewrite Ep).
    destruct (lookup_name_quiet b k w m t HQ) as (w1 & E1 & HQ1 & _).
    destruct (t !! (b, k)) as [x|] eqn:Ex.
    + destruct (fetch b k w1 x HQ1 Ex) as (r & w2 & E2 & HQ2 & Hr).
      assert (Ea : a !! (b, k) = Some (m !! x)) by (rewrite (st_object _ _ _ Hst), Ex; done).
      destruct (m !! x) as [y|].
      * destruct Hr as (pkg & -> & <-). destruct (etag_quiet w2 m t HQ2) as (e & w3 & E3 & HQ3 & _).
        eapply meets_s3; [rewrite Eh; unfold s3_get, mbind, IO_mbind, bind; rewrite E1, E2, E3; reflexivity| |exact HQ3].
        unfold spec_s3. by rewrite Ep, Ea.
      * subst r. eapply meets_s3; [rewrite Eh; unfold s3_get, mbind, IO_mbind, bind; rewrite E1, E2; reflexivity| |exact HQ2].
        unfold spec_s3. by rewrite Ep, Ea.
    + assert (Ea : a !! (b, k) = None) by (rewrite (st_object _ _ _ Hst), Ex; done).
      eapply meets_s3; [rewrite Eh; unfold s3_get, mbind, IO_mbind, bind; rewrite E1; reflexivity| |exact HQ1].
      unfold spec_s3. by rewrite Ep, Ea.
  - set (query := default EmptyString (split_on "?" uri !! 1)).
    set (prefix := default EmptyString (find_map (strip_prefix "prefix=") (split_on "&" query))).
    destruct (map_query_quiet (λ t, merge_sort key_le
      (omap (λ kv, if bool_decide (kv.1.1 = b) && sql_like kv.1.2 (prefix +:+ "%")
                   then Some (kv.1.2, kv.2) else None) (map_to_list t))) w m t HQ) as (w' & E & HQ' & _).
    apply (meets_s3 _ _ _ (build_response 200 (listing b query a) "application/xml") w');
      [|unfold spec_s3; by rewrite Ep|exact HQ'].
    unfold handle_s3. fold (uri_path uri). rewrite Ep. fold query. unfold s3_list_objects. fold prefix.
    unfold list_bucket, mbind, IO_mbind, bind, attempt. rewrite E. unfold ret. cbn beta iota zeta.
    unfold listing. fold prefix. cbn zeta. rewrite listing_keys, <- (list_bucket_keys b prefix t a (stands_dom _ _ _ Hst)).
    unfold len. by rewrite length_fmap, fmap_take.
  - destruct (map_query_quiet (λ t, merge_sort text_le (elements (set_map (D := gset string) fst (dom t)))) w m t HQ)
      as (w' & E & HQ' & _).
    apply (meets_s3 _ _ _ (build_response 200 (list_buckets_xml (buckets_of a)) "application/xml") w');
      [|unfold spec_s3; by rewrite Ep|exact HQ'].
    unfold handle_s3. fold (uri_path uri). rewrite Ep. unfold s3_list_buckets, list_buckets, mbind, IO_mbind, bind, attempt.
    rewrite E. unfold buckets_of. by rewrite <- (stands_dom _ _ _ Hst).
  - destruct (map_query_quiet (λ t, merge_sort text_le (elements (set_map (D := gset string) fst (dom t)))) w m t HQ)
      as (w' & E & HQ' & _).
    apply (meets_s3 _ _ _ (build_response 200 (list_buckets_xml (buckets_of a)) "application/xml") w');
      [|unfold spec_s3; by rewrite Ep|exact HQ'].
    unfold handle_s3. fold (uri_path uri). rewrite Ep. unfold s3_list_buckets, list_buckets, mbind, IO_mbind, bind, attempt.
    rewrite E. unfold buckets_of. by rewrite <- (stands_dom _ _ _ Hst).
Qed.

(** Requests that are answered at once. *)
Lemma meets_at_once method uri d resp :
  s3 method uri d = ret resp → spec_s3 method uri d a = (Page (code resp) (body resp), a) → meets (ToS3 method uri d).
Proof. intros E Es. apply (meets_s3 _ _ _ resp w); [by rewrite E|done|done]. Qed.
Ltac at_once uri Ep := eapply meets_at_once;
  [unfold handle_s3; fold (uri_path uri); unfold s3_head, s3_put, s3_delete; rewrite Ep; reflexivity
  |unfold spec_s3; rewrite Ep; reflexivity].

Ltac s3_run uri Ep := unfold handle_s3; fold (uri_path uri); unfold s3_head, s3_delete; rewrite Ep;
  cbn [fst snd]; unfold mbind, IO_mbind, bind.

Lemma meets_head uri d : meets (ToS3 HEAD uri d).
Proof.
  destruct (parse_s3_path (uri_path uri)) as [[b|] [k|]] eqn:Ep; [|at_once uri Ep| |at_once uri Ep].
  2: { eapply meets_s3; [s3_run uri Ep; reflexivity|unfold spec_s3; rewrite Ep; reflexivity|exact HQ]. }
  destruct (lookup_name_quiet b k w m t HQ) as (w1 & E1 & HQ1 & _).
  assert (Ea := st_object _ _ _ Hst (b, k)). destruct (t !! (b, k)) as [x|] eqn:Ex; simpl in Ea.
  - destruct (fetch b k w1 x HQ1 Ex) as (r & w2 & E2 & HQ2 & Hr). destruct (m !! x) as [y|].
    + destruct Hr as (pkg & -> & _). destruct (etag_quiet w2 m t HQ2) as (e & w3 & E3 & HQ3 & _).
      eapply meets_s3; [s3_run uri Ep; rewrite E1, E2, E3; reflexivity|unfold spec_s3; rewrite Ep, Ea; reflexivity|exact HQ3].
    + subst r. eapply meets_s3; [s3_run uri Ep; rewrite E1, E2; reflexivity|unfold spec_s3; rewrite Ep, Ea; reflexivity|exact HQ2].
  - eapply meets_s3; [s3_run uri Ep; rewrite E1; reflexivity|unfold spec_s3; rewrite Ep, Ea; reflexivity|exact HQ1].
Qed.

Lemma meets_put uri d : regular V (ToS3 PUT uri d) → meets (ToS3 PUT uri d).
Proof.
  intros Hd. destruct (parse_s3_path (uri_path uri)) as [[b|] [k|]] eqn:Ep; [|at_once uri Ep..].
  destruct d as [d|]; [|at_once uri Ep].
  destruct (put_quiet uuid_bytes uri b k d w m t HQ Ep (Hadm _ Hd)) as (resp & w' & E & Hc & Hb & HQ').
  exists (inl resp), w'. cbn [handle spec]. unfold mbind, IO_mbind, bind. rewrite E. split; [done|].
  unfold spec_s3. rewrite Ep. split; [done|].
  eexists _, _. split; [exact HQ'|]. split; [by apply holding_insert|].
  apply stands_put; [done|apply fresh_name].
Qed.

Lemma meets_delete uri d : meets (ToS3 DELETE uri d).
Proof.
  destruct (parse_s3_path (uri_path uri)) as [[b|] [k|]] eqn:Ep; [|at_once uri Ep..].
  destruct (t !! (b, k)) as [x|] eqn:Ex.
  - destruct (delete_quiet uuid_bytes uri b k x w m t HQ Ep Ex Hrem) as (resp & w' & E & Hc & Hb & HQ').
    change (s3 DELETE uri None) with (s3 DELETE uri d) in E.
    exists (inl resp), w'. cbn [handle spec]. unfold mbind, IO_mbind, bind. rewrite E. split; [done|].
    unfold spec_s3. rewrite Ep. split; [done|].
    eexists _, _. split; [exact HQ'|]. split; [|by apply stands_delete].
    eapply holding_weaken; [|by apply holding_delete]. lia.
  - destruct (lookup_name_quiet b k w m t HQ) as (w1 & E1 & HQ1 & _). rewrite Ex in E1.
    eapply meets_s3; [s3_run uri Ep; rewrite E1; reflexivity| |exact HQ1].
    unfold spec_s3. rewrite Ep, delete_id; [done|]. by rewrite (st_object _ _ _ Hst), Ex.
Qed.

Lemma meets_http method uri : meets (ToHttp method uri).
Proof.
  destruct method; try by (eapply meets_http_page; [reflexivity|reflexivity|exact HQ]).
  assert (Eh : http GET uri = if is_empty (default uri (strip_prefix "/" uri)) then ret (plain 200 "LiNastore is running")
    else match http_object (default uri (strip_prefix "/" uri)) with
         | None => ret (plain 400 "Invalid URL")
         | Some (b, k) => r ← resolve_with_mapper true b k;
             match r with inr x => http_fetch uuid_bytes worker x | inl resp => ret resp end
         end) by done.
  assert (Es : spec_http GET uri a = if is_empty (default uri (strip_prefix "/" uri)) then Page 200 (str_bytes "LiNastore is running")
    else match http_object (default uri (strip_prefix "/" uri)) with
         | None => Page 400 (str_bytes "Invalid URL")
         | Some bk => match a !! bk with
                      | Some (Some d) => Page 200 d | Some None => Page 200 [] | None => Page 404 (str_bytes "Not Found")
                      end
         end) by done.
  destruct (is_empty _) eqn:He; [eapply meets_http_page; [by rewrite Eh|by rewrite Es|exact HQ]|].
  destruct (http_object _) as [[b k]|] eqn:Ho; [|eapply meets_http_page; [by rewrite Eh|by rewrite Es|exact HQ]].
  rewrite (st_object _ _ _ Hst) in Es. destruct (t !! (b, k)) as [x|] eqn:Ex.
  - destruct (http_quiet uuid_bytes uri b k w m t x HQ (conj He Ho) Ex) as (resp & w' & E & HQ' & Hc & Hb & _).
    eapply meets_http_page; [exact E| |exact HQ']. rewrite Es, Hc, Hb. simpl. by destruct (m !! x).
  - destruct (map_query_quiet (λ t, t !! (b, k)) w m t HQ) as (w1 & E1 & HQ1 & _). rewrite Ex in E1.
    eapply meets_http_page; 
      [rewrite Eh; unfold resolve_with_mapper, resolve, mbind, IO_mbind, bind, attempt; rewrite E1; reflexivity|by rewrite Es|exact HQ1].
Qed.

(** *** The binary protocol *)

Lemma split_other o raw : o ≠ OpWrite → (split_token o raw).2 = [].
Proof. by destruct o, raw. Qed.

(** A message that is not let through, or does not decrypt. *)
Lemma meets_refused fl ident raw : from_flags fl ≠ OpAuth →
  let '(tok, d) := split_token (from_flags fl) raw in
  granted mgr D tm tok = false ∨ open_data mgr tok d = None → meets (ToPort fl ident raw).
Proof.
  intros Ha. destruct (split_token (from_flags fl) raw) as [tok d] eqn:Es. intros Hno.
  assert (HQ0 : Quiet (bump w) m t) by (apply quiet_draws; [done|lia]).
  destruct (authorize_says D tm tok (bump w) m t HD Htm HQ0) as (w1 & E & HQ1 & _).
  set (g := granted mgr D tm tok) in *.
  exists (inr (close_with crc32 (if g then BadRequest else Unauthorized) None)), w1. cbn [handle spec].
  assert (Em : port (request fl ident raw) w = (Ok (close_with crc32 (if g then BadRequest else Unauthorized) None), w1)).
  { unfold serve_message. change (op (request fl ident raw)) with (from_flags fl). rewrite decide_False by done.
    change (data (payload (request fl ident raw))) with raw. unfold draw, mbind, IO_mbind, bind. fold (bump w). rewrite Es, E.
    destruct g; [|done]. destruct Hno as [?| ->]; done. }
  unfold mbind, IO_mbind, bind. rewrite Em. split; [done|]. unfold spec_port. rewrite Es. fold g.
  destruct g; simpl; [destruct Hno as [?| ->]; [done|]|]; (split; [done|by apply serves_same]).
Qed.

Section Granted.
Context (fl : N) (ident raw : bytes) (tok : option string) (d d' : bytes).
Context (Es : split_token (from_flags fl) raw = (tok, d)) (Hg : granted mgr D tm tok = true).
Context (Hd : open_data mgr tok d = Some d') (Ha : from_flags fl ≠ OpAuth).

Lemma spec_granted : spec_port mgr D tm fl ident raw a =
  let bk := object_path ident in
  match from_flags fl with
  | OpWrite => (Told Success None, put_once bk.1 bk.2 d' a)
  | OpRead =>
      match a !! bk with
      | Some (Some d) => (Told Success (Some d), a)
      | Some None => (Told FileNotFound (Some []), a)
      | None => (Dropped FileNotFound, a)
      end
  | OpDelete =>
      match a !! bk with
      | Some _ => (Told Success None, <[bk := None]> a)
      | None => (Dropped FileNotFound, a)
      end
  | _ =>
      match a !! bk with
      | Some _ => (Told InternalError None, a)
      | None => (Dropped FileNotFound, a)
      end
  end.
Proof. unfold spec_port. rewrite Es, Hg, Hd. done. Qed.

Lemma meets_write : from_flags fl = OpWrite → V d' → meets (ToPort fl ident raw).
Proof.
  intros Hfl HV. destruct (object_path ident) as [b k] eqn:Ep.
  assert (Es' : split_token OpWrite raw = (tok, d)) by by rewrite <- Hfl.
  destruct (upload crc32 uuid_bytes mgr ip fl ident tok d d' w m t b k raw) as (turn & w' & E & Han & HQ'); try done;
    [by eapply granted_admits|by apply Hadm|].
  exists (inr turn), w'. cbn [handle spec]. unfold mbind, IO_mbind, bind. rewrite E. split; [done|].
  rewrite spec_granted, Hfl, Ep. split; [done|].
  eexists _, _. split; [exact HQ'|]. split; [by apply holding_insert|].
  apply stands_put; [done|]. intros bk Hbk. destruct (q_drawn _ _ _ HQ _ _ Hbk) as (j & Hj & E'%uuid_unique). lia.
Qed.

Lemma meets_unknown : from_flags fl ≠ OpWrite → t !! object_path ident = None → meets (ToPort fl ident raw).
Proof.
  intros Hw Ht. set (msg := request fl ident raw).
  destruct (admitted_turn crc32 uuid_bytes mgr ip msg tok d d' w m t) as (w0 & E0 & HQ0 & _); try done;
    [by eapply granted_admits|].
  destruct (map_query_quiet (λ t, t !! object_path ident) w0 m t HQ0) as (w1 & E1 & HQ1 & _). rewrite Ht in E1.
  exists (inr (close_with crc32 FileNotFound None)), w1. cbn [handle spec]. fold msg.
  assert (E : port msg w = (Ok (close_with crc32 FileNotFound None), w1)).
  { rewrite E0. unfold serve_order. change (identifier (payload msg)) with ident.
    destruct (object_path ident) as [b k]. unfold resolve_identifier. change (op msg) with (from_flags fl).
    unfold now, mbind, IO_mbind, bind, attempt, resolve. destruct (from_flags fl); try done; by rewrite E1. }
  unfold mbind, IO_mbind, bind. rewrite E. split; [done|].
  assert (Ea : a !! object_path ident = None) by by rewrite (st_object _ _ _ Hst), Ht.
  rewrite spec_granted. destruct (from_flags fl); cbn zeta; rewrite ?Ea; try done; (split; [done|by apply serves_same]).
Qed.

Lemma meets_named x : from_flags fl ≠ OpWrite → t !! object_path ident = Some x → meets (ToPort fl ident raw).
Proof.
  intros Hw Ht. destruct (object_path ident) as [b k] eqn:Ep.
  pose proof (split_other (from_flags fl) raw Hw) as Hnil. rewrite Es in Hnil. simpl in Hnil.
  assert (Es' : split_token (from_flags fl) raw = (tok, [])) by by rewrite <- Hnil.
  destruct (named crc32 uuid_bytes mgr ip fl ident tok raw w m t b k x) as (turn & r & m' & w' & E & Han & HQ' & Hr); try done;
    [by eapply granted_admits|].
  exists (inr turn), w'. cbn [handle spec]. unfold mbind, IO_mbind, bind. rewrite E. split; [done|].
  rewrite spec_granted. cbn zeta. rewrite Ep, (st_object _ _ _ Hst), Ht. cbn [fmap option_fmap option_map].
  destruct (from_flags fl); try done; cbn [behavior_of outcome] in Hr.
  - destruct Hr as [Hr ->]. split; [simpl; rewrite <- Hr; eauto|by apply serves_same].
  - destruct Hr as (-> & _ & Hr). destruct (m !! x); destruct Hr as [<- <-]; (split; [done|by apply serves_same]).
  - destruct Hr as [Hr ->]. split; [simpl; rewrite <- Hr; eauto|]. simpl.
    eexists _, _. split; [exact HQ'|]. split; [|by apply stands_spend].
    eapply holding_weaken; [|by apply holding_delete]. lia.
Qed.
End Granted.

Lemma meets_port fl ident raw : regular V (ToPort fl ident raw) → meets (ToPort fl ident raw).
Proof.
  intros [Ha HV]. pose proof (meets_refused fl ident raw Ha) as Hno.
  destruct (split_token (from_flags fl) raw) as [tok d] eqn:Es.
  destruct (granted mgr D tm tok) eqn:Hg; [|by apply Hno; left].
  destruct (open_data mgr tok d) as [d'|] eqn:Hd; [|by apply Hno; right].
  destruct (decide (from_flags fl = OpWrite)) as [Hw|Hw].
  - eapply meets_write; try done. apply HV; [done|]. rewrite Hw in Es. by rewrite Es.
  - destruct (t !! object_path ident) as [x|] eqn:Ex; [by eapply meets_named|by eapply meets_unknown].
Qed.

Lemma meets_request r : regular V r → meets r.
Proof.
  destruct r as [[] uri d|method uri|fl ident raw]; intros Hr;
    [apply meets_get|apply meets_head|by apply meets_put|apply meets_delete|by eapply meets_at_once|apply meets_http|by apply meets_port].
Qed.
End Calls.

(** *** Any number of them *)

(** A handshake apart, a request leaves sessions and clock alone. *)
Lemma handle_steady V r : regular V r → Steady (handle r).
Proof.
  destruct r as [method uri d|method uri|fl ident raw]; intros Hr; apply bind_steady; try apply _; try (intros; apply _).
  apply message_steady. by destruct Hr.
Qed.
Lemma pass_serves V n w a dt : Serves V n w a → Serves V n (pass dt w).2 a.
Proof.
  intros (m & t & HQ & H). exists m, t. split; [|done]. destruct HQ. split; simpl; try done. by eapply stands_for_ext.
Qed.

(** C3 (refinement): to a client that waits for each answer the three front ends
    are one table of objects that are written once.  Any sequence of S3 and HTTP
    requests, for objects, listings and nonsense, and of messages of the binary
    protocol but handshakes, with any time in between, is answered without an error
    escaping, and with exactly what the table calls for: a read by any of them gives
    what the first write of the key put there since the last S3 DELETE; a listing
    has the keys of the table, in order.  Where the server requires authentication,
    the binary protocol does that while a session with the message's token has more
    than a minute to live, and refuses otherwise.  That later writes of a key are
    lost, that a delete by the binary protocol leaves a key spent, and that an HTTP
    GET of a key nobody has registered answers 404 are part of it; of the last the
    repository's end-to-end tests say otherwise: they expect 200, with an empty body
    for a file that does not exist and with the file for one the command line put
    there. *)
Theorem requests_refine V most rs : ∀ n w a,
  Serves V n w a → n + length rs ≤ most → ample V most → Forall (λ x, regular V x.2) rs →
  let said := specs mgr (auth_db (state w)) (clock w) rs a in
  ∃ xs w', handle_all rs w = (Ok xs, w') ∧ Forall2 shows xs said.1 ∧ Serves V (n + length rs) w' said.2.
Proof.
  induction rs as [|[dt r] rs IH]; intros n w a Hs Hn Hamp Hb.
  - exists [], w. split; [done|]. split; [constructor|]. by rewrite Nat.add_0_r.
  - apply Forall_cons in Hb as [Hr Hb]. apply (pass_serves _ _ _ _ dt) in Hs as (m & t & HQ & Hh & Hst). simpl in Hn, Hr.
    destruct (Hamp m) as [Hrem Hadm]; [eapply holding_weaken; [|exact Hh]; lia|].
    destruct (meets_request V n (pass dt w).2 m t a HQ Hh Hst Hrem Hadm (auth_db (state w)) (clock w + dt)%N
      eq_refl eq_refl r Hr) as (x & w1 & E & Ea & Hs1).
    pose proof (handle_steady V r Hr (pass dt w).2) as [E1 E2]. rewrite E in E1, E2. simpl in E1, E2.
    destruct (IH (S n) w1 _ Hs1 ltac:(lia) Hamp Hb) as (xs & w2 & E3 & Ha2 & Hs2). rewrite E1, E2 in Ha2, Hs2.
    cbn zeta. simpl specs. destruct (spec _ _ _ r a) as [ans a1]. simpl in Ea, Ha2, Hs2.
    destruct (specs _ _ _ rs a1) as [anss a2].
    exists (x :: xs), w2. split.
    { cbn [handle_all]. unfold mbind, IO_mbind, bind. change (pass dt w) with (Ok tt, (pass dt w).2). cbn iota. by rewrite E, E3. }
    split; [by constructor|]. by replace (n + length ((dt, r) :: rs)) with (S n + length rs) by (simpl; lia).
Qed.
End Gateway.

(** The store manager is such a store, short of a hash collision and of 2^63
    objects. *)
Lemma manager_ample `{P : Platform} `{PL : !PlatformLaws P} `{C : Codec} root bm V n :
  hash_injective V → (Z.of_nat n < 2 ^ 63 - 1)%Z → ample (OS := manager_store root bm) V n.
Proof.
  intros Hinj Hn m [Hs HV]. assert (Hr : roomy m) by (unfold roomy; lia). split; [exact Hr|].
  intros d Hd. split; [exact Hr|]. intros x d' Hd' E. apply Hinj; [by eapply HV|done|done].
Qed.

(** ** Witness *)

Definition demo_port_read : N := 64.
Definition demo_port_write : N := 128.
Definition demo_port_delete : N := 192.
Definition demo_token : bytes := str_bytes "tok".
(** A server that requires authentication, with the session of [demo_row].  Two
    writes of [cat.png] by different front ends and four reads, one of them without
    the token; a listing.  Then the binary protocol deletes it, a write does not
    bring it back, and a DELETE by S3 frees the key.  An hour later the session has
    less than a minute to live. *)
Definition demo_requests : list (N * Call) := [
  (0%N, ToS3 PUT demo_uri (Some demo_hello));
  (1%N, ToPort demo_port_write demo_ident (demo_token ++ NUL :: replicate 12 "n"%char ++ demo_hello));
  (1%N, ToPort demo_port_read demo_ident demo_token); (0%N, ToPort demo_port_read demo_ident []);
  (0%N, ToHttp GET "/photos/cat.png"); (0%N, ToS3 GET demo_uri None); (0%N, ToS3 GET "/photos?prefix=c" None);
  (2%N, ToPort demo_port_delete demo_ident demo_token); (0%N, ToS3 PUT demo_uri (Some demo_hello));
  (0%N, ToPort demo_port_read demo_ident demo_token); (0%N, ToHttp GET "/photos/cat.png"); (0%N, ToS3 HEAD demo_uri None);
  (0%N, ToS3 DELETE demo_uri None); (0%N, ToPort demo_port_read demo_ident demo_token); (0%N, ToS3 GET "/" None);
  (3940%N, ToPort demo_port_read demo_ident demo_token)].
Definition every_byte_string (d : bytes) : Prop := True.
Abbreviation demo_specs := (specs demo_manager (auth_db (state demo_session_srv)) 0 demo_requests ∅).

Lemma requests_refine_witness : ∃ xs w',
  handle_all demo_crc demo_uuid demo_manager demo_ip demo_requests demo_session_srv = (Ok xs, w') ∧
  Forall2 (shows demo_crc) xs demo_specs.1 ∧ Serves every_byte_string 16 w' demo_specs.2.
Proof.
  apply (requests_refine demo_crc demo_uuid demo_manager demo_ip every_byte_string 16 demo_requests 0 demo_session_srv ∅).
  - exists ∅, ∅. split; [apply (quiet_auth _ demo_srv), demo_quiet|]. split; [split; [reflexivity|intros x d _; exact I]|].
    split; [intros bk; rewrite !lookup_empty; reflexivity|].
    intros bk bk' x Hx. rewrite lookup_empty in Hx. discriminate Hx.
  - vm_compute. lia.
  - intros m [Hs _]. assert (Hr : roomy m) by (unfold roomy; lia).
    split; [exact Hr|]. intros d _. exact (demo_admissible m d Hr).
  - repeat constructor; vm_compute; discriminate.
Defined.

Example demo_answers : demo_specs.1 =
  [Page 200 []; Told Success None; Told Success (Some demo_hello); Dropped Unauthorized; Page 200 demo_hello; Page 200 demo_hello;
   Page 200 (str_bytes (list_objects_xml [("cat.png", "")]%string "photos" "c" 1000 false));
   Told Success None; Page 200 []; Told FileNotFound (Some []); Page 200 []; Page 404 [];
   Page 204 []; Dropped FileNotFound; Page 200 (str_bytes (list_buckets_xml [])); Dropped Unauthorized].
Proof. vm_compute. reflexivity. Qed.
