(* ===== verification/LinaFs.v ===== *)
(** * The mounted file system ([linafs/src/fuse.rs])

    [LinaFs] serves the kernel's requests from a store manager: a file is a
    name with slashes, its inode number a hash of the name, and written data
    stay in a buffer per inode until they are flushed.  A request answers an
    error number or a value.  Two theorems: every file is a byte array whose latest
    writes may not be saved yet ([files_are_arrays], against a reference that says
    what each request saves or drops), and a directory is listed completely
    ([readdir_complete]).  The kernel's side (the FUSE library, file handles,
    time stamps, owners) is outside; offsets are below 2^63, as the kernel's
    are. *)
From S2P Require Import Prelude Io Runs Strs World Dao Disk Block Store Frames Layers Catalog Contract Crash Manager Dying Recovery Sessions.

Inductive Errno := ENOENT | EINVAL | EIO | ENOTEMPTY.
Inductive FileType := Directory | Symlink | RegularFile.
#[export] Instance FileType_eq_dec : EqDecision FileType.
Proof. solve_decision. Defined.

Definition ROOT_INO : N := 1.

(** [FileAttr]: the fields that are not constants. *)
Record FileAttr := mkAttr { ino : N; size_of_file : N; blocks : N; kind : FileType; perm : N; nlink : N }.
Definition make_attr (ino size : N) (kind : FileType) (perm : N) : FileAttr :=
  mkAttr ino size (as_u64 (size + 511) / 512) kind perm (if decide (kind = Directory) then 2 else 1).

Definition S_IFMT : N := 0xF000.
Definition S_IFREG : N := 0x8000.
Definition S_IFLNK : N := 0xA000.
Definition S_IFDIR : N := 0x4000.
Definition PERM_MASK : N := 0x1FF.
Definition MODE_FILE : N := N.lor S_IFREG 0x1A4.
Definition MODE_SYMLINK : N := N.lor S_IFLNK 0x1FF.

Definition kind_from_mode (mode : N) : FileType :=
  if (S_IFREG <=? mode)%N then
    let fmt := N.land mode S_IFMT in
    if (fmt =? S_IFLNK)%N then Symlink
    else if (fmt =? S_IFDIR)%N then Directory
    else RegularFile
  else RegularFile.
Definition perm_from_mode (mode : N) : N := as_u16 (N.land mode PERM_MASK).

Definition direct_child_name (full prefix : string) : option string :=
  stripped ← (if is_empty prefix then Some full else strip_prefix (prefix +:+ "/") full);
  if contains "/" stripped then None else Some stripped.

(** [Vec::resize(n, 0)], and the copy of [data] into a buffer at [off]. *)
Definition resize (n : nat) (d : bytes) : bytes := take n d ++ replicate (n - length d) NUL.
Definition splice (off : nat) (data entry : bytes) : bytes :=
  let entry := if length entry <? off + length data then resize (off + length data) entry else entry in
  take off entry ++ data ++ drop (off + length data) entry.
(** What a read of [size] bytes at [off] returns. *)
Definition slice (off size : nat) (d : bytes) : bytes :=
  if length d <=? off then [] else take (Nat.min (off + size) (length d) - off) (drop off d).

Record LinaFs := mkLinaFs { store : Store; write_buf : gmap N bytes }.
Definition set_store (s : Store) (f : LinaFs) : LinaFs := mkLinaFs s (write_buf f).
Definition set_write_buf (g : gmap N bytes → gmap N bytes) (f : LinaFs) : LinaFs :=
  mkLinaFs (store f) (g (write_buf f)).

Section LinaFs.
Context `{P : Platform} `{C : Codec}.
Variable root : path.
Variable bm : BlockManager.
Variable compressed : bool.
(** [DefaultHasher] fed with a string, and with ["d:"] before it. *)
Variable hash_name : string → N.
Variable hash_dir : string → N.

(** Zero and the root's number are moved away. *)
Definition avoid_reserved (ino : N) : N :=
  if (ino =? 0)%N || (ino =? ROOT_INO)%N then N.lxor ino 0xDEAD else ino.
Definition file_ino (name : string) : N := avoid_reserved (hash_name name).
Definition dir_ino (dir_path : string) : N := avoid_reserved (hash_dir dir_path).

(** [self.rt(...)]: a call of the store manager. *)
Definition rt {A} : IO Store A → IO LinaFs A := focus store set_store.
(** [.unwrap_or_default()] *)
Definition rt_or {A} (d : A) (m : IO Store A) : IO LinaFs A :=
  r ← attempt (rt m); match r with inr a => ret a | inl _ => ret d end.

Definition all_files : IO LinaFs (list Link) := rt_or [] (list_ "*" 0 false true).
(** [.iter().find(|l| file_ino(&l.name) == ino)] *)
Definition find_file (ino : N) (files : list Link) : option Link :=
  List.find (λ l, (file_ino (l_name l) =? ino)%N) files.
Definition find_dir (ino : N) (ds : list DirEntry) : option DirEntry :=
  List.find (λ d, (dir_ino (d_path d) =? ino)%N) ds.
Definition resolve_dir_path (ino : N) : IO LinaFs (option string) :=
  dirs ← rt_or [] all_dirs; ret (d_path <$> find_dir ino dirs).

Definition parent_path (parent : N) : IO LinaFs (option string) :=
  if (parent =? ROOT_INO)%N then ret (Some EmptyString) else resolve_dir_path parent.
Definition join_path (parent name : string) : string :=
  if is_empty parent then name else parent +:+ "/" +:+ name.
(** The parent's path and the full path of a name in it. *)
Definition child_path (parent : N) (name : bytes) : IO LinaFs (Errno + string * string) :=
  p ← parent_path parent;
  match p with
  | None => ret (inl ENOENT)
  | Some parent_path =>
      match from_utf8 name with
      | None => ret (inl EINVAL)
      | Some name_str => ret (inr (parent_path, join_path parent_path name_str))
      end
  end.

Definition put_file (name : string) (data : bytes) (cover : bool) : IO LinaFs (Error + unit) :=
  attempt (rt (put_binary_data root bm name data cover compressed)).
Definition get_file (name : string) : IO LinaFs (Error + bytes) := attempt (rt (get_binary_data root name)).
Definition buffered (ino : N) : IO LinaFs (option bytes) :=
  f ← get_state; ret (write_buf f !! ino).

(** ** Requests *)

Definition lookup (parent : N) (name : bytes) : IO LinaFs (Errno + FileAttr) :=
  p ← child_path parent name;
  match p with
  | inl e => ret (inl e)
  | inr (_, full_path) =>
      r ← get_file full_path;
      match r with
      | inr data =>
          files ← all_files;
          let mode := default MODE_FILE
            (l_mode <$> List.find (λ l, String.eqb (l_name l) full_path) files) in
          ret (inr (make_attr (file_ino full_path) (len data) (kind_from_mode mode) (perm_from_mode mode)))
      | inl _ =>
          d ← rt_or false (is_dir full_path);
          if (d : bool) then ret (inr (make_attr (dir_ino full_path) 0 Directory 0x1ED))
          else ret (inl ENOENT)
      end
  end.

Definition getattr (ino : N) : IO LinaFs (Errno + FileAttr) :=
  if (ino =? ROOT_INO)%N then ret (inr (make_attr ROOT_INO 0 Directory 0x1ED)) else
  files ← all_files;
  match find_file ino files with
  | Some link =>
      r ← get_file (l_name link);
      match r with
      | inr data => ret (inr (make_attr ino (len data) (kind_from_mode (l_mode link)) (perm_from_mode (l_mode link))))
      | inl _ => ret (inl EIO)
      end
  | None =>
      dirs ← rt_or [] all_dirs;
      match find_dir ino dirs with
      | Some d => ret (inr (make_attr ino 0 Directory (as_u16 (d_mode d))))
      | None => ret (inl ENOENT)
      end
  end.

(** The branches of [setattr]: a directory's mode; a file's new length. *)
Definition chmod (mode m : N) : N := N.lor (N.land mode S_IFMT) (N.land m PERM_MASK).
Definition setattr_dir (ino : N) (d : DirEntry) (mode : option N) : IO LinaFs (Errno + FileAttr) :=
  dir_mode ← match mode with
             | Some m =>
                 let new_mode := chmod (d_mode d) m in
                 ignore (rt (chmod_dir (d_path d) new_mode));; ret new_mode
             | None => ret (d_mode d)
             end;
  ret (inr (make_attr ino 0 Directory (perm_from_mode dir_mode))).
Definition truncate (ino : N) (name : string) (new_size : N) : IO LinaFs (Errno + unit) :=
  b ← buffered ino;
  truncated ← match b with
              | Some data =>
                  let data := resize (N.to_nat new_size) data in
                  update (set_write_buf <[ino := data]>);; ret (inr data)
              | None =>
                  r ← get_file name;
                  match r with
                  | inr d => ret (inr (resize (N.to_nat new_size) d))
                  | inl _ => ret (inl EIO)
                  end
              end;
  match truncated with
  | inl e => ret (inl e)
  | inr truncated =>
      r ← put_file name truncated true;
      match r with inr _ => ret (inr tt) | inl _ => ret (inl EIO) end
  end.
Definition setattr_file (ino : N) (name : string) (mode : option N) (size : option N)
    : IO LinaFs (Errno + FileAttr) :=
  r ← match size with Some new_size => truncate ino name new_size | None => ret (inr tt) end;
  match r with
  | inl e => ret (inl e)
  | inr _ =>
      files ← all_files;
      let file_mode := default MODE_FILE (l_mode <$> find_file ino files) in
      file_mode ← match mode with
                  | Some m =>
                      let file_mode := chmod file_mode m in
                      ignore (rt (set_file_mode name file_mode));; ret file_mode
                  | None => ret file_mode
                  end;
      b ← buffered ino;
      data_len ← match b with
                 | Some d => ret (len d)
                 | None => r ← get_file name; match r with inr d => ret (len d) | inl _ => ret 0%N end
                 end;
      ret (inr (make_attr ino data_len (kind_from_mode file_mode) (perm_from_mode file_mode)))
  end.
Definition setattr (ino : N) (mode size : option N) : IO LinaFs (Errno + FileAttr) :=
  if (ino =? ROOT_INO)%N
  then ret (inr (make_attr ROOT_INO 0 Directory (as_u16 (default 0x1ED%N mode)))) else
  dirs ← rt_or [] all_dirs;
  match find_dir ino dirs with
  | Some d => setattr_dir ino d mode
  | None =>
      files ← all_files;
      match find_file ino files with
      | Some l => setattr_file ino (l_name l) mode size
      | None => ret (inl ENOENT)
      end
  end.

(** One directory entry, and all of a directory's. *)
Record DirRecord := mkDirRecord { e_ino : N; e_kind : FileType; e_name : string }.
Fixpoint file_entries (prefix : string) (seen : gset string) (files : list Link) : list DirRecord :=
  match files with
  | [] => []
  | link :: files' =>
      match direct_child_name (l_name link) prefix with
      | Some leaf =>
          if bool_decide (leaf ∈ seen) then file_entries prefix seen files'
          else mkDirRecord (file_ino (join_path prefix leaf)) (kind_from_mode (l_mode link)) leaf
                 :: file_entries prefix ({[leaf]} ∪ seen) files'
      | None => file_entries prefix seen files'
      end
  end.
Definition dir_entries (ino parent_ino : N) (prefix : string) (child_dirs : list DirEntry)
    (files : list Link) : list DirRecord :=
  let subdirs := omap (λ d, leaf ← direct_child_name (d_path d) prefix;
                            Some (mkDirRecord (dir_ino (d_path d)) Directory leaf)) child_dirs in
  [mkDirRecord ino Directory "."; mkDirRecord parent_ino Directory ".."] ++ subdirs
    ++ file_entries prefix (list_to_set (e_name <$> subdirs)) files.
(** The entries added to the reply, each with the offset to go on from:
    [reply.add] refuses the first one that no longer fits. *)
Definition fill (fits : nat) (offset : nat) (entries : list DirRecord) : list (DirRecord * nat) :=
  take fits (drop offset (imap (λ i e, (e, i + 1)) entries)).
Definition readdir (ino : N) (offset fits : nat) : IO LinaFs (Errno + list (DirRecord * nat)) :=
  p ← parent_path ino;
  match p with
  | None => ret (inl ENOENT)
  | Some prefix =>
      child_dirs ← rt_or [] (list_child_dirs prefix);
      files ← all_files;
      ret (inr (fill fits offset (dir_entries ino ROOT_INO prefix child_dirs files)))
  end.

Definition read (ino offset size : N) : IO LinaFs (Errno + bytes) :=
  b ← buffered ino;
  match b with
  | Some data => ret (inr (slice (N.to_nat offset) (N.to_nat size) data))
  | None =>
      files ← all_files;
      match find_file ino files with
      | None => ret (inl ENOENT)
      | Some l =>
          r ← get_file (l_name l);
          match r with
          | inr data => ret (inr (slice (N.to_nat offset) (N.to_nat size) data))
          | inl _ => ret (inl EIO)
          end
      end
  end.

(** The buffer of an inode, loaded from the store by the first write. *)
Definition load_buffer (ino : N) : IO LinaFs (Errno + bytes) :=
  b ← buffered ino;
  match b with
  | Some data => ret (inr data)
  | None =>
      files ← all_files;
      match find_file ino files with
      | None => ret (inl ENOENT)
      | Some l =>
          r ← get_file (l_name l);
          match r with
          | inr d => update (set_write_buf <[ino := d]>);; ret (inr d)
          | inl _ => ret (inl ENOENT)
          end
      end
  end.
Definition write (ino offset : N) (data : bytes) : IO LinaFs (Errno + N) :=
  r ← load_buffer ino;
  match r with
  | inl e => ret (inl e)
  | inr entry =>
      update (set_write_buf <[ino := splice (N.to_nat offset) data entry]>);;
      ret (inr (as_u32 (len data)))
  end.

(** [flush], [fsync], and [release] without a flush before it. *)
Definition flush (ino : N) : IO LinaFs (Errno + unit) :=
  b ← buffered ino;
  update (set_write_buf (delete ino));;
  match b with
  | None => ret (inr tt)
  | Some data =>
      files ← all_files;
      match find_file ino files with
      | None => ret (inl ENOENT)
      | Some l =>
          r ← put_file (l_name l) data true;
          match r with inr _ => ret (inr tt) | inl _ => ret (inl EIO) end
      end
  end.
Definition fsync := flush.
Definition release (ino : N) (flush_called : bool) : IO LinaFs (Errno + unit) :=
  if flush_called then update (set_write_buf (delete ino));; ret (inr tt) else flush ino.

Definition create (parent : N) (name : bytes) (mode : N) : IO LinaFs (Errno + FileAttr) :=
  let mode := N.lor S_IFREG (N.land mode PERM_MASK) in
  p ← child_path parent name;
  match p with
  | inl e => ret (inl e)
  | inr (_, full_path) =>
      r ← put_file full_path [] false;
      match r with
      | inr _ =>
          ignore (rt (set_file_mode full_path mode));;
          ret (inr (make_attr (file_ino full_path) 0 (kind_from_mode mode) (perm_from_mode mode)))
      | inl _ => ret (inl EIO)
      end
  end.

Definition symlink (parent : N) (name : bytes) (link : bytes) : IO LinaFs (Errno + FileAttr) :=
  p ← child_path parent name;
  match p with
  | inl e => ret (inl e)
  | inr (_, full_path) =>
      match from_utf8 link with
      | None => ret (inl EINVAL)
      | Some target =>
          r ← put_file full_path (str_bytes target) false;
          match r with
          | inr _ =>
              ignore (rt (set_file_mode full_path MODE_SYMLINK));;
              ret (inr (make_attr (file_ino full_path) (len (str_bytes target)) Symlink 0x1FF))
          | inl _ => ret (inl EIO)
          end
      end
  end.

Definition readlink (ino : N) : IO LinaFs (Errno + bytes) :=
  files ← all_files;
  match find_file ino files with
  | None => ret (inl ENOENT)
  | Some l =>
      r ← get_file (l_name l);
      match r with inr data => ret (inr data) | inl _ => ret (inl EIO) end
  end.

Definition fs_mkdir (parent : N) (name : bytes) (mode : N) : IO LinaFs (Errno + FileAttr) :=
  let mode := N.lor S_IFDIR (N.land mode PERM_MASK) in
  p ← child_path parent name;
  match p with
  | inl e => ret (inl e)
  | inr (parent_path, dir_path) =>
      r ← attempt (rt (mkdir dir_path parent_path));
      match r with
      | inr _ =>
          ignore (rt (chmod_dir dir_path mode));;
          ret (inr (make_attr (dir_ino dir_path) 0 Directory (perm_from_mode mode)))
      | inl _ => ret (inl EIO)
      end
  end.

Definition fs_rmdir (parent : N) (name : bytes) : IO LinaFs (Errno + unit) :=
  p ← child_path parent name;
  match p with
  | inl e => ret (inl e)
  | inr (_, dir_path) =>
      child_dirs ← rt_or [] (list_child_dirs dir_path);
      if negb (bool_decide (child_dirs = [])) then ret (inl ENOTEMPTY) else
      files ← all_files;
      if existsb (λ l, starts_with (dir_path +:+ "/") (l_name l)) files then ret (inl ENOTEMPTY) else
      r ← attempt (rt (rmdir dir_path));
      match r with inr _ => ret (inr tt) | inl _ => ret (inl ENOENT) end
  end.

Definition unlink (parent : N) (name : bytes) : IO LinaFs (Errno + unit) :=
  p ← child_path parent name;
  match p with
  | inl e => ret (inl e)
  | inr (_, full_path) =>
      r ← attempt (rt (delete_ root full_path false));
      match r with inr _ => ret (inr tt) | inl _ => ret (inl ENOENT) end
  end.

Definition rename (parent : N) (name : bytes) (newparent : N) (newname : bytes)
    : IO LinaFs (Errno + unit) :=
  p ← parent_path parent;
  match p with
  | None => ret (inl ENOENT)
  | Some parent_p =>
      q ← parent_path newparent;
      match q with
      | None => ret (inl ENOENT)
      | Some new_parent_p =>
          match from_utf8 name, from_utf8 newname with
          | Some old_name, Some new_name =>
              let old_path := join_path parent_p old_name in
              let new_path := join_path new_parent_p new_name in
              r ← get_file old_path;
              match r with
              | inl _ => ret (inl ENOENT)
              | inr data =>
                  r ← put_file new_path data true;
                  match r with
                  | inl _ => ret (inl EIO)
                  | inr _ => ignore (rt (delete_ root old_path false));; ret (inr tt)
                  end
              end
          | _, _ => ret (inl EINVAL)
          end
      end
  end.

(** [wrapping_add] on [i64]. *)
Definition wrapping_add (a b : Z) : Z := i64_of_u64 (u64_of_i64 (a + b)).
Definition lseek (ino : N) (offset : Z) (whence : Z) : IO LinaFs Z :=
  files ← all_files;
  file_size ← match find_file ino files with
              | Some l =>
                  b ← buffered ino;
                  match b with
                  | Some d => ret (len d)
                  | None => r ← get_file (l_name l); match r with inr d => ret (len d) | inl _ => ret 0%N end
                  end
              | None => ret 0%N
              end;
  let file_size := i64_of_u64 file_size in
  if (whence =? 2)%Z then ret (Z.max (wrapping_add file_size offset) 0)
  else if (whence =? 3)%Z then ret (Z.max offset 0)
  else if (whence =? 4)%Z then ret file_size
  else ret 0%Z.

(** [statfs]: the number of files. *)
Definition statfs : IO LinaFs N := files ← all_files; ret (len files).
End LinaFs.

(** ** Lemmas: a mounted store *)

Section FsProofs.
Context `{P : Platform} `{PL : !PlatformLaws P} `{C : Codec} `{CL : !CodecLaws C}.
Variable root : path.
Variable bm : BlockManager.
Variable compressed : bool.
Variable hash_name : string → N.
Variable hash_dir : string → N.
(** The contents that are stored or will be. *)
Variable V : bytes → Prop.
Implicit Types (w : Env LinaFs) (m : gmap string bytes).

Abbreviation fino := (file_ino hash_name).
Abbreviation dino := (dir_ino hash_dir).

Definition store_run w : Env Store := mkEnv (store (state w)) (fates w) (clock w) (draws w).

(** The directories of the table, and those the paths of the files go through. *)
Fixpoint ancestors (parts : list string) (acc : string) : list string :=
  match parts with
  | [] => []
  | part :: parts' =>
      let acc := (if is_empty acc then acc else acc +:+ "/") +:+ part in acc :: ancestors parts' acc
  end.
Definition folders (name : string) : list string :=
  match rfind_char SLASH name with
  | Some slash => ancestors (split_on SLASH (str_take slash name)) EmptyString
  | None => []
  end.
Definition dir_of (ds : gmap string DirRow) m (p : string) : Prop :=
  is_Some (ds !! p) ∨ ∃ n, is_Some (m !! n) ∧ p ∈ folders n.
(** Names are not empty, and no two files, and no file and directory, have the
    same inode number. *)
Record names_ok (ds : gmap string DirRow) m : Prop := {
  no_empty : ∀ n, is_Some (m !! n) → is_empty n = false;
  inos_apart : ∀ n n', is_Some (m !! n) → is_Some (m !! n') → fino n = fino n' → n = n';
  dirs_apart : ∀ p n, dir_of ds m p → is_Some (m !! n) → dino p ≠ fino n
}.
Lemma names_ok_fewer ds m m' : (∀ n, is_Some (m' !! n) → is_Some (m !! n)) → names_ok ds m → names_ok ds m'.
Proof.
  intros Hd [H1 H2 H3]. split; [by eauto..|]. intros p n [Hp|(n' & Hn' & Hp)] Hn; apply H3; [by left|by eauto|right|by eauto].
  eauto.
Qed.
(** The store is at rest and stands for [m], and nothing fails. *)
Record Mounted w m : Prop := {
  mt_calm : calm (fates w);
  mt_rests : Rests root V 0 (store_run w) m;
  mt_room : roomy m;
  mt_names : names_ok (dir_table (store (state w))) m
}.

Lemma mt_holds w m : Mounted w m → holds root (store_run w) m.
Proof. intros []. by eapply rests_holds. Qed.
Lemma mt_within w m n d : Mounted w m → m !! n = Some d → V d.
Proof. intros []. by eapply rests_within. Qed.

Section Storing.
Hypothesis chunk_ok : (0 < chunk_size bm < 2 ^ 16)%N.
Hypothesis hash_ok : hash_injective V.

Lemma mt_collision w m d : Mounted w m → V d → no_collision m d.
Proof. intros HM Hd n d0 Hn E. apply hash_ok; [by eapply mt_within|done..]. Qed.

(** A call of the store manager on a mounted store. *)
Lemma rt_mounted {A} (op : IO Store A) `{!Preserves dir_table op} w m m' F (Q : A → Prop) :
  Mounted w m → roomy m' → names_ok (dir_table (store (state w))) m' →
  ends (store_run w) F (λ a _, Q a) (op (store_run w)) →
  (∀ a v, op (store_run w) = (Ok a, v) → Rests root V 0 v m') →
  ∃ a w', rt op w = (Ok a, w') ∧ Q a ∧ Mounted w' m' ∧ write_buf (state w') = write_buf (state w).
Proof.
  intros [Hc Hh Hr Hn] Hr' Hn' He HR. pose proof (preserves (store_run w)) as Hd.
  apply ends_calm in He as (a & v & E & HQ & Hx); [|done]. rewrite E in Hd. simpl in Hd. specialize (HR _ _ E).
  destruct v as [s fs ck dr]. eexists a, _. unfold rt, focus. fold (store_run w). rewrite E.
  split; [reflexivity|]. split; [done|]. split; [|done].
  split; simpl; [by apply (next_calm _ _ Hx)|exact HR|done|]. simpl in Hd. by rewrite Hd.
Qed.

(** An operation that changes nothing. *)
Lemma read_rests {A} (op : IO Store A) `{!Preserves (λ s : Store, s) op} `{!Undrawn op} u m a v :
  Rests root V 0 u m → op u = (Ok a, v) → Rests root V 0 v m.
Proof.
  intros HR E. pose proof (preserves (f := λ s : Store, s) (m := op) u) as Es. pose proof (undrawn (m := op) u) as Ed.
  rewrite E in Es, Ed. simpl in Es, Ed. destruct HR as (t & HL & HF & Hm). exists t. by rewrite Es, Ed.
Qed.

Lemma all_files_ok w m : Mounted w m →
  ∃ ls w', all_files w = (Ok ls, w') ∧ (∀ n, n ∈ l_name <$> ls ↔ is_Some (m !! n)) ∧
    Mounted w' m ∧ write_buf (state w') = write_buf (state w).
Proof.
  intros HM. pose proof (mt_holds _ _ HM) as (t & HR & HI & Hm).
  destruct (rt_mounted (list_ "*" 0 false true) w m m (λ _, True)
    (λ ls, ∀ n, n ∈ l_name <$> ls ↔ is_Some (m !! n)) HM (mt_room _ _ HM) (mt_names _ _ HM))
    as (ls & w' & E & HQ & HM' & Hb).
  - unfold list_.
    destruct (list_locked_step root (store_run w) t "*" true HR (calm_one_failure _ (mt_calm _ _ HM)))
      as [ls v [Hex HR'] Hn|e v _ Hn]; constructor; try done.
    intros n. rewrite (proj2 (proj2 Hex)). split.
    + intros [_ (i & s & Hi)]. destruct (inv_links _ _ _ HI _ _ _ Hi) as [c Hs].
      destruct (inv_content _ _ _ HI _ _ Hs) as (d & Hd & _). exists d. apply Hm. eauto.
    + intros [d Hd]. apply Hm in Hd as (i & s & Hi & _). split; [by vm_compute|eauto].
  - intros ls v E. eapply (read_rests (list_ "*" 0 false true)); [apply (mt_rests _ _ HM)|exact E].
  - exists ls, w'. split; [|done]. unfold all_files, rt_or, mbind, IO_mbind, bind, attempt. by rewrite E.
Qed.

Lemma find_file_ok ls m n ds :
  (∀ n, n ∈ l_name <$> ls ↔ is_Some (m !! n)) → names_ok ds m → is_Some (m !! n) →
  ∃ l, find_file hash_name (fino n) ls = Some l ∧ l_name l = n.
Proof.
  intros Hls Hok Hn. unfold find_file.
  destruct (List.find _ ls) as [l|] eqn:E.
  - exists l. split; [done|]. apply List.find_some in E as [Hin Hl%N.eqb_eq].
    apply (inos_apart _ _ Hok); [|done..]. apply Hls, list_elem_of_fmap_2. by apply list_elem_of_In.
  - exfalso. apply Hls in Hn. apply list_elem_of_fmap in Hn as (l & -> & Hl).
    apply list_elem_of_In in Hl. pose proof (List.find_none _ _ E _ Hl) as Hx. simpl in Hx.
    apply N.eqb_neq in Hx. done.
Qed.

(** An operation of the manager, by what it returns and what it makes of [m]. *)
Lemma cmd_rests w m op r v : Mounted w m → is_empty (op_name op) = false → Forall V (op_data op) →
  run_op root bm op (store_run w) = (Ok r, v) → Rests root V 0 v (effect op m).
Proof.
  intros HM Hn HV E. pose proof (mt_room _ _ HM) as Hr. unfold roomy in Hr.
  eapply (op_rests root bm V 0); [apply HM|apply (mt_calm _ _ HM)|done|done|lia|done|done|exact E].
Qed.

Lemma get_file_ok w m n d : Mounted w m → m !! n = Some d →
  ∃ w', get_file root n w = (Ok (inr d), w') ∧ Mounted w' m ∧ write_buf (state w') = write_buf (state w).
Proof.
  intros HM Hd. pose proof (mt_holds _ _ HM) as (t & HR & HI & Hm). pose proof HM as [Hc _ Hr Hn].
  assert (Hne : is_empty n = false) by (eapply no_empty; eauto).
  destruct (rt_mounted (get_binary_data root n) w m m (λ _, True) (λ a, a = d) HM Hr Hn)
    as (a & w' & E & -> & HM' & Hb).
  - pose proof (inv_sound _ _ HI) as HSo.
    destruct (get_ends root (store_run w) t m n d) as [a v [-> HR'] Hx|e v _ Hx]; try done.
    + by apply calm_one_failure.
    + by constructor.
    + by constructor.
  - intros a v E. eapply (cmd_rests w m (CmdGet n)); try done.
    unfold run_op, attempt, mbind, IO_mbind, bind. by rewrite E.
  - exists w'. split; [|done]. unfold get_file, attempt. by rewrite E.
Qed.

Lemma put_file_ok w m n d cover :
  Mounted w m → is_empty n = false → V d →
  roomy (<[n := d]> m) → names_ok (dir_table (store (state w))) (<[n := d]> m) →
  ∃ w', put_file root bm compressed n d cover w = (Ok (inr tt), w') ∧ Mounted w' (<[n := d]> m) ∧
    write_buf (state w') = write_buf (state w).
Proof.
  intros HM Hne HVd Hr' Hn'. pose proof (mt_holds _ _ HM) as (t & HR & HI & Hm). pose proof HM as [Hc _ Hr Hn].
  destruct (rt_mounted (put_binary_data root bm n d cover compressed) w m (<[n := d]> m) (λ _, True) (λ _, True)
    HM Hr' Hn') as ([] & w' & E & _ & HM' & Hb).
  - destruct (put_binary_data_changes root bm (store_run w) t m n d cover compressed)
      as [[] v _ Hx|e v _ Hx]; try done; [by apply calm_one_failure|by eapply mt_collision|by constructor..].
  - intros [] v E. eapply (cmd_rests w m (CmdPut n d cover compressed)); try done; [by repeat constructor|].
    unfold run_op, attempt, mbind, IO_mbind, bind. by rewrite E.
  - exists w'. split; [|done]. unfold put_file, attempt. by rewrite E.
Qed.

Lemma delete_file_ok w m n : Mounted w m → is_empty n = false →
  ∃ w', ignore (rt (delete_ root n false)) w = (Ok tt, w') ∧ Mounted w' (delete n m) ∧
    write_buf (state w') = write_buf (state w).
Proof.
  intros HM Hne. pose proof (mt_holds _ _ HM) as (t & HR & HI & Hm). pose proof HM as [Hc _ Hr Hn].
  destruct (rt_mounted (delete_ root n false) w m (delete n m) (λ _, True) (λ _, True) HM)
    as ([] & w' & E & _ & HM' & Hb).
  - by apply roomy_delete.
  - eapply names_ok_fewer; [|exact Hn]. intros n' [_ Hx]%lookup_delete_is_Some. done.
  - destruct (delete_refines_aux root (store_run w) t m n) as [[] v HQ Hx|e v _ Hx]; try done; [|by constructor..].
    by apply calm_one_failure.
  - intros [] v E. eapply (cmd_rests w m (CmdDelete n)); try done.
    unfold run_op, attempt, mbind, IO_mbind, bind. by rewrite E.
  - exists w'. split; [|done]. unfold ignore, attempt, bind. by rewrite E.
Qed.

Lemma select_dirs_elem (p : DirRow → Prop) `{∀ r, Decision (p r)} db d :
  d ∈ select_dirs p db ↔ ∃ r, dir db !! d_path d = Some r ∧ p r ∧ d = dir_of_row (d_path d) r.
Proof.
  unfold select_dirs. rewrite merge_sort_Permutation, list_elem_of_fmap. split.
  - intros ([q r] & -> & [Hq Hp]%elem_of_map_to_list%map_lookup_filter_Some). by exists r.
  - intros (r & Hr & Hp & E). exists (d_path d, r). split; [done|]. by apply elem_of_map_to_list, map_lookup_filter_Some.
Qed.
(** A query on a mounted store. *)
Lemma query_ok_here {A} ctx (f : Db → A) (d : A) w m : Mounted w m →
  ∃ w', rt_or d (with_dao (query ctx f)) w = (Ok (f (db (store (state w)))), w') ∧
    Mounted w' m ∧ state w' = state w.
Proof.
  intros [Hc Hh Hr Hn]. destruct w as [[s buf] fs ck dr]; simpl in *.
  unfold rt_or, rt, with_dao, query, focus, mbind, IO_mbind, bind, attempt, map_err, external. cbn [fates state clock draws].
  destruct fs as [|f0 fs].
  - eexists. split; [reflexivity|]. by split_and!.
  - apply Forall_cons in Hc as [-> Hc]. eexists. split; [reflexivity|]. split; [|done]. by split.
Qed.
Lemma dirs_ok w m : Mounted w m →
  ∃ dl w', rt_or [] all_dirs w = (Ok dl, w') ∧
    (∀ d, d ∈ dl → is_Some (dir_table (store (state w)) !! d_path d)) ∧ Mounted w' m ∧ state w' = state w.
Proof.
  intros HM. destruct (query_ok_here "Failed to list all dirs" (select_dirs (λ _, True)) [] w m HM) as (w' & E & H).
  eexists _, w'. split; [exact E|]. split; [|exact H]. intros d (r & Hr & _)%select_dirs_elem. by exists r.
Qed.
(** The links of a mounted store, all of them. *)
Lemma listed_links w m : Mounted w m →
  let ls := select_links (λ _, True) (db (store (state w))) in
  NoDup (l_name <$> ls) ∧
  ∀ l, l ∈ ls ↔ is_Some (m !! l_name l) ∧ l ∈ select_links (λ r, lr_name r = l_name l) (db (store (state w))).
Proof.
  intros HM ls. pose proof (mt_holds _ _ HM) as (t & HR & HI & Hm). simpl in HR.
  assert (Hat : ∀ i r, link (db (store (state w))) !! i = Some r → t_links t !! i = Some (lr_name r, lr_source_id r)).
  { intros i r Hr. rewrite <- (rel_links _ _ _ HR), lookup_fmap. simpl. by rewrite Hr. }
  split.
  - assert (Hnd : NoDup (l_id <$> ls)) by by apply (select_links_exactly root (store (state w)) t (λ _, True) (λ _, true)).
    apply NoDup_fmap_1 in Hnd. apply NoDup_fmap_2_strong; [|done].
    intros l1 l2 (i & r & Hr & _ & ->)%elem_select_links (j & r' & Hr' & _ & ->)%elem_select_links E. simpl in E.
    apply Hat in Hr as H1. apply Hat in Hr' as H2. rewrite E in H1.
    assert (i = j) as -> by (eapply (inv_names _ _ _ HI); [exact H1|exact H2]). congruence.
  - intros l. unfold ls. rewrite !elem_select_links. split.
    + intros (i & r & Hr & _ & ->). simpl. split; [|eauto 10]. apply Hat in Hr.
      destruct (inv_links _ _ _ HI _ _ _ Hr) as [c Hs]. destruct (inv_content _ _ _ HI _ _ Hs) as (d & Hd & _).
      exists d. apply Hm. eauto.
    + intros (_ & i & r & Hr & _ & ->). eauto.
Qed.

(** *** Files as byte arrays

    The reference: of every file the array that is stored, and the one that has
    been written and not yet been saved, if there is one. *)
Record File := mkFile { saved : bytes; unsaved : option bytes }.
Definition seen (f : File) : bytes := default (saved f) (unsaved f).

Inductive FileOp :=
  | Read (off size : N) | Write (off : N) (data : bytes) | Flush | Fsync | Release (flushed : bool)
  | Truncate (size : N).
Inductive Answer := Bytes (d : bytes) | Count (n : N) | Done | Size (n : N).
(** The operations on an array, position by position. *)
Definition at_pos (d : bytes) (i : nat) : byte := default NUL (d !! i).
Definition array_read (off size : nat) (d : bytes) : bytes := omap (λ i, d !! i) (seq off size).
Definition array_write (off : nat) (data d : bytes) : bytes :=
  (λ i, if decide (off ≤ i < off + length data) then at_pos data (i - off) else at_pos d i)
    <$> seq 0 (Nat.max (length d) (off + length data)).
Definition array_truncate (n : nat) (d : bytes) : bytes := at_pos d <$> seq 0 n.
(** Reading and writing go to what is seen; flushing saves it; a release that
    trusts a flush before it forgets what is not saved; truncating does both
    arrays. *)
Definition file_op (op : FileOp) (f : File) : File * Answer :=
  match op with
  | Read off size => (f, Bytes (array_read (N.to_nat off) (N.to_nat size) (seen f)))
  | Write off data => (mkFile (saved f) (Some (array_write (N.to_nat off) data (seen f))), Count (as_u32 (len data)))
  | Flush | Fsync | Release false => (mkFile (seen f) None, Done)
  | Release true => (mkFile (saved f) None, Done)
  | Truncate size => let d := array_truncate (N.to_nat size) (seen f) in (mkFile d ((λ _, d) <$> unsaved f), Size size)
  end.

Lemma at_pos_lt d i : i < length d → d !! i = Some (at_pos d i).
Proof. intros Hi. unfold at_pos. destruct (d !! i) eqn:E; [done|]. apply lookup_ge_None in E. lia. Qed.
Lemma at_pos_ge d i : length d ≤ i → at_pos d i = NUL.
Proof. intros Hi. unfold at_pos. by rewrite lookup_ge_None_2. Qed.
Lemma tabulate_lookup (f : nat → byte) n i : (f <$> seq 0 n) !! i = if decide (i < n) then Some (f i) else None.
Proof.
  rewrite list_lookup_fmap. case_decide; [by rewrite lookup_seq_lt|].
  by rewrite lookup_seq_ge by lia.
Qed.
Lemma resize_lookup n d i : resize n d !! i = if decide (i < n) then Some (at_pos d i) else None.
Proof.
  unfold resize. destruct (decide (i < Nat.min n (length d))) as [Hi|Hi].
  - rewrite lookup_app_l by (rewrite length_take; lia). rewrite lookup_take_lt by lia.
    rewrite decide_True by lia. apply at_pos_lt. lia.
  - rewrite lookup_app_r, length_take by (rewrite length_take; lia). case_decide.
    + rewrite lookup_replicate_2 by lia. by rewrite at_pos_ge by lia.
    + apply lookup_replicate_None. lia.
Qed.
Lemma resize_array n d : resize n d = array_truncate n d.
Proof. apply list_eq. intros i. unfold array_truncate. by rewrite resize_lookup, tabulate_lookup. Qed.
Lemma length_resize n d : length (resize n d) = n.
Proof. unfold resize. rewrite length_app, length_take, length_replicate. lia. Qed.
Lemma array_read_cons x d off size : array_read (S off) size (x :: d) = array_read off size d.
Proof.
  unfold array_read. rewrite <- fmap_S_seq. generalize (seq off size) as l.
  induction l as [|i l IH]; [done|]. rewrite fmap_cons. cbn [omap list_omap]. 
  change ((x :: d) !! S i) with (d !! i). by rewrite IH.
Qed.
Lemma array_read_nil off size : array_read off size [] = [].
Proof.
  unfold array_read. revert off. induction size as [|size IH]; intros off; [done|]. simpl. apply IH.
Qed.
Lemma array_read_take off size d : array_read off size d = take size (drop off d).
Proof.
  revert size d. induction off as [|off IH]; intros size d.
  - rewrite drop_0. revert d. induction size as [|size IH]; intros [|x d]; [done|done|apply array_read_nil|].
    change (array_read 0 (S size) (x :: d)) with (x :: array_read 1 size (x :: d)).
    by rewrite array_read_cons, IH.
  - destruct d as [|x d]; [by rewrite array_read_nil, drop_nil, take_nil|]. rewrite array_read_cons. apply IH.
Qed.
Lemma slice_array off size d : slice off size d = array_read off size d.
Proof.
  rewrite array_read_take. unfold slice. destruct (Nat.leb_spec (length d) off).
  - by rewrite drop_ge, take_nil by done.
  - destruct (decide (off + size ≤ length d)).
    + rewrite Nat.min_l by done. f_equal. lia.
    + rewrite Nat.min_r, !take_ge by (rewrite ?length_drop; lia). done.
Qed.
Lemma splice_array off data d : splice off data d = array_write off data d.
Proof.
  set (e := if length d <? off + length data then resize (off + length data) d else d).
  assert (He : ∀ i, e !! i = if decide (i < Nat.max (length d) (off + length data)) then Some (at_pos d i) else None).
  { intros i. unfold e. destruct (Nat.ltb_spec (length d) (off + length data)).
    - rewrite resize_lookup. by rewrite Nat.max_r by lia.
    - rewrite Nat.max_l by lia. case_decide; [by apply at_pos_lt|by apply lookup_ge_None_2; lia]. }
  assert (Hl : off + length data ≤ length e).
  { unfold e. destruct (Nat.ltb_spec (length d) (off + length data)); [by rewrite length_resize|lia]. }
  apply list_eq. intros i. unfold splice. fold e. unfold array_write. rewrite tabulate_lookup.
  destruct (decide (i < off)); [|destruct (decide (i < off + length data))].
  - rewrite lookup_app_l by (rewrite length_take; lia). rewrite lookup_take_lt, He by lia.
    rewrite !decide_True by lia. by rewrite decide_False by lia.
  - rewrite lookup_app_r, length_take by (rewrite length_take; lia). rewrite Nat.min_l by lia.
    rewrite lookup_app_l by lia. rewrite at_pos_lt by lia.
    by rewrite !decide_True by lia.
  - rewrite lookup_app_r, length_take by (rewrite length_take; lia). rewrite Nat.min_l by lia.
    rewrite lookup_app_r, lookup_drop by lia. replace (off + length data + (i - off - length data)) with i by lia.
    rewrite He. case_decide; [|done]. by rewrite decide_False by lia.
Qed.

Definition answer {A} (f : A → Answer) (m : IO LinaFs (Errno + A)) : IO LinaFs (Errno + Answer) :=
  r ← m; ret (match r with inl e => inl e | inr a => inr (f a) end).
(** The request of the kernel for an operation on the file with number [i]. *)
Definition fs_op (op : FileOp) (i : N) : IO LinaFs (Errno + Answer) :=
  match op with
  | Read off size => answer Bytes (read root hash_name i off size)
  | Write off data => answer Count (write root hash_name i off data)
  | Flush => answer (λ _, Done) (flush root bm compressed hash_name i)
  | Fsync => answer (λ _, Done) (fsync root bm compressed hash_name i)
  | Release flushed => answer (λ _, Done) (release root bm compressed hash_name i flushed)
  | Truncate size => answer (λ a, Size (size_of_file a)) (setattr root bm compressed hash_name hash_dir i None (Some size))
  end.

(** The file system stands for [L]: the saved arrays are in the store, the others
    are the buffers. *)
Implicit Types L : gmap string File.
Record Serves w L : Prop := {
  sv_mounted : Mounted w (saved <$> L);
  sv_buffers : ∀ n f, L !! n = Some f → write_buf (state w) !! fino n = unsaved f
}.

Lemma sv_file w L n f : Serves w L → L !! n = Some f → (saved <$> L) !! n = Some (saved f).
Proof. intros _ Hn. by rewrite lookup_fmap, Hn. Qed.
Lemma sv_some L n : is_Some ((saved <$> L) !! n) ↔ is_Some (L !! n).
Proof. rewrite lookup_fmap. apply fmap_is_Some. Qed.
(** The buffers of other files are other buffers. *)
Lemma sv_apart w L n f n' f' : Serves w L → L !! n = Some f → L !! n' = Some f' → n ≠ n' → fino n ≠ fino n'.
Proof.
  intros [HM _] Hn Hn' Hne E. apply Hne. apply (inos_apart _ _ (mt_names _ _ HM)); [..|done]; apply sv_some; eauto.
Qed.
Lemma serves_keeps w w' L : Serves w L → Mounted w' (saved <$> L) → write_buf (state w') = write_buf (state w) → Serves w' L.
Proof. intros [_ Hb] HM E. split; [done|]. intros n f Hn. rewrite E. by apply Hb. Qed.
(** One file has changed: its saved array in the store, its buffer among the buffers. *)
Lemma serves_step w w' L n f f' :
  Serves w L → L !! n = Some f → Mounted w' (<[n := saved f']> (saved <$> L)) →
  write_buf (state w') = partial_alter (λ _, unsaved f') (fino n) (write_buf (state w)) →
  Serves w' (<[n := f']> L).
Proof.
  intros HS Hn HM Hb. split; [by rewrite fmap_insert|]. intros n' f0. rewrite Hb.
  intros [[<- <-]|[Hne Hn']]%lookup_insert_Some; [apply lookup_partial_alter_eq|].
  rewrite lookup_partial_alter_ne; [by apply (sv_buffers _ _ HS)|by eapply sv_apart].
Qed.
Lemma serves_again w w' L n f b :
  Serves w L → L !! n = Some f → Mounted w' (saved <$> L) →
  write_buf (state w') = partial_alter (λ _, b) (fino n) (write_buf (state w)) →
  Serves w' (<[n := mkFile (saved f) b]> L).
Proof.
  intros HS Hn HM Hb. eapply serves_step; [exact HS|exact Hn| |exact Hb]. simpl.
  rewrite insert_id; [done|]. by eapply sv_file.
Qed.

Lemma names_ok_insert ds m n d : is_Some (m !! n) → names_ok ds m → names_ok ds (<[n := d]> m).
Proof.
  intros Hn. apply names_ok_fewer. intros n' [x Hx]. apply lookup_insert_Some in Hx as [[<- _]|[_ Hx]]; eauto.
Qed.
Lemma roomy_insert m n d : is_Some (m !! n) → roomy m → roomy (<[n := d]> m).
Proof. intros [x Hx]. unfold roomy. rewrite map_size_insert, Hx. done. Qed.

(** Storing new contents of a file. *)
Lemma store_file w m n d :
  Mounted w m → is_Some (m !! n) → V d →
  ∃ w', put_file root bm compressed n d true w = (Ok (inr tt), w') ∧ Mounted w' (<[n := d]> m) ∧
    write_buf (state w') = write_buf (state w).
Proof.
  intros HM Hn HVd. apply put_file_ok; try done.
  - by eapply no_empty; [apply (mt_names _ _ HM)|].
  - by apply roomy_insert, (mt_room _ _ HM).
  - by apply names_ok_insert, (mt_names _ _ HM).
Qed.
Lemma mounted_buffers w m g : Mounted w m → Mounted (mkEnv (set_write_buf g (state w)) (fates w) (clock w) (draws w)) m.
Proof. intros []. by split. Qed.

(** The file and its stored contents, found by its number. *)
Lemma stored_ok w L n f : Serves w L → L !! n = Some f →
  ∃ ls l w1 w2, all_files w = (Ok ls, w1) ∧ find_file hash_name (fino n) ls = Some l ∧ l_name l = n ∧
    get_file root n w1 = (Ok (inr (saved f)), w2) ∧ Serves w1 L ∧ Serves w2 L ∧
    write_buf (state w1) = write_buf (state w) ∧ write_buf (state w2) = write_buf (state w).
Proof.
  intros HS Hn. pose proof (sv_file _ _ _ _ HS Hn) as Hs.
  destruct (all_files_ok w _ (sv_mounted _ _ HS)) as (ls & w1 & E1 & Hls & HM1 & Hb1).
  destruct (find_file_ok ls _ n _ Hls (mt_names _ _ HM1)) as (l & El & En); [eauto|].
  destruct (get_file_ok w1 _ n _ HM1 Hs) as (w2 & E2 & HM2 & Hb2).
  exists ls, l, w1, w2. split_and!; try done; [by eapply serves_keeps| |congruence].
  eapply serves_keeps; [exact HS|done|congruence].
Qed.

Ltac runs := unfold buffered, get_state, update, mbind, IO_mbind, bind, ret; cbn beta iota.

Lemma read_ok w L n f off size : Serves w L → L !! n = Some f →
  ∃ w', read root hash_name (fino n) off size w = (Ok (inr (slice (N.to_nat off) (N.to_nat size) (seen f))), w') ∧
    Serves w' L.
Proof.
  intros HS Hn. pose proof (sv_buffers _ _ HS _ _ Hn) as Hb. unfold read. runs. rewrite Hb.
  unfold seen. destruct (unsaved f) as [b|]; [by eexists|].
  destruct (stored_ok w L n f HS Hn) as (ls & l & w1 & w2 & E1 & El & En & E2 & _ & HS2 & _).
  rewrite E1. cbn beta iota. rewrite El, En. cbn beta iota. rewrite E2. by eexists.
Qed.

Lemma write_ok w L n f off data : Serves w L → L !! n = Some f →
  ∃ w', write root hash_name (fino n) off data w = (Ok (inr (as_u32 (len data))), w') ∧
    Serves w' (<[n := mkFile (saved f) (Some (splice (N.to_nat off) data (seen f)))]> L).
Proof.
  intros HS Hn. pose proof (sv_buffers _ _ HS _ _ Hn) as Hb. unfold write, load_buffer. runs. rewrite Hb.
  unfold seen. destruct (unsaved f) as [b|] eqn:Eu; cbn beta iota.
  - eexists. split; [reflexivity|]. eapply serves_again; [exact HS|exact Hn|apply mounted_buffers, HS|reflexivity].
  - destruct (stored_ok w L n f HS Hn) as (ls & l & w1 & w2 & E1 & El & En & E2 & _ & HS2 & _ & Hb2).
    rewrite E1. cbn beta iota. rewrite El, En. cbn beta iota. rewrite E2. cbn beta iota.
    eexists. split; [reflexivity|]. eapply serves_again; [exact HS|exact Hn|apply mounted_buffers, mounted_buffers, HS2|].
    simpl. by rewrite Hb2, insert_insert_eq.
Qed.

Lemma flush_ok w L n f : Serves w L → L !! n = Some f → V (seen f) →
  ∃ w', flush root bm compressed hash_name (fino n) w = (Ok (inr tt), w') ∧ Serves w' (<[n := mkFile (seen f) None]> L).
Proof.
  intros HS Hn HV. pose proof (sv_buffers _ _ HS _ _ Hn) as Hb. unfold flush. runs. rewrite Hb.
  set (w0 := mkEnv (set_write_buf (delete (fino n)) (state w)) (fates w) (clock w) (draws w)).
  assert (HM0 : Mounted w0 (saved <$> L)) by apply mounted_buffers, HS.
  assert (HS0 : Serves w0 (<[n := mkFile (saved f) None]> L)) by by eapply serves_again.
  unfold seen in *. destruct (unsaved f) as [b|] eqn:Eu; cbn beta iota; [|by eexists].
  destruct (stored_ok w0 _ n _ HS0 (lookup_insert_eq _ _ _)) as (ls & l & w1 & w2 & E1 & El & En & _ & HS1 & _ & Hb1 & _).
  destruct (store_file w1 _ n b (sv_mounted _ _ HS1)) as (w3 & E3 & HM3 & Hb3);
    [apply sv_some; rewrite lookup_insert_eq; eauto|exact HV|].
  rewrite E1. cbn beta iota. rewrite El, En. cbn beta iota. rewrite E3. cbn beta iota.
  eexists. split; [reflexivity|]. eapply serves_step; [exact HS|exact Hn| |].
  - rewrite fmap_insert, insert_insert_eq in HM3. exact HM3.
  - rewrite Hb3, Hb1. done.
Qed.

Lemma release_ok w L n f flushed : Serves w L → L !! n = Some f → V (saved (file_op (Release flushed) f).1) →
  ∃ w', release root bm compressed hash_name (fino n) flushed w = (Ok (inr tt), w') ∧
    Serves w' (<[n := (file_op (Release flushed) f).1]> L).
Proof.
  intros HS Hn HV. destruct flushed; cbn [file_op fst saved] in *; [|by apply flush_ok].
  unfold release. runs. eexists. split; [reflexivity|].
  eapply serves_again; [exact HS|exact Hn|apply mounted_buffers, HS|reflexivity].
Qed.

Lemma avoid_reserved_root i : avoid_reserved i ≠ ROOT_INO.
Proof.
  unfold avoid_reserved, ROOT_INO.
  destruct (N.eqb_spec i 0) as [->|]; [by vm_compute|].
  destruct (N.eqb_spec i 1) as [->|]; [by vm_compute|done].
Qed.

Lemma truncate_ok w L n f size : Serves w L → L !! n = Some f →
  let d := resize (N.to_nat size) (seen f) in V d →
  ∃ w', truncate root bm compressed (fino n) n size w = (Ok (inr tt), w') ∧
    Serves w' (<[n := mkFile d ((λ _, d) <$> unsaved f)]> L).
Proof.
  intros HS Hn d HVd. pose proof (sv_buffers _ _ HS _ _ Hn) as Hb. unfold truncate. runs. rewrite Hb.
  unfold seen in d. destruct (unsaved f) as [b|] eqn:Eu; simpl in d; cbn beta iota.
  - fold d. set (w1 := mkEnv (set_write_buf <[fino n := d]> (state w)) (fates w) (clock w) (draws w)).
    assert (HM1 : Mounted w1 (saved <$> L)) by apply mounted_buffers, HS.
    destruct (store_file w1 _ n d HM1) as (w2 & E2 & HM2 & Hb2); [apply sv_some; eauto|done|].
    rewrite E2. cbn beta iota. eexists. split; [reflexivity|].
    eapply serves_step; [exact HS|exact Hn|exact HM2|by rewrite Hb2].
  - destruct (get_file_ok w _ n _ (sv_mounted _ _ HS) (sv_file _ _ _ _ HS Hn)) as (w1 & E1 & HM1 & Hb1).
    rewrite E1. cbn beta iota. fold d.
    destruct (store_file w1 _ n d HM1) as (w2 & E2 & HM2 & Hb2); [apply sv_some; eauto|done|].
    rewrite E2. cbn beta iota. eexists. split; [reflexivity|].
    eapply serves_step; [exact HS|exact Hn|exact HM2|]. rewrite Hb2, Hb1. simpl. symmetry.
    apply map_eq. intros i. destruct (decide (fino n = i)) as [<-|Hne];
      [by rewrite lookup_partial_alter_eq|by rewrite lookup_partial_alter_ne].
Qed.

Lemma setattr_ok w L n f size : Serves w L → L !! n = Some f →
  let d := resize (N.to_nat size) (seen f) in V d →
  ∃ a w', setattr root bm compressed hash_name hash_dir (fino n) None (Some size) w = (Ok (inr a), w') ∧
    size_of_file a = len d ∧ Serves w' (<[n := mkFile d ((λ _, d) <$> unsaved f)]> L).
Proof.
  intros HS Hn d HVd. unfold setattr. rewrite (proj2 (N.eqb_neq _ _)) by apply avoid_reserved_root.
  destruct (dirs_ok w _ (sv_mounted _ _ HS)) as (dl & w1 & E1 & Hdl & HM1 & Es1).
  assert (En : find_dir hash_dir (fino n) dl = None).
  { destruct (find_dir _ _ _) as [e|] eqn:E; [|done]. exfalso.
    apply List.find_some in E as [Hin He%N.eqb_eq].
    apply (dirs_apart _ _ (mt_names _ _ (sv_mounted _ _ HS)) (d_path e) n);
      [left; apply Hdl; by apply list_elem_of_In|apply sv_some; eauto|done]. }
  assert (HS1 : Serves w1 L) by (eapply serves_keeps; [exact HS|done|by rewrite Es1]).
  destruct (stored_ok w1 L n f HS1 Hn) as (ls & l & w2 & _ & E2 & El & Eln & _ & HS2 & _).
  destruct (truncate_ok w2 L n f size HS2 Hn HVd) as (w3 & E3 & HS3).
  set (f' := mkFile d ((λ _, d) <$> unsaved f)) in *. change (mkFile _ _) with f' in HS3.
  pose proof (lookup_insert_eq L n f') as Hn3.
  destruct (stored_ok w3 _ n f' HS3 Hn3) as (ls4 & l4 & w4 & w5 & E4 & _ & _ & E5 & HS4 & HS5 & _).
  unfold mbind, IO_mbind, bind at 1 2. rewrite E1. cbn beta iota. rewrite En, E2. cbn beta iota.
  rewrite El, Eln. unfold setattr_file. runs. rewrite E3. cbn beta iota. rewrite E4. runs.
  rewrite (sv_buffers _ _ HS4 _ _ Hn3). change (unsaved f') with ((λ _, d) <$> unsaved f).
  destruct (unsaved f) as [b|]; cbn [fmap option_fmap option_map]; cbn beta iota.
  - eexists _, w4. split; [reflexivity|]. by split.
  - rewrite E5. cbn beta iota. eexists _, w5. split; [reflexivity|]. by split.
Qed.

(** One request. *)
Lemma fs_op_ok w L n f op : Serves w L → L !! n = Some f → V (saved (file_op op f).1) →
  ∃ w', fs_op op (fino n) w = (Ok (inr (file_op op f).2), w') ∧ Serves w' (<[n := (file_op op f).1]> L).
Proof.
  intros HS Hn HV. destruct op as [off size|off data| | |flushed|size]; unfold fs_op, answer, mbind, IO_mbind, bind.
  - destruct (read_ok w L n f off size HS Hn) as (w' & E & H). rewrite E. cbn beta iota. rewrite slice_array.
    eexists. split; [reflexivity|]. simpl. by rewrite insert_id.
  - destruct (write_ok w L n f off data HS Hn) as (w' & E & H). rewrite E, splice_array in *. by eexists.
  - destruct (flush_ok w L n f HS Hn HV) as (w' & E & H). rewrite E. by eexists.
  - destruct (flush_ok w L n f HS Hn HV) as (w' & E & H). unfold fsync. rewrite E. by eexists.
  - destruct (release_ok w L n f flushed HS Hn HV) as (w' & E & H). rewrite E. by destruct flushed; eexists.
  - destruct (setattr_ok w L n f size HS Hn) as (a & w' & E & Ha & H).
    { by rewrite resize_array. }
    rewrite E. cbn beta iota. rewrite Ha. unfold len. rewrite length_resize, N2Nat.id.
    rewrite resize_array in H. by eexists.
Qed.

(** Sequences of requests on any files. *)
Fixpoint fs_ops (ops : list (string * FileOp)) : IO LinaFs (list (Errno + Answer)) :=
  match ops with
  | [] => ret []
  | (n, op) :: ops' => r ← fs_op op (fino n); rs ← fs_ops ops'; ret (r :: rs)
  end.
(** The same on the reference: the answers and the files, if all files exist and
    what is saved stays in [V]. *)
Fixpoint file_ops (ops : list (string * FileOp)) L (rs : list (Errno + Answer)) L' : Prop :=
  match ops, rs with
  | [], [] => L' = L
  | (n, op) :: ops', r :: rs' =>
      ∃ f, L !! n = Some f ∧ V (saved (file_op op f).1) ∧ r = inr (file_op op f).2 ∧
        file_ops ops' (<[n := (file_op op f).1]> L) rs' L'
  | _, _ => False
  end.
Lemma file_ops_cons n op ops L f r rs L' :
  L !! n = Some f → V (saved (file_op op f).1) → r = inr (file_op op f).2 →
  file_ops ops (<[n := (file_op op f).1]> L) rs L' → file_ops ((n, op) :: ops) L (r :: rs) L'.
Proof. intros. exists f. by split_and!. Qed.

Lemma fs_ops_ok ops : ∀ w L rs L', Serves w L → file_ops ops L rs L' →
  ∃ w', fs_ops ops w = (Ok rs, w') ∧ Serves w' L'.
Proof.
  induction ops as [|[n op] ops IH]; intros w L rs L' HS Ha.
  - destruct rs; [|done]. simpl in Ha. subst L'. by exists w.
  - destruct rs as [|r rs]; [done|]. destruct Ha as (f & Hn & HV & -> & Ha).
    destruct (fs_op_ok w L n f op HS Hn HV) as (w1 & E1 & HS1).
    destruct (IH w1 _ rs L' HS1 Ha) as (w2 & E2 & HS2).
    exists w2. split; [|done]. cbn [fs_ops]. unfold mbind, IO_mbind, bind. rewrite E1, E2. done.
Qed.

(** C14 (refinement): through the mounted file system every file is a byte
    array, of which the latest writes may not be saved yet.  Any sequence of
    reads, writes, flushes, syncs, releases and truncations of any existing files
    gets the answers it gets from the reference, where a read answers what has been written,
    saved or not, flush, sync and a release with nothing said of a flush save it,
    a release that is told of a flush before it drops what is not saved, and
    truncation does both; and afterwards the store holds the saved arrays and the
    buffers the others. *)
Theorem files_are_arrays ops w L rs L' :
  Serves w L → file_ops ops L rs L' → ∃ w', fs_ops ops w = (Ok rs, w') ∧ Serves w' L'.
Proof. apply fs_ops_ok. Qed.

(** *** Renaming *)

Lemma top_path name p w : parent_path hash_dir ROOT_INO w = (Ok (Some EmptyString), w) ∧ join_path EmptyString p = p ∧
  (valid_utf8 (str_bytes name) = true → from_utf8 (str_bytes name) = Some name).
Proof. split; [done|]. split; [done|]. intros Hv. unfold from_utf8. by rewrite Hv, bytes_str_bytes. Qed.

Lemma rename_ok w m o n d :
  Mounted w m → m !! o = Some d → o ≠ n → is_empty n = false →
  valid_utf8 (str_bytes o) = true → valid_utf8 (str_bytes n) = true →
  roomy (<[n := d]> m) → names_ok (dir_table (store (state w))) (<[n := d]> m) →
  ∃ w', rename root bm compressed hash_dir ROOT_INO (str_bytes o) ROOT_INO (str_bytes n) w = (Ok (inr tt), w') ∧
    Mounted w' (delete o (<[n := d]> m)) ∧ write_buf (state w') = write_buf (state w).
Proof.
  intros HM Hd Hon Hne Huo Hun Hroom Hok.
  destruct (get_file_ok w m o d HM Hd) as (w1 & E1 & HM1 & Hb1).
  assert (Hdt : dir_table (store (state w1)) = dir_table (store (state w))).
  { pose proof (preserves (f:=dir_table) (m:=get_binary_data root o) (store_run w)) as Hp.
    revert E1. unfold get_file, attempt, rt, focus. fold (store_run w).
    destruct (get_binary_data root o (store_run w)) as [[a|e|z] v]; simpl in *; intros [= _ <-]; done. }
  destruct (put_file_ok w1 m n d true HM1 Hne) as (w2 & E2 & HM2 & Hb2); [by eapply mt_within|done|by rewrite Hdt|].
  destruct (delete_file_ok w2 _ o HM2) as (w3 & E3 & HM3 & Hb3); [eapply no_empty; [apply (mt_names _ _ HM)|eauto]|].
  exists w3. split; [|split; [done|congruence]].
  unfold rename, mbind, IO_mbind, bind. rewrite (proj1 (top_path o o w)). cbn beta iota.
  rewrite (proj1 (top_path o o w)). cbn beta iota.
  rewrite (proj2 (proj2 (top_path o o w)) Huo), (proj2 (proj2 (top_path n n w)) Hun). cbn beta iota.
  change (join_path EmptyString o) with o. change (join_path EmptyString n) with n.
  rewrite E1. cbn beta iota. rewrite E2. cbn beta iota. rewrite E3. reflexivity.
Qed.

(** A rename moves what is stored, not what the file shows: data that have not
    been saved stay in the buffer of the old inode number, and under its new name
    the file reads as before they were written. *)
Theorem rename_loses_unflushed w L o n f :
  Serves w L → L !! o = Some f → o ≠ n → is_empty n = false →
  valid_utf8 (str_bytes o) = true → valid_utf8 (str_bytes n) = true →
  roomy (<[n := saved f]> (saved <$> L)) → names_ok (dir_table (store (state w))) (<[n := saved f]> (saved <$> L)) →
  write_buf (state w) !! fino n = None →
  ∃ w', rename root bm compressed hash_dir ROOT_INO (str_bytes o) ROOT_INO (str_bytes n) w = (Ok (inr tt), w') ∧
    Serves w' (delete o (<[n := mkFile (saved f) None]> L)).
Proof.
  intros HS Ho Hon Hne Huo Hun Hroom Hok Hbn.
  destruct (rename_ok w _ o n (saved f) (sv_mounted _ _ HS)) as (w1 & E1 & HM1 & Hb1); try done; [by eapply sv_file|].
  exists w1. split; [done|]. split; [by rewrite fmap_delete, fmap_insert|]. intros n' f'. rewrite Hb1.
  intros [_ [[<- <-]|[_ Hn']]%lookup_insert_Some]%lookup_delete_Some; [done|by apply (sv_buffers _ _ HS)].
Qed.

End Storing.

(** *** Listing a directory

    The kernel asks again from the last offset it was given until nothing comes;
    the reply for an offset has room for [fits] of it entries. *)
Fixpoint list_dir (fuel : nat) (fits : nat → nat) (ino : N) (offset : nat) : IO LinaFs (Errno + list DirRecord) :=
  match fuel with
  | O => ret (inr [])
  | S fuel' =>
      r ← readdir hash_name hash_dir ino offset (fits offset);
      match r with
      | inl e => ret (inl e)
      | inr page =>
          match last page with
          | None => ret (inr [])
          | Some (_, next) =>
              r ← list_dir fuel' fits ino next;
              ret (match r with inl e => inl e | inr es => inr (page.*1 ++ es) end)
          end
      end
  end.

Lemma fill_page fits offset (entries : list DirRecord) :
  (fill fits offset entries).*1 = take fits (drop offset entries).
Proof.
  unfold fill. rewrite fmap_take, fmap_drop. f_equal. f_equal.
  rewrite fmap_imap. apply list_eq. intros i. rewrite list_lookup_imap. by destruct (entries !! i).
Qed.
Lemma fill_last fits offset (entries : list DirRecord) :
  last (fill fits offset entries) =
  (λ e, (e, Nat.min (offset + fits) (length entries))) <$> last (take fits (drop offset entries)).
Proof.
  unfold fill. rewrite !last_lookup, !length_take, !length_drop, length_imap.
  destruct (decide (offset < length entries)) as [Hlt|Hge].
  2: { replace (Nat.min fits (length entries - offset)) with 0 by lia. simpl.
       rewrite !lookup_take, !lookup_drop, list_lookup_imap. case_decide; [|done].
       rewrite !lookup_ge_None_2 by lia. done. }
  destruct fits as [|fits]; [done|].
  set (k := pred (Nat.min (S fits) (length entries - offset))).
  rewrite !lookup_take, !lookup_drop, list_lookup_imap. case_decide; [|lia].
  destruct (entries !! (offset + k)) as [e|] eqn:E; simpl; [|done]. do 2 f_equal. lia.
Qed.

(** The directory with the number [ino] is that with the path [prefix]. *)
Definition directory w (ino : N) (prefix : string) : Prop :=
  ino = ROOT_INO ∧ prefix = EmptyString ∨
  ino = dino prefix ∧ is_Some (dir_table (store (state w)) !! prefix) ∧
    ∀ q, is_Some (dir_table (store (state w)) !! q) → dino q = dino prefix → q = prefix.
Definition listing (ino : N) (prefix : string) s : list DirRecord :=
  dir_entries hash_name hash_dir ino ROOT_INO prefix (select_dirs (λ r, dr_parent r = prefix) (db s))
    (select_links (λ _, True) (db s)).

Lemma links_ok w m : Mounted w m →
  ∃ w', all_files w = (Ok (select_links (λ _, True) (db (store (state w)))), w') ∧ Mounted w' m ∧ state w' = state w.
Proof. exact (query_ok_here "Failed to query all links" (select_links (λ _, True)) [] w m). Qed.

Lemma parent_path_ok w m ino prefix : Mounted w m → directory w ino prefix →
  ∃ w', parent_path hash_dir ino w = (Ok (Some prefix), w') ∧ Mounted w' m ∧ state w' = state w.
Proof.
  intros HM [[-> ->]|(-> & [r Hr] & Hq)]; unfold parent_path; [by eexists|].
  rewrite (proj2 (N.eqb_neq _ _)) by apply avoid_reserved_root. unfold resolve_dir_path.
  destruct (query_ok_here "Failed to list all dirs" (select_dirs (λ _, True)) [] w m HM) as (w' & E & HM' & Es).
  exists w'. split; [|done]. unfold all_dirs, list_all_dirs, mbind, IO_mbind, bind. rewrite E. cbn beta iota. unfold ret. do 2 f_equal.
  destruct (find_dir _ _ _) as [d|] eqn:Ef; simpl.
  - apply List.find_some in Ef as [Hin Hd%N.eqb_eq]. f_equal. apply Hq; [|done].
    apply list_elem_of_In, select_dirs_elem in Hin as (r' & Hr' & _). by exists r'.
  - exfalso. assert (Hin : dir_of_row prefix r ∈ select_dirs (λ _, True) (db (store (state w)))).
    { apply select_dirs_elem. by exists r. }
    apply list_elem_of_In in Hin. pose proof (List.find_none _ _ Ef _ Hin) as Hx. by apply N.eqb_neq in Hx.
Qed.

Lemma readdir_ok w m ino prefix offset fits : Mounted w m → directory w ino prefix →
  ∃ w', readdir hash_name hash_dir ino offset fits w =
    (Ok (inr (fill fits offset (listing ino prefix (store (state w))))), w') ∧ Mounted w' m ∧ state w' = state w.
Proof.
  intros HM Hd. destruct (parent_path_ok w m ino prefix HM Hd) as (w1 & E1 & HM1 & Es1).
  destruct (query_ok_here "Failed to list dirs by parent" (select_dirs (λ r, dr_parent r = prefix)) [] w1 m HM1)
    as (w2 & E2 & HM2 & Es2).
  destruct (links_ok w2 m HM2) as (w3 & E3 & HM3 & Es3). exists w3. split; [|split; [done|congruence]].
  unfold readdir, mbind, IO_mbind, bind. rewrite E1. cbn beta iota.
  unfold list_child_dirs, list_dirs_by_parent. rewrite E2. cbn beta iota. rewrite E3. cbn beta iota.
  unfold ret, listing. by rewrite Es2, Es1.
Qed.

Lemma list_dir_ok fits ino prefix m : (∀ i, 0 < fits i) → ∀ fuel w offset,
  Mounted w m → directory w ino prefix → length (listing ino prefix (store (state w))) - offset < fuel →
  ∃ w', list_dir fuel fits ino offset w = (Ok (inr (drop offset (listing ino prefix (store (state w))))), w') ∧
    Mounted w' m ∧ state w' = state w.
Proof.
  intros Hfits. induction fuel as [|fuel IH]; intros w offset HM Hd Hf; [lia|].
  destruct (readdir_ok w m ino prefix offset (fits offset) HM Hd) as (w1 & E1 & HM1 & Es1).
  set (es := listing ino prefix (store (state w))) in *. cbn [list_dir].
  unfold mbind, IO_mbind, bind. rewrite E1. cbn beta iota. rewrite fill_last. specialize (Hfits offset).
  destruct (last (take _ _)) as [e|] eqn:El; cbn [fmap option_fmap option_map].
  - assert (Hlt : offset < length es).
    { destruct (decide (offset < length es)); [done|]. by rewrite drop_ge, take_nil in El by lia. }
    destruct (IH w1 (Nat.min (offset + fits offset) (length es)) HM1) as (w2 & E2 & HM2 & Es2);
      [by unfold directory; rewrite Es1|rewrite Es1; fold es; lia|].
    rewrite Es1 in E2. fold es in E2. rewrite E2. cbn beta iota. exists w2. split; [|split; [done|congruence]].
    unfold ret. do 3 f_equal. rewrite fill_page.
    destruct (decide (offset + fits offset ≤ length es)).
    + rewrite Nat.min_l by done. rewrite <- drop_drop. apply take_drop.
    + rewrite Nat.min_r, (drop_ge es (length es)), app_nil_r by lia. apply take_ge. rewrite length_drop. lia.
  - exists w1. split; [|done]. unfold ret. do 3 f_equal. apply last_None in El.
    destruct (drop offset es); [done|]. destruct (fits offset); [lia|done].
Qed.

(** What a listing holds. *)
Lemma direct_child_path full prefix leaf : direct_child_name full prefix = Some leaf → join_path prefix leaf = full.
Proof.
  unfold direct_child_name, join_path. destruct (is_empty prefix); simpl.
  - by destruct (contains _ _); intros [= ->].
  - intros (s & E & Hl)%bind_Some. apply strip_prefix_Some in E. destruct (contains _ _); [done|].
    injection Hl as ->. by rewrite E, str_app_assoc.
Qed.

Lemma file_entries_elem prefix files : ∀ seen e, NoDup (l_name <$> files) →
  e ∈ file_entries hash_name prefix seen files ↔
  ∃ l leaf, l ∈ files ∧ direct_child_name (l_name l) prefix = Some leaf ∧ leaf ∉ seen ∧
    e = mkDirRecord (fino (l_name l)) (kind_from_mode (l_mode l)) leaf.
Proof.
  induction files as [|l files IH]; intros seen e Hnd; cbn [file_entries].
  - rewrite elem_of_nil. split; [done|]. by intros (l & leaf & Hl%elem_of_nil & _).
  - apply NoDup_cons in Hnd as [Hl Hnd].
    assert (Hskip : (∀ leaf, direct_child_name (l_name l) prefix = Some leaf → leaf ∈ seen) →
      (e ∈ file_entries hash_name prefix seen files ↔ ∃ l0 leaf, l0 ∈ l :: files ∧
        direct_child_name (l_name l0) prefix = Some leaf ∧ leaf ∉ seen ∧
        e = mkDirRecord (fino (l_name l0)) (kind_from_mode (l_mode l0)) leaf)).
    { intros Hs. rewrite IH by done. split; intros (l0 & leaf & Hin & Hc & Hsn & He); exists l0, leaf.
      - split_and!; try done. by right.
      - apply elem_of_cons in Hin as [->|Hin]; [|done]. by destruct Hsn; apply Hs. }
    destruct (direct_child_name (l_name l) prefix) as [leaf|] eqn:El; [|by apply Hskip].
    case_bool_decide as Hseen; [by apply Hskip; intros ? [= <-]|].
    rewrite elem_of_cons, IH by done. rewrite (direct_child_path _ _ _ El). split.
    + intros [->|(l0 & leaf0 & Hin & Hc & Hs & ->)].
      * exists l, leaf. split_and!; try done. by left.
      * exists l0, leaf0. split_and!; try done; [by right|set_solver].
    + intros (l0 & leaf0 & [->|Hin]%elem_of_cons & Hc & Hs & ->); [left; congruence|right].
      exists l0, leaf0. split_and!; try done. apply not_elem_of_union. split; [|done].
      intros ->%elem_of_singleton. apply Hl. apply direct_child_path in El, Hc.
      rewrite <- El, Hc. by apply list_elem_of_fmap_2.
Qed.
Lemma file_entries_NoDup prefix files : ∀ seen, NoDup (e_name <$> file_entries hash_name prefix seen files) ∧
  ∀ e, e ∈ file_entries hash_name prefix seen files → e_name e ∉ seen.
Proof.
  induction files as [|l files IH]; intros seen; cbn [file_entries]; [by split; [constructor|intros e He%elem_of_nil]|].
  destruct (direct_child_name _ _) as [leaf|]; [|apply IH]. case_bool_decide; [apply IH|].
  destruct (IH ({[leaf]} ∪ seen)) as [H1 H2]. split.
  - rewrite fmap_cons. constructor; [|done]. intros (e & E & He)%list_elem_of_fmap. specialize (H2 _ He). set_solver.
  - intros e [->|He]%elem_of_cons; [done|]. specialize (H2 _ He). set_solver.
Qed.

(** Entries for the directories and the files that are directly below [prefix]. *)
Definition child_dir prefix s (e : DirRecord) : Prop := ∃ p r leaf,
  dir_table s !! p = Some r ∧ dr_parent r = prefix ∧ direct_child_name p prefix = Some leaf ∧
  e = mkDirRecord (dino p) Directory leaf.
Definition child_file prefix s m (e : DirRecord) : Prop := ∃ n l leaf,
  is_Some (m !! n) ∧ l ∈ select_links (λ r, lr_name r = n) (db s) ∧ direct_child_name n prefix = Some leaf ∧
  (∀ d, child_dir prefix s d → e_name d ≠ leaf) ∧
  e = mkDirRecord (fino n) (kind_from_mode (l_mode l)) leaf.

Definition subdirs prefix (ds : list DirEntry) : list DirRecord :=
  omap (λ d, leaf ← direct_child_name (d_path d) prefix;
             Some (mkDirRecord (dino (d_path d)) Directory leaf)) ds.
Lemma subdirs_elem prefix s e :
  e ∈ subdirs prefix (select_dirs (λ r, dr_parent r = prefix) (db s)) ↔ child_dir prefix s e.
Proof.
  unfold subdirs. rewrite list_elem_of_omap. split.
  - intros (d & (r & Hr & Hp & _)%select_dirs_elem & (leaf & El & [= <-])%bind_Some). by exists (d_path d), r, leaf.
  - intros (p & r & leaf & Hr & Hp & El & ->). exists (dir_of_row p r). split.
    + apply select_dirs_elem. by exists r.
    + simpl. by rewrite El.
Qed.
Lemma subdirs_NoDup prefix (p : DirRow → Prop) `{∀ r, Decision (p r)} db :
  NoDup (e_name <$> subdirs prefix (select_dirs p db)).
Proof.
  assert (Hnd : NoDup (d_path <$> select_dirs p db)).
  { unfold select_dirs. rewrite merge_sort_Permutation, <- list_fmap_compose.
    rewrite (list_fmap_ext _ fst) by done. apply NoDup_fst_map_to_list. }
  revert Hnd. generalize (select_dirs p db) as ds. induction ds as [|d ds IH]; intros Hnd; [constructor|].
  rewrite fmap_cons in Hnd. apply NoDup_cons in Hnd as [Hd Hnd]. unfold subdirs. cbn [omap list_omap].
  destruct (direct_child_name (d_path d) prefix) as [leaf|] eqn:El; simpl; [|by apply IH].
  constructor; [|by apply IH]. intros (e & E & (d' & Hin & (leaf' & El' & [= <-])%bind_Some)%list_elem_of_omap)%list_elem_of_fmap.
  simpl in E. subst leaf'. apply Hd. apply direct_child_path in El, El'. rewrite <- El, El'. by apply list_elem_of_fmap_2.
Qed.

(** C39 (functional): reading a directory gives exactly what is in it.  In a mounted
    file system, for the root or a directory of the table, the replies to readdir,
    asked from the offset the last reply ended with and cut anywhere, are put
    together the two dots followed by one entry, of a name of its own, for every
    directory and every file of the store directly below it, with its number and
    kind, a directory before a file of the same name; and nothing else. *)
Theorem readdir_complete w m ino prefix fits :
  Mounted w m → directory w ino prefix → (∀ i, 0 < fits i) →
  ∃ es k, (∀ fuel, k ≤ fuel → ∃ w', list_dir fuel fits ino 0 w =
      (Ok (inr (mkDirRecord ino Directory "." :: mkDirRecord ROOT_INO Directory ".." :: es)), w') ∧
      Mounted w' m ∧ state w' = state w) ∧
    NoDup (e_name <$> es) ∧
    ∀ e, e ∈ es ↔ child_dir prefix (store (state w)) e ∨ child_file prefix (store (state w)) m e.
Proof.
  intros HM Hd Hfits. set (s := store (state w)). set (ds := select_dirs (λ r, dr_parent r = prefix) (db s)).
  set (ls := select_links (λ _, True) (db s)). set (seen := list_to_set (e_name <$> subdirs prefix ds) : gset string).
  assert (Hseen : ∀ x, x ∈ seen ↔ ∃ d, child_dir prefix s d ∧ e_name d = x).
  { intros x. unfold seen. rewrite elem_of_list_to_set, list_elem_of_fmap. split.
    - intros (d & -> & Hin%subdirs_elem). by exists d.
    - intros (d & Hin%subdirs_elem & <-). by exists d. }
  assert (Hls : NoDup (l_name <$> ls) ∧ ∀ l, l ∈ ls ↔ is_Some (m !! l_name l) ∧ l ∈ select_links (λ r, lr_name r = l_name l) (db s)).
  { exact (listed_links w m HM). }
  exists (subdirs prefix ds ++ file_entries hash_name prefix seen ls), (S (length (listing ino prefix s))).
  split_and!.
  - intros fuel Hk. destruct (list_dir_ok fits ino prefix m Hfits fuel w 0 HM Hd) as (w' & E & H); [fold s; lia|].
    exists w'. split; [|exact H]. rewrite E. done.
  - rewrite fmap_app. apply NoDup_app. split_and!; [apply subdirs_NoDup| |apply file_entries_NoDup].
    intros x Hx (e & -> & He)%list_elem_of_fmap. apply (proj2 (file_entries_NoDup _ _ _)) in He.
    apply He. by apply elem_of_list_to_set.
  - intros e. unfold ds. rewrite elem_of_app, subdirs_elem. fold s. apply or_iff_compat_l. rewrite file_entries_elem by apply Hls.
    destruct Hls as [_ Hls]. unfold child_file. split.
    + intros (l & leaf & [Hm Hl]%Hls & El & Hs & ->). exists (l_name l), l, leaf. split_and!; try done.
      intros d Hd' Ed. apply Hs, Hseen. eauto.
    + intros (n & l & leaf & Hm & Hl & El & Hs & ->). assert (l_name l = n) as <- by by apply elem_select_links in Hl as (? & ? & ? & ? & ->).
      exists l, leaf. split_and!; try done; [by apply Hls|]. intros (d & Hd' & Ed)%Hseen. by apply (Hs d).
Qed.
End FsProofs.

(** ** Witnesses *)

Lemma demo_map_Some n d : demo_map !! n = Some d → n = "greeting.txt"%string.
Proof. unfold demo_map. intros [<- _]%lookup_singleton_Some. reflexivity. Qed.
Definition demo_hash (k : N) (s : string) : N := (2 * N.of_nat (String.length s) + k)%N.
Abbreviation demo_fino := (file_ino (demo_hash 100)).
Abbreviation demo_mounted := (Mounted demo_root (demo_hash 100) (demo_hash 101) any_bytes).
Abbreviation demo_serves := (Serves demo_root (demo_hash 100) (demo_hash 101) any_bytes).
Definition demo_fs (buf : gmap N bytes) : Env LinaFs :=
  mkEnv (mkLinaFs (state (demo_env [])) buf) [] 0 (draws (demo_env [])).

Lemma demo_chunk_ok : (0 < chunk_size demo_bm < 2 ^ 16)%N.
Proof. split; vm_compute; reflexivity. Qed.
Lemma demo_roomy : roomy demo_map.
Proof. vm_compute. reflexivity. Qed.
Lemma demo_inos_differ p n : dir_ino (demo_hash 101) p ≠ demo_fino n.
Proof.
  unfold dir_ino, file_ino, avoid_reserved, demo_hash, ROOT_INO.
  repeat match goal with |- context [(?a =? ?b)%N] => destruct (N.eqb_spec a b); [lia|] end. simpl. lia.
Qed.
Lemma demo_names_ok ds m :
  (∀ n, is_Some (m !! n) → is_empty n = false) →
  (∀ n n', is_Some (m !! n) → is_Some (m !! n') → demo_fino n = demo_fino n' → n = n') →
  names_ok (demo_hash 100) (demo_hash 101) ds m.
Proof. intros H1 H2. split; [exact H1|exact H2|]. intros p n _ _. apply demo_inos_differ. Qed.
(** A put that returns, on a store at rest. *)
Lemma demo_put_rests n d cmp w m : is_empty n = false → (size m < 10)%nat → fates w = [] →
  (put_binary_data demo_root demo_bm n d false cmp w).1 = Ok tt → Rests demo_root any_bytes 0 w m →
  Rests demo_root any_bytes 0 (put_binary_data demo_root demo_bm n d false cmp w).2 (<[n := d]> m).
Proof.
  intros Hn Hs Hf E HR. destruct (put_binary_data _ _ _ _ _ _ w) as [r w'] eqn:Ep. simpl in E. subst r.
  eapply (op_rests demo_root demo_bm any_bytes 0 w m (CmdPut n d false cmp)); try done.
  - rewrite Hf. constructor.
  - lia.
  - by repeat constructor.
  - apply demo_hash_all.
  - unfold run_op, attempt, mbind, IO_mbind, bind. by rewrite Ep.
Qed.
Lemma demo_rests : Rests demo_root any_bytes 0 (demo_env []) demo_map.
Proof. apply (demo_put_rests "greeting.txt" demo_hello true _ ∅); [done|vm_compute; lia|done|by vm_compute|apply rests_empty]. Qed.
Lemma demo_mount buf : demo_mounted (demo_fs buf) demo_map.
Proof.
  split; [constructor|exact demo_rests|exact demo_roomy|].
  apply demo_names_ok.
  - intros n [x Hx]. apply demo_map_Some in Hx as ->. reflexivity.
  - intros n n' [x Hx] [x' Hx'] _. apply demo_map_Some in Hx as ->.
    apply demo_map_Some in Hx' as ->. reflexivity.
Qed.
Definition demo_files (u : option bytes) : gmap string File := {["greeting.txt"%string := mkFile demo_hello u]}.
Lemma demo_files_serves u :
  demo_serves (demo_fs (match u with Some b => {[demo_fino "greeting.txt" := b]} | None => ∅ end)) (demo_files u).
Proof.
  split; [unfold demo_files; rewrite map_fmap_singleton; apply demo_mount|].
  unfold demo_files. intros n f [<- <-]%lookup_singleton_Some. by destruct u; vm_compute.
Qed.

(** "hello hello" becomes "hello world", is read, flushed and cut; what is
    written after a flush is dropped by the release that trusts it. *)
Definition demo_file_ops : list (string * FileOp) :=
  (λ op, ("greeting.txt"%string, op)) <$>
  [Write 6 (str_bytes "world"); Read 0 64; Flush; Truncate 5; Release false; Read 3 64;
   Write 0 (str_bytes "J"); Flush; Write 0 (str_bytes "C"); Read 0 64; Release true; Read 0 64].
Lemma files_are_arrays_witness : ∃ w',
  fs_ops demo_root demo_bm true (demo_hash 100) (demo_hash 101) demo_file_ops (demo_fs ∅) =
    (Ok [inr (Count 5); inr (Bytes (str_bytes "hello world")); inr Done; inr (Size 5); inr Done;
         inr (Bytes (str_bytes "lo")); inr (Count 1); inr Done; inr (Count 1); inr (Bytes (str_bytes "Cello")); inr Done;
         inr (Bytes (str_bytes "Jello"))], w') ∧
  demo_serves w' {["greeting.txt"%string := mkFile (str_bytes "Jello") None]}.
Proof.
  apply (files_are_arrays demo_root demo_bm true (demo_hash 100) (demo_hash 101) any_bytes demo_chunk_ok (demo_hash_all _)
    demo_file_ops (demo_fs ∅) (demo_files None)).
  - apply (demo_files_serves None).
  - unfold demo_file_ops. rewrite !fmap_cons, fmap_nil.
    do 12 (eapply file_ops_cons; [vm_compute; reflexivity|exact I|vm_compute; reflexivity|]).
    vm_compute. reflexivity.
Defined.

(** Written, renamed to [b.txt] before the flush: the old contents. *)
Lemma rename_loses_unflushed_witness : ∃ w',
  rename demo_root demo_bm true (demo_hash 101) ROOT_INO (str_bytes "greeting.txt") ROOT_INO (str_bytes "b.txt")
    (demo_fs {[demo_fino "greeting.txt" := str_bytes "hello world"]}) = (Ok (inr tt), w') ∧
  demo_serves w' (delete "greeting.txt"%string
    (<["b.txt"%string := mkFile demo_hello None]> (demo_files (Some (str_bytes "hello world"))))).
Proof.
  apply (rename_loses_unflushed demo_root demo_bm true (demo_hash 100) (demo_hash 101) any_bytes demo_chunk_ok (demo_hash_all _)
    _ _ "greeting.txt" "b.txt" (mkFile demo_hello (Some (str_bytes "hello world")))).
  - apply (demo_files_serves (Some (str_bytes "hello world"))).
  - apply lookup_singleton_eq.
  - discriminate.
  - reflexivity.
  - vm_compute. reflexivity.
  - vm_compute. reflexivity.
  - vm_compute. reflexivity.
  - unfold demo_files. rewrite map_fmap_singleton. apply demo_names_ok.
    + intros n [x Hx]. apply lookup_insert_Some in Hx as [[<- _]|[_ Hx]]; [reflexivity|].
      apply demo_map_Some in Hx as ->. reflexivity.
    + intros n n' [x Hx] [x' Hx'] E.
      apply lookup_insert_Some in Hx as [[<- _]|[_ Hx]]; [|apply demo_map_Some in Hx as ->];
      (apply lookup_insert_Some in Hx' as [[<- _]|[_ Hx']]; [|apply demo_map_Some in Hx' as ->]);
      try reflexivity; vm_compute in E; discriminate E.
  - vm_compute. reflexivity.
Defined.

(** A store with a directory and a file in it. *)
Definition demo_in_docs : Env Store :=
  (put_binary_data demo_root demo_bm "docs/a" demo_input false false (demo_env [])).2.
Definition with_dirs (g : gmap string DirRow → gmap string DirRow) (w : Env Store) : Env LinaFs :=
  mkEnv (mkLinaFs (mkStore (set_dir g (db (state w))) (fs (state w))) ∅) [] 0 (draws w).
Definition demo_tree : Env LinaFs := with_dirs <["docs"%string := mkDirRow "" 493]> demo_in_docs.
Definition demo_tree_map : gmap string bytes := <["docs/a"%string := demo_input]> demo_map.
Lemma with_dirs_rests g w m : Rests demo_root any_bytes 0 w m → Rests demo_root any_bytes 0 (store_run (with_dirs g w)) m.
Proof. intros (t & HL & HF & Hm). exists t. split_and!; [|done..]. apply (live_apart demo_root t (state w)); done. Qed.
Lemma demo_tree_mounted : demo_mounted demo_tree demo_tree_map.
Proof.
  split; [constructor| |vm_compute; reflexivity|].
  - apply with_dirs_rests, (demo_put_rests "docs/a" demo_input false _ demo_map);
      [reflexivity|vm_compute; lia|reflexivity|vm_compute; reflexivity|apply demo_rests].
  - unfold demo_tree_map. apply demo_names_ok.
    + intros n [x Hx]. apply lookup_insert_Some in Hx as [[<- _]|[_ Hx]]; [reflexivity|].
      apply demo_map_Some in Hx as ->. reflexivity.
    + intros n n' [x Hx] [x' Hx'] E.
      apply lookup_insert_Some in Hx as [[<- _]|[_ Hx]]; [|apply demo_map_Some in Hx as ->];
      (apply lookup_insert_Some in Hx' as [[<- _]|[_ Hx']]; [|apply demo_map_Some in Hx' as ->]);
      try reflexivity; vm_compute in E; discriminate E.
Qed.
(** The root and the directory, one entry and three entries at a time. *)
Definition demo_names (fits : nat → nat) (ino : N) : Res (Errno + list string) :=
  match (list_dir (demo_hash 100) (demo_hash 101) 9 fits ino 0 demo_tree).1 with
  | Ok (inr es) => Ok (inr (e_name <$> es)) | Ok (inl e) => Ok (inl e) | Err e => Err e | Halt z => Halt z
  end.
Example demo_listings :
  demo_names (λ _, 1) ROOT_INO = Ok (inr ["."; ".."; "docs"; "greeting.txt"]%string) ∧
  demo_names (λ _, 3) (dir_ino (demo_hash 101) "docs") = Ok (inr ["."; ".."; "a"]%string).
Proof. split; vm_compute; reflexivity. Qed.

Lemma readdir_complete_witness : let ino := dir_ino (demo_hash 101) "docs" in
  ∃ es k, (∀ fuel, k ≤ fuel → ∃ w', list_dir (demo_hash 100) (demo_hash 101) fuel (λ _, 1) ino 0 demo_tree =
      (Ok (inr (mkDirRecord ino Directory "." :: mkDirRecord ROOT_INO Directory ".." :: es)), w') ∧
      demo_mounted w' demo_tree_map ∧ state w' = state demo_tree) ∧
    NoDup (e_name <$> es) ∧
    ∀ e, e ∈ es ↔ child_dir (demo_hash 101) "docs" (store (state demo_tree)) e ∨
                  child_file (demo_hash 100) (demo_hash 101) "docs" (store (state demo_tree)) demo_tree_map e.
Proof.
  apply (readdir_complete demo_root (demo_hash 100) (demo_hash 101) any_bytes demo_tree demo_tree_map _ "docs" (λ _, 1)).
  - apply demo_tree_mounted.
  - right. split; [reflexivity|]. split; [exists (mkDirRow "" 493); vm_compute; reflexivity|].
    intros q [r Hr] _. change (<["docs"%string := mkDirRow "" 493]> (∅ : gmap string DirRow) !! q = Some r) in Hr.
    apply lookup_insert_Some in Hr as [[<- _]|[_ Hr]]; [reflexivity|]. rewrite lookup_empty in Hr. discriminate Hr.
  - intros i. repeat constructor.
Defined.
