(* ===== verification/Mount.v ===== *)
(** * The commands of the file system ([linafs/src/main.rs], [command.rs],
    [handler.rs])

    [mount] opens the store of the current directory, has the FUSE library serve
    it at the mount point and waits; [umount] asks the system to end that.  What
    the kernel asks for in between is an argument, [session], over the file system
    of LinaFs.v.  [flush_is_durable]: a mount of a store that served another one
    before, whose process is gone, shows what was saved.  Parsing the command line is the library [clap]'s; the part of
    [handler.rs] that loads macFUSE is outside. *)
From S2P Require Import Prelude Io Runs Strs World Dao Disk Block Store Frames Layers Catalog Contract Crash Manager Dying Recovery Sessions LinaFs.

(** [command.rs] *)
Record MountArgs := mkMountArgs {
  mount_point : string;
  root_dir : string;          (* [--root], "." when it is not given *)
  foreground : bool;
  compressed : bool
}.
Inductive Commands := Mount (args : MountArgs) | Umount (at_point : string).

Record Machine := mkMachine {
  disk : Store;
  mounts : gset string;       (* mount points in use *)
  printed : list string
}.
Definition set_disk (s : Store) (m : Machine) : Machine := mkMachine s (mounts m) (printed m).
Definition set_mounts (f : gset string → gset string) (m : Machine) : Machine :=
  mkMachine (disk m) (f (mounts m)) (printed m).
Definition print (line : string) : IO Machine unit :=
  update (λ m, mkMachine (disk m) (mounts m) (printed m ++ [line])).

Section Mount.
Context `{P : Platform} `{C : Codec}.

(** [fuser::spawn_mount2], and the end of its session when it is dropped or the
    system unmounts it. *)
Definition spawn_mount (mp : string) : IO Machine unit :=
  external os_error (λ _ m, m) (λ m, (inr tt, set_mounts (λ s, {[mp]} ∪ s) m)).
Definition unmounted (mp : string) : IO Machine unit := update (set_mounts (λ s, s ∖ {[mp]})).
(** The requests of a session: a file system starts with empty buffers and takes
    them with it. *)
Definition serve_session {A} (session : IO LinaFs A) : IO Machine A :=
  focus (λ m, mkLinaFs (disk m) ∅) (λ f, set_disk (store f)) session.
(** [tokio::signal::ctrl_c()] *)
Definition ctrl_c : IO Machine unit := external os_error (λ _ m, m) (λ m, (inr tt, m)).

(** [LinaFs::new] *)
Definition LinaFs_new (root : string) : IO Machine unit :=
  focus disk set_disk (StoreManager_new (host_path root)).

Definition handle_mount (session : string → bool → IO LinaFs unit) (pid : string) (root : string) (args : MountArgs)
    : IO Machine unit :=
  let mp := mount_point args in
  map_err (λ e, AnyhowError ("Failed to initialize filesystem: " +:+ err_text e)) (LinaFs_new root);;
  map_err (λ e, AnyhowError ("Failed to mount at " +:+ mp +:+ ": " +:+ err_text e)) (spawn_mount mp);;
  if foreground args then
    print ("Mounted at " +:+ mp +:+ ". Press Ctrl+C to unmount.");;
    ignore (serve_session (session root (compressed args)));;
    r ← attempt ctrl_c;
    match r with
    | inl e => unmounted mp;; fail e      (* [bg] is dropped on the way out *)
    | inr _ => print ("Unmounting " +:+ mp +:+ "...");; unmounted mp
    end
  else
    print ("Mounted at " +:+ mp +:+ " (PID: " +:+ pid +:+ "). Use 'linafs umount " +:+ mp +:+ "' to unmount.");;
    ignore (serve_session (session root (compressed args)));;
    unmounted mp;;
    print ("Unmounted " +:+ mp).

(** [fusermount -u]: it fails when nothing is mounted there. *)
Definition handle_umount (mp : string) : IO Machine unit :=
  status ← external os_error (λ _ m, m)
    (λ m, (inr (bool_decide (mp ∈ mounts m)), set_mounts (λ s, s ∖ {[mp]}) m));
  if status : bool then print ("Unmounted " +:+ mp)
  else fail (AnyhowError ("Failed to unmount " +:+ mp)).

(** [main]: the exit code.  [parsed] is what [clap] makes of the arguments,
    [dir] the current directory as bytes. *)
Definition linafs_main (session : string → bool → IO LinaFs unit) (pid : string)
    (parsed : Error + option Commands) (dir : bytes) : IO Machine N :=
  match parsed with
  | inl e => print ("Error parsing command line arguments: " +:+ err_text e);; ret 1%N
  | inr command =>
      here ← attempt (external os_error (λ _ m, m) (λ m, (inr dir, m)));
      match here with
      | inl e => print ("Error: Failed to get current directory: " +:+ err_text e);; ret 1%N
      | inr d =>
          match from_utf8 d with
          | None => print "Error: Current directory contains invalid UTF-8 characters";; ret 1%N
          | Some current_dir =>
              match command with
              | None => print "Error: No command provided. Use --help for usage information.";; ret 1%N
              | Some command =>
                  result ← attempt (match command with
                                    | Mount args => handle_mount session pid current_dir args
                                    | Umount mp => handle_umount mp
                                    end);
                  match result with
                  | inl e => print ("Error: " +:+ err_text e);; ret 1%N
                  | inr _ => ret 0%N
                  end
              end
          end
      end
  end.

(** ** What the commands do *)

Definition with_root (r : string) (args : MountArgs) : MountArgs :=
  mkMountArgs (mount_point args) r (foreground args) (compressed args).

(** The directory given with [--root] is never looked at. *)
Theorem root_option_ignored session pid dir args r :
  linafs_main session pid (inr (Some (Mount (with_root r args)))) dir =
  linafs_main session pid (inr (Some (Mount args))) dir.
Proof. done. Qed.

(** [takes X Y Z f]: from the mount points [X], [f] returns with [Y], reports an
    error with [Z], or does not return. *)
Definition takes {A} (X Y Z : gset string) (f : IO Machine A) : Prop := ∀ w, mounts (state w) = X →
  match f w with
  | (Ok _, w') => mounts (state w') = Y
  | (Err _, w') => mounts (state w') = Z
  | (Halt _, _) => True
  end.
Lemma takes_bind {A B} X Y Y' Z (f : IO Machine A) (k : A → IO Machine B) :
  takes X Y Z f → (∀ a, takes Y Y' Z (k a)) → takes X Y' Z (f ≫= k).
Proof.
  intros Hf Hk w Hw. unfold mbind, IO_mbind, bind. specialize (Hf w Hw).
  destruct (f w) as [[a|e|z] w1]; [by apply Hk|done..].
Qed.
Lemma takes_preserved {A} X (f : IO Machine A) : Preserves mounts f → takes X X X f.
Proof. intros Hf w <-. specialize (Hf w). by destruct (f w) as [[] ?]. Qed.
Lemma takes_attempt {A} X Z (f : IO Machine A) : Preserves mounts f → takes X X Z (attempt f).
Proof. intros Hf w <-. unfold attempt. specialize (Hf w). by destruct (f w) as [[] ?]. Qed.
Lemma takes_ignore {A} X Z (f : IO Machine A) : Preserves mounts f → takes X X Z (ignore f).
Proof. intros Hf. unfold ignore. eapply takes_bind; [by apply takes_attempt|by intros _ w]. Qed.
Lemma takes_print X Z line : takes X X Z (print line).
Proof. by intros w. Qed.
Lemma takes_unmounted X Z mp : takes X (X ∖ {[mp]}) Z (unmounted mp).
Proof. by intros w <-. Qed.
Lemma takes_map_err {A} X Y Z g (f : IO Machine A) : takes X Y Z f → takes X Y Z (map_err g f).
Proof. intros Hf w Hw. unfold map_err. specialize (Hf w Hw). by destruct (f w) as [[] ?]. Qed.
Lemma takes_spawn X mp : takes X ({[mp]} ∪ X) X (spawn_mount mp).
Proof. intros w <-. unfold spawn_mount, external. by destruct (fates w) as [|[]]. Qed.
Lemma takes_fail {A} X Y e : takes X Y X (fail (A := A) e).
Proof. by intros w. Qed.

Lemma focus_keeps_mounts {T A} (get : Machine → T) set (m : IO T A) :
  (∀ t s, mounts (set t s) = mounts s) → Preserves mounts (focus get set m).
Proof. intros Hset w. unfold focus. destruct (m _) as [r x]. apply Hset. Qed.
Lemma ctrl_c_keeps_mounts : Preserves mounts ctrl_c.
Proof. by apply external_preserves. Qed.

Lemma takes_mount X session pid root args :
  mount_point args ∉ X → takes X X X (handle_mount session pid root args).
Proof.
  intros Hmp. set (mp := mount_point args) in *. unfold handle_mount. fold mp.
  eapply takes_bind; [by apply takes_map_err, takes_preserved, focus_keeps_mounts|]. intros _.
  eapply takes_bind; [apply takes_map_err, takes_spawn|]. intros _.
  assert (Hback : ({[mp]} ∪ X) ∖ {[mp]} = X) by set_solver.
  assert (Hserve : ∀ Z, takes ({[mp]} ∪ X) ({[mp]} ∪ X) Z (ignore (serve_session (session root (compressed args)))))
    by (intros Z; by apply takes_ignore, focus_keeps_mounts).
  assert (Hend : ∀ Z, takes ({[mp]} ∪ X) X Z (unmounted mp)) by (intros Z; rewrite <- Hback at 2; apply takes_unmounted).
  destruct (foreground args); (eapply takes_bind; [apply takes_print|intros _]); (eapply takes_bind; [apply Hserve|intros _]).
  - eapply takes_bind; [apply takes_attempt, ctrl_c_keeps_mounts|]. intros [e|_].
    + eapply takes_bind; [apply Hend|]. intros _. apply takes_fail.
    + eapply takes_bind; [apply takes_print|]. intros _. apply Hend.
  - eapply takes_bind; [apply Hend|]. intros _. apply takes_print.
Qed.

(** Mounting leaves nothing mounted: however the command ends, by a signal, by an
    unmount from outside or by an error, the mount point is free again once the
    process has exited. *)
Theorem mount_released session pid dir args w code w' :
  linafs_main session pid (inr (Some (Mount args))) dir w = (Ok code, w') →
  mount_point args ∉ mounts (state w) → mounts (state w') = mounts (state w).
Proof.
  intros E Hmp. set (X := mounts (state w)) in *.
  assert (H : takes X X X (linafs_main session pid (inr (Some (Mount args))) dir)).
  { unfold linafs_main. eapply takes_bind; [by apply takes_attempt, external_preserves|]. intros [e|d].
    - eapply takes_bind; [apply takes_print|]. by intros _ v.
    - destruct (from_utf8 d); [|by eapply takes_bind; [apply takes_print|]; intros _ v].
      eapply takes_bind with (Y := X).
      + intros v Hv. unfold attempt. pose proof (takes_mount X session pid s args Hmp v Hv) as Ht.
        by destruct (handle_mount session pid s args v) as [[] ?].
      + intros [e|[]]; [|by intros v]. eapply takes_bind; [apply takes_print|]. by intros _ v. }
  specialize (H w eq_refl). by rewrite E in H.
Qed.
End Mount.

(** ** A fresh mount

    The process that served a mount is gone, with its buffers; the file system is
    mounted again.  [LinaFs::new] opens the store as any start does. *)
Section Remount.
Context `{P : Platform} `{PL : !PlatformLaws P} `{C : Codec} `{CL : !CodecLaws C}.
Implicit Types (w : Env LinaFs) (s : Store) (L : gmap string File).

(** *** The directories a start adds *)

Section Folders.
Variable root : path.
Context (D : string → Prop).
(** All directories are in [D], and so are those the names of the links go through. *)
Definition within_folders s : Prop :=
  (∀ p, is_Some (dir_table s !! p) → D p) ∧
  ∀ i r, link (db s) !! i = Some r → Forall D (folders (lr_name r)).
Abbreviation stays := (Keeps within_folders).

Lemma same_db_stays {A} err partial (g : Store → (Error + A) * Store) :
  (∀ n s, db (partial n s) = db s) → (∀ s, db (g s).2 = db s) → stays (external err partial g).
Proof.
  intros Hp Hg. apply external_keeps.
  - intros n s [H1 H2]. by split; unfold dir_table; rewrite Hp.
  - intros s [H1 H2]. by split; unfold dir_table; rewrite Hg.
Qed.
Lemma query_stays {A} ctx (f : Db → A) : stays (query ctx f).
Proof. by apply same_db_stays. Qed.
Lemma leaf_stays ids mid e : stays (reconcile_leaf ids mid e).
Proof.
  assert (Hrm : ∀ p, stays (ignore (fs_remove_file p))).
  { intros p. apply ignore_keeps, same_db_stays; [done|]. intros s. by case_match. }
  assert (Hmv : ∀ p q, stays (ignore (fs_rename p q))).
  { intros p q. apply ignore_keeps, same_db_stays; [done|]. intros s. by case_match. }
  apply bind_keeps; [apply entry_keeps|intros e'].
  apply bind_keeps; [apply attempt_keeps, is_dir_keeps|intros [|[]]; [apply ret_keeps..|]].
  cbn zeta. case_match; [apply ret_keeps|]. case_match; [apply Hrm|].
  case_match; case_bool_decide; by (apply ret_keeps || apply Hrm || apply Hmv).
Qed.
Lemma ancestors_stay parts : ∀ acc prev, Forall D (ancestors parts acc) → stays (insert_ancestors parts acc prev).
Proof.
  induction parts as [|part parts IH]; intros acc prev HD; cbn [insert_ancestors]; [apply ret_keeps|].
  cbn [ancestors] in HD. apply Forall_cons in HD as [Hacc HD]. cbn zeta.
  apply bind_keeps; [|intros _; by apply IH]. apply ignore_keeps, external_keeps; [done|].
  intros s [H1 H2]. case_bool_decide; [done|]. split; [|done]. unfold dir_table. simpl.
  intros p [<-|[_ Hp]]%lookup_insert_is_Some; [done|by apply H1].
Qed.
Lemma sync_stays : stays sync_dirs_from_links.
Proof.
  apply bind_keeps_val with (R := Forall (λ l, Forall D (folders (l_name l)))).
  - apply map_err_keeps, query_stays.
  - intros w ls w' [_ HD] [E _]%with_dao_ok%query_ok. rewrite E. apply Forall_forall.
    intros l (i & r & Hr & _ & ->)%elem_select_links. by eapply HD.
  - intros ls Hls. induction Hls as [|l ls Hl _ IH]; cbn [for_each]; [apply ret_keeps|].
    apply bind_keeps; [|by intros _]. unfold folders in Hl. case_match; [by apply ancestors_stay|apply ret_keeps].
Qed.
Lemma start_stays : stays (StoreManager_new root).
Proof.
  assert (He : ∀ ctx, stays (execute ctx Some)) by (intros; by apply external_keeps).
  apply bind_keeps; [by apply same_db_stays|intros _].
  apply bind_keeps; [apply map_err_keeps|intros _].
  { apply bind_keeps; [apply query_stays|intros _]. apply bind_keeps; [apply query_stays|intros _].
    apply bind_keeps; [apply He|intros _]. by apply bind_keeps; [apply ignore_keeps|intros _; apply ignore_keeps]. }
  apply bind_keeps; [|intros [|_]; [apply fail_keeps|]].
  { apply attempt_keeps. apply (reconcile_keeps root within_folders (λ _, True)); [done|].
    intros ids mid e _. apply leaf_stays. }
  apply bind_keeps; [apply attempt_keeps, sync_stays|intros [|_]; [apply fail_keeps|apply ret_keeps]].
Qed.
Lemma restarts_stay fss : ∀ u, within_folders (state u) → within_folders (state (restarts root fss u)).
Proof.
  induction fss as [|fs fss IH]; intros u HJ; [done|]. cbn [restarts]. apply IH.
  by apply (start_stays (mkEnv (state u) fs (clock u) (draws u))).
Qed.
End Folders.

(** *** What it shows *)

Variable bm : BlockManager.
Variable cmp : bool.
Variable hash_name : string → N.
Variable hash_dir : string → N.
Variable V : bytes → Prop.
Variable dir : string.
Abbreviation root := (host_path dir).

(** The machine when the process of [w] is gone, after the starts [fss] of the
    store. *)
Definition rebooted (fss : list (list Fate)) w : Env Machine :=
  let u := restarts root fss (store_run w) in mkEnv (mkMachine (state u) ∅ []) (fates u) (clock u) (draws u).
(** What is not saved is lost. *)
Definition reopened (f : File) : File := mkFile (saved f) None.

Lemma remounts w L fss : Serves root hash_name hash_dir V w L →
  ∃ u, LinaFs_new dir (rebooted fss w) = (Ok tt, u) ∧
    Serves root hash_name hash_dir V (mkEnv (mkLinaFs (disk (state u)) ∅) (fates u) (clock u) (draws u)) (reopened <$> L).
Proof.
  intros [[Hc HR Hroom Hn] _]. destruct (rests_restarts root V 0 _ _ fss HR) as (u & E & Hcu & HRu).
  set (D := dir_of (dir_table (store (state w))) (saved <$> L)).
  assert (HD : within_folders D (state u)).
  { pose proof (start_stays root D (restarts root fss (store_run w))) as Hs. rewrite E in Hs. apply Hs, restarts_stay.
    destruct HR as (t & HL & [HI _] & Hm). split; [by left|]. intros i r Hr. apply Forall_forall. intros p Hp.
    right. exists (lr_name r). split; [|done].
    assert (Hi : t_links t !! i = Some (lr_name r, lr_source_id r)).
    { rewrite <- (rel_links _ _ _ (live_rel _ _ _ HL)), lookup_fmap. simpl in Hr |- *. by rewrite Hr. }
    destruct (inv_links _ _ _ HI _ _ _ Hi) as [c Hc']. destruct (inv_content _ _ _ HI _ _ Hc') as (d & Hd & _).
    exists d. apply Hm. eauto. }
  eexists (mkEnv (mkMachine (state u) ∅ []) (fates u) (clock u) (draws u)). split.
  - unfold LinaFs_new, focus, rebooted. cbn [state fates clock draws disk]. 
    replace (mkEnv _ _ _ _) with (restarts root fss (store_run w)) by by destruct (restarts _ _ _).
    rewrite E. done.
  - assert (HL : saved <$> (reopened <$> L) = saved <$> L) by (rewrite <- map_fmap_compose; by apply map_fmap_ext).
    split; [rewrite HL; split; simpl; [done|by destruct u|done|]|].
    + destruct Hn as [H1 H2 H3]. split; [done..|]. intros p n [Hp|Hp]; apply H3; [by apply HD|by right].
    + simpl. intros n f. rewrite lookup_empty, lookup_fmap. by intros (f0 & _ & ->)%fmap_Some.
Qed.

(** C15 (safety): what has been saved is durable, and nothing else.  After any
    sequence of requests on the files of a mounted file system, when the process
    goes and its buffers with it, and after any number of starts of the store that die or
    fail, a mount succeeds ([LinaFs::new], with the reconciliation of the
    store and of its directories), and any further requests get the answers of the
    reference in which every file is what was saved of it: by a flush, a sync or a
    plain release all that was written before, and by a truncation its result. *)
Theorem flush_is_durable ops ops2 w L rs L' rs2 L2 fss :
  (0 < chunk_size bm < 2 ^ 16)%N → hash_injective V →
  Serves root hash_name hash_dir V w L → file_ops V ops L rs L' → file_ops V ops2 (reopened <$> L') rs2 L2 →
  ∃ w' u v, fs_ops root bm cmp hash_name hash_dir ops w = (Ok rs, w') ∧
    LinaFs_new dir (rebooted fss w') = (Ok tt, u) ∧
    serve_session (fs_ops root bm cmp hash_name hash_dir ops2) u = (Ok rs2, v).
Proof.
  intros Hbm Hinj HS H1 H2.
  destruct (fs_ops_ok root bm cmp hash_name hash_dir V Hbm Hinj ops w L rs L' HS H1) as (w' & E & HS').
  destruct (remounts w' L' fss HS') as (u & Eu & HSu).
  destruct (fs_ops_ok root bm cmp hash_name hash_dir V Hbm Hinj ops2 _ _ rs2 L2 HSu H2) as (v & Ev & _).
  eexists w', u, _. split; [done|]. split; [done|]. unfold serve_session, focus. rewrite Ev. reflexivity.
Qed.
End Remount.

(** "hello hello" becomes "hello world" and is flushed, then "Jello world" and is not;
    a mount dies, another fails, and the third reads what was flushed. *)
Definition demo_read : FileOp := Read 0 64.
Lemma flush_is_durable_witness : ∃ w' u v,
  fs_ops demo_root demo_bm true (demo_hash 100) (demo_hash 101)
    ((λ op, ("greeting.txt"%string, op)) <$> [Write 6 (str_bytes "world"); Flush; Write 0 (str_bytes "J"); demo_read]) (demo_fs ∅) =
    (Ok [inr (Count 5); inr Done; inr (Count 1); inr (Bytes (str_bytes "Jello world"))], w') ∧
  LinaFs_new "srv" (rebooted "srv" [[Pass; Pass; Die 0]; [Pass; FailWith Other 0]] w') = (Ok tt, u) ∧
  serve_session (fs_ops demo_root demo_bm true (demo_hash 100) (demo_hash 101) [("greeting.txt"%string, demo_read)]) u =
    (Ok [inr (Bytes (str_bytes "hello world"))], v).
Proof.
  apply (flush_is_durable demo_bm true (demo_hash 100) (demo_hash 101) any_bytes "srv" _ _ (demo_fs ∅) (demo_files None) _
    {["greeting.txt"%string := mkFile (str_bytes "hello world") (Some (str_bytes "Jello world"))]} _
    {["greeting.txt"%string := mkFile (str_bytes "hello world") None]}).
  - apply demo_chunk_ok.
  - apply demo_hash_all.
  - apply (demo_files_serves None).
  - rewrite !fmap_cons, fmap_nil.
    do 4 (eapply file_ops_cons; [vm_compute; reflexivity|exact I|vm_compute; reflexivity|]).
    vm_compute. reflexivity.
  - eapply file_ops_cons; [vm_compute; reflexivity|exact I|vm_compute; reflexivity|]. vm_compute. reflexivity.
Defined.
